(** * Spec2Rocq: the smart disassembler of the ZX81 debugger

    A shallow embedding of the instruction decoder (core/opcode.ts), of the
    attribute memory (core/memory.ts), of the diagnostics sink (comments.ts)
    and of the flow-graph builder (smartdisassembler.ts), followed by the
    properties that the specification states about them.

    JavaScript numbers are embedded as [Z] (all values met here are integers
    far below 2^53), bit masks keep their numeric encoding and are combined
    with [Z.land]/[Z.lor], objects of class [AsmNode] live in an explicit
    object store so that aliasing between the node table, the edge lists and
    the block array is visible. *)

From Stdlib Require Import ZArith Lia Bool Ascii String FunctionalExtensionality.
From Stdlib.Strings Require Import Byte.
From stdpp Require Import base option list gmap strings pretty sorting.

Local Open Scope string_scope.
Local Open Scope list_scope.
Local Open Scope Z_scope.

(** ** String primitives of the host language *)

Module JS.

(** [s.indexOf(pat)]; [None] stands for -1. *)
Definition indexOf (s pat : string) : option nat := String.index 0 pat s.

(** [s.substring(a, b)] for [a <= b] (the only use in the sources). *)
Definition substring (s : string) (a b : nat) : string :=
  String.substring a (b - a) s.

(** [s.substring(a)]. *)
Definition substringFrom (s : string) (a : nat) : string :=
  String.substring a (String.length s - a) s.

Definition startsWith (s pat : string) : bool := String.prefix pat s.

Definition includes (s pat : string) : bool :=
  match indexOf s pat with Some _ => true | None => false end.

Definition isWhite (c : ascii) : bool :=
  (Ascii.eqb c " " || Ascii.eqb c "009" || Ascii.eqb c "010" || Ascii.eqb c "013")%bool.

Fixpoint trimStart (s : string) : string :=
  match s with
  | String c s' => if isWhite c then trimStart s' else s
  | EmptyString => EmptyString
  end.

Fixpoint trimEnd (s : string) : string :=
  match s with
  | String c s' =>
      match trimEnd s' with
      | EmptyString => if isWhite c then EmptyString else String c EmptyString
      | t => String c t
      end
  | EmptyString => EmptyString
  end.

Definition trim (s : string) : string := trimEnd (trimStart s).

(** [s.replace(pat, by)] with a string pattern: first occurrence only. *)
Definition replace (s pat by_ : string) : string :=
  match indexOf s pat with
  | Some k => substring s 0 k +:+ by_ +:+ substringFrom s (k + String.length pat)
  | None => s
  end.

(** [s.replace(/pat/g, by)] for a non-empty literal pattern. *)
Fixpoint replaceAll_go (fuel : nat) (s pat by_ : string) : string :=
  match fuel with
  | O => s
  | S fuel' =>
      match indexOf s pat with
      | Some k =>
          substring s 0 k +:+ by_
            +:+ replaceAll_go fuel' (substringFrom s (k + String.length pat)) pat by_
      | None => s
      end
  end.

Definition replaceAll (s pat by_ : string) : string :=
  replaceAll_go (String.length s) s pat by_.

(** Truthiness of an optional string: [undefined] and [""] are falsy. *)
Definition truthy (o : option string) : bool :=
  match o with
  | Some s => negb (String.eqb s "")
  | None => false
  end.

End JS.

(** ** Hexadecimal formatting *)

Definition hexDigit (d : Z) : ascii :=
  if d <? 10 then ascii_of_nat (Z.to_nat (48 + d))
  else ascii_of_nat (Z.to_nat (55 + d)).

Fixpoint hexDigits (size : nat) (value : Z) : string :=
  match size with
  | O => EmptyString
  | S size' => hexDigits size' (value / 16) +:+ String (hexDigit (value mod 16)) EmptyString
  end.

(** Modelled from the spec: [Utility.getHexString] and [Format.getHexString]
    (misc/utility.ts and core/format.ts are not among the sources).  The
    spec names the generated labels ["RST_" + 2-hex], ["SUB_" + 4-hex] and
    gives ["SUB_04AD"], ["LBL_FF00"] as instances: upper-case digits,
    zero-padded to the requested number of digits. *)
Definition getHexString (value : Z) (size : nat) : string := hexDigits size value.

(** Modelled from the spec: [Format.getHexFormattedString] (core/format.ts is
    not among the sources); the source documents its result as ["$8AF2"]. *)
Definition getHexFormattedString (value : Z) (size : nat) : string :=
  "$" +:+ getHexString value size.

(** ** numbertype.ts *)

Module NumberType.
Inductive t :=
| NONE | DATA_LBL | PORT_LBL | CODE_LOCAL_LBL | CODE_LOCAL_LOOP | CODE_LBL
| CODE_SUB | CODE_RST | RELATIVE_INDEX | NUMBER_BYTE | NUMBER_WORD
| NUMBER_WORD_BIG_ENDIAN.

Definition eq_dec (a b : t) : {a = b} + {a <> b}.
Proof. decide equality. Defined.

Definition eqb (a b : t) : bool := if eq_dec a b then true else false.
End NumberType.

(** ** opcode.ts *)

Module OpcodeFlag.
Definition NONE := 0.
Definition BRANCH_ADDRESS := 0x01.
Definition CALL := 0x02.
Definition STOP := 0x04.
Definition RET := 0x08.
Definition CONDITIONAL := 0x10.
End OpcodeFlag.

(** [flags & bit] used as a condition. *)
Definition hasFlag (flags bit : Z) : bool := negb (Z.land flags bit =? 0).

(** The seven static opcode arrays; an extended opcode refers to its
    sub-array by name. *)
Inductive TableId :=
| T_Opcodes | T_OpcodesED | T_OpcodesCB | T_OpcodesFD | T_OpcodesDD
| T_OpcodesDDCB | T_OpcodesFDCB.

(** The class of an opcode object decides which [getOpcodeAt] runs. *)
Inductive OpcodeClass :=
| C_Opcode
| C_OpcodeIndex
| C_OpcodePrevIndex
| C_OpcodeIndexImmediate
| C_OpcodeExtended (opcodes : TableId)
| C_OpcodeExtended2 (opcodes : TableId)
| C_OpcodeNOP
| C_OpcodeInvalid.

Record Opcode := mkOpcode {
  cls : OpcodeClass;
  code : Z;
  name : string;
  flags : Z;
  valueType : NumberType.t;
  op_length : Z;
  value : Z;
  secondValue : option Z
}.

Definition with_cls (c : OpcodeClass) (o : Opcode) : Opcode :=
  mkOpcode c (code o) (name o) (flags o) (valueType o) (op_length o) (value o) (secondValue o).
Definition with_name (n : string) (o : Opcode) : Opcode :=
  mkOpcode (cls o) (code o) n (flags o) (valueType o) (op_length o) (value o) (secondValue o).
Definition with_flags (f : Z) (o : Opcode) : Opcode :=
  mkOpcode (cls o) (code o) (name o) f (valueType o) (op_length o) (value o) (secondValue o).
Definition with_valueType (v : NumberType.t) (o : Opcode) : Opcode :=
  mkOpcode (cls o) (code o) (name o) (flags o) v (op_length o) (value o) (secondValue o).
Definition with_length (l : Z) (o : Opcode) : Opcode :=
  mkOpcode (cls o) (code o) (name o) (flags o) (valueType o) l (value o) (secondValue o).
Definition with_value (v : Z) (o : Opcode) : Opcode :=
  mkOpcode (cls o) (code o) (name o) (flags o) (valueType o) (op_length o) v (secondValue o).
Definition with_secondValue (v : Z) (o : Opcode) : Opcode :=
  mkOpcode (cls o) (code o) (name o) (flags o) (valueType o) (op_length o) (value o) (Some v).

Definition or_flags (f : Z) (o : Opcode) : Opcode := with_flags (Z.lor (flags o) f) o.
Definition add_length (d : Z) (o : Opcode) : Opcode := with_length (op_length o + d) o.

(** [Opcode.constructor]: flags, operand kind and length are read off the
    mnemonic.  The constructor is only ever called with a code. *)
Definition Opcode_new (code : Z) (name : string) : Opcode :=
  let name := JS.trim name in
  let this :=
    mkOpcode C_Opcode code name OpcodeFlag.NONE NumberType.NONE 1 0 None in
  let condOrStop (name sep : string) :=
    if JS.includes name sep then OpcodeFlag.CONDITIONAL else OpcodeFlag.STOP in
  let noOperand (this : Opcode) :=
    if JS.startsWith name "RET" then
      let this := or_flags OpcodeFlag.RET this in
      or_flags (condOrStop name " ") this
    else if JS.startsWith name "RST" then
      let this := with_valueType NumberType.CODE_RST this in
      let this := or_flags (Z.lor OpcodeFlag.BRANCH_ADDRESS OpcodeFlag.CALL) this in
      let jumpAddress := Z.land code 0x38 (* 0b00111000 *) in
      with_value jumpAddress this
    else if JS.startsWith name "JP" then
      or_flags OpcodeFlag.STOP this
    else this in
  match JS.indexOf name "#n" with
  | Some (S k') =>
      let k := S k' in
      if String.eqb (JS.substring name (k + 2) (k + 3)) "n" then
        (* Word *)
        let this := with_length 3 this in
        let name := JS.substring name 0 k +:+ "%s" +:+ JS.substringFrom name (k + 3) in
        let indirect := JS.substring name (k - 1) k in
        let this :=
          if String.eqb indirect "(" then
            with_valueType NumberType.DATA_LBL this
          else if JS.startsWith name "CALL" then
            let this := or_flags (Z.lor OpcodeFlag.CALL OpcodeFlag.BRANCH_ADDRESS) this in
            let this := with_valueType NumberType.CODE_SUB this in
            if JS.includes name "," then or_flags OpcodeFlag.CONDITIONAL this else this
          else if JS.startsWith name "JP" then
            let this := or_flags OpcodeFlag.BRANCH_ADDRESS this in
            let this := with_valueType NumberType.CODE_LBL this in
            or_flags (condOrStop name ",") this
          else if JS.startsWith name "LD SP," then
            with_valueType NumberType.DATA_LBL this
          else
            with_valueType NumberType.NUMBER_WORD this in
        with_name name this
      else
        (* Byte *)
        let this := with_length 2 this in
        let name := JS.substring name 0 k +:+ "%s" +:+ JS.substringFrom name (k + 2) in
        let this := with_valueType NumberType.NUMBER_BYTE this in
        let this :=
          if JS.startsWith name "DJNZ" then
            let this := with_valueType NumberType.CODE_LOCAL_LBL this in
            or_flags (Z.lor OpcodeFlag.BRANCH_ADDRESS OpcodeFlag.CONDITIONAL) this
          else this in
        let this :=
          if JS.startsWith name "JR" then
            let this := with_valueType NumberType.CODE_LOCAL_LBL this in
            let this := or_flags OpcodeFlag.BRANCH_ADDRESS this in
            or_flags (condOrStop name ",") this
          else if (JS.startsWith name "IN" || JS.startsWith name "OUT")%bool then
            with_valueType NumberType.PORT_LBL this
          else this in
        with_name name this
  | _ => noOperand this
  end.

(** Opcode with a number index, e.g. [DD 74 03] = [ld (ix+3),h]. *)
Definition OpcodeIndex_new (code : Z) (name : string) : Opcode :=
  let this := Opcode_new code name in
  let this := with_valueType NumberType.RELATIVE_INDEX this in
  with_cls C_OpcodeIndex (add_length 1 this).

(** Opcode whose index byte comes before the opcode byte (DDCB). *)
Definition OpcodePrevIndex_new (code : Z) (name : string) : Opcode :=
  let this := OpcodeIndex_new code name in
  with_cls C_OpcodePrevIndex (add_length 1 this).

(** Opcode with an index and an immediate value, e.g. [ld (ix+3),8]. *)
Definition OpcodeIndexImmediate_new (code : Z) (name : string) : Opcode :=
  let this := Opcode_new code name in
  let this := with_length 3 this in
  with_cls C_OpcodeIndexImmediate (with_valueType NumberType.RELATIVE_INDEX this).

Definition OpcodeExtended_new (code : Z) (opcodes : TableId) : Opcode :=
  let this := Opcode_new code "" in
  with_cls (C_OpcodeExtended opcodes) (add_length 1 this).

Definition OpcodeExtended2_new (code : Z) (opcodes : TableId) : Opcode :=
  let this := OpcodeExtended_new code opcodes in
  with_cls (C_OpcodeExtended2 opcodes) (add_length 1 this).

Definition tab : string := String "009" EmptyString.

Definition OpcodeNOP_new (code : Z) : Opcode :=
  let this := Opcode_new code "" in
  let this :=
    with_name ("[NOP]" +:+ tab +:+ "; because of following 0x" +:+ getHexString code 2) this in
  with_cls C_OpcodeNOP (add_length (-1) this).

Definition OpcodeInvalid_new (code : Z) : Opcode :=
  let this := Opcode_new code "" in
  with_cls C_OpcodeInvalid
    (with_name ("INVALID INSTRUCTION" +:+ tab +:+ "; mostly equivalent to NOP.") this).

(** [Array<number>(n).fill(0).map((_value, index) => ...)] ranges over the
    indices [0 .. n-1]. *)
Definition indices (n : Z) : list Z := seqZ 0 n.

Definition OpcodesED_literal : list Opcode :=
  map (fun index => OpcodeInvalid_new index) (indices 0x40)
  ++
  [ Opcode_new 0x40 "IN B,(C)";
    Opcode_new 0x41 "OUT (C),B";
    Opcode_new 0x42 "SBC HL,BC";
    Opcode_new 0x43 "LD (#nn),BC";
    Opcode_new 0x44 "NEG";
    Opcode_new 0x45 "RETN";
    Opcode_new 0x46 "IM 0";
    Opcode_new 0x47 "LD I,A";
    Opcode_new 0x48 "IN C,(C)";
    Opcode_new 0x49 "OUT (C),C";
    Opcode_new 0x4A "ADC HL,BC";
    Opcode_new 0x4B "LD BC,(#nn)";
    Opcode_new 0x4C "[neg]";
    Opcode_new 0x4D "RETI";
    Opcode_new 0x4E "[im0]";
    Opcode_new 0x4F "LD R,A";
    Opcode_new 0x50 "IN D,(C)";
    Opcode_new 0x51 "OUT (C),D";
    Opcode_new 0x52 "SBC HL,DE";
    Opcode_new 0x53 "LD (#nn),DE";
    Opcode_new 0x54 "[neg]";
    Opcode_new 0x55 "[retn]";
    Opcode_new 0x56 "IM 1";
    Opcode_new 0x57 "LD A,I";
    Opcode_new 0x58 "IN E,(C)";
    Opcode_new 0x59 "OUT (C),E";
    Opcode_new 0x5A "ADC HL,DE";
    Opcode_new 0x5B "LD DE,(#nn)";
    Opcode_new 0x5C "[neg]";
    Opcode_new 0x5D "[reti]";
    Opcode_new 0x5E "IM 2";
    Opcode_new 0x5F "LD A,R";
    Opcode_new 0x60 "IN H,(C)";
    Opcode_new 0x61 "OUT (C),H";
    Opcode_new 0x62 "SBC HL,HL";
    Opcode_new 0x63 "LD (#nn),HL";
    Opcode_new 0x64 "[neg]";
    Opcode_new 0x65 "[retn]";
    Opcode_new 0x66 "[im0]";
    Opcode_new 0x67 "RRD";
    Opcode_new 0x68 "IN L,(C)";
    Opcode_new 0x69 "OUT (C),L";
    Opcode_new 0x6A "ADC HL,HL";
    Opcode_new 0x6B "LD HL,(#nn)";
    Opcode_new 0x6C "[neg]";
    Opcode_new 0x6D "[reti]";
    Opcode_new 0x6E "[im0]";
    Opcode_new 0x6F "RLD";
    Opcode_new 0x70 "IN F,(C)";
    Opcode_new 0x71 "OUT (C),0";
    Opcode_new 0x72 "SBC HL,SP";
    Opcode_new 0x73 "LD (#nn),SP";
    Opcode_new 0x74 "[neg]";
    Opcode_new 0x75 "[retn]";
    Opcode_new 0x76 "[im1]";
    Opcode_new 0x77 "[ld i,i?]";
    Opcode_new 0x78 "IN A,(C)";
    Opcode_new 0x79 "OUT (C),A";
    Opcode_new 0x7A "ADC HL,SP";
    Opcode_new 0x7B "LD SP,(#nn)";
    Opcode_new 0x7C "[neg]";
    Opcode_new 0x7D "[reti]";
    Opcode_new 0x7E "[im2]";
    Opcode_new 0x7F "[ld r,r?]" ]
  ++
  map (fun index => OpcodeInvalid_new (0x80 + index)) (indices 0x20)
  ++
  [ Opcode_new 0xA0 "LDI";
    Opcode_new 0xA1 "CPI";
    Opcode_new 0xA2 "INI";
    Opcode_new 0xA3 "OUTI" ]
  ++
  map (fun index => OpcodeInvalid_new (0xA4 + index)) (indices 0x04)
  ++
  [ Opcode_new 0xA8 "LDD";
    Opcode_new 0xA9 "CPD";
    Opcode_new 0xAA "IND";
    Opcode_new 0xAB "OUTD" ]
  ++
  map (fun index => OpcodeInvalid_new (0xAC + index)) (indices 0x04)
  ++
  [ Opcode_new 0xB0 "LDIR";
    Opcode_new 0xB1 "CPIR";
    Opcode_new 0xB2 "INIR";
    Opcode_new 0xB3 "OUTIR" ]
  ++
  map (fun index => OpcodeInvalid_new (0xB4 + index)) (indices 0x04)
  ++
  [ Opcode_new 0xB8 "LDDR";
    Opcode_new 0xB9 "CPDR";
    Opcode_new 0xBA "INDR";
    Opcode_new 0xBB "OUTDR" ]
  ++
  map (fun index => OpcodeInvalid_new (0xBC + index)) (indices 0x04)
  ++
  map (fun index => OpcodeInvalid_new (0xC0 + index)) (indices 0x40).

Definition OpcodesCB_literal : list Opcode :=
  [ Opcode_new 0x00 "RLC B";
    Opcode_new 0x01 "RLC C";
    Opcode_new 0x02 "RLC D";
    Opcode_new 0x03 "RLC E";
    Opcode_new 0x04 "RLC H";
    Opcode_new 0x05 "RLC L";
    Opcode_new 0x06 "RLC (HL)";
    Opcode_new 0x07 "RLC A";
    Opcode_new 0x08 "RRC B";
    Opcode_new 0x09 "RRC C";
    Opcode_new 0x0A "RRC D";
    Opcode_new 0x0B "RRC E";
    Opcode_new 0x0C "RRC H";
    Opcode_new 0x0D "RRC L";
    Opcode_new 0x0E "RRC (HL)";
    Opcode_new 0x0F "RRC A";
    Opcode_new 0x10 "RL B";
    Opcode_new 0x11 "RL C";
    Opcode_new 0x12 "RL D";
    Opcode_new 0x13 "RL E";
    Opcode_new 0x14 "RL H";
    Opcode_new 0x15 "RL L";
    Opcode_new 0x16 "RL (HL)";
    Opcode_new 0x17 "RL A";
    Opcode_new 0x18 "RR B";
    Opcode_new 0x19 "RR C";
    Opcode_new 0x1A "RR D";
    Opcode_new 0x1B "RR E";
    Opcode_new 0x1C "RR H";
    Opcode_new 0x1D "RR L";
    Opcode_new 0x1E "RR (HL)";
    Opcode_new 0x1F "RR A";
    Opcode_new 0x20 "SLA B";
    Opcode_new 0x21 "SLA C";
    Opcode_new 0x22 "SLA D";
    Opcode_new 0x23 "SLA E";
    Opcode_new 0x24 "SLA H";
    Opcode_new 0x25 "SLA L";
    Opcode_new 0x26 "SLA (HL)";
    Opcode_new 0x27 "SLA A";
    Opcode_new 0x28 "SRA B";
    Opcode_new 0x29 "SRA C";
    Opcode_new 0x2A "SRA D";
    Opcode_new 0x2B "SRA E";
    Opcode_new 0x2C "SRA H";
    Opcode_new 0x2D "SRA L";
    Opcode_new 0x2E "SRA (HL)";
    Opcode_new 0x2F "SRA A";
    Opcode_new 0x30 "SLL B";
    Opcode_new 0x31 "SLL C";
    Opcode_new 0x32 "SLL D";
    Opcode_new 0x33 "SLL E";
    Opcode_new 0x34 "SLL H";
    Opcode_new 0x35 "SLL L";
    Opcode_new 0x36 "SLL (HL)";
    Opcode_new 0x37 "SLL A";
    Opcode_new 0x38 "SRL B";
    Opcode_new 0x39 "SRL C";
    Opcode_new 0x3A "SRL D";
    Opcode_new 0x3B "SRL E";
    Opcode_new 0x3C "SRL H";
    Opcode_new 0x3D "SRL L";
    Opcode_new 0x3E "SRL (HL)";
    Opcode_new 0x3F "SRL A";
    Opcode_new 0x40 "BIT 0,B";
    Opcode_new 0x41 "BIT 0,C";
    Opcode_new 0x42 "BIT 0,D";
    Opcode_new 0x43 "BIT 0,E";
    Opcode_new 0x44 "BIT 0,H";
    Opcode_new 0x45 "BIT 0,L";
    Opcode_new 0x46 "BIT 0,(HL)";
    Opcode_new 0x47 "BIT 0,A";
    Opcode_new 0x48 "BIT 1,B";
    Opcode_new 0x49 "BIT 1,C";
    Opcode_new 0x4A "BIT 1,D";
    Opcode_new 0x4B "BIT 1,E";
    Opcode_new 0x4C "BIT 1,H";
    Opcode_new 0x4D "BIT 1,L";
    Opcode_new 0x4E "BIT 1,(HL)";
    Opcode_new 0x4F "BIT 1,A";
    Opcode_new 0x50 "BIT 2,B";
    Opcode_new 0x51 "BIT 2,C";
    Opcode_new 0x52 "BIT 2,D";
    Opcode_new 0x53 "BIT 2,E";
    Opcode_new 0x54 "BIT 2,H";
    Opcode_new 0x55 "BIT 2,L";
    Opcode_new 0x56 "BIT 2,(HL)";
    Opcode_new 0x57 "BIT 2,A";
    Opcode_new 0x58 "BIT 3,B";
    Opcode_new 0x59 "BIT 3,C";
    Opcode_new 0x5A "BIT 3,D";
    Opcode_new 0x5B "BIT 3,E";
    Opcode_new 0x5C "BIT 3,H";
    Opcode_new 0x5D "BIT 3,L";
    Opcode_new 0x5E "BIT 3,(HL)";
    Opcode_new 0x5F "BIT 3,A";
    Opcode_new 0x60 "BIT 4,B";
    Opcode_new 0x61 "BIT 4,C";
    Opcode_new 0x62 "BIT 4,D";
    Opcode_new 0x63 "BIT 4,E";
    Opcode_new 0x64 "BIT 4,H";
    Opcode_new 0x65 "BIT 4,L";
    Opcode_new 0x66 "BIT 4,(HL)";
    Opcode_new 0x67 "BIT 4,A";
    Opcode_new 0x68 "BIT 5,B";
    Opcode_new 0x69 "BIT 5,C";
    Opcode_new 0x6A "BIT 5,D";
    Opcode_new 0x6B "BIT 5,E";
    Opcode_new 0x6C "BIT 5,H";
    Opcode_new 0x6D "BIT 5,L";
    Opcode_new 0x6E "BIT 5,(HL)";
    Opcode_new 0x6F "BIT 5,A";
    Opcode_new 0x70 "BIT 6,B";
    Opcode_new 0x71 "BIT 6,C";
    Opcode_new 0x72 "BIT 6,D";
    Opcode_new 0x73 "BIT 6,E";
    Opcode_new 0x74 "BIT 6,H";
    Opcode_new 0x75 "BIT 6,L";
    Opcode_new 0x76 "BIT 6,(HL)";
    Opcode_new 0x77 "BIT 6,A";
    Opcode_new 0x78 "BIT 7,B";
    Opcode_new 0x79 "BIT 7,C";
    Opcode_new 0x7A "BIT 7,D";
    Opcode_new 0x7B "BIT 7,E";
    Opcode_new 0x7C "BIT 7,H";
    Opcode_new 0x7D "BIT 7,L";
    Opcode_new 0x7E "BIT 7,(HL)";
    Opcode_new 0x7F "BIT 7,A";
    Opcode_new 0x80 "RES 0,B";
    Opcode_new 0x81 "RES 0,C";
    Opcode_new 0x82 "RES 0,D";
    Opcode_new 0x83 "RES 0,E";
    Opcode_new 0x84 "RES 0,H";
    Opcode_new 0x85 "RES 0,L";
    Opcode_new 0x86 "RES 0,(HL)";
    Opcode_new 0x87 "RES 0,A";
    Opcode_new 0x88 "RES 1,B";
    Opcode_new 0x89 "RES 1,C";
    Opcode_new 0x8A "RES 1,D";
    Opcode_new 0x8B "RES 1,E";
    Opcode_new 0x8C "RES 1,H";
    Opcode_new 0x8D "RES 1,L";
    Opcode_new 0x8E "RES 1,(HL)";
    Opcode_new 0x8F "RES 1,A";
    Opcode_new 0x90 "RES 2,B";
    Opcode_new 0x91 "RES 2,C";
    Opcode_new 0x92 "RES 2,D";
    Opcode_new 0x93 "RES 2,E";
    Opcode_new 0x94 "RES 2,H";
    Opcode_new 0x95 "RES 2,L";
    Opcode_new 0x96 "RES 2,(HL)";
    Opcode_new 0x97 "RES 2,A";
    Opcode_new 0x98 "RES 3,B";
    Opcode_new 0x99 "RES 3,C";
    Opcode_new 0x9A "RES 3,D";
    Opcode_new 0x9B "RES 3,E";
    Opcode_new 0x9C "RES 3,H";
    Opcode_new 0x9D "RES 3,L";
    Opcode_new 0x9E "RES 3,(HL)";
    Opcode_new 0x9F "RES 3,A";
    Opcode_new 0xA0 "RES 4,B";
    Opcode_new 0xA1 "RES 4,C";
    Opcode_new 0xA2 "RES 4,D";
    Opcode_new 0xA3 "RES 4,E";
    Opcode_new 0xA4 "RES 4,H";
    Opcode_new 0xA5 "RES 4,L";
    Opcode_new 0xA6 "RES 4,(HL)";
    Opcode_new 0xA7 "RES 4,A";
    Opcode_new 0xA8 "RES 5,B";
    Opcode_new 0xA9 "RES 5,C";
    Opcode_new 0xAA "RES 5,D";
    Opcode_new 0xAB "RES 5,E";
    Opcode_new 0xAC "RES 5,H";
    Opcode_new 0xAD "RES 5,L";
    Opcode_new 0xAE "RES 5,(HL)";
    Opcode_new 0xAF "RES 5,A";
    Opcode_new 0xB0 "RES 6,B";
    Opcode_new 0xB1 "RES 6,C";
    Opcode_new 0xB2 "RES 6,D";
    Opcode_new 0xB3 "RES 6,E";
    Opcode_new 0xB4 "RES 6,H";
    Opcode_new 0xB5 "RES 6,L";
    Opcode_new 0xB6 "RES 6,(HL)";
    Opcode_new 0xB7 "RES 6,A";
    Opcode_new 0xB8 "RES 7,B";
    Opcode_new 0xB9 "RES 7,C";
    Opcode_new 0xBA "RES 7,D";
    Opcode_new 0xBB "RES 7,E";
    Opcode_new 0xBC "RES 7,H";
    Opcode_new 0xBD "RES 7,L";
    Opcode_new 0xBE "RES 7,(HL)";
    Opcode_new 0xBF "RES 7,A";
    Opcode_new 0xC0 "SET 0,B";
    Opcode_new 0xC1 "SET 0,C";
    Opcode_new 0xC2 "SET 0,D";
    Opcode_new 0xC3 "SET 0,E";
    Opcode_new 0xC4 "SET 0,H";
    Opcode_new 0xC5 "SET 0,L";
    Opcode_new 0xC6 "SET 0,(HL)";
    Opcode_new 0xC7 "SET 0,A";
    Opcode_new 0xC8 "SET 1,B";
    Opcode_new 0xC9 "SET 1,C";
    Opcode_new 0xCA "SET 1,D";
    Opcode_new 0xCB "SET 1,E";
    Opcode_new 0xCC "SET 1,H";
    Opcode_new 0xCD "SET 1,L";
    Opcode_new 0xCE "SET 1,(HL)";
    Opcode_new 0xCF "SET 1,A";
    Opcode_new 0xD0 "SET 2,B";
    Opcode_new 0xD1 "SET 2,C";
    Opcode_new 0xD2 "SET 2,D";
    Opcode_new 0xD3 "SET 2,E";
    Opcode_new 0xD4 "SET 2,H";
    Opcode_new 0xD5 "SET 2,L";
    Opcode_new 0xD6 "SET 2,(HL)";
    Opcode_new 0xD7 "SET 2,A";
    Opcode_new 0xD8 "SET 3,B";
    Opcode_new 0xD9 "SET 3,C";
    Opcode_new 0xDA "SET 3,D";
    Opcode_new 0xDB "SET 3,E";
    Opcode_new 0xDC "SET 3,H";
    Opcode_new 0xDD "SET 3,L";
    Opcode_new 0xDE "SET 3,(HL)";
    Opcode_new 0xDF "SET 3,A";
    Opcode_new 0xE0 "SET 4,B";
    Opcode_new 0xE1 "SET 4,C";
    Opcode_new 0xE2 "SET 4,D";
    Opcode_new 0xE3 "SET 4,E";
    Opcode_new 0xE4 "SET 4,H";
    Opcode_new 0xE5 "SET 4,L";
    Opcode_new 0xE6 "SET 4,(HL)";
    Opcode_new 0xE7 "SET 4,A";
    Opcode_new 0xE8 "SET 5,B";
    Opcode_new 0xE9 "SET 5,C";
    Opcode_new 0xEA "SET 5,D";
    Opcode_new 0xEB "SET 5,E";
    Opcode_new 0xEC "SET 5,H";
    Opcode_new 0xED "SET 5,L";
    Opcode_new 0xEE "SET 5,(HL)";
    Opcode_new 0xEF "SET 5,A";
    Opcode_new 0xF0 "SET 6,B";
    Opcode_new 0xF1 "SET 6,C";
    Opcode_new 0xF2 "SET 6,D";
    Opcode_new 0xF3 "SET 6,E";
    Opcode_new 0xF4 "SET 6,H";
    Opcode_new 0xF5 "SET 6,L";
    Opcode_new 0xF6 "SET 6,(HL)";
    Opcode_new 0xF7 "SET 6,A";
    Opcode_new 0xF8 "SET 7,B";
    Opcode_new 0xF9 "SET 7,C";
    Opcode_new 0xFA "SET 7,D";
    Opcode_new 0xFB "SET 7,E";
    Opcode_new 0xFC "SET 7,H";
    Opcode_new 0xFD "SET 7,L";
    Opcode_new 0xFE "SET 7,(HL)";
    Opcode_new 0xFF "SET 7,A" ].

Definition OpcodesDDCB_literal : list Opcode :=
  [ OpcodePrevIndex_new 0x00 "RLC (IX%s),B";
    OpcodePrevIndex_new 0x01 "RLC (IX%s),C";
    OpcodePrevIndex_new 0x02 "RLC (IX%s),D";
    OpcodePrevIndex_new 0x03 "RLC (IX%s),E";
    OpcodePrevIndex_new 0x04 "RLC (IX%s),H";
    OpcodePrevIndex_new 0x05 "RLC (IX%s),L";
    OpcodePrevIndex_new 0x06 "RLC (IX%s)";
    OpcodePrevIndex_new 0x07 "RLC (IX%s),A";
    OpcodePrevIndex_new 0x08 "RRC (IX%s),B";
    OpcodePrevIndex_new 0x09 "RRC (IX%s),C";
    OpcodePrevIndex_new 0x0A "RRC (IX%s),D";
    OpcodePrevIndex_new 0x0B "RRC (IX%s),E";
    OpcodePrevIndex_new 0x0C "RRC (IX%s),H";
    OpcodePrevIndex_new 0x0D "RRC (IX%s),L";
    OpcodePrevIndex_new 0x0E "RRC (IX%s)";
    OpcodePrevIndex_new 0x0F "RRC (IX%s),A";
    OpcodePrevIndex_new 0x10 "RL (IX%s),B";
    OpcodePrevIndex_new 0x11 "RL (IX%s),C";
    OpcodePrevIndex_new 0x12 "RL (IX%s),D";
    OpcodePrevIndex_new 0x13 "RL (IX%s),E";
    OpcodePrevIndex_new 0x14 "RL (IX%s),H";
    OpcodePrevIndex_new 0x15 "RL (IX%s),L";
    OpcodePrevIndex_new 0x16 "RL (IX%s)";
    OpcodePrevIndex_new 0x17 "RL (IX%s),A";
    OpcodePrevIndex_new 0x18 "RR (IX%s),B";
    OpcodePrevIndex_new 0x19 "RR (IX%s),C";
    OpcodePrevIndex_new 0x1A "RR (IX%s),D";
    OpcodePrevIndex_new 0x1B "RR (IX%s),E";
    OpcodePrevIndex_new 0x1C "RR (IX%s),H";
    OpcodePrevIndex_new 0x1D "RR (IX%s),L";
    OpcodePrevIndex_new 0x1E "RR (IX%s)";
    OpcodePrevIndex_new 0x1F "RR (IX%s),A";
    OpcodePrevIndex_new 0x20 "SLA (IX%s),B";
    OpcodePrevIndex_new 0x21 "SLA (IX%s),C";
    OpcodePrevIndex_new 0x22 "SLA (IX%s),D";
    OpcodePrevIndex_new 0x23 "SLA (IX%s),E";
    OpcodePrevIndex_new 0x24 "SLA (IX%s),H";
    OpcodePrevIndex_new 0x25 "SLA (IX%s),L";
    OpcodePrevIndex_new 0x26 "SLA (IX%s)";
    OpcodePrevIndex_new 0x27 "SLA (IX%s),A";
    OpcodePrevIndex_new 0x28 "SRA (IX%s),B";
    OpcodePrevIndex_new 0x29 "SRA (IX%s),C";
    OpcodePrevIndex_new 0x2A "SRA (IX%s),D";
    OpcodePrevIndex_new 0x2B "SRA (IX%s),E";
    OpcodePrevIndex_new 0x2C "SRA (IX%s),H";
    OpcodePrevIndex_new 0x2D "SRA (IX%s),L";
    OpcodePrevIndex_new 0x2E "SRA (IX%s)";
    OpcodePrevIndex_new 0x2F "SRA (IX%s),A";
    OpcodePrevIndex_new 0x30 "SLL (IX%s),B";
    OpcodePrevIndex_new 0x31 "SLL (IX%s),C";
    OpcodePrevIndex_new 0x32 "SLL (IX%s),D";
    OpcodePrevIndex_new 0x33 "SLL (IX%s),E";
    OpcodePrevIndex_new 0x34 "SLL (IX%s),H";
    OpcodePrevIndex_new 0x35 "SLL (IX%s),L";
    OpcodePrevIndex_new 0x36 "SLL (IX%s)";
    OpcodePrevIndex_new 0x37 "SLL (IX%s),A";
    OpcodePrevIndex_new 0x38 "SRL (IX%s),B";
    OpcodePrevIndex_new 0x39 "SRL (IX%s),C";
    OpcodePrevIndex_new 0x3A "SRL (IX%s),D";
    OpcodePrevIndex_new 0x3B "SRL (IX%s),E";
    OpcodePrevIndex_new 0x3C "SRL (IX%s),H";
    OpcodePrevIndex_new 0x3D "SRL (IX%s),L";
    OpcodePrevIndex_new 0x3E "SRL (IX%s)";
    OpcodePrevIndex_new 0x3F "SRL (IX%s),A";
    OpcodePrevIndex_new 0x40 "BIT 0,(IX%s)";
    OpcodePrevIndex_new 0x41 "BIT 0,(IX%s)";
    OpcodePrevIndex_new 0x42 "BIT 0,(IX%s)";
    OpcodePrevIndex_new 0x43 "BIT 0,(IX%s)";
    OpcodePrevIndex_new 0x44 "BIT 0,(IX%s)";
    OpcodePrevIndex_new 0x45 "BIT 0,(IX%s)";
    OpcodePrevIndex_new 0x46 "BIT 0,(IX%s)";
    OpcodePrevIndex_new 0x47 "BIT 0,(IX%s)";
    OpcodePrevIndex_new 0x48 "BIT 1,(IX%s)";
    OpcodePrevIndex_new 0x49 "BIT 1,(IX%s)";
    OpcodePrevIndex_new 0x4A "BIT 1,(IX%s)";
    OpcodePrevIndex_new 0x4B "BIT 1,(IX%s)";
    OpcodePrevIndex_new 0x4C "BIT 1,(IX%s)";
    OpcodePrevIndex_new 0x4D "BIT 1,(IX%s)";
    OpcodePrevIndex_new 0x4E "BIT 1,(IX%s)";
    OpcodePrevIndex_new 0x4F "BIT 1,(IX%s)";
    OpcodePrevIndex_new 0x50 "BIT 2,(IX%s)";
    OpcodePrevIndex_new 0x51 "BIT 2,(IX%s)";
    OpcodePrevIndex_new 0x52 "BIT 2,(IX%s)";
    OpcodePrevIndex_new 0x53 "BIT 2,(IX%s)";
    OpcodePrevIndex_new 0x54 "BIT 2,(IX%s)";
    OpcodePrevIndex_new 0x55 "BIT 2,(IX%s)";
    OpcodePrevIndex_new 0x56 "BIT 2,(IX%s)";
    OpcodePrevIndex_new 0x57 "BIT 2,(IX%s)";
    OpcodePrevIndex_new 0x58 "BIT 3,(IX%s)";
    OpcodePrevIndex_new 0x59 "BIT 3,(IX%s)";
    OpcodePrevIndex_new 0x5A "BIT 3,(IX%s)";
    OpcodePrevIndex_new 0x5B "BIT 3,(IX%s)";
    OpcodePrevIndex_new 0x5C "BIT 3,(IX%s)";
    OpcodePrevIndex_new 0x5D "BIT 3,(IX%s)";
    OpcodePrevIndex_new 0x5E "BIT 3,(IX%s)";
    OpcodePrevIndex_new 0x5F "BIT 3,(IX%s)";
    OpcodePrevIndex_new 0x60 "BIT 4,(IX%s)";
    OpcodePrevIndex_new 0x61 "BIT 4,(IX%s)";
    OpcodePrevIndex_new 0x62 "BIT 4,(IX%s)";
    OpcodePrevIndex_new 0x63 "BIT 4,(IX%s)";
    OpcodePrevIndex_new 0x64 "BIT 4,(IX%s)";
    OpcodePrevIndex_new 0x65 "BIT 4,(IX%s)";
    OpcodePrevIndex_new 0x66 "BIT 4,(IX%s)";
    OpcodePrevIndex_new 0x67 "BIT 4,(IX%s)";
    OpcodePrevIndex_new 0x68 "BIT 5,(IX%s)";
    OpcodePrevIndex_new 0x69 "BIT 5,(IX%s)";
    OpcodePrevIndex_new 0x6A "BIT 5,(IX%s)";
    OpcodePrevIndex_new 0x6B "BIT 5,(IX%s)";
    OpcodePrevIndex_new 0x6C "BIT 5,(IX%s)";
    OpcodePrevIndex_new 0x6D "BIT 5,(IX%s)";
    OpcodePrevIndex_new 0x6E "BIT 5,(IX%s)";
    OpcodePrevIndex_new 0x6F "BIT 5,(IX%s)";
    OpcodePrevIndex_new 0x70 "BIT 6,(IX%s)";
    OpcodePrevIndex_new 0x71 "BIT 6,(IX%s)";
    OpcodePrevIndex_new 0x72 "BIT 6,(IX%s)";
    OpcodePrevIndex_new 0x73 "BIT 6,(IX%s)";
    OpcodePrevIndex_new 0x74 "BIT 6,(IX%s)";
    OpcodePrevIndex_new 0x75 "BIT 6,(IX%s)";
    OpcodePrevIndex_new 0x76 "BIT 6,(IX%s)";
    OpcodePrevIndex_new 0x77 "BIT 6,(IX%s)";
    OpcodePrevIndex_new 0x78 "BIT 7,(IX%s)";
    OpcodePrevIndex_new 0x79 "BIT 7,(IX%s)";
    OpcodePrevIndex_new 0x7A "BIT 7,(IX%s)";
    OpcodePrevIndex_new 0x7B "BIT 7,(IX%s)";
    OpcodePrevIndex_new 0x7C "BIT 7,(IX%s)";
    OpcodePrevIndex_new 0x7D "BIT 7,(IX%s)";
    OpcodePrevIndex_new 0x7E "BIT 7,(IX%s)";
    OpcodePrevIndex_new 0x7F "BIT 7,(IX%s)";
    OpcodePrevIndex_new 0x80 "RES 0,(IX%s),B";
    OpcodePrevIndex_new 0x81 "RES 0,(IX%s),C";
    OpcodePrevIndex_new 0x82 "RES 0,(IX%s),D";
    OpcodePrevIndex_new 0x83 "RES 0,(IX%s),E";
    OpcodePrevIndex_new 0x84 "RES 0,(IX%s),H";
    OpcodePrevIndex_new 0x85 "RES 0,(IX%s),L";
    OpcodePrevIndex_new 0x86 "RES 0,(IX%s)";
    OpcodePrevIndex_new 0x87 "RES 0,(IX%s),A";
    OpcodePrevIndex_new 0x88 "RES 1,(IX%s),B";
    OpcodePrevIndex_new 0x89 "RES 1,(IX%s),C";
    OpcodePrevIndex_new 0x8A "RES 1,(IX%s),D";
    OpcodePrevIndex_new 0x8B "RES 1,(IX%s),E";
    OpcodePrevIndex_new 0x8C "RES 1,(IX%s),H";
    OpcodePrevIndex_new 0x8D "RES 1,(IX%s),L";
    OpcodePrevIndex_new 0x8E "RES 1,(IX%s)";
    OpcodePrevIndex_new 0x8F "RES 1,(IX%s),A";
    OpcodePrevIndex_new 0x90 "RES 2,(IX%s),B";
    OpcodePrevIndex_new 0x91 "RES 2,(IX%s),C";
    OpcodePrevIndex_new 0x92 "RES 2,(IX%s),D";
    OpcodePrevIndex_new 0x93 "RES 2,(IX%s),E";
    OpcodePrevIndex_new 0x94 "RES 2,(IX%s),H";
    OpcodePrevIndex_new 0x95 "RES 2,(IX%s),L";
    OpcodePrevIndex_new 0x96 "RES 2,(IX%s)";
    OpcodePrevIndex_new 0x97 "RES 2,(IX%s),A";
    OpcodePrevIndex_new 0x98 "RES 3,(IX%s),B";
    OpcodePrevIndex_new 0x99 "RES 3,(IX%s),C";
    OpcodePrevIndex_new 0x9A "RES 3,(IX%s),D";
    OpcodePrevIndex_new 0x9B "RES 3,(IX%s),E";
    OpcodePrevIndex_new 0x9C "RES 3,(IX%s),H";
    OpcodePrevIndex_new 0x9D "RES 3,(IX%s),L";
    OpcodePrevIndex_new 0x9E "RES 3,(IX%s)";
    OpcodePrevIndex_new 0x9F "RES 3,(IX%s),A";
    OpcodePrevIndex_new 0xA0 "RES 4,(IX%s),B";
    OpcodePrevIndex_new 0xA1 "RES 4,(IX%s),C";
    OpcodePrevIndex_new 0xA2 "RES 4,(IX%s),D";
    OpcodePrevIndex_new 0xA3 "RES 4,(IX%s),E";
    OpcodePrevIndex_new 0xA4 "RES 4,(IX%s),H";
    OpcodePrevIndex_new 0xA5 "RES 4,(IX%s),L";
    OpcodePrevIndex_new 0xA6 "RES 4,(IX%s)";
    OpcodePrevIndex_new 0xA7 "RES 4,(IX%s),A";
    OpcodePrevIndex_new 0xA8 "RES 5,(IX%s),B";
    OpcodePrevIndex_new 0xA9 "RES 5,(IX%s),C";
    OpcodePrevIndex_new 0xAA "RES 5,(IX%s),D";
    OpcodePrevIndex_new 0xAB "RES 5,(IX%s),E";
    OpcodePrevIndex_new 0xAC "RES 5,(IX%s),H";
    OpcodePrevIndex_new 0xAD "RES 5,(IX%s),L";
    OpcodePrevIndex_new 0xAE "RES 5,(IX%s)";
    OpcodePrevIndex_new 0xAF "RES 5,(IX%s),A";
    OpcodePrevIndex_new 0xB0 "RES 6,(IX%s),B";
    OpcodePrevIndex_new 0xB1 "RES 6,(IX%s),C";
    OpcodePrevIndex_new 0xB2 "RES 6,(IX%s),D";
    OpcodePrevIndex_new 0xB3 "RES 6,(IX%s),E";
    OpcodePrevIndex_new 0xB4 "RES 6,(IX%s),H";
    OpcodePrevIndex_new 0xB5 "RES 6,(IX%s),L";
    OpcodePrevIndex_new 0xB6 "RES 6,(IX%s)";
    OpcodePrevIndex_new 0xB7 "RES 6,(IX%s),A";
    OpcodePrevIndex_new 0xB8 "RES 7,(IX%s),B";
    OpcodePrevIndex_new 0xB9 "RES 7,(IX%s),C";
    OpcodePrevIndex_new 0xBA "RES 7,(IX%s),D";
    OpcodePrevIndex_new 0xBB "RES 7,(IX%s),E";
    OpcodePrevIndex_new 0xBC "RES 7,(IX%s),H";
    OpcodePrevIndex_new 0xBD "RES 7,(IX%s),L";
    OpcodePrevIndex_new 0xBE "RES 7,(IX%s)";
    OpcodePrevIndex_new 0xBF "RES 7,(IX%s),A";
    OpcodePrevIndex_new 0xC0 "SET 0,(IX%s),B";
    OpcodePrevIndex_new 0xC1 "SET 0,(IX%s),C";
    OpcodePrevIndex_new 0xC2 "SET 0,(IX%s),D";
    OpcodePrevIndex_new 0xC3 "SET 0,(IX%s),E";
    OpcodePrevIndex_new 0xC4 "SET 0,(IX%s),H";
    OpcodePrevIndex_new 0xC5 "SET 0,(IX%s),L";
    OpcodePrevIndex_new 0xC6 "SET 0,(IX%s)";
    OpcodePrevIndex_new 0xC7 "SET 0,(IX%s),A";
    OpcodePrevIndex_new 0xC8 "SET 1,(IX%s),B";
    OpcodePrevIndex_new 0xC9 "SET 1,(IX%s),C";
    OpcodePrevIndex_new 0xCA "SET 1,(IX%s),D";
    OpcodePrevIndex_new 0xCB "SET 1,(IX%s),E";
    OpcodePrevIndex_new 0xCC "SET 1,(IX%s),H";
    OpcodePrevIndex_new 0xCD "SET 1,(IX%s),L";
    OpcodePrevIndex_new 0xCE "SET 1,(IX%s)";
    OpcodePrevIndex_new 0xCF "SET 1,(IX%s),A";
    OpcodePrevIndex_new 0xD0 "SET 2,(IX%s),B";
    OpcodePrevIndex_new 0xD1 "SET 2,(IX%s),C";
    OpcodePrevIndex_new 0xD2 "SET 2,(IX%s),D";
    OpcodePrevIndex_new 0xD3 "SET 2,(IX%s),E";
    OpcodePrevIndex_new 0xD4 "SET 2,(IX%s),H";
    OpcodePrevIndex_new 0xD5 "SET 2,(IX%s),L";
    OpcodePrevIndex_new 0xD6 "SET 2,(IX%s)";
    OpcodePrevIndex_new 0xD7 "SET 2,(IX%s),A";
    OpcodePrevIndex_new 0xD8 "SET 3,(IX%s),B";
    OpcodePrevIndex_new 0xD9 "SET 3,(IX%s),C";
    OpcodePrevIndex_new 0xDA "SET 3,(IX%s),D";
    OpcodePrevIndex_new 0xDB "SET 3,(IX%s),E";
    OpcodePrevIndex_new 0xDC "SET 3,(IX%s),H";
    OpcodePrevIndex_new 0xDD "SET 3,(IX%s),L";
    OpcodePrevIndex_new 0xDE "SET 3,(IX%s)";
    OpcodePrevIndex_new 0xDF "SET 3,(IX%s),A";
    OpcodePrevIndex_new 0xE0 "SET 4,(IX%s),B";
    OpcodePrevIndex_new 0xE1 "SET 4,(IX%s),C";
    OpcodePrevIndex_new 0xE2 "SET 4,(IX%s),D";
    OpcodePrevIndex_new 0xE3 "SET 4,(IX%s),E";
    OpcodePrevIndex_new 0xE4 "SET 4,(IX%s),H";
    OpcodePrevIndex_new 0xE5 "SET 4,(IX%s),L";
    OpcodePrevIndex_new 0xE6 "SET 4,(IX%s)";
    OpcodePrevIndex_new 0xE7 "SET 4,(IX%s),A";
    OpcodePrevIndex_new 0xE8 "SET 5,(IX%s),B";
    OpcodePrevIndex_new 0xE9 "SET 5,(IX%s),C";
    OpcodePrevIndex_new 0xEA "SET 5,(IX%s),D";
    OpcodePrevIndex_new 0xEB "SET 5,(IX%s),E";
    OpcodePrevIndex_new 0xEC "SET 5,(IX%s),H";
    OpcodePrevIndex_new 0xED "SET 5,(IX%s),L";
    OpcodePrevIndex_new 0xEE "SET 5,(IX%s)";
    OpcodePrevIndex_new 0xEF "SET 5,(IX%s),A";
    OpcodePrevIndex_new 0xF0 "SET 6,(IX%s),B";
    OpcodePrevIndex_new 0xF1 "SET 6,(IX%s),C";
    OpcodePrevIndex_new 0xF2 "SET 6,(IX%s),D";
    OpcodePrevIndex_new 0xF3 "SET 6,(IX%s),E";
    OpcodePrevIndex_new 0xF4 "SET 6,(IX%s),H";
    OpcodePrevIndex_new 0xF5 "SET 6,(IX%s),L";
    OpcodePrevIndex_new 0xF6 "SET 6,(IX%s)";
    OpcodePrevIndex_new 0xF7 "SET 6,(IX%s),A";
    OpcodePrevIndex_new 0xF8 "SET 7,(IX%s),B";
    OpcodePrevIndex_new 0xF9 "SET 7,(IX%s),C";
    OpcodePrevIndex_new 0xFA "SET 7,(IX%s),D";
    OpcodePrevIndex_new 0xFB "SET 7,(IX%s),E";
    OpcodePrevIndex_new 0xFC "SET 7,(IX%s),H";
    OpcodePrevIndex_new 0xFD "SET 7,(IX%s),L";
    OpcodePrevIndex_new 0xFE "SET 7,(IX%s)";
    OpcodePrevIndex_new 0xFF "SET 7,(IX%s),A" ].

Definition OpcodesDD_literal : list Opcode :=
  [ OpcodeInvalid_new 0x00;
    OpcodeInvalid_new 0x01;
    OpcodeInvalid_new 0x02;
    OpcodeInvalid_new 0x03;
    OpcodeInvalid_new 0x04;
    OpcodeInvalid_new 0x05;
    OpcodeInvalid_new 0x06;
    OpcodeInvalid_new 0x07;
    OpcodeInvalid_new 0x08;
    Opcode_new 0x09 "ADD IX,BC";
    OpcodeInvalid_new 0x0A;
    OpcodeInvalid_new 0x0B;
    OpcodeInvalid_new 0x0C;
    OpcodeInvalid_new 0x0D;
    OpcodeInvalid_new 0x0E;
    OpcodeInvalid_new 0x0F;
    OpcodeInvalid_new 0x10;
    OpcodeInvalid_new 0x11;
    OpcodeInvalid_new 0x12;
    OpcodeInvalid_new 0x13;
    OpcodeInvalid_new 0x14;
    OpcodeInvalid_new 0x15;
    OpcodeInvalid_new 0x16;
    OpcodeInvalid_new 0x17;
    OpcodeInvalid_new 0x18;
    Opcode_new 0x19 "ADD IX,DE";
    OpcodeInvalid_new 0x1A;
    OpcodeInvalid_new 0x1B;
    OpcodeInvalid_new 0x1C;
    OpcodeInvalid_new 0x1D;
    OpcodeInvalid_new 0x1E;
    OpcodeInvalid_new 0x1F;
    OpcodeInvalid_new 0x20;
    Opcode_new 0x21 "LD IX,#nn";
    Opcode_new 0x22 "LD (#nn),IX";
    Opcode_new 0x23 "INC IX";
    Opcode_new 0x24 "INC IXH";
    Opcode_new 0x25 "DEC IXH";
    Opcode_new 0x26 "LD IXH,#n";
    OpcodeInvalid_new 0x27;
    OpcodeInvalid_new 0x28;
    Opcode_new 0x29 "ADD IX,IX";
    Opcode_new 0x2A "LD IX,(#nn)";
    Opcode_new 0x2B "DEC IX";
    Opcode_new 0x2C "INC IXL";
    Opcode_new 0x2D "DEC IXL";
    Opcode_new 0x2E "LD IXL,#n";
    OpcodeInvalid_new 0x2F;
    OpcodeInvalid_new 0x30;
    OpcodeInvalid_new 0x31;
    OpcodeInvalid_new 0x32;
    OpcodeInvalid_new 0x33;
    OpcodeIndex_new 0x34 "INC (IX%s)";
    OpcodeIndex_new 0x35 "DEC (IX%s)";
    OpcodeIndexImmediate_new 0x36 "LD (IX%s),%s";
    OpcodeInvalid_new 0x37;
    OpcodeInvalid_new 0x38;
    Opcode_new 0x39 "ADD IX,SP";
    OpcodeInvalid_new 0x3A;
    OpcodeInvalid_new 0x3B;
    OpcodeInvalid_new 0x3C;
    OpcodeInvalid_new 0x3D;
    OpcodeInvalid_new 0x3E;
    OpcodeInvalid_new 0x3F;
    OpcodeInvalid_new 0x40;
    OpcodeInvalid_new 0x41;
    OpcodeInvalid_new 0x42;
    OpcodeInvalid_new 0x43;
    Opcode_new 0x44 "LD B,IXH";
    Opcode_new 0x45 "LD B,IXL";
    OpcodeIndex_new 0x46 "LD B,(IX%s)";
    OpcodeInvalid_new 0x47;
    OpcodeInvalid_new 0x48;
    OpcodeInvalid_new 0x49;
    OpcodeInvalid_new 0x4A;
    OpcodeInvalid_new 0x4B;
    Opcode_new 0x4C "LD C,IXH";
    Opcode_new 0x4D "LD C,IXL";
    OpcodeIndex_new 0x4E "LD C,(IX%s)";
    OpcodeInvalid_new 0x4F;
    OpcodeInvalid_new 0x50;
    OpcodeInvalid_new 0x51;
    OpcodeInvalid_new 0x52;
    OpcodeInvalid_new 0x53;
    Opcode_new 0x54 "LD D,IXH";
    Opcode_new 0x55 "LD D,IXL";
    OpcodeIndex_new 0x56 "LD D,(IX%s)";
    OpcodeInvalid_new 0x57;
    OpcodeInvalid_new 0x58;
    OpcodeInvalid_new 0x59;
    OpcodeInvalid_new 0x5A;
    OpcodeInvalid_new 0x5B;
    Opcode_new 0x5C "LD E,IXH";
    Opcode_new 0x5D "LD E,IXL";
    OpcodeIndex_new 0x5E "LD E,(IX%s)";
    OpcodeInvalid_new 0x5F;
    Opcode_new 0x60 "LD IXH,B";
    Opcode_new 0x61 "LD IXH,C";
    Opcode_new 0x62 "LD IXH,D";
    Opcode_new 0x63 "LD IXH,E";
    Opcode_new 0x64 "LD IXH,IXH";
    Opcode_new 0x65 "LD IXH,IXL";
    OpcodeIndex_new 0x66 "LD H,(IX%s)";
    Opcode_new 0x67 "LD IXH,A";
    Opcode_new 0x68 "LD IXL,B";
    Opcode_new 0x69 "LD IXL,C";
    Opcode_new 0x6A "LD IXL,D";
    Opcode_new 0x6B "LD IXL,E";
    Opcode_new 0x6C "LD IXL,IXH";
    Opcode_new 0x6D "LD IXL,IXL";
    OpcodeIndex_new 0x6E "LD L,(IX%s)";
    Opcode_new 0x6F "LD IXL,A";
    OpcodeIndex_new 0x70 "LD (IX%s),B";
    OpcodeIndex_new 0x71 "LD (IX%s),C";
    OpcodeIndex_new 0x72 "LD (IX%s),D";
    OpcodeIndex_new 0x73 "LD (IX%s),E";
    OpcodeIndex_new 0x74 "LD (IX%s),H";
    OpcodeIndex_new 0x75 "LD (IX%s),L";
    OpcodeInvalid_new 0x76;
    OpcodeIndex_new 0x77 "LD (IX%s),A";
    OpcodeInvalid_new 0x78;
    OpcodeInvalid_new 0x79;
    OpcodeInvalid_new 0x7A;
    OpcodeInvalid_new 0x7B;
    Opcode_new 0x7C "LD A,IXH";
    Opcode_new 0x7D "LD A,IXL";
    OpcodeIndex_new 0x7E "LD A,(IX%s)";
    OpcodeInvalid_new 0x7F;
    OpcodeInvalid_new 0x80;
    OpcodeInvalid_new 0x81;
    OpcodeInvalid_new 0x82;
    OpcodeInvalid_new 0x83;
    Opcode_new 0x84 "ADD A,IXH";
    Opcode_new 0x85 "ADD A,IXL";
    OpcodeIndex_new 0x86 "ADD A,(IX%s)";
    OpcodeInvalid_new 0x87;
    OpcodeInvalid_new 0x88;
    OpcodeInvalid_new 0x89;
    OpcodeInvalid_new 0x8A;
    OpcodeInvalid_new 0x8B;
    Opcode_new 0x8C "ADC A,IXH";
    Opcode_new 0x8D "ADC A,IXL";
    OpcodeIndex_new 0x8E "ADC A,(IX%s)";
    OpcodeInvalid_new 0x8F;
    OpcodeInvalid_new 0x90;
    OpcodeInvalid_new 0x91;
    OpcodeInvalid_new 0x92;
    OpcodeInvalid_new 0x93;
    Opcode_new 0x94 "SUB IXH";
    Opcode_new 0x95 "SUB IXL";
    OpcodeIndex_new 0x96 "SUB (IX%s)";
    OpcodeInvalid_new 0x97;
    OpcodeInvalid_new 0x98;
    OpcodeInvalid_new 0x99;
    OpcodeInvalid_new 0x9A;
    OpcodeInvalid_new 0x9B;
    Opcode_new 0x9C "SBC A,IXH";
    Opcode_new 0x9D "SBC A,IXL";
    OpcodeIndex_new 0x9E "SBC A,(IX%s)";
    OpcodeInvalid_new 0x9F;
    OpcodeInvalid_new 0xA0;
    OpcodeInvalid_new 0xA1;
    OpcodeInvalid_new 0xA2;
    OpcodeInvalid_new 0xA3;
    Opcode_new 0xA4 "AND IXH";
    Opcode_new 0xA5 "AND IXL";
    OpcodeIndex_new 0xA6 "AND (IX%s)";
    OpcodeInvalid_new 0xA7;
    OpcodeInvalid_new 0xA8;
    OpcodeInvalid_new 0xA9;
    OpcodeInvalid_new 0xAA;
    OpcodeInvalid_new 0xAB;
    Opcode_new 0xAC "XOR IXH";
    Opcode_new 0xAD "XOR IXL";
    OpcodeIndex_new 0xAE "XOR (IX%s)";
    OpcodeInvalid_new 0xAF;
    OpcodeInvalid_new 0xB0;
    OpcodeInvalid_new 0xB1;
    OpcodeInvalid_new 0xB2;
    OpcodeInvalid_new 0xB3;
    Opcode_new 0xB4 "OR IXH";
    Opcode_new 0xB5 "OR IXL";
    OpcodeIndex_new 0xB6 "OR (IX%s)";
    OpcodeInvalid_new 0xB7;
    OpcodeInvalid_new 0xB8;
    OpcodeInvalid_new 0xB9;
    OpcodeInvalid_new 0xBA;
    OpcodeInvalid_new 0xBB;
    Opcode_new 0xBC "CP IXH";
    Opcode_new 0xBD "CP IXL";
    OpcodeIndex_new 0xBE "CP (IX%s)";
    OpcodeInvalid_new 0xBF;
    OpcodeInvalid_new 0xC0;
    OpcodeInvalid_new 0xC1;
    OpcodeInvalid_new 0xC2;
    OpcodeInvalid_new 0xC3;
    OpcodeInvalid_new 0xC4;
    OpcodeInvalid_new 0xC5;
    OpcodeInvalid_new 0xC6;
    OpcodeInvalid_new 0xC7;
    OpcodeInvalid_new 0xC8;
    OpcodeInvalid_new 0xC9;
    OpcodeInvalid_new 0xCA;
    OpcodeExtended2_new 0xCB T_OpcodesDDCB;
    OpcodeInvalid_new 0xCC;
    OpcodeInvalid_new 0xCD;
    OpcodeInvalid_new 0xCE;
    OpcodeInvalid_new 0xCF;
    OpcodeInvalid_new 0xD0;
    OpcodeInvalid_new 0xD1;
    OpcodeInvalid_new 0xD2;
    OpcodeInvalid_new 0xD3;
    OpcodeInvalid_new 0xD4;
    OpcodeInvalid_new 0xD5;
    OpcodeInvalid_new 0xD6;
    OpcodeInvalid_new 0xD7;
    OpcodeInvalid_new 0xD8;
    OpcodeInvalid_new 0xD9;
    OpcodeInvalid_new 0xDA;
    OpcodeInvalid_new 0xDB;
    OpcodeInvalid_new 0xDC;
    OpcodeNOP_new 0xDD;
    OpcodeInvalid_new 0xDE;
    OpcodeInvalid_new 0xDF;
    OpcodeInvalid_new 0xE0;
    Opcode_new 0xE1 "POP IX";
    OpcodeInvalid_new 0xE2;
    Opcode_new 0xE3 "EX (SP),IX";
    OpcodeInvalid_new 0xE4;
    Opcode_new 0xE5 "PUSH IX";
    OpcodeInvalid_new 0xE6;
    OpcodeInvalid_new 0xE7;
    OpcodeInvalid_new 0xE8;
    Opcode_new 0xE9 "JP (IX)";
    OpcodeInvalid_new 0xEA;
    OpcodeInvalid_new 0xEB;
    OpcodeInvalid_new 0xEC;
    OpcodeNOP_new 0xED;
    OpcodeInvalid_new 0xEE;
    OpcodeInvalid_new 0xEF;
    OpcodeInvalid_new 0xF0;
    OpcodeInvalid_new 0xF1;
    OpcodeInvalid_new 0xF2;
    OpcodeInvalid_new 0xF3;
    OpcodeInvalid_new 0xF4;
    OpcodeInvalid_new 0xF5;
    OpcodeInvalid_new 0xF6;
    OpcodeInvalid_new 0xF7;
    OpcodeInvalid_new 0xF8;
    Opcode_new 0xF9 "LD SP,IX";
    OpcodeInvalid_new 0xFA;
    OpcodeInvalid_new 0xFB;
    OpcodeInvalid_new 0xFC;
    OpcodeNOP_new 0xFD;
    OpcodeInvalid_new 0xFE;
    OpcodeInvalid_new 0xFF ].

Definition Opcodes_literal : list Opcode :=
  [ Opcode_new 0x00 "NOP";
    Opcode_new 0x01 "LD BC,#nn";
    Opcode_new 0x02 "LD (BC),A";
    Opcode_new 0x03 "INC BC";
    Opcode_new 0x04 "INC B";
    Opcode_new 0x05 "DEC B";
    Opcode_new 0x06 "LD B,#n";
    Opcode_new 0x07 "RLCA";
    Opcode_new 0x08 "EX AF,AF'";
    Opcode_new 0x09 "ADD HL,BC";
    Opcode_new 0x0A "LD A,(BC)";
    Opcode_new 0x0B "DEC BC";
    Opcode_new 0x0C "INC C";
    Opcode_new 0x0D "DEC C";
    Opcode_new 0x0E "LD C,#n";
    Opcode_new 0x0F "RRCA";
    Opcode_new 0x10 "DJNZ #n";
    Opcode_new 0x11 "LD DE,#nn";
    Opcode_new 0x12 "LD (DE),A";
    Opcode_new 0x13 "INC DE";
    Opcode_new 0x14 "INC D";
    Opcode_new 0x15 "DEC D";
    Opcode_new 0x16 "LD D,#n";
    Opcode_new 0x17 "RLA";
    Opcode_new 0x18 "JR #n";
    Opcode_new 0x19 "ADD HL,DE";
    Opcode_new 0x1A "LD A,(DE)";
    Opcode_new 0x1B "DEC DE";
    Opcode_new 0x1C "INC E";
    Opcode_new 0x1D "DEC E";
    Opcode_new 0x1E "LD E,#n";
    Opcode_new 0x1F "RRA";
    Opcode_new 0x20 "JR NZ,#n";
    Opcode_new 0x21 "LD HL,#nn";
    Opcode_new 0x22 "LD (#nn),HL";
    Opcode_new 0x23 "INC HL";
    Opcode_new 0x24 "INC H";
    Opcode_new 0x25 "DEC H";
    Opcode_new 0x26 "LD H,#n";
    Opcode_new 0x27 "DAA";
    Opcode_new 0x28 "JR Z,#n";
    Opcode_new 0x29 "ADD HL,HL";
    Opcode_new 0x2A "LD HL,(#nn)";
    Opcode_new 0x2B "DEC HL";
    Opcode_new 0x2C "INC L";
    Opcode_new 0x2D "DEC L";
    Opcode_new 0x2E "LD L,#n";
    Opcode_new 0x2F "CPL";
    Opcode_new 0x30 "JR NC,#n";
    Opcode_new 0x31 "LD SP,#nn";
    Opcode_new 0x32 "LD (#nn),A";
    Opcode_new 0x33 "INC SP";
    Opcode_new 0x34 "INC (HL)";
    Opcode_new 0x35 "DEC (HL)";
    Opcode_new 0x36 "LD (HL),#n";
    Opcode_new 0x37 "SCF";
    Opcode_new 0x38 "JR C,#n";
    Opcode_new 0x39 "ADD HL,SP";
    Opcode_new 0x3A "LD A,(#nn)";
    Opcode_new 0x3B "DEC SP";
    Opcode_new 0x3C "INC A";
    Opcode_new 0x3D "DEC A";
    Opcode_new 0x3E "LD A,#n";
    Opcode_new 0x3F "CCF";
    Opcode_new 0x40 "LD B,B";
    Opcode_new 0x41 "LD B,C";
    Opcode_new 0x42 "LD B,D";
    Opcode_new 0x43 "LD B,E";
    Opcode_new 0x44 "LD B,H";
    Opcode_new 0x45 "LD B,L";
    Opcode_new 0x46 "LD B,(HL)";
    Opcode_new 0x47 "LD B,A";
    Opcode_new 0x48 "LD C,B";
    Opcode_new 0x49 "LD C,C";
    Opcode_new 0x4A "LD C,D";
    Opcode_new 0x4B "LD C,E";
    Opcode_new 0x4C "LD C,H";
    Opcode_new 0x4D "LD C,L";
    Opcode_new 0x4E "LD C,(HL)";
    Opcode_new 0x4F "LD C,A";
    Opcode_new 0x50 "LD D,B";
    Opcode_new 0x51 "LD D,C";
    Opcode_new 0x52 "LD D,D";
    Opcode_new 0x53 "LD D,E";
    Opcode_new 0x54 "LD D,H";
    Opcode_new 0x55 "LD D,L";
    Opcode_new 0x56 "LD D,(HL)";
    Opcode_new 0x57 "LD D,A";
    Opcode_new 0x58 "LD E,B";
    Opcode_new 0x59 "LD E,C";
    Opcode_new 0x5A "LD E,D";
    Opcode_new 0x5B "LD E,E";
    Opcode_new 0x5C "LD E,H";
    Opcode_new 0x5D "LD E,L";
    Opcode_new 0x5E "LD E,(HL)";
    Opcode_new 0x5F "LD E,A";
    Opcode_new 0x60 "LD H,B";
    Opcode_new 0x61 "LD H,C";
    Opcode_new 0x62 "LD H,D";
    Opcode_new 0x63 "LD H,E";
    Opcode_new 0x64 "LD H,H";
    Opcode_new 0x65 "LD H,L";
    Opcode_new 0x66 "LD H,(HL)";
    Opcode_new 0x67 "LD H,A";
    Opcode_new 0x68 "LD L,B";
    Opcode_new 0x69 "LD L,C";
    Opcode_new 0x6A "LD L,D";
    Opcode_new 0x6B "LD L,E";
    Opcode_new 0x6C "LD L,H";
    Opcode_new 0x6D "LD L,L";
    Opcode_new 0x6E "LD L,(HL)";
    Opcode_new 0x6F "LD L,A";
    Opcode_new 0x70 "LD (HL),B";
    Opcode_new 0x71 "LD (HL),C";
    Opcode_new 0x72 "LD (HL),D";
    Opcode_new 0x73 "LD (HL),E";
    Opcode_new 0x74 "LD (HL),H";
    Opcode_new 0x75 "LD (HL),L";
    Opcode_new 0x76 "HALT";
    Opcode_new 0x77 "LD (HL),A";
    Opcode_new 0x78 "LD A,B";
    Opcode_new 0x79 "LD A,C";
    Opcode_new 0x7A "LD A,D";
    Opcode_new 0x7B "LD A,E";
    Opcode_new 0x7C "LD A,H";
    Opcode_new 0x7D "LD A,L";
    Opcode_new 0x7E "LD A,(HL)";
    Opcode_new 0x7F "LD A,A";
    Opcode_new 0x80 "ADD A,B";
    Opcode_new 0x81 "ADD A,C";
    Opcode_new 0x82 "ADD A,D";
    Opcode_new 0x83 "ADD A,E";
    Opcode_new 0x84 "ADD A,H";
    Opcode_new 0x85 "ADD A,L";
    Opcode_new 0x86 "ADD A,(HL)";
    Opcode_new 0x87 "ADD A,A";
    Opcode_new 0x88 "ADC A,B";
    Opcode_new 0x89 "ADC A,C";
    Opcode_new 0x8A "ADC A,D";
    Opcode_new 0x8B "ADC A,E";
    Opcode_new 0x8C "ADC A,H";
    Opcode_new 0x8D "ADC A,L";
    Opcode_new 0x8E "ADC A,(HL)";
    Opcode_new 0x8F "ADC A,A";
    Opcode_new 0x90 "SUB B";
    Opcode_new 0x91 "SUB C";
    Opcode_new 0x92 "SUB D";
    Opcode_new 0x93 "SUB E";
    Opcode_new 0x94 "SUB H";
    Opcode_new 0x95 "SUB L";
    Opcode_new 0x96 "SUB (HL)";
    Opcode_new 0x97 "SUB A";
    Opcode_new 0x98 "SBC A,B";
    Opcode_new 0x99 "SBC A,C";
    Opcode_new 0x9A "SBC A,D";
    Opcode_new 0x9B "SBC A,E";
    Opcode_new 0x9C "SBC A,H";
    Opcode_new 0x9D "SBC A,L";
    Opcode_new 0x9E "SBC A,(HL)";
    Opcode_new 0x9F "SBC A,A";
    Opcode_new 0xA0 "AND B";
    Opcode_new 0xA1 "AND C";
    Opcode_new 0xA2 "AND D";
    Opcode_new 0xA3 "AND E";
    Opcode_new 0xA4 "AND H";
    Opcode_new 0xA5 "AND L";
    Opcode_new 0xA6 "AND (HL)";
    Opcode_new 0xA7 "AND A";
    Opcode_new 0xA8 "XOR B";
    Opcode_new 0xA9 "XOR C";
    Opcode_new 0xAA "XOR D";
    Opcode_new 0xAB "XOR E";
    Opcode_new 0xAC "XOR H";
    Opcode_new 0xAD "XOR L";
    Opcode_new 0xAE "XOR (HL)";
    Opcode_new 0xAF "XOR A";
    Opcode_new 0xB0 "OR B";
    Opcode_new 0xB1 "OR C";
    Opcode_new 0xB2 "OR D";
    Opcode_new 0xB3 "OR E";
    Opcode_new 0xB4 "OR H";
    Opcode_new 0xB5 "OR L";
    Opcode_new 0xB6 "OR (HL)";
    Opcode_new 0xB7 "OR A";
    Opcode_new 0xB8 "CP B";
    Opcode_new 0xB9 "CP C";
    Opcode_new 0xBA "CP D";
    Opcode_new 0xBB "CP E";
    Opcode_new 0xBC "CP H";
    Opcode_new 0xBD "CP L";
    Opcode_new 0xBE "CP (HL)";
    Opcode_new 0xBF "CP A";
    Opcode_new 0xC0 "RET NZ";
    Opcode_new 0xC1 "POP BC";
    Opcode_new 0xC2 "JP NZ,#nn";
    Opcode_new 0xC3 "JP #nn";
    Opcode_new 0xC4 "CALL NZ,#nn";
    Opcode_new 0xC5 "PUSH BC";
    Opcode_new 0xC6 "ADD A,#n";
    Opcode_new 0xC7 "RST %s";
    Opcode_new 0xC8 "RET Z";
    Opcode_new 0xC9 "RET";
    Opcode_new 0xCA "JP Z,#nn";
    OpcodeExtended_new 0xCB T_OpcodesCB;
    Opcode_new 0xCC "CALL Z,#nn";
    Opcode_new 0xCD "CALL #nn";
    Opcode_new 0xCE "ADC A,#n";
    Opcode_new 0xCF "RST %s";
    Opcode_new 0xD0 "RET NC";
    Opcode_new 0xD1 "POP DE";
    Opcode_new 0xD2 "JP NC,#nn";
    Opcode_new 0xD3 "OUT (#n),A";
    Opcode_new 0xD4 "CALL NC,#nn";
    Opcode_new 0xD5 "PUSH DE";
    Opcode_new 0xD6 "SUB #n";
    Opcode_new 0xD7 "RST %s";
    Opcode_new 0xD8 "RET C";
    Opcode_new 0xD9 "EXX";
    Opcode_new 0xDA "JP C,#nn";
    Opcode_new 0xDB "IN A,(#n)";
    Opcode_new 0xDC "CALL C,#nn";
    OpcodeExtended_new 0xDD T_OpcodesDD;
    Opcode_new 0xDE "SBC A,#n";
    Opcode_new 0xDF "RST %s";
    Opcode_new 0xE0 "RET PO";
    Opcode_new 0xE1 "POP HL";
    Opcode_new 0xE2 "JP PO,#nn";
    Opcode_new 0xE3 "EX (SP),HL";
    Opcode_new 0xE4 "CALL PO,#nn";
    Opcode_new 0xE5 "PUSH HL";
    Opcode_new 0xE6 "AND #n";
    Opcode_new 0xE7 "RST %s";
    Opcode_new 0xE8 "RET PE";
    Opcode_new 0xE9 "JP (HL)";
    Opcode_new 0xEA "JP PE,#nn";
    Opcode_new 0xEB "EX DE,HL";
    Opcode_new 0xEC "CALL PE,#nn";
    OpcodeExtended_new 0xED T_OpcodesED;
    Opcode_new 0xEE "XOR #n";
    Opcode_new 0xEF "RST %s";
    Opcode_new 0xF0 "RET P";
    Opcode_new 0xF1 "POP AF";
    Opcode_new 0xF2 "JP P,#nn";
    Opcode_new 0xF3 "DI";
    Opcode_new 0xF4 "CALL P,#nn";
    Opcode_new 0xF5 "PUSH AF";
    Opcode_new 0xF6 "OR #n";
    Opcode_new 0xF7 "RST %s";
    Opcode_new 0xF8 "RET M";
    Opcode_new 0xF9 "LD SP,HL";
    Opcode_new 0xFA "JP M,#nn";
    Opcode_new 0xFB "EI";
    Opcode_new 0xFC "CALL M,#nn";
    OpcodeExtended_new 0xFD T_OpcodesFD;
    Opcode_new 0xFE "CP #n";
    Opcode_new 0xFF "RST %s" ].

(** [Opcode.InitOpcodes]: the arrays after the length fix-ups. *)
Definition OpcodesED : list Opcode := map (add_length 1) OpcodesED_literal.
Definition OpcodesCB : list Opcode := map (add_length 1) OpcodesCB_literal.
Definition OpcodesDDCB : list Opcode := map (add_length 1) OpcodesDDCB_literal.

(** The IY variants are clones that differ in the mnemonic only. *)
Definition OpcodesFDCB : list Opcode :=
  map (fun opcode => with_name (JS.replace (name opcode) "IX" "IY") opcode) OpcodesDDCB.

Definition OpcodesDD : list Opcode := map (add_length 1) OpcodesDD_literal.

Definition OpcodesFD : list Opcode :=
  map (fun opcode =>
         if code opcode =? 0xCB then OpcodeExtended2_new 0xCB T_OpcodesFDCB
         else with_name (JS.replaceAll (name opcode) "IX" "IY") opcode)
      OpcodesDD.

Definition Opcodes : list Opcode := Opcodes_literal.

Definition table (t : TableId) : list Opcode :=
  match t with
  | T_Opcodes => Opcodes
  | T_OpcodesED => OpcodesED
  | T_OpcodesCB => OpcodesCB
  | T_OpcodesFD => OpcodesFD
  | T_OpcodesDD => OpcodesDD
  | T_OpcodesDDCB => OpcodesDDCB
  | T_OpcodesFDCB => OpcodesFDCB
  end.

(** Array indexing [opcodes[memValue]]; [None] is [undefined]. *)
Definition index_at {A} (l : list A) (i : Z) : option A :=
  if i <? 0 then None else l !! Z.to_nat i.

(** ** basememory.ts: the read interface *)

(** The byte array owned by [BaseMemory]: address to byte value. *)
Definition Bytes := Z → Z.

(** core/basememory.ts is not among the sources.  The decoder and the flow
    analysis only call its read accessors, which stay abstract: every
    statement below holds for any implementation of them. *)
Class BaseMemory := {
  getValueAt : Bytes → Z → Z;
  getWordValueAt : Bytes → Z → Z;
  getBigEndianWordValueAt : Bytes → Z → Z;
  getData : Bytes → Z → Z → list Z
}.

Definition MAX_MEM_SIZE : Z := 0x10000.

(** ** opcode.ts: decoding *)

Section Decoder.
Context `{BaseMemory}.
Variable memory : Bytes.

(** [if (this.value >= 0x80) this.value -= 0x100] *)
Definition toSigned (value : Z) : Z :=
  if 0x80 <=? value then value - 0x100 else value.

(** [Opcode.prototype.getOpcodeAt]: the operand is fetched according to
    the value type; the object itself is returned. *)
Definition getOpcodeAt_Opcode (this : Opcode) (address : Z) : Opcode :=
  match valueType this with
  | NumberType.CODE_RST
  | NumberType.NONE => this
  | NumberType.CODE_LBL
  | NumberType.CODE_SUB
  | NumberType.DATA_LBL
  | NumberType.NUMBER_WORD =>
      with_value (getWordValueAt memory (address + 1)) this
  | NumberType.NUMBER_WORD_BIG_ENDIAN =>
      with_value (getBigEndianWordValueAt memory (address + 1)) this
  | NumberType.RELATIVE_INDEX
  | NumberType.CODE_LOCAL_LBL
  | NumberType.CODE_LOCAL_LOOP =>
      let value := toSigned (getValueAt memory (address + 1)) in
      let value :=
        if (NumberType.eqb (valueType this) NumberType.CODE_LOCAL_LBL
            || NumberType.eqb (valueType this) NumberType.CODE_LOCAL_LOOP)%bool
        then value + (address + 2) else value in
      with_value value this
  | NumberType.NUMBER_BYTE =>
      with_value (getValueAt memory (address + 1)) this
  | NumberType.PORT_LBL =>
      with_value (getValueAt memory (address + 1)) this
  end.

(** [OpcodePrevIndex.getOpcodeAt]: the value is the byte before the opcode. *)
Definition getOpcodeAt_OpcodePrevIndex (this : Opcode) (address : Z) : Opcode :=
  with_value (toSigned (getValueAt memory (address - 1))) this.

(** [OpcodeIndexImmediate.getOpcodeAt] *)
Definition getOpcodeAt_OpcodeIndexImmediate (this : Opcode) (address : Z) : Opcode :=
  let this := with_value (toSigned (getValueAt memory (address + 1))) this in
  with_secondValue (getValueAt memory (address + 2)) this.

(** The static [Opcode.getOpcodeAt(memory, address, opcodes)] together with
    the dynamic dispatch on the class of the entry found.  Extended opcodes
    call back into the static function on their sub-array; [depth] bounds
    that chain of prefixes.  [None] is the [TypeError] of indexing an array
    with something that is no byte. *)
Fixpoint getOpcodeAt_in (depth : nat) (address : Z) (opcodes : TableId) : option Opcode :=
  match depth with
  | O => None
  | S depth' =>
      let memValue := getValueAt memory address in
      opcode ← index_at (table opcodes) memValue;
      match cls opcode with
      | C_OpcodeExtended sub => getOpcodeAt_in depth' (address + 1) sub
      | C_OpcodeExtended2 sub => getOpcodeAt_in depth' (address + 2) sub
      | C_OpcodePrevIndex => Some (getOpcodeAt_OpcodePrevIndex opcode address)
      | C_OpcodeIndexImmediate => Some (getOpcodeAt_OpcodeIndexImmediate opcode address)
      | C_Opcode | C_OpcodeIndex | C_OpcodeNOP | C_OpcodeInvalid =>
          Some (getOpcodeAt_Opcode opcode address)
      end
  end.

(** No chain of prefixes is longer than base, DD/FD, DDCB/FDCB. *)
Definition prefixDepth : nat := 3.

Definition getOpcodeAt (address : Z) : option Opcode :=
  getOpcodeAt_in prefixDepth address T_Opcodes.

End Decoder.

(** An array reaches its entries in [depth] prefix steps. *)
Fixpoint closedTable (depth : nat) (t : TableId) : bool :=
  match depth with
  | O => false
  | S depth' =>
      (length (table t) =? 256)%nat &&
      forallb (fun opcode =>
                 match cls opcode with
                 | C_OpcodeExtended sub | C_OpcodeExtended2 sub => closedTable depth' sub
                 | _ => true
                 end) (table t)
  end.

(** ** memory.ts *)

Module MemAttribute.
Definition UNUSED := 0.
Definition ASSIGNED := 0x01.
Definition CODE := 0x02.
Definition CODE_FIRST := 0x04.
Definition DATA := 0x10.
Definition RET_ANALYZED := 0x20.
Definition FLOW_ANALYZED := 0x40.
End MemAttribute.

(** [memory] is the byte array inherited from [BaseMemory], [memoryAttr] the
    attribute array.  An array slot that was never written holds
    [undefined], which [&] and [|] read as 0: the model stores 0 there. *)
Record Memory := mkMemory {
  memory : Bytes;
  memoryAttr : Z → Z
}.

Definition update (f : Z → Z) (k v : Z) : Z → Z :=
  fun a => if a =? k then v else f a.

Module MemoryOps.

Definition new : Memory := mkMemory (fun _ => 0) (fun _ => 0).

Definition clearAttributes (this : Memory) : Memory :=
  mkMemory (memory this) (fun _ => MemAttribute.UNUSED).

(** The loop visits every index of the attribute array (from its length
    down to 0); the slots beyond are holes, which the masking leaves 0. *)
Definition resetAttributeFlag (this : Memory) (flags : Z) : Memory :=
  let notFlags := Z.lnot flags in
  mkMemory (memory this) (fun k => Z.land (memoryAttr this k) notFlags).

Fixpoint setMemory_from (this : Memory) (origin : Z) (i : Z) (bytes : list Byte.byte) : Memory :=
  match bytes with
  | [] => this
  | b :: rest =>
      let addr := Z.land (origin + i) (MAX_MEM_SIZE - 1) in
      let this :=
        mkMemory (update (memory this) addr (Z.of_N (Byte.to_N b)))
                 (update (memoryAttr this) addr
                         (Z.lor (memoryAttr this addr) MemAttribute.ASSIGNED)) in
      setMemory_from this origin (i + 1) rest
  end.

Definition setMemory (this : Memory) (origin : Z) (bytes : list Byte.byte) : Memory :=
  setMemory_from this origin 0 bytes.

Definition getAttributeAt (this : Memory) (address : Z) : Z :=
  if ((address <? 0) || (address >=? 0x10000))%bool then 0
  else memoryAttr this address.

Definition addAttributeAt (this : Memory) (address attr : Z) : Memory :=
  mkMemory (memory this)
           (update (memoryAttr this) address (Z.lor (memoryAttr this address) attr)).

Fixpoint addAttributesAt_loop (n : nat) (this : Memory) (address attr : Z) : Memory :=
  match n with
  | O => this
  | S n' => addAttributesAt_loop n' (addAttributeAt this address attr) (address + 1) attr
  end.

Definition addAttributesAt (this : Memory) (address length attr : Z) : Memory :=
  addAttributesAt_loop (Z.to_nat length) this address attr.

Fixpoint setAttributesAt_loop (n : nat) (this : Memory) (address attr : Z) : Memory :=
  match n with
  | O => this
  | S n' =>
      setAttributesAt_loop n'
        (mkMemory (memory this) (update (memoryAttr this) address attr)) (address + 1) attr
  end.

Definition setAttributesAt (this : Memory) (address length attr : Z) : Memory :=
  setAttributesAt_loop (Z.to_nat length) this address attr.

Fixpoint searchAddrWithAttribute_loop (n : nat) (this : Memory) (searchAttr addr64k : Z)
  : option Z :=
  match n with
  | O => None
  | S n' =>
      let attr := memoryAttr this addr64k in
      if negb (Z.land attr searchAttr =? 0) then Some addr64k
      else searchAddrWithAttribute_loop n' this searchAttr (addr64k + 1)
  end.

Definition searchAddrWithAttribute (this : Memory) (searchAttr addr64k len : Z) : option Z :=
  searchAddrWithAttribute_loop (Z.to_nat len) this searchAttr addr64k.

End MemoryOps.

(** Modelled from the spec: the accessors of [BaseMemory] (core/basememory.ts
    is not among the sources).  The spec gives the model 65,536 bytes and has
    word operands little-endian with one big-endian variant; addresses are
    reduced to the 64K space the way [setMemory] reduces them.  Used for the
    concrete runs only. *)
Definition BaseMemory_64k : BaseMemory := {|
  getValueAt mem address := mem (Z.land address (MAX_MEM_SIZE - 1));
  getWordValueAt mem address :=
    mem (Z.land address (MAX_MEM_SIZE - 1))
    + 256 * mem (Z.land (address + 1) (MAX_MEM_SIZE - 1));
  getBigEndianWordValueAt mem address :=
    256 * mem (Z.land address (MAX_MEM_SIZE - 1))
    + mem (Z.land (address + 1) (MAX_MEM_SIZE - 1));
  getData mem address size :=
    map (fun i => mem (Z.land (address + i) (MAX_MEM_SIZE - 1))) (seqZ 0 size)
|}.

(** ** comments.ts *)

Module Comments.

(** [addrComments]: the lines recorded for an address, in order. *)
Abbreviation t := (gmap Z (list string)).

Definition clear (this : t) : t := ∅.

Definition addCommentForAddress (this : t) (addr64k : Z) (comment : string) : t :=
  let lines := default [] (this !! addr64k) in
  <[addr64k := lines ++ [comment]]> this.

Definition ambiguousText (targetAddress : Z) : string :=
  "The disassembly is ambiguous at " +:+ getHexFormattedString targetAddress 4 +:+ ".".

Definition differentBankText (targetAddress : Z) : string :=
  "The address " +:+ getHexFormattedString targetAddress 4 +:+ " is in a different bank.".

Definition unassignedText (targetAddress : Z) : string :=
  "The disassembly branches into unassigned memory at "
    +:+ getHexFormattedString targetAddress 4 +:+ ".".

Definition addAmbiguousComment (this : t) (originAddress targetAddress : Z) : t :=
  addCommentForAddress this originAddress (ambiguousText targetAddress).

Definition addDifferentBankAccessComment (this : t) (originAddress targetAddress : Z) : t :=
  addCommentForAddress this originAddress (differentBankText targetAddress).

Definition addBranchToUnassignedMemory (this : t) (originAddress targetAddress : Z) : t :=
  addCommentForAddress this originAddress (unassignedText targetAddress).

(** [getCommentsForAddresses(addr64k, len)] *)
Definition getCommentsForAddresses (this : t) (addr64k len : Z) : list string :=
  concat (map (fun i => default [] (this !! (addr64k + i))) (seqZ 0 len)).

End Comments.

(** ** asmnode.ts *)

(** A reference to an [AsmNode] object: its index in the object store of the
    current build. *)
Abbreviation NodeRef := nat.

(** An entry of [node.instructions]: a cloned opcode or the pseudo opcode
    that holds skipped bytes. *)
Inductive Instruction :=
| I_Opcode (opcode : Opcode)
| I_SkipPseudoOpcode (data : list Z).

Module AsmNode.

(** Modelled from the spec: the fields of [AsmNode] (core/asmnode.ts is not
    among the sources): start address, length, instruction list, optional
    label, data references, [isSubroutine], [stop], and the four edge
    lists [branchNodes], [predecessors], [callee], [callers]. *)
Record t := mk {
  start : Z;
  length : Z;
  label : option string;
  predecessors : list NodeRef;
  callers : list NodeRef;
  callee : option NodeRef;
  branchNodes : list NodeRef;
  instructions : list Instruction;
  dataReferences : list Z;
  isSubroutine : bool;
  stop : bool
}.

(** [new AsmNode()] *)
Definition new : t := mk 0 0 None [] [] None [] [] [] false false.

Definition set_start (v : Z) (n : t) : t :=
  mk v (length n) (label n) (predecessors n) (callers n) (callee n) (branchNodes n)
     (instructions n) (dataReferences n) (isSubroutine n) (stop n).
Definition set_length (v : Z) (n : t) : t :=
  mk (start n) v (label n) (predecessors n) (callers n) (callee n) (branchNodes n)
     (instructions n) (dataReferences n) (isSubroutine n) (stop n).
Definition set_label (v : string) (n : t) : t :=
  mk (start n) (length n) (Some v) (predecessors n) (callers n) (callee n) (branchNodes n)
     (instructions n) (dataReferences n) (isSubroutine n) (stop n).
Definition push_predecessor (r : NodeRef) (n : t) : t :=
  mk (start n) (length n) (label n) (predecessors n ++ [r]) (callers n) (callee n)
     (branchNodes n) (instructions n) (dataReferences n) (isSubroutine n) (stop n).
Definition push_caller (r : NodeRef) (n : t) : t :=
  mk (start n) (length n) (label n) (predecessors n) (callers n ++ [r]) (callee n)
     (branchNodes n) (instructions n) (dataReferences n) (isSubroutine n) (stop n).
Definition set_callee (r : NodeRef) (n : t) : t :=
  mk (start n) (length n) (label n) (predecessors n) (callers n) (Some r) (branchNodes n)
     (instructions n) (dataReferences n) (isSubroutine n) (stop n).
Definition push_branchNode (r : NodeRef) (n : t) : t :=
  mk (start n) (length n) (label n) (predecessors n) (callers n) (callee n)
     (branchNodes n ++ [r]) (instructions n) (dataReferences n) (isSubroutine n) (stop n).
Definition push_instruction (i : Instruction) (n : t) : t :=
  mk (start n) (length n) (label n) (predecessors n) (callers n) (callee n) (branchNodes n)
     (instructions n ++ [i]) (dataReferences n) (isSubroutine n) (stop n).
Definition push_dataReference (a : Z) (n : t) : t :=
  mk (start n) (length n) (label n) (predecessors n) (callers n) (callee n) (branchNodes n)
     (instructions n) (dataReferences n ++ [a]) (isSubroutine n) (stop n).
Definition set_isSubroutine (v : bool) (n : t) : t :=
  mk (start n) (length n) (label n) (predecessors n) (callers n) (callee n) (branchNodes n)
     (instructions n) (dataReferences n) v (stop n).
Definition set_stop (v : bool) (n : t) : t :=
  mk (start n) (length n) (label n) (predecessors n) (callers n) (callee n) (branchNodes n)
     (instructions n) (dataReferences n) (isSubroutine n) v.

End AsmNode.

(** The object store: every [AsmNode] created by the current build, indexed
    by its reference.  Nodes refer to each other by reference, so a change
    made through one alias is seen through all. *)
Abbreviation Store := (list AsmNode.t).

(** All references reachable from [from] by following [next] any number of
    times ([from] included): a fixed point is reached after at most as many
    rounds as there are objects. *)
Definition reachable (store : Store) (next : AsmNode.t → list NodeRef) (from : list NodeRef)
  : list NodeRef :=
  let step (seen : list NodeRef) :=
    fold_left (fun acc r =>
                 match store !! r with
                 | Some n => list_union acc (next n)
                 | None => acc
                 end) seen seen in
  Nat.iter (length store) step (remove_dups from).

(** Modelled from the spec: [AsmNode.markPredecessorsAsSubroutine]
    (core/asmnode.ts is not among the sources): the node propagates the
    subroutine flag to itself and to every transitive predecessor. *)
Definition markPredecessorsAsSubroutine (store : Store) (this : NodeRef) : Store :=
  fold_left (fun st r => alter (AsmNode.set_isSubroutine true) r st)
            (reachable store AsmNode.predecessors [this]) store.

(** Modelled from the spec: [AsmNode.getBranchesRecursive] (core/asmnode.ts
    is not among the sources): the branch closure of a node, the nodes
    reached from it through [branchNodes] edges, appended to [branches]. *)
Definition getBranchesRecursive (store : Store) (this : NodeRef) (branches : list NodeRef)
  : list NodeRef :=
  match store !! this with
  | Some n => list_union branches (reachable store AsmNode.branchNodes (AsmNode.branchNodes n))
  | None => branches
  end.

(** Modelled from the spec: [AsmNode.otherReference] (core/asmnode.ts is not
    among the sources): the node is reached by an edge that is not the plain
    top-down fall-through, that is by a call or from a predecessor that does
    not end where the node starts. *)
Definition otherReference (store : Store) (this : AsmNode.t) : bool :=
  negb (bool_decide (AsmNode.callers this = []))
  || existsb (fun r =>
                match store !! r with
                | Some p => negb (AsmNode.start p + AsmNode.length p =? AsmNode.start this)
                | None => false
                end) (AsmNode.predecessors this).

(** Modelled from the spec: [AsmNode.isLoopRoot] (core/asmnode.ts is not
    among the sources): the node is reached by a backward edge, from a
    predecessor at the same or a higher address that the node itself
    branches to, directly or not. *)
Definition isLoopRoot (store : Store) (this : AsmNode.t) : bool :=
  let closure := reachable store AsmNode.branchNodes (AsmNode.branchNodes this) in
  existsb (fun r =>
             match store !! r with
             | Some p => (AsmNode.start this <=? AsmNode.start p) && bool_decide (r ∈ closure)
             | None => false
             end) (AsmNode.predecessors this).

(** ** The insertion-ordered [Map] of the node table *)

Module NodeMap.

Abbreviation t := (list (Z * nat)).

Fixpoint get (this : t) (key : Z) : option NodeRef :=
  match this with
  | [] => None
  | (k, v) :: rest => if k =? key then Some v else get rest key
  end.

(** [set] keeps the position of a key that is already present. *)
Fixpoint set (this : t) (key : Z) (v : NodeRef) : t :=
  match this with
  | [] => [(key, v)]
  | (k, v') :: rest => if k =? key then (k, v) :: rest else (k, v') :: set rest key v
  end.

End NodeMap.

(** ** smartdisassembler.ts *)

(** The fields of [SmartDisassembler] that the two passes and the label
    assignment work on. *)
Record FlowGraph := mkFlowGraph {
  mem : Memory;                       (* this.memory *)
  nodes : NodeMap.t;                  (* this.nodes *)
  store : Store;                      (* the AsmNode objects of this build *)
  otherLabels : gmap Z string;        (* this.otherLabels *)
  comments : Comments.t               (* this.comments *)
}.

Definition set_mem (v : Memory) (g : FlowGraph) : FlowGraph :=
  mkFlowGraph v (nodes g) (store g) (otherLabels g) (comments g).
Definition set_nodes (v : NodeMap.t) (g : FlowGraph) : FlowGraph :=
  mkFlowGraph (mem g) v (store g) (otherLabels g) (comments g).
Definition set_store (v : Store) (g : FlowGraph) : FlowGraph :=
  mkFlowGraph (mem g) (nodes g) v (otherLabels g) (comments g).
Definition set_otherLabels (v : gmap Z string) (g : FlowGraph) : FlowGraph :=
  mkFlowGraph (mem g) (nodes g) (store g) v (comments g).
Definition set_comments (v : Comments.t) (g : FlowGraph) : FlowGraph :=
  mkFlowGraph (mem g) (nodes g) (store g) (otherLabels g) v.

(** A mutation of the object behind a reference. *)
Definition modify (r : NodeRef) (f : AsmNode.t → AsmNode.t) (g : FlowGraph) : FlowGraph :=
  set_store (alter f r (store g)) g.

(** An entry of the block array.  The array outlives a build: an entry
    written by an earlier build refers to an object that no table reaches any
    more and that nothing changes any more; it is kept by value ([Stale]) and
    is different from every object of the current build. *)
Inductive BlockRef :=
| Cur (r : NodeRef)
| Stale (n : AsmNode.t).

Definition Blocks := Z → option BlockRef.

(** [this.blocks[addr]] on an array of 0x10000 slots. *)
Definition blockAt (blocks : Blocks) (addr : Z) : option BlockRef :=
  if (0 <=? addr) && (addr <? 0x10000) then blocks addr else None.

(** [Array.prototype.fill(value, start, end)] on an array of [len] slots:
    negative bounds count from the end, all bounds are clamped. *)
Definition Array_fill (len : Z) (blocks : Blocks) (v : BlockRef) (start end_ : Z) : Blocks :=
  let k := if start <? 0 then Z.max (len + start) 0 else Z.min start len in
  let final := if end_ <? 0 then Z.max (len + end_) 0 else Z.min end_ len in
  fun i => if (k <=? i) && (i <? final) then Some v else blocks i.

(** Label prefixes. *)
Definition labelSubPrefix := "SUB_".
Definition labelLblPrefix := "LBL_".
Definition labelRstPrefix := "RST_".
Definition labelDataLblPrefix := "DATA_".
Definition labelCodePrefix := "CODE_".
Definition labelLocalLabelPrefix := "L".
Definition labelLocalLoopPrefix := "LOOP".

(** Decimal rendering of a counter in a string concatenation. *)
Definition numberToString (i : Z) : string := pretty i.

(** Iteration bounds of the loops.  Every byte of the 64K space is walked at
    most once per loop, and every walk queues at most two addresses. *)
Definition walkFuel : nat := Z.to_nat 0x10001.
Definition queueFuel : nat := Z.to_nat 0x20002.

Section Passes.
Context `{BaseMemory}.

(** [this.skipAddrs64k] and [this.funcGetLabel]: set by the owner of the
    disassembler, never written by the build. *)
Variable skipAddrs64k : gmap Z Z.
Variable funcGetLabel : Z → option string.

(** [getSkipForAddress]; the result is used as a condition: [undefined]
    and 0 end the loop. *)
Definition getSkipForAddress (addr64k : Z) : option Z := skipAddrs64k !! addr64k.

Definition skipTruthy (skip : option Z) : option Z :=
  match skip with
  | Some s => if s =? 0 then None else Some s
  | None => None
  end.

(** A skip chain that is longer than the table has entries is a cycle. *)
Definition skipFuel : nat := S (size skipAddrs64k).

(** [createNodeInMap] *)
Definition createNodeInMap (g : FlowGraph) (addr64k : Z) : FlowGraph * NodeRef :=
  let node := length (store g) in
  let g := set_store (store g ++ [AsmNode.set_start addr64k AsmNode.new]) g in
  (set_nodes (NodeMap.set (nodes g) addr64k node) g, node).

(** [getAddressForCodeFirst]: walk down to the start of the instruction. *)
Fixpoint getAddressForCodeFirst_loop (fuel : nat) (m : Memory) (addr64k : Z) : option Z :=
  match fuel with
  | O => None
  | S fuel' =>
      let attr := MemoryOps.getAttributeAt m addr64k in
      if hasFlag attr MemAttribute.CODE_FIRST then Some addr64k
      else getAddressForCodeFirst_loop fuel' m (addr64k - 1)
  end.

Definition getAddressForCodeFirst (g : FlowGraph) (addr64k : Z) : option Z :=
  getAddressForCodeFirst_loop walkFuel (mem g) addr64k.

(** The adjustment of the return address in [createNodeForAddress]:
    [while ((skip = this.getSkipForAddress(addr64k))) addr64k = (addr64k +
    skip) & 0xFFFF]. *)
Fixpoint skipReturnAddress (fuel : nat) (addr64k : Z) : option Z :=
  match fuel with
  | O => None
  | S fuel' =>
      match skipTruthy (getSkipForAddress addr64k) with
      | Some skip => skipReturnAddress fuel' (Z.land (addr64k + skip) 0xFFFF)
      | None => Some addr64k
      end
  end.

(** The inner [while (true)] of [createNodeForAddress]: follows the
    instructions from [addr64k] on and returns the addresses it pushes on
    [allBranchAddresses]. *)
Fixpoint followFlow (fuel : nat) (g : FlowGraph) (addr64k : Z)
  : option (FlowGraph * list Z) :=
  match fuel with
  | O => None
  | S fuel' =>
      refOpcode ← getOpcodeAt (memory (mem g)) addr64k;
      let flowAddr :=
        MemoryOps.searchAddrWithAttribute (mem g) MemAttribute.FLOW_ANALYZED
          (addr64k + 1) (op_length refOpcode - 1) in
      let g :=
        set_mem (MemoryOps.addAttributesAt (mem g) addr64k (op_length refOpcode)
                   (Z.lor MemAttribute.FLOW_ANALYZED MemAttribute.CODE)) g in
      let g := set_mem (MemoryOps.addAttributeAt (mem g) addr64k MemAttribute.CODE_FIRST) g in
      match flowAddr with
      | Some flowAddr =>
          Some (set_comments (Comments.addAmbiguousComment (comments g) addr64k flowAddr) g,
                [])
      | None =>
          let addr64k := addr64k + op_length refOpcode in
          let memAttrNext := MemoryOps.getAttributeAt (mem g) addr64k in
          let flags := flags refOpcode in
          if hasFlag flags OpcodeFlag.BRANCH_ADDRESS then
            let branchAddress := value refOpcode in
            if negb (hasFlag flags OpcodeFlag.STOP) then
              addr64k ← skipReturnAddress skipFuel addr64k;
              Some (g, [addr64k; branchAddress])
            else Some (g, [branchAddress])
          else if addr64k >? 0xFFFF then Some (g, [])
          else if hasFlag flags OpcodeFlag.RET && hasFlag flags OpcodeFlag.CONDITIONAL then
            Some (g, [addr64k])
          else if hasFlag memAttrNext MemAttribute.FLOW_ANALYZED then Some (g, [])
          else if hasFlag flags OpcodeFlag.STOP then Some (g, [])
          else followFlow fuel' g addr64k
      end
  end.

(** The [for] loop of [createNodeForAddress] over [allBranchAddresses];
    [queue] holds the entries from index [i] on. *)
Fixpoint createNodeForAddress_loop (fuel : nat) (g : FlowGraph) (queue : list Z)
  : option FlowGraph :=
  match queue with
  | [] => Some g
  | addr64k :: rest =>
      match fuel with
      | O => None
      | S fuel' =>
          match NodeMap.get (nodes g) addr64k with
          | Some _ => createNodeForAddress_loop fuel' g rest
          | None =>
              let memAttr := MemoryOps.getAttributeAt (mem g) addr64k in
              if hasFlag memAttr MemAttribute.FLOW_ANALYZED then
                if hasFlag memAttr MemAttribute.CODE_FIRST then
                  createNodeForAddress_loop fuel' (createNodeInMap g addr64k).1 rest
                else
                  createNodeForAddress_loop fuel'
                    (set_comments
                       (Comments.addAmbiguousComment (comments g) addr64k addr64k) g)
                    rest
              else if negb (hasFlag memAttr MemAttribute.ASSIGNED) then
                createNodeForAddress_loop fuel' g rest
              else
                let g := (createNodeInMap g addr64k).1 in
                '(g, pushed) ← followFlow walkFuel g addr64k;
                createNodeForAddress_loop fuel' g (rest ++ pushed)
          end
      end
  end.

Definition createNodeForAddress (g : FlowGraph) (address64k : Z) : option FlowGraph :=
  createNodeForAddress_loop queueFuel g [address64k].

(** [sortedAdresses.sort((a, b) => a - b)] *)
Definition sortAddresses (addresses : list Z) : list Z := merge_sort Z.le addresses.

(** [createNodes] *)
Fixpoint createNodes_loop (g : FlowGraph) (sortedAdresses : list Z) : option FlowGraph :=
  match sortedAdresses with
  | [] => Some g
  | addr64k :: rest =>
      let memAttr := MemoryOps.getAttributeAt (mem g) addr64k in
      if hasFlag memAttr MemAttribute.FLOW_ANALYZED then
        if negb (hasFlag memAttr MemAttribute.CODE_FIRST) then
          createNodes_loop
            (set_comments (Comments.addAmbiguousComment (comments g) addr64k addr64k) g) rest
        else createNodes_loop g rest
      else
        g ← createNodeForAddress g addr64k;
        createNodes_loop g rest
  end.

Definition createNodes (g : FlowGraph) (addresses : list Z) : option FlowGraph :=
  createNodes_loop g (sortAddresses addresses).

(** [createNodesForLabels] *)
Fixpoint createNodesForLabels (g : FlowGraph) (addr64kLabels : list (Z * string))
  : FlowGraph :=
  match addr64kLabels with
  | [] => g
  | (addr64k, label) :: rest =>
      let attr := MemoryOps.getAttributeAt (mem g) addr64k in
      if hasFlag attr MemAttribute.CODE_FIRST then
        let '(g, node) :=
          match NodeMap.get (nodes g) addr64k with
          | Some node => (g, node)
          | None => createNodeInMap g addr64k
          end in
        createNodesForLabels (modify node (AsmNode.set_label label) g) rest
      else
        createNodesForLabels (set_otherLabels (<[addr64k := label]> (otherLabels g)) g) rest
  end.

(** [getNodeForFill]: the node of the table, or a new node that is not
    entered into the table, with a comment at the originating address. *)
Definition getNodeForFill (g : FlowGraph) (originAddress targetAddress : Z)
  : FlowGraph * NodeRef :=
  match NodeMap.get (nodes g) targetAddress with
  | Some otherNode => (g, otherNode)
  | None =>
      let otherNode := length (store g) in
      let g := set_store (store g ++ [AsmNode.set_start targetAddress AsmNode.new]) g in
      let attr := MemoryOps.getAttributeAt (mem g) targetAddress in
      if hasFlag attr MemAttribute.ASSIGNED then
        (set_comments
           (Comments.addAmbiguousComment (comments g) originAddress targetAddress) g,
         otherNode)
      else
        (set_comments
           (Comments.addBranchToUnassignedMemory (comments g) originAddress targetAddress) g,
         otherNode)
  end.

(** [node.branchNodes.push(target); target.predecessors.push(node)] *)
Definition linkBranch (node target : NodeRef) (g : FlowGraph) : FlowGraph :=
  let g := modify node (AsmNode.push_branchNode target) g in
  modify target (AsmNode.push_predecessor node) g.

(** The skip loop of [fillNode]: the skipped bytes become pseudo opcodes of
    the node, the address moves on without wrapping. *)
Fixpoint fillSkips (fuel : nat) (g : FlowGraph) (node : NodeRef) (addr64k : Z)
  : option (FlowGraph * Z) :=
  match fuel with
  | O => None
  | S fuel' =>
      match skipTruthy (getSkipForAddress addr64k) with
      | Some skip =>
          let data := getData (memory (mem g)) addr64k skip in
          let g := modify node (AsmNode.push_instruction (I_SkipPseudoOpcode data)) g in
          fillSkips fuel' g node (addr64k + skip)
      | None => Some (g, addr64k)
      end
  end.

(** The [while (true)] of [fillNode]; returns the address reached. *)
Fixpoint fillNode_loop (fuel : nat) (g : FlowGraph) (node : NodeRef) (addr64k : Z)
  : option (FlowGraph * Z) :=
  match fuel with
  | O => None
  | S fuel' =>
      refOpcode ← getOpcodeAt (memory (mem g)) addr64k;
      let opcode := refOpcode in
      g ← (if NumberType.eqb (valueType opcode) NumberType.DATA_LBL then
             let adjAddr64k := value opcode in
             let attr := MemoryOps.getAttributeAt (mem g) adjAddr64k in
             adjAddr64k ← (if hasFlag attr MemAttribute.CODE
                            then getAddressForCodeFirst g adjAddr64k
                            else Some adjAddr64k);
             Some (modify node (AsmNode.push_dataReference adjAddr64k) g)
           else Some g);
      let g := modify node (AsmNode.push_instruction (I_Opcode opcode)) g in
      let lastAddr64k := addr64k in
      let addr64k := addr64k + op_length opcode in
      let flags := flags opcode in
      if hasFlag flags OpcodeFlag.BRANCH_ADDRESS then
        let branchAddress := value opcode in
        '(g, addr64k) ←
          (if negb (hasFlag flags OpcodeFlag.STOP) then
             '(g, addr64k) ← fillSkips skipFuel g node addr64k;
             if addr64k <? 0x10000 then
               let '(g, followingNode) :=
                 getNodeForFill g lastAddr64k (Z.land addr64k 0xFFFF) in
               Some (linkBranch node followingNode g, addr64k)
             else Some (g, addr64k)
           else Some (g, addr64k));
        let '(g, branchNode) := getNodeForFill g lastAddr64k branchAddress in
        let g :=
          if hasFlag flags OpcodeFlag.CALL then
            let g := modify node (AsmNode.set_callee branchNode) g in
            modify branchNode (AsmNode.push_caller node) g
          else linkBranch node branchNode g in
        let g :=
          if hasFlag flags OpcodeFlag.STOP then modify node (AsmNode.set_stop true) g
          else g in
        Some (g, addr64k)
      else
        let g :=
          if hasFlag flags OpcodeFlag.RET
          then modify node (AsmNode.set_isSubroutine true) g else g in
        if hasFlag flags OpcodeFlag.STOP then
          Some (modify node (AsmNode.set_stop true) g, addr64k)
        else if addr64k >? 0xFFFF then Some (g, addr64k)
        else
          match NodeMap.get (nodes g) addr64k with
          | Some followingNode => Some (linkBranch node followingNode g, addr64k)
          | None =>
              let flowAddr :=
                MemoryOps.searchAddrWithAttribute (mem g) MemAttribute.CODE_FIRST
                  (lastAddr64k + 1) (op_length opcode - 1) in
              match flowAddr with
              | Some _ => Some (g, addr64k)
              | None => fillNode_loop fuel' g node addr64k
              end
          end
  end.

(** [fillNode] *)
Definition fillNode (g : FlowGraph) (node : NodeRef) : option FlowGraph :=
  n ← store g !! node;
  '(g, addr64k) ← fillNode_loop walkFuel g node (AsmNode.start n);
  Some (modify node (AsmNode.set_length (addr64k - AsmNode.start n)) g).

(** [fillNodes]: the table is not changed while it is iterated. *)
Fixpoint fillNodes_loop (g : FlowGraph) (entries : NodeMap.t) : option FlowGraph :=
  match entries with
  | [] => Some g
  | (_, node) :: rest => g ← fillNode g node; fillNodes_loop g rest
  end.

Definition fillNodes (g : FlowGraph) : option FlowGraph := fillNodes_loop g (nodes g).

(** One round of the loop of [markSubroutines]. *)
Definition markSubroutines_step (st : Store) (node : NodeRef) : Store :=
  match st !! node with
  | Some n =>
      if AsmNode.isSubroutine n then
        fold_left markPredecessorsAsSubroutine (AsmNode.predecessors n) st
      else if negb (bool_decide (AsmNode.callers n = [])) then
        alter (AsmNode.set_isSubroutine true) node st
      else st
  | None => st
  end.

(** [markSubroutines] *)
Definition markSubroutines (g : FlowGraph) : FlowGraph :=
  set_store (fold_left markSubroutines_step (map snd (nodes g)) (store g)) g.

(** [Array.from(this.nodes.values())] sorted with [(a, b) => a.start -
    b.start]; every node is paired with its start address. *)
Definition byStart (a b : Z * NodeRef) : Prop := a.1 ≤ b.1.

Global Instance byStart_dec : RelDecision byStart.
Proof. intros a b. unfold byStart. apply _. Defined.

Global Instance byStart_transitive : Transitive byStart.
Proof. intros a b c. unfold byStart. lia. Qed.

Global Instance byStart_total : Total byStart.
Proof. intros a b. unfold byStart. lia. Qed.

Definition sortedNodes (g : FlowGraph) : option (list (Z * NodeRef)) :=
  keyed ← mapM (fun node => n ← store g !! node; Some (AsmNode.start n, node))
               (map snd (nodes g));
  Some (merge_sort byStart keyed).

(** The loop variables of [partitionBlocks]; [addr] is [undefined] before
    the first round. *)
Record Partition := mkPartition {
  blockNode : option NodeRef;
  blockBranches : list NodeRef;
  addr : option Z;
  filled : Blocks
}.

Definition partitionBlocks_step (st : Store) (p : Partition) (node : NodeRef)
  : option Partition :=
  n ← st !! node;
  let p :=
    if negb (bool_decide (addr p = Some (AsmNode.start n)))
       || negb (bool_decide (AsmNode.callers n = []))
       || negb (bool_decide (node ∈ blockBranches p))
    then mkPartition (Some node) (getBranchesRecursive st node [])
                     (Some (AsmNode.start n)) (filled p)
    else p in
  blockNode ← blockNode p;
  addr ← addr p;
  Some (mkPartition (Some blockNode) (blockBranches p) (Some (addr + AsmNode.length n))
          (Array_fill 0x10000 (filled p) (Cur blockNode) addr (addr + AsmNode.length n))).

Fixpoint partitionBlocks_loop (st : Store) (p : Partition) (sorted : list NodeRef)
  : option Partition :=
  match sorted with
  | [] => Some p
  | node :: rest => p ← partitionBlocks_step st p node; partitionBlocks_loop st p rest
  end.

(** [partitionBlocks] *)
Definition partitionBlocks (g : FlowGraph) (blocks : Blocks) : option Blocks :=
  sorted ← sortedNodes g;
  p ← partitionBlocks_loop (store g) (mkPartition None [] None blocks) (map snd sorted);
  Some (filled p).

(** [this.blocks[addr] == node] for a node of the current build. *)
Definition isNode (b : option BlockRef) (node : NodeRef) : bool :=
  match b with
  | Some (Cur r) => bool_decide (r = node)
  | _ => false
  end.

(** The [while (addr < 0x10000)] of [assignLocalLabels]: collects the
    nodes of the block that need a local label.  A failed
    [Utility.assert] throws. *)
Fixpoint collectLocalNodes (fuel : nat) (g : FlowGraph) (blocks : Blocks) (node : NodeRef)
    (addr : Z) (blockNode : NodeRef) (localNodes loopNodes : list NodeRef)
  : option (list NodeRef * list NodeRef) :=
  match fuel with
  | O => None
  | S fuel' =>
      if addr <? 0x10000 then
        b ← store g !! blockNode;
        let '(localNodes, loopNodes) :=
          if otherReference (store g) b && negb (JS.truthy (AsmNode.label b)) then
            if isLoopRoot (store g) b then (localNodes, loopNodes ++ [blockNode])
            else (localNodes ++ [blockNode], loopNodes)
          else (localNodes, loopNodes) in
        if negb (addr =? AsmNode.start b) then None
        else
          let addr := addr + AsmNode.length b in
          if negb (isNode (blockAt blocks addr) node) then Some (localNodes, loopNodes)
          else
            blockNode ← NodeMap.get (nodes g) addr;
            collectLocalNodes fuel' g blocks node addr blockNode localNodes loopNodes
      else Some (localNodes, loopNodes)
  end.

(** Labels [prefix + i], [prefix + (i+1)], ... in the order of the list. *)
Fixpoint numberLabels (g : FlowGraph) (prefix : string) (i : Z) (targets : list NodeRef)
  : FlowGraph :=
  match targets with
  | [] => g
  | r :: rest =>
      numberLabels (modify r (AsmNode.set_label (prefix +:+ numberToString i)) g)
                   prefix (i + 1) rest
  end.

(** Global labels ["LBL_" + hex] for the nodes of the list. *)
Fixpoint globalLabels (g : FlowGraph) (targets : list NodeRef) : option FlowGraph :=
  match targets with
  | [] => Some g
  | r :: rest =>
      n ← store g !! r;
      globalLabels
        (modify r (AsmNode.set_label (labelLblPrefix +:+ getHexString (AsmNode.start n) 4)) g)
        rest
  end.

(** [assignLocalLabels] *)
Definition assignLocalLabels (g : FlowGraph) (blocks : Blocks) (node : NodeRef)
  : option FlowGraph :=
  n ← store g !! node;
  '(localNodes, loopNodes) ←
    collectLocalNodes walkFuel g blocks node (AsmNode.start n) node [] [];
  if JS.truthy (AsmNode.label n) then
    let preLabel := default "" (AsmNode.label n) +:+ "." in
    let g := numberLabels g (preLabel +:+ labelLocalLabelPrefix) 1 localNodes in
    match loopNodes with
    | [loopNode] =>
        Some (modify loopNode (AsmNode.set_label (preLabel +:+ labelLocalLoopPrefix)) g)
    | _ => Some (numberLabels g (preLabel +:+ labelLocalLoopPrefix) 1 loopNodes)
    end
  else
    g ← globalLabels g localNodes;
    globalLabels g loopNodes.

(** The global label that [assignNodeLabels] gives to the leading node of
    a block, if any. *)
Definition globalLabel (n : AsmNode.t) (addr64k : Z) : option string :=
  if negb (bool_decide (AsmNode.callers n = []))
     || negb (bool_decide (AsmNode.predecessors n = []))
  then
    if AsmNode.isSubroutine n then
      if negb (Z.land (AsmNode.start n) (Z.lnot 0x38 (* ~0b00111000 *)) =? 0) then
        Some (labelSubPrefix +:+ getHexString addr64k 4)
      else
        Some (labelRstPrefix +:+ getHexString addr64k 2)
    else
      Some (labelLblPrefix +:+ getHexString addr64k 4)
  else None.

(** One round of the loop of [assignNodeLabels]. *)
Definition assignNodeLabels_step (blocks : Blocks) (g : FlowGraph) (entry : Z * NodeRef)
  : option FlowGraph :=
  let '(addr64k, node) := entry in
  match blockAt blocks addr64k with
  | None => Some g
  | Some blockNode =>
      if isNode (Some blockNode) node then
        n ← store g !! node;
        let g :=
          if negb (JS.truthy (AsmNode.label n)) then
            match globalLabel n addr64k with
            | Some label => modify node (AsmNode.set_label label) g
            | None => g
            end
          else g in
        assignLocalLabels g blocks node
      else Some g
  end.

Fixpoint assignNodeLabels_loop (blocks : Blocks) (g : FlowGraph) (entries : NodeMap.t)
  : option FlowGraph :=
  match entries with
  | [] => Some g
  | entry :: rest =>
      g ← assignNodeLabels_step blocks g entry;
      assignNodeLabels_loop blocks g rest
  end.

(** [assignNodeLabels] *)
Definition assignNodeLabels (g : FlowGraph) (blocks : Blocks) : option FlowGraph :=
  assignNodeLabels_loop blocks g (nodes g).

(** [funcGetLabel(addr64k)], then the label of the node at the address,
    then [otherLabels]; each is skipped when falsy. *)
Definition knownLabel (g : FlowGraph) (addr64k : Z) : option string :=
  let label := funcGetLabel addr64k in
  let label :=
    if JS.truthy label then label
    else (node ← NodeMap.get (nodes g) addr64k; n ← store g !! node; AsmNode.label n) in
  if JS.truthy label then label else otherLabels g !! addr64k.

(** The label of the object behind a block entry. *)
Definition blockLabel (g : FlowGraph) (b : BlockRef) : option (option string) :=
  match b with
  | Cur r => AsmNode.label <$> store g !! r
  | Stale n => Some (AsmNode.label n)
  end.

(** The body of the inner loop of [assignOpcodeReferenceLabels]. *)
Definition assignOpcodeReferenceLabel (blocks : Blocks) (g : FlowGraph) (addr64k : Z)
  : option FlowGraph :=
  if JS.truthy (knownLabel g addr64k) then Some g
  else
    let attr := MemoryOps.getAttributeAt (mem g) addr64k in
    if hasFlag attr MemAttribute.CODE then
      blockNode ← blockAt blocks addr64k;
      label ← blockLabel g blockNode;
      let label :=
        if JS.truthy label then
          default "" label +:+ "." +:+ labelCodePrefix +:+ getHexString addr64k 4
        else labelCodePrefix +:+ getHexString addr64k 4 in
      Some (set_otherLabels (<[addr64k := label]> (otherLabels g)) g)
    else
      let label := labelDataLblPrefix +:+ getHexString addr64k 4 in
      Some (set_otherLabels (<[addr64k := label]> (otherLabels g)) g).

Fixpoint assignOpcodeReferenceLabels_node (blocks : Blocks) (g : FlowGraph)
    (dataReferences : list Z) : option FlowGraph :=
  match dataReferences with
  | [] => Some g
  | addr64k :: rest =>
      g ← assignOpcodeReferenceLabel blocks g addr64k;
      assignOpcodeReferenceLabels_node blocks g rest
  end.

Fixpoint assignOpcodeReferenceLabels_loop (blocks : Blocks) (g : FlowGraph)
    (entries : NodeMap.t) : option FlowGraph :=
  match entries with
  | [] => Some g
  | (_, node) :: rest =>
      n ← store g !! node;
      g ← assignOpcodeReferenceLabels_node blocks g (AsmNode.dataReferences n);
      assignOpcodeReferenceLabels_loop blocks g rest
  end.

(** [assignOpcodeReferenceLabels] *)
Definition assignOpcodeReferenceLabels (g : FlowGraph) (blocks : Blocks)
  : option FlowGraph :=
  assignOpcodeReferenceLabels_loop blocks g (nodes g).

(** What the block array keeps of an object once [this.nodes.clear()] has
    dropped it from the table. *)
Definition retire (st : Store) (b : option BlockRef) : option BlockRef :=
  match b with
  | Some (Cur r) => Stale <$> st !! r
  | _ => b
  end.

(** The first steps of [getFlowGraph]: the state of the last build is
    dropped, the bytes and their ASSIGNED flags are kept. *)
Definition clearBuild (g : FlowGraph) : FlowGraph :=
  let g := set_store [] (set_nodes [] g) in                 (* this.nodes.clear() *)
  let g := set_otherLabels ∅ g in                           (* this.otherLabels.clear() *)
  let g := set_comments (Comments.clear (comments g)) g in  (* this.comments.clear() *)
  set_mem (MemoryOps.resetAttributeFlag (mem g) (Z.lnot MemAttribute.ASSIGNED)) g.

(** The steps of [getFlowGraph] that build the nodes and their edges. *)
Definition buildNodes (g : FlowGraph) (addresses : list Z) (labels : list (Z * string))
  : option FlowGraph :=
  g ← createNodes g addresses;
  let g := createNodesForLabels g labels in
  g ← fillNodes g;
  Some (markSubroutines g).

(** The steps of [getFlowGraph] that follow: blocks and labels. *)
Definition buildLabels (g : FlowGraph) (blocks : Blocks) : option (FlowGraph * Blocks) :=
  blocks ← partitionBlocks g blocks;
  g ← assignNodeLabels g blocks;
  g ← assignOpcodeReferenceLabels g blocks;
  Some (g, blocks).

(** [getFlowGraph].  [None] stands for a thrown exception (a failed
    assertion) or for a loop that does not end. *)
Definition getFlowGraph (g : FlowGraph) (blocks : Blocks) (addresses : list Z)
    (labels : list (Z * string)) : option (FlowGraph * Blocks) :=
  let blocks := fun a => retire (store g) (blocks a) in
  g ← buildNodes (clearBuild g) addresses labels;
  buildLabels g blocks.

End Passes.

(** The disassembler object. *)
Record SmartDisassembler := mkSmartDisassembler {
  graph : FlowGraph;
  blocks : Blocks;
  skipAddrs64k : gmap Z Z;
  funcGetLabel : Z → option string
}.

Module Disassembler.

(** [new SmartDisassembler()] *)
Definition new : SmartDisassembler :=
  mkSmartDisassembler (mkFlowGraph MemoryOps.new [] [] ∅ ∅) (fun _ => None) ∅
                      (fun _ => None).

(** [setMemory(origin, memory)] *)
Definition setMemory (this : SmartDisassembler) (origin : Z) (bytes : list Byte.byte)
  : SmartDisassembler :=
  mkSmartDisassembler
    (set_mem (MemoryOps.setMemory (mem (graph this)) origin bytes) (graph this))
    (blocks this) (skipAddrs64k this) (funcGetLabel this).

(** [getFlowGraph(addresses, labels)] *)
Definition getFlowGraph `{BaseMemory} (this : SmartDisassembler) (addresses : list Z)
    (labels : list (Z * string)) : option SmartDisassembler :=
  '(g, blocks) ←
    getFlowGraph (skipAddrs64k this) (funcGetLabel this) (graph this) (blocks this)
      addresses labels;
  Some (mkSmartDisassembler g blocks (skipAddrs64k this) (funcGetLabel this)).


End Disassembler.

(** * Vocabulary of the statements *)

Definition terminalClass (c : OpcodeClass) : bool :=
  match c with
  | C_Opcode | C_OpcodeIndex | C_OpcodeNOP | C_OpcodeInvalid => true
  | _ => false
  end.

(** The opcode bytes of the RST instructions and of the relative jumps. *)
Definition rstCodes : list Z := [0xC7; 0xCF; 0xD7; 0xDF; 0xE7; 0xEF; 0xF7; 0xFF].
Definition relativeCodes : list Z := [0x10; 0x18; 0x20; 0x28; 0x30; 0x38].

(** The entries of an array that carry a relative branch target. *)
Definition relativeEntries (t : TableId) : list Z :=
  map code
      (filter (fun opcode =>
                 NumberType.eqb (valueType opcode) NumberType.CODE_LOCAL_LBL
                 || NumberType.eqb (valueType opcode) NumberType.CODE_LOCAL_LOOP)
              (table t)).

(** The two arrays behind the doubly prefixed index-bit instructions. *)
Definition indexBitTable (prefix : Z) : TableId :=
  if prefix =? 0xDD then T_OpcodesDDCB else T_OpcodesFDCB.

Definition allPrevIndex (t : TableId) : bool :=
  forallb (fun opcode =>
             match cls opcode with
             | C_OpcodePrevIndex => op_length opcode =? 4
             | _ => false
             end) (table t).

(** The 64K reduction of an address. *)
Definition wrap64k (a : Z) : Z := a mod 65536.

(** A memory image with the given bytes at address 0, read through the
    modelled accessors. *)
Definition imageAt (origin : Z) (bytes : list Byte.byte) : Bytes :=
  memory (MemoryOps.setMemory MemoryOps.new origin bytes).

(** The three builds used as examples.  Scenario A: CALL 0x8010, RET at
    0x8000 and LD A,5, RET at 0x8010.  Scenario D: a CALL into memory that
    was never loaded.  A lone subroutine body: LD A,5, RET entered at its
    first byte.  A gap: NOP at 0x8000, nothing loaded at 0x8001 and JP
    0x8001 at 0x8002. *)
Definition scenarioA : SmartDisassembler :=
  let d := Disassembler.setMemory Disassembler.new 0x8000 [xcd; x10; x80] in
  let d := Disassembler.setMemory d 0x8003 [xc9] in
  Disassembler.setMemory d 0x8010 [x3e; x05; xc9].

Definition scenarioD : SmartDisassembler :=
  Disassembler.setMemory Disassembler.new 0x8000 [xcd; x00; x90; xc9].

Definition loneSubroutine : SmartDisassembler :=
  Disassembler.setMemory Disassembler.new 0x8010 [x3e; x05; xc9].

Definition gapScenario : SmartDisassembler :=
  let d := Disassembler.setMemory Disassembler.new 0x8000 [x00] in
  Disassembler.setMemory d 0x8002 [xc3; x01; x80].

(** The builds run with the modelled memory accessors. *)
Definition run (this : SmartDisassembler) (addresses : list Z) : option SmartDisassembler :=
  @Disassembler.getFlowGraph BaseMemory_64k this addresses [].

(** The graph of a build after pass 1, and after [markSubroutines]. *)
Definition afterCreateNodes (this : SmartDisassembler) (addresses : list Z)
  : option FlowGraph :=
  @createNodes BaseMemory_64k (skipAddrs64k this) (clearBuild (graph this)) addresses.

Definition afterMarkSubroutines (this : SmartDisassembler) (addresses : list Z)
  : option FlowGraph :=
  @buildNodes BaseMemory_64k (skipAddrs64k this) (clearBuild (graph this)) addresses [].

(** The node behind a reference, and the node of the table at an address. *)
Definition nodeAt (g : FlowGraph) (addr64k : Z) : option AsmNode.t :=
  node ← NodeMap.get (nodes g) addr64k; store g !! node.

(** What scenario A looks at in the result of a build. *)
Definition summaryA (d : SmartDisassembler)
  : option AsmNode.t * option NodeRef * option AsmNode.t * option AsmNode.t :=
  (nodeAt (graph d) 0x8000, NodeMap.get (nodes (graph d)) 0x8010,
   nodeAt (graph d) 0x8010, nodeAt (graph d) 0x8003).

(** Scenario A with the node length that the specification expects. *)
Definition scenarioA_as_specified : Prop :=
  ∃ d n0 r10 n10,
    run scenarioA [0x8000] = Some d
    ∧ nodeAt (graph d) 0x8000 = Some n0
    ∧ AsmNode.length n0 = 4
    ∧ NodeMap.get (nodes (graph d)) 0x8010 = Some r10
    ∧ AsmNode.callee n0 = Some r10
    ∧ store (graph d) !! r10 = Some n10
    ∧ AsmNode.isSubroutine n10 = true
    ∧ AsmNode.label n0 = None
    ∧ AsmNode.callers n0 = []
    ∧ AsmNode.predecessors n0 = [].

(** [st'] comes from [st] by raising subroutine flags: the same objects,
    the same callers, no flag taken back. *)
Definition flagsRaised (st st' : Store) : Prop :=
  ∀ r n', st' !! r = Some n' →
    ∃ n, st !! r = Some n
         ∧ AsmNode.callers n' = AsmNode.callers n
         ∧ (AsmNode.isSubroutine n = true → AsmNode.isSubroutine n' = true).

(** The graph that [markSubroutines] works on in a build, and the empty
    graph as the value of a build that throws. *)
Definition filledGraph (this : SmartDisassembler) (addresses : list Z) : FlowGraph :=
  default (graph Disassembler.new)
    (g ← afterCreateNodes this addresses;
     @fillNodes BaseMemory_64k (skipAddrs64k this) g).

(** "Every node with callers is a subroutine", over the objects a build can
    reach, in the table or not. *)
Definition calledNodesMarked (g : FlowGraph) : Prop :=
  ∀ r n, store g !! r = Some n → AsmNode.callers n ≠ [] → AsmNode.isSubroutine n = true.

(** The graph of a build after pass 1, with the empty graph as the value of
    a build that throws. *)
Definition discoveredGraph (this : SmartDisassembler) (addresses : list Z) : FlowGraph :=
  default (graph Disassembler.new) (afterCreateNodes this addresses).

(** "Pass 2 answers every branch into unassigned memory with a placeholder
    and a diagnostic." *)
Definition placeholderForEveryUnassignedTarget : Prop :=
  ∀ g originAddress targetAddress,
    hasFlag (MemoryOps.getAttributeAt (mem g) targetAddress) MemAttribute.ASSIGNED = false →
    ∃ g' placeholder,
      getNodeForFill g originAddress targetAddress = (g', placeholder)
      ∧ length (store g') = S (length (store g))
      ∧ comments g' !! originAddress
        = Some (default [] (comments g !! originAddress)
                ++ [Comments.unassignedText targetAddress]).

(** A node with its label erased: what the label assignment leaves alone. *)
Definition unlabel (n : AsmNode.t) : AsmNode.t :=
  AsmNode.mk (AsmNode.start n) (AsmNode.length n) None (AsmNode.predecessors n)
             (AsmNode.callers n) (AsmNode.callee n) (AsmNode.branchNodes n)
             (AsmNode.instructions n) (AsmNode.dataReferences n) (AsmNode.isSubroutine n)
             (AsmNode.stop n).

(** Two graphs that differ in the labels of their nodes only. *)
Definition sameButLabels (g g' : FlowGraph) : Prop :=
  mem g' = mem g ∧ nodes g' = nodes g ∧ otherLabels g' = otherLabels g
  ∧ comments g' = comments g ∧ unlabel <$> store g' = unlabel <$> store g.

(** [r] is a node that [assignLocalLabels(node)] walks over: [node] itself
    or a node of the table at an address of the block of [node]. *)
Definition inBlockOf (g : FlowGraph) (blocks : Blocks) (node r : nat) : Prop :=
  r = node
  ∨ ∃ addr, NodeMap.get (nodes g) addr = Some r ∧ isNode (blockAt blocks addr) node = true.

(** [r] is a node that [assignLocalLabels] gives a label to when it walks
    over it. *)
Definition needsLocalLabel (g : FlowGraph) (r : nat) : Prop :=
  ∃ b, store g !! r = Some b
       ∧ otherReference (store g) b = true ∧ JS.truthy (AsmNode.label b) = false.

(** The label that the leading node of a block has after [assignNodeLabels]
    when it had none before. *)
Definition leadingLabel (n : AsmNode.t) (addr64k : Z) : option string :=
  if bool_decide (AsmNode.callers n = []) && bool_decide (AsmNode.predecessors n = [])
  then AsmNode.label n
  else if AsmNode.isSubroutine n then
         if Z.land (AsmNode.start n) (Z.lnot 0x38) =? 0
         then Some ("RST_" +:+ getHexString addr64k 2)
         else Some ("SUB_" +:+ getHexString addr64k 4)
       else Some ("LBL_" +:+ getHexString addr64k 4).

(** The claim as the specification orders it: the subroutine test comes
    first, whether or not the node has a caller or a predecessor. *)
Definition leadingLabel_as_specified (n : AsmNode.t) (addr64k : Z) : option string :=
  if AsmNode.isSubroutine n then
    if Z.land (AsmNode.start n) (Z.lnot 0x38) =? 0
    then Some ("RST_" +:+ getHexString addr64k 2)
    else Some ("SUB_" +:+ getHexString addr64k 4)
  else if bool_decide (AsmNode.callers n = []) && bool_decide (AsmNode.predecessors n = [])
       then AsmNode.label n
       else Some ("LBL_" +:+ getHexString addr64k 4).

(** The graph and the block array that [assignNodeLabels] works on in a
    build, with the empty graph and array as the value of a build that
    throws. *)
Definition markedGraph (this : SmartDisassembler) (addresses : list Z) : FlowGraph :=
  default (graph Disassembler.new) (afterMarkSubroutines this addresses).

Definition partitionedBlocks (this : SmartDisassembler) (addresses : list Z) : Blocks :=
  default (fun _ => None)
    (partitionBlocks (markedGraph this addresses)
       (fun a => retire (store (graph this)) (blocks this a))).

(** The graph of a build after [assignNodeLabels], with the empty graph as
    the value of a build that throws. *)
Definition labeledGraph (this : SmartDisassembler) (addresses : list Z) : FlowGraph :=
  default (graph Disassembler.new)
    (assignNodeLabels (markedGraph this addresses) (partitionedBlocks this addresses)).

(** The node of scenario A at 0x8010 before the labels are assigned. *)
Definition calledNode : AsmNode.t :=
  default AsmNode.new (store (markedGraph scenarioA [0x8000]) !! 2%nat).

(** ** Vocabulary of the further properties *)

(** What decoding keeps of a table entry: everything but the operand
    values. *)
Definition sameOpcode (entry op : Opcode) : Prop :=
  cls op = cls entry ∧ code op = code entry ∧ name op = name entry
  ∧ flags op = flags entry ∧ valueType op = valueType entry
  ∧ op_length op = op_length entry.

Definition allTables : list TableId :=
  [T_Opcodes; T_OpcodesED; T_OpcodesCB; T_OpcodesFD; T_OpcodesDD; T_OpcodesDDCB;
   T_OpcodesFDCB].

Definition isPrefixClass (c : OpcodeClass) : bool :=
  match c with
  | C_OpcodeExtended _ | C_OpcodeExtended2 _ => true
  | _ => false
  end.

(** A check of every entry of every array that is not a prefix. *)
Definition everyInstruction (check : Opcode → bool) : bool :=
  forallb (fun t =>
             forallb (fun opcode => isPrefixClass (cls opcode) || check opcode) (table t))
          allTables.

Definition lengthInRange (opcode : Opcode) : bool :=
  (1 <=? op_length opcode) && (op_length opcode <=? 4).

(** The value types that stand for a branch target. *)
Definition isBranchType (valueType : NumberType.t) : bool :=
  NumberType.eqb valueType NumberType.CODE_LBL
  || NumberType.eqb valueType NumberType.CODE_SUB
  || NumberType.eqb valueType NumberType.CODE_RST
  || NumberType.eqb valueType NumberType.CODE_LOCAL_LBL.

(** The flag combinations that the flow analysis relies on. *)
Definition flagsConsistent (opcode : Opcode) : bool :=
  let f := flags opcode in
  (Z.land f (Z.lnot 0x1F) =? 0)
  && implb (hasFlag f OpcodeFlag.CALL) (hasFlag f OpcodeFlag.BRANCH_ADDRESS)
  && implb (hasFlag f OpcodeFlag.BRANCH_ADDRESS) (negb (hasFlag f OpcodeFlag.RET))
  && negb (hasFlag f OpcodeFlag.STOP && hasFlag f OpcodeFlag.CONDITIONAL)
  && implb (hasFlag f OpcodeFlag.CONDITIONAL)
           (hasFlag f OpcodeFlag.BRANCH_ADDRESS || hasFlag f OpcodeFlag.RET)
  && implb (hasFlag f OpcodeFlag.CALL) (negb (hasFlag f OpcodeFlag.STOP))
  && Bool.eqb (hasFlag f OpcodeFlag.BRANCH_ADDRESS) (isBranchType (valueType opcode)).

(** The prefix bytes. *)
Definition indexPrefixes : list Z := [0xDD; 0xFD].
Definition anyPrefixes : list Z := [0xDD; 0xED; 0xFD].

(** The array behind an index prefix. *)
Definition indexTable (prefix : Z) : TableId :=
  if prefix =? 0xDD then T_OpcodesDD else T_OpcodesFD.

(** An IX instruction turned into the IY instruction. *)
Definition toIY (opcode : Opcode) : Opcode :=
  with_name (JS.replaceAll (name opcode) "IX" "IY") opcode.

(** On the mnemonics of the IX bit instructions, replacing the first "IX"
    replaces them all. *)
Definition oneIX (opcode : Opcode) : bool :=
  String.eqb (JS.replace (name opcode) "IX" "IY") (JS.replaceAll (name opcode) "IX" "IY").

(** The shape of the IX array: the only prefix entry is 0xCB, which leads to
    the IX bit array, and no entry reads its operand before the opcode. *)
Definition ixShape (opcode : Opcode) : bool :=
  match cls opcode with
  | C_OpcodeExtended2 T_OpcodesDDCB => code opcode =? 0xCB
  | C_OpcodeExtended _ | C_OpcodeExtended2 _ | C_OpcodePrevIndex => false
  | _ => negb (code opcode =? 0xCB)
  end.

(** Two memories with the same bytes and the same ASSIGNED flags. *)
Definition sameImage (m m' : Memory) : Prop :=
  memory m' = memory m
  ∧ ∀ a, Z.land (memoryAttr m' a) MemAttribute.ASSIGNED
         = Z.land (memoryAttr m a) MemAttribute.ASSIGNED.

(** A block array with the entries of [w] written over it. *)
Definition overlay (w : Z → option BlockRef) (blocks : Blocks) : Blocks :=
  fun a => match w a with Some v => Some v | None => blocks a end.

(** The entries that a build writes refer to objects of that build. *)
Definition currentOnly (w : Z → option BlockRef) : Prop :=
  ∀ a v, w a = Some v → ∃ r, v = Cur r.

(** The flags that a build works with. *)
Definition buildFlags : Z :=
  Z.lor MemAttribute.ASSIGNED
    (Z.lor MemAttribute.CODE (Z.lor MemAttribute.CODE_FIRST MemAttribute.FLOW_ANALYZED)).

(** What a build keeps true of an attribute: no flag beyond those four,
    CODE and FLOW_ANALYZED together, CODE_FIRST only on CODE. *)
Definition attributeConsistent (attr : Z) : Prop :=
  Z.land attr (Z.lnot buildFlags) = 0
  ∧ hasFlag attr MemAttribute.CODE = hasFlag attr MemAttribute.FLOW_ANALYZED
  ∧ (hasFlag attr MemAttribute.CODE_FIRST = true → hasFlag attr MemAttribute.CODE = true).

(** The flags of [m] are flags of [m']. *)
Definition flagsGrow (m m' : Memory) : Prop :=
  ∀ k bit, hasFlag (memoryAttr m k) bit = true → hasFlag (memoryAttr m' k) bit = true.

(** The node table is well formed: no address twice, every entry at the
    first byte of a decoded instruction and bound to an object that starts
    at the address of the entry. *)
Definition tableWf (g : FlowGraph) : Prop :=
  NoDup (map fst (nodes g))
  ∧ ∀ addr r, In (addr, r) (nodes g) →
      hasFlag (MemoryOps.getAttributeAt (mem g) addr) MemAttribute.CODE_FIRST = true
      ∧ ∃ n, store g !! r = Some n ∧ AsmNode.start n = addr.

(** A node without edges. *)
Definition unlinked (n : AsmNode.t) : Prop :=
  AsmNode.predecessors n = [] ∧ AsmNode.callers n = [] ∧ AsmNode.callee n = None
  ∧ AsmNode.branchNodes n = [].

(** A node as [createNodeInMap] makes it: no edges and no instructions. *)
Definition unfilled (n : AsmNode.t) : Prop :=
  unlinked n ∧ AsmNode.instructions n = [].

(** The first calls of [getFlowGraph] after the reset: [createNodes] and
    [createNodesForLabels] create the nodes, [fillNodes] fills them. *)
Definition twoPasses `{BaseMemory} (skipAddrs64k : gmap Z Z) (g : FlowGraph)
    (addresses : list Z) (labels : list (Z * string)) : option FlowGraph :=
  g ← createNodes skipAddrs64k g addresses;
  fillNodes skipAddrs64k (createNodesForLabels g labels).

(** What pass 1 leaves behind: consistent attributes, a well-formed table,
    nodes that are not filled, and no object outside the table. *)
Definition discovered (g : FlowGraph) : Prop :=
  (∀ k, attributeConsistent (memoryAttr (mem g) k))
  ∧ tableWf g
  ∧ Forall unfilled (store g)
  ∧ map snd (nodes g) = seq 0 (length (store g)).

(** An update of a node that leaves its start, its length, its label and
    its edges alone. *)
Definition localUpdate (f : AsmNode.t → AsmNode.t) : Prop :=
  ∀ n, AsmNode.start (f n) = AsmNode.start n
       ∧ AsmNode.length (f n) = AsmNode.length n
       ∧ AsmNode.label (f n) = AsmNode.label n
       ∧ AsmNode.predecessors (f n) = AsmNode.predecessors n
       ∧ AsmNode.callers (f n) = AsmNode.callers n
       ∧ AsmNode.callee (f n) = AsmNode.callee n
       ∧ AsmNode.branchNodes (f n) = AsmNode.branchNodes n.

(** The mutations that [fillNode(node)] is made of: an update of a field of
    [node] that is no edge, a branch edge to the node of [getNodeForFill],
    and a call edge to it. *)
Inductive fillStep (node : NodeRef) (g : FlowGraph) : FlowGraph → Prop :=
| fill_field f :
    localUpdate f → fillStep node g (modify node f g)
| fill_link originAddress targetAddress :
    fillStep node g
      (linkBranch node (getNodeForFill g originAddress targetAddress).2
                  (getNodeForFill g originAddress targetAddress).1)
| fill_call originAddress targetAddress :
    fillStep node g
      (modify (getNodeForFill g originAddress targetAddress).2 (AsmNode.push_caller node)
         (modify node (AsmNode.set_callee (getNodeForFill g originAddress targetAddress).2)
            (getNodeForFill g originAddress targetAddress).1)).

(** Every reference held by a node of the store is a reference into the
    store. *)
Definition closedEdges (st : Store) : Prop :=
  ∀ r n, st !! r = Some n →
    Forall (fun x => (x < length st)%nat)
           (AsmNode.branchNodes n ++ AsmNode.predecessors n ++ AsmNode.callers n)
    ∧ ∀ x, AsmNode.callee n = Some x → (x < length st)%nat.

(** Every branch edge is mirrored by a predecessor entry, as often as it
    occurs, and every callee lists its caller. *)
Definition mirroredEdges (st : Store) : Prop :=
  ∀ a b na nb, st !! a = Some na → st !! b = Some nb →
    count_occ Nat.eq_dec (AsmNode.branchNodes na) b
    = count_occ Nat.eq_dec (AsmNode.predecessors nb) a
    ∧ (AsmNode.callee na = Some b → In a (AsmNode.callers nb)).

(** The references of the table are references into the store. *)
Definition tableValid (g : FlowGraph) : Prop :=
  ∀ addr r, In (addr, r) (nodes g) → (r < length (store g))%nat.

(** No skip goes backwards. *)
Definition skipsForward (skipAddrs64k : gmap Z Z) : Prop :=
  ∀ addr64k skip, skipAddrs64k !! addr64k = Some skip → 0 <= skip.

(** What pass 2 keeps of every object: its start, its length and its
    label. *)
Definition sameHead (n n' : AsmNode.t) : Prop :=
  AsmNode.start n' = AsmNode.start n ∧ AsmNode.length n' = AsmNode.length n
  ∧ AsmNode.label n' = AsmNode.label n.

Definition storeGrows (st st' : Store) : Prop :=
  ∀ r n, st !! r = Some n → ∃ n', st' !! r = Some n' ∧ sameHead n n'.

(** Two nodes with the same edges. *)
Definition sameEdges (n n' : AsmNode.t) : Prop :=
  AsmNode.predecessors n' = AsmNode.predecessors n
  ∧ AsmNode.callers n' = AsmNode.callers n
  ∧ AsmNode.callee n' = AsmNode.callee n
  ∧ AsmNode.branchNodes n' = AsmNode.branchNodes n.

(** The state of the edges while [node] is filled. *)
Definition edgesWf (node : NodeRef) (g : FlowGraph) : Prop :=
  closedEdges (store g) ∧ mirroredEdges (store g) ∧ tableValid g
  ∧ (node < length (store g))%nat.

(** What pass 2 has established when it is over: a well-formed table,
    closed and mirrored edges. *)
Definition linked (g : FlowGraph) : Prop :=
  tableWf g ∧ closedEdges (store g) ∧ mirroredEdges (store g).

(** The nodes of the given table entries are at least one byte long. *)
Definition positiveLengths (g : FlowGraph) (entries : NodeMap.t) : Prop :=
  ∀ addr r, In (addr, r) entries → ∃ n, store g !! r = Some n ∧ 1 <= AsmNode.length n.

(** The memory answers with bytes. *)
Definition bytesOnly `{BaseMemory} (memory : Bytes) : Prop :=
  ∀ k, 0 <= getValueAt memory k < 256.

(** The loop over [getSkipForAddress] that adjusts a return address ends
    wherever it starts. *)
Definition skipsEnd (skipAddrs64k : gmap Z Z) : Prop :=
  ∀ addr64k, ∃ next, skipReturnAddress skipAddrs64k (skipFuel skipAddrs64k) addr64k = Some next.

(** Below every address that is marked as code there is the first byte of
    an instruction. *)
Definition codeHasFirst (m : Memory) : Prop :=
  ∀ k, hasFlag (MemoryOps.getAttributeAt m k) MemAttribute.CODE = true →
       ∃ first, first <= k
                ∧ hasFlag (MemoryOps.getAttributeAt m first) MemAttribute.CODE_FIRST = true.

(** The entries of the skip table at or above an address. *)
Definition entriesFrom (skipAddrs64k : gmap Z Z) (addr64k : Z) : nat :=
  length (filter (fun entry : Z * Z => addr64k <= entry.1) (map_to_list skipAddrs64k)).

(** The instruction list of a node read against the memory: from [addr64k]
    on, every opcode is the one that is decoded at its address and is
    followed at once by the next entry, every pseudo opcode holds the bytes
    of a skip at its address, and the last entry ends at [addrEnd]. *)
Fixpoint disassembly `{BaseMemory} (memory : Bytes) (skipAddrs64k : gmap Z Z)
    (addr64k : Z) (instructions : list Instruction) (addrEnd : Z) : Prop :=
  match instructions with
  | [] => addr64k = addrEnd
  | I_Opcode opcode :: rest =>
      getOpcodeAt memory addr64k = Some opcode
      ∧ disassembly memory skipAddrs64k (addr64k + op_length opcode) rest addrEnd
  | I_SkipPseudoOpcode data :: rest =>
      ∃ skip, skipTruthy (getSkipForAddress skipAddrs64k addr64k) = Some skip
              ∧ data = getData memory addr64k skip
              ∧ disassembly memory skipAddrs64k (addr64k + skip) rest addrEnd
  end.

(** A branch edge leads where the code leads: to a node that starts behind
    the end of the code, or at the address of a branch in the code that is
    no call. *)
Definition leadsTo (g : FlowGraph) (instructions : list Instruction) (addrEnd : Z)
    (target : NodeRef) : Prop :=
  ∃ n, store g !! target = Some n
       ∧ (AsmNode.start n = Z.land addrEnd 0xFFFF
          ∨ ∃ opcode, In (I_Opcode opcode) instructions
                      ∧ hasFlag (flags opcode) OpcodeFlag.BRANCH_ADDRESS = true
                      ∧ hasFlag (flags opcode) OpcodeFlag.CALL = false
                      ∧ AsmNode.start n = value opcode).

(** A callee starts at the address of a call in the code. *)
Definition calledAt (g : FlowGraph) (instructions : list Instruction) (target : NodeRef)
  : Prop :=
  ∃ n opcode, store g !! target = Some n
              ∧ In (I_Opcode opcode) instructions
              ∧ hasFlag (flags opcode) OpcodeFlag.BRANCH_ADDRESS = true
              ∧ hasFlag (flags opcode) OpcodeFlag.CALL = true
              ∧ AsmNode.start n = value opcode.

(** A node that holds the disassembly of its bytes, with edges that lead
    where this code leads. *)
Definition filledFrom `{BaseMemory} (skipAddrs64k : gmap Z Z) (g : FlowGraph) (n : AsmNode.t)
  : Prop :=
  disassembly (memory (mem g)) skipAddrs64k (AsmNode.start n) (AsmNode.instructions n)
    (AsmNode.start n + AsmNode.length n)
  ∧ (∀ target, In target (AsmNode.branchNodes n) →
       leadsTo g (AsmNode.instructions n) (AsmNode.start n + AsmNode.length n) target)
  ∧ (∀ target, AsmNode.callee n = Some target → calledAt g (AsmNode.instructions n) target).

(** Every object is still there and starts where it started. *)
Definition keepsStarts (st st' : Store) : Prop :=
  ∀ r n, st !! r = Some n → ∃ n', st' !! r = Some n' ∧ AsmNode.start n' = AsmNode.start n.

(** A field of the object behind a reference, with a value for a reference
    that is not bound. *)
Definition fieldOf {A : Type} (field : AsmNode.t → A) (d : A) (g : FlowGraph) (r : NodeRef)
  : A :=
  default d (field <$> store g !! r).

(** Two nodes with the same code and the same outgoing edges. *)
Definition sameCode (n n' : AsmNode.t) : Prop :=
  AsmNode.instructions n' = AsmNode.instructions n
  ∧ AsmNode.branchNodes n' = AsmNode.branchNodes n
  ∧ AsmNode.callee n' = AsmNode.callee n.

(** A stretch of [fillNode(node)]: memory and table are not touched, the
    objects keep their start, their length and their label, [node] gets the
    instructions [new] and the branch nodes [targets] at the end of its
    lists and [called], if there is one, as its callee; the code and the
    outgoing edges of the other objects do not change. *)
Definition writes (node : NodeRef) (new : list Instruction) (targets : list NodeRef)
    (called : option NodeRef) (g g' : FlowGraph) : Prop :=
  mem g' = mem g ∧ nodes g' = nodes g ∧ storeGrows (store g) (store g')
  ∧ ((node < length (store g))%nat →
     fieldOf AsmNode.instructions [] g' node = fieldOf AsmNode.instructions [] g node ++ new
     ∧ fieldOf AsmNode.branchNodes [] g' node
       = fieldOf AsmNode.branchNodes [] g node ++ targets
     ∧ fieldOf AsmNode.callee None g' node
       = match called with
         | Some target => Some target
         | None => fieldOf AsmNode.callee None g node
         end
     ∧ ∀ r, r ≠ node →
         fieldOf AsmNode.instructions [] g' r = fieldOf AsmNode.instructions [] g r
         ∧ fieldOf AsmNode.branchNodes [] g' r = fieldOf AsmNode.branchNodes [] g r
         ∧ fieldOf AsmNode.callee None g' r = fieldOf AsmNode.callee None g r).

(** A node of the list [T] that starts at or before an address. *)
Definition startsBefore (st : Store) (T : list NodeRef) (k : Z) (r : NodeRef) : Prop :=
  In r T ∧ ∃ n, st !! r = Some n ∧ AsmNode.start n <= k.

(** The objects outside the list [T] are as [getNodeForFill] has made them:
    no subroutine flag and no branch nodes. *)
Definition idleOutside (T : list NodeRef) (st : Store) : Prop :=
  ∀ x n, st !! x = Some n → ¬ In x T →
         AsmNode.isSubroutine n = false ∧ AsmNode.branchNodes n = [].

(** Every predecessor of every object is a node of the list [T]. *)
Definition predecessorsWithin (T : list NodeRef) (st : Store) : Prop :=
  ∀ r n x, st !! r = Some n → In x (AsmNode.predecessors n) → In x T.

(** [st'] comes from [st] by setting subroutine flags of nodes of the list
    [T]; nothing else is changed. *)
Definition marksWithin (T : list NodeRef) (st st' : Store) : Prop :=
  ∀ r, st' !! r = st !! r
       ∨ (In r T ∧ ∃ n, st !! r = Some n
                        ∧ st' !! r = Some (AsmNode.set_isSubroutine true n)).

(** A caller of two subroutines: the one at 0x8010 is a loop without a
    RET, the one at 0x9000 was never loaded. *)
Definition calledLoopScenario : SmartDisassembler :=
  let d := Disassembler.setMemory Disassembler.new 0x8000
             [xcd; x10; x80; xcd; x00; x90; xc9] in
  Disassembler.setMemory d 0x8010 [xc3; x10; x80].

Definition passesCalledLoop : FlowGraph :=
  default (graph Disassembler.new)
    (@twoPasses BaseMemory_64k ∅ (clearBuild (graph calledLoopScenario)) [0x8000] []).

(** Scenario A after a build, and after its two passes, with the empty
    disassembler and graph as the value of a build that throws. *)
Definition builtA : SmartDisassembler :=
  default Disassembler.new (run scenarioA [0x8000]).

Definition passesA : FlowGraph :=
  default (graph Disassembler.new)
    (@twoPasses BaseMemory_64k ∅ (clearBuild (graph scenarioA)) [0x8000] []).

(** Scenario A with a label list: a name for the called subroutine and a
    name for an address that holds no code. *)
Definition scenarioLabels : list (Z * string) := [(0x8010, "PRINT"); (0x9000, "VARS")].

Definition builtNamedA : SmartDisassembler :=
  default Disassembler.new
    (@Disassembler.getFlowGraph BaseMemory_64k scenarioA [0x8000] scenarioLabels).

Definition passesNamedA : FlowGraph :=
  default (graph Disassembler.new)
    (@twoPasses BaseMemory_64k ∅ (clearBuild (graph scenarioA)) [0x8000] scenarioLabels).

(** The graph with the label list after [markSubroutines], its block array,
    the graph after [assignNodeLabels], and the node of the subroutine
    before the labels are assigned. *)
Definition markedNamedA : FlowGraph := markSubroutines passesNamedA.

Definition blocksNamedA : Blocks :=
  default (fun _ => None) (partitionBlocks markedNamedA (fun _ => None)).

Definition labeledNamedA : FlowGraph :=
  default (graph Disassembler.new) (assignNodeLabels markedNamedA blocksNamedA).

Definition printNode : AsmNode.t := default AsmNode.new (store markedNamedA !! 2%nat).

(** Case analysis along the branches and the binds of a run. *)
Ltac split_run H :=
  repeat (cbn [mbind option_bind] in H;
          match type of H with
          | context [match ?x with _ => _ end] => destruct x eqn:?
          | context [mbind _ ?x] => destruct x eqn:?
          end);
  cbn [mbind option_bind] in H.

(** * Properties *)

(** ** The decoder *)

Section DecoderFacts.
Context `{BaseMemory}.
Variable memory : Bytes.

Lemma getOpcodeAt_in_terminal depth t a entry :
  index_at (table t) (getValueAt memory a) = Some entry →
  terminalClass (cls entry) = true →
  getOpcodeAt_in memory (S depth) a t = Some (getOpcodeAt_Opcode memory entry a).
Proof.
  intros Hentry Hcls. cbn [getOpcodeAt_in]. rewrite Hentry. cbn [mbind option_bind].
  destruct (cls entry); try discriminate; reflexivity.
Qed.

Lemma getOpcodeAt_in_extended depth t a entry sub :
  index_at (table t) (getValueAt memory a) = Some entry →
  cls entry = C_OpcodeExtended sub →
  getOpcodeAt_in memory (S depth) a t = getOpcodeAt_in memory depth (a + 1) sub.
Proof.
  intros Hentry Hcls. cbn [getOpcodeAt_in]. rewrite Hentry. cbn [mbind option_bind].
  rewrite Hcls. reflexivity.
Qed.

Lemma getOpcodeAt_in_extended2 depth t a entry sub :
  index_at (table t) (getValueAt memory a) = Some entry →
  cls entry = C_OpcodeExtended2 sub →
  getOpcodeAt_in memory (S depth) a t = getOpcodeAt_in memory depth (a + 2) sub.
Proof.
  intros Hentry Hcls. cbn [getOpcodeAt_in]. rewrite Hentry. cbn [mbind option_bind].
  rewrite Hcls. reflexivity.
Qed.

Lemma getOpcodeAt_in_prev depth t a entry :
  index_at (table t) (getValueAt memory a) = Some entry →
  cls entry = C_OpcodePrevIndex →
  getOpcodeAt_in memory (S depth) a t = Some (getOpcodeAt_OpcodePrevIndex memory entry a).
Proof.
  intros Hentry Hcls. cbn [getOpcodeAt_in]. rewrite Hentry. cbn [mbind option_bind].
  rewrite Hcls. reflexivity.
Qed.

(** Every slot of a 256-entry array is reached by a byte value. *)
Lemma index_at_byte t v :
  length (table t) = 256%nat → 0 <= v < 256 → ∃ entry, index_at (table t) v = Some entry ∧ In entry (table t).
Proof.
  intros Hlen Hv. unfold index_at.
  destruct (Z.ltb_spec v 0) as [?|_]; [lia|].
  destruct (lookup_lt_is_Some_2 (table t) (Z.to_nat v)) as [entry Hentry]; [lia|].
  exists entry. split; [exact Hentry|].
  apply list_elem_of_In. eapply list_elem_of_lookup_2. exact Hentry.
Qed.

Lemma toSigned_range v : 0 <= v < 256 → -128 <= toSigned v <= 127.
Proof. intros Hv. unfold toSigned. destruct (Z.leb_spec 0x80 v); lia. Qed.

Lemma toSigned_congruent v : (toSigned v - v) mod 256 = 0.
Proof.
  unfold toSigned. destruct (Z.leb_spec 0x80 v).
  - replace (v - 0x100 - v) with (-1 * 256) by lia. apply Z_mod_mult.
  - replace (v - v) with (0 * 256) by lia. apply Z_mod_mult.
Qed.

(** A relative jump at [a]: the decoder adds the signed operand to [a + 2]
    and leaves the sum as it is. *)
Lemma relative_decode a c :
  In c relativeCodes →
  getValueAt memory a = c →
  ∃ op, getOpcodeAt memory a = Some op
        ∧ code op = c
        ∧ op_length op = 2
        ∧ hasFlag (flags op) OpcodeFlag.BRANCH_ADDRESS = true
        ∧ value op = toSigned (getValueAt memory (a + 1)) + (a + 2).
Proof.
  intros Hc Hbyte. unfold getOpcodeAt, prefixDepth.
  cbn [In relativeCodes] in Hc.
  destruct Hc as [<-|[<-|[<-|[<-|[<-|[<-|[]]]]]]];
    (eexists; split;
     [ eapply getOpcodeAt_in_terminal; [rewrite Hbyte; vm_compute; reflexivity | reflexivity]
     | repeat split; reflexivity ]).
Qed.

End DecoderFacts.

(** C5: the opcode byte 0xE7 decodes to the value 0x20, the flags CALL and
    BRANCH_ADDRESS and the length 1; every RST opcode byte 0xC7, 0xCF, ...,
    0xFF decodes to the target [opcode & 0b00111000], whatever the bytes
    after it are. *)
Theorem rst_target_from_opcode_bits `{BaseMemory} (memory : Bytes) (address c : Z) :
  In c rstCodes →
  getValueAt memory address = c →
  ∃ op, getOpcodeAt memory address = Some op
        ∧ code op = c
        ∧ valueType op = NumberType.CODE_RST
        ∧ value op = Z.land c 0x38
        ∧ (c = 0xE7 → value op = 0x20)
        ∧ flags op = Z.lor OpcodeFlag.CALL OpcodeFlag.BRANCH_ADDRESS
        ∧ op_length op = 1.
Proof.
  intros Hc Hbyte. unfold getOpcodeAt, prefixDepth.
  cbn [In rstCodes] in Hc.
  destruct Hc as [<-|[<-|[<-|[<-|[<-|[<-|[<-|[<-|[]]]]]]]]];
    (eexists; split;
     [ eapply getOpcodeAt_in_terminal; [rewrite Hbyte; vm_compute; reflexivity | reflexivity]
     | repeat split; try reflexivity; intros; try reflexivity; discriminate ]).
Qed.

Lemma rst_target_from_opcode_bits_witness :
  ∃ op, @getOpcodeAt BaseMemory_64k (imageAt 0 [xe7]) 0 = Some op
        ∧ code op = 0xE7
        ∧ valueType op = NumberType.CODE_RST
        ∧ value op = Z.land 0xE7 0x38
        ∧ (0xE7 = 0xE7 → value op = 0x20)
        ∧ flags op = Z.lor OpcodeFlag.CALL OpcodeFlag.BRANCH_ADDRESS
        ∧ op_length op = 1.
Proof.
  apply (@rst_target_from_opcode_bits BaseMemory_64k (imageAt 0 [xe7]) 0 0xE7).
  - vm_compute. tauto.
  - reflexivity.
Defined.

Lemma indexBit_entries prefix v :
  In prefix [0xDD; 0xFD] → 0 <= v < 256 →
  ∃ entry, index_at (table (indexBitTable prefix)) v = Some entry
           ∧ cls entry = C_OpcodePrevIndex ∧ op_length entry = 4.
Proof.
  intros Hp Hv.
  assert (Hall : allPrevIndex (indexBitTable prefix) = true
                 ∧ length (table (indexBitTable prefix)) = 256%nat).
  { cbn [In] in Hp. destruct Hp as [<-|[<-|[]]]; split; vm_compute; reflexivity. }
  destruct Hall as [Hall Hlen].
  destruct (index_at_byte (indexBitTable prefix) v Hlen Hv) as (entry & Hentry & Hin).
  exists entry. split; [exact Hentry|].
  unfold allPrevIndex in Hall. rewrite forallb_forall in Hall.
  specialize (Hall entry Hin). destruct (cls entry); try discriminate.
  split; [reflexivity | lia].
Qed.

(** C6: in a doubly prefixed index-bit instruction (DD CB d op, FD CB d op)
    the terminal decoder is handed the address of the final opcode byte and
    reads the displacement one byte before it, that is right after the two
    prefix bytes, as a signed two's-complement byte. *)
Theorem index_bit_displacement_read_backwards `{BaseMemory} (memory : Bytes)
    (address prefix : Z) :
  In prefix [0xDD; 0xFD] →
  getValueAt memory address = prefix →
  getValueAt memory (address + 1) = 0xCB →
  0 <= getValueAt memory (address + 2) < 256 →
  0 <= getValueAt memory (address + 3) < 256 →
  (∀ this a, value (getOpcodeAt_OpcodePrevIndex memory this a)
             = toSigned (getValueAt memory (a - 1)))
  ∧ ∃ entry op,
      index_at (table (indexBitTable prefix)) (getValueAt memory (address + 3)) = Some entry
      ∧ cls entry = C_OpcodePrevIndex
      ∧ op = getOpcodeAt_OpcodePrevIndex memory entry (address + 3)
      ∧ getOpcodeAt memory address = Some op
      ∧ op_length op = 4
      ∧ value op = toSigned (getValueAt memory (address + 2))
      ∧ -128 <= value op <= 127
      ∧ (value op - getValueAt memory (address + 2)) mod 256 = 0.
Proof.
  intros Hp Hb0 Hb1 Hd Hop. split; [reflexivity|].
  destruct (indexBit_entries prefix _ Hp Hop) as (entry & Hentry & Hcls & Hlen).
  exists entry, (getOpcodeAt_OpcodePrevIndex memory entry (address + 3)).
  assert (Hval : value (getOpcodeAt_OpcodePrevIndex memory entry (address + 3))
                 = toSigned (getValueAt memory (address + 2))).
  { cbn. do 2 f_equal. lia. }
  repeat split; try assumption.
  - unfold getOpcodeAt, prefixDepth.
    cbn [In] in Hp. destruct Hp as [<-|[<-|[]]].
    + erewrite getOpcodeAt_in_extended;
        [| rewrite Hb0; vm_compute; reflexivity | reflexivity].
      erewrite getOpcodeAt_in_extended2;
        [| rewrite Hb1; vm_compute; reflexivity | reflexivity].
      replace (address + 1 + 2) with (address + 3) by lia.
      apply getOpcodeAt_in_prev; assumption.
    + erewrite getOpcodeAt_in_extended;
        [| rewrite Hb0; vm_compute; reflexivity | reflexivity].
      erewrite getOpcodeAt_in_extended2;
        [| rewrite Hb1; vm_compute; reflexivity | reflexivity].
      replace (address + 1 + 2) with (address + 3) by lia.
      apply getOpcodeAt_in_prev; assumption.
  - rewrite Hval. apply toSigned_range. exact Hd.
  - rewrite Hval. apply toSigned_range. exact Hd.
  - rewrite Hval. apply toSigned_congruent.
Qed.

Lemma index_bit_displacement_read_backwards_witness :
  ∃ entry op,
    index_at (table (indexBitTable 0xDD))
             (@getValueAt BaseMemory_64k (imageAt 0x8000 [xdd; xcb; xfe; x46]) (0x8000 + 3))
    = Some entry
    ∧ cls entry = C_OpcodePrevIndex
    ∧ op = @getOpcodeAt_OpcodePrevIndex BaseMemory_64k
             (imageAt 0x8000 [xdd; xcb; xfe; x46]) entry (0x8000 + 3)
    ∧ @getOpcodeAt BaseMemory_64k (imageAt 0x8000 [xdd; xcb; xfe; x46]) 0x8000 = Some op
    ∧ op_length op = 4
    ∧ value op
      = toSigned (@getValueAt BaseMemory_64k (imageAt 0x8000 [xdd; xcb; xfe; x46]) (0x8000 + 2))
    ∧ -128 <= value op <= 127
    ∧ (value op
       - @getValueAt BaseMemory_64k (imageAt 0x8000 [xdd; xcb; xfe; x46]) (0x8000 + 2))
        mod 256 = 0.
Proof.
  apply (@index_bit_displacement_read_backwards BaseMemory_64k
           (imageAt 0x8000 [xdd; xcb; xfe; x46]) 0x8000 0xDD).
  - vm_compute. tauto.
  - reflexivity.
  - reflexivity.
  - vm_compute. split; [discriminate | reflexivity].
  - vm_compute. split; [discriminate | reflexivity].
Defined.

(** C7: a relative jump (DJNZ, JR, JR cc) decoded at [a] reads its operand
    as a signed byte in [-128, 127] and yields that displacement added to
    [a + 2], the address that follows the two-byte instruction; no other
    opcode of any array carries a relative target. *)
Theorem relative_jump_target `{BaseMemory} (memory : Bytes) (a c : Z) :
  In c relativeCodes →
  getValueAt memory a = c →
  0 <= getValueAt memory (a + 1) < 256 →
  (relativeEntries T_Opcodes = relativeCodes
   ∧ ∀ t, t ≠ T_Opcodes → relativeEntries t = [])
  ∧ ∃ op d, getOpcodeAt memory a = Some op
            ∧ d = toSigned (getValueAt memory (a + 1))
            ∧ -128 <= d <= 127
            ∧ (d - getValueAt memory (a + 1)) mod 256 = 0
            ∧ op_length op = 2
            ∧ value op = d + (a + 2).
Proof.
  intros Hc Hbyte Hd. split.
  - split; [vm_compute; reflexivity|].
    intros t Ht. destruct t; try (vm_compute; reflexivity). contradiction.
  - destruct (relative_decode memory a c Hc Hbyte) as (op & Hop & _ & Hlen & _ & Hval).
    exists op, (toSigned (getValueAt memory (a + 1))).
    split; [exact Hop|]. split; [reflexivity|].
    split; [apply toSigned_range; exact Hd|].
    split; [apply toSigned_congruent|]. split; assumption.
Qed.

Lemma relative_jump_target_witness :
  (relativeEntries T_Opcodes = relativeCodes
   ∧ ∀ t, t ≠ T_Opcodes → relativeEntries t = [])
  ∧ ∃ op d, @getOpcodeAt BaseMemory_64k (imageAt 0x8018 [x18; xf0]) 0x8018 = Some op
            ∧ d = toSigned (@getValueAt BaseMemory_64k (imageAt 0x8018 [x18; xf0]) (0x8018 + 1))
            ∧ -128 <= d <= 127
            ∧ (d - @getValueAt BaseMemory_64k (imageAt 0x8018 [x18; xf0]) (0x8018 + 1))
                mod 256 = 0
            ∧ op_length op = 2
            ∧ value op = d + (0x8018 + 2).
Proof.
  apply (@relative_jump_target BaseMemory_64k (imageAt 0x8018 [x18; xf0]) 0x8018 0x18).
  - vm_compute. tauto.
  - reflexivity.
  - vm_compute. split; [discriminate | reflexivity].
Defined.

(** C9: the target of a relative branch decoded at [a] is the integer
    [a + 2 + d], where [d] is the operand byte read as a signed
    two's-complement number: [d] lies in [-128, 127] and is congruent to the
    byte modulo 256.  The decoder does not reduce the sum modulo 0x10000:
    where the sum lies above 0xFFFF or below 0, the value is the sum and not
    the address in the 64K space, so a jump at 0xFFFE with a positive
    displacement yields a value above 0xFFFF. *)
Theorem relative_target_not_reduced `{BaseMemory} (memory : Bytes) (a c : Z) :
  In c relativeCodes →
  getValueAt memory a = c →
  0 <= getValueAt memory (a + 1) < 256 →
  ∃ op d, getOpcodeAt memory a = Some op
          ∧ d = toSigned (getValueAt memory (a + 1))
          ∧ -128 <= d <= 127
          ∧ (d - getValueAt memory (a + 1)) mod 256 = 0
          ∧ value op = a + 2 + d
          ∧ (0xFFFF < a + 2 + d ∨ a + 2 + d < 0 → value op ≠ (a + 2 + d) mod 0x10000)
          ∧ (a = 0xFFFE → 0 < getValueAt memory (a + 1) < 0x80 →
             value op = 0x10000 + getValueAt memory (a + 1) ∧ 0xFFFF < value op).
Proof.
  intros Hc Hbyte Hd.
  destruct (relative_decode memory a c Hc Hbyte) as (op & Hop & _ & _ & _ & Hval).
  exists op, (toSigned (getValueAt memory (a + 1))).
  split; [exact Hop|]. split; [reflexivity|].
  split; [apply toSigned_range; exact Hd|].
  split; [apply toSigned_congruent|]. split; [lia|]. split.
  - intros Hout.
    pose proof (Z.mod_pos_bound (a + 2 + toSigned (getValueAt memory (a + 1))) 0x10000).
    lia.
  - intros -> Hpos. rewrite Hval. unfold toSigned.
    destruct (Z.leb_spec 0x80 (getValueAt memory (0xFFFE + 1))); lia.
Qed.

Lemma relative_target_not_reduced_witness :
  ∃ op d, @getOpcodeAt BaseMemory_64k (imageAt 0 [x18; x80]) 0 = Some op
          ∧ d = toSigned (@getValueAt BaseMemory_64k (imageAt 0 [x18; x80]) (0 + 1))
          ∧ -128 <= d <= 127
          ∧ (d - @getValueAt BaseMemory_64k (imageAt 0 [x18; x80]) (0 + 1)) mod 256 = 0
          ∧ value op = 0 + 2 + d
          ∧ (0xFFFF < 0 + 2 + d ∨ 0 + 2 + d < 0 → value op ≠ (0 + 2 + d) mod 0x10000)
          ∧ (0 = 0xFFFE →
             0 < @getValueAt BaseMemory_64k (imageAt 0 [x18; x80]) (0 + 1) < 0x80 →
             value op = 0x10000 + @getValueAt BaseMemory_64k (imageAt 0 [x18; x80]) (0 + 1)
             ∧ 0xFFFF < value op).
Proof.
  apply (@relative_target_not_reduced BaseMemory_64k (imageAt 0 [x18; x80]) 0 0x18).
  - vm_compute. tauto.
  - reflexivity.
  - vm_compute. split; [discriminate | reflexivity].
Defined.

(** The two ends of the address space, by evaluation: JR -128 at 0 yields
    -126 and not 0xFF82, JR +5 at 0xFFFE yields 0x10005 and not 5. *)
Lemma relative_jumps_leave_the_address_space :
  value <$> @getOpcodeAt BaseMemory_64k (imageAt 0 [x18; x80]) 0 = Some (-126)
  ∧ value <$> @getOpcodeAt BaseMemory_64k (imageAt 0xFFFE [x18; x05]) 0xFFFE = Some 0x10005.
Proof. split; vm_compute; reflexivity. Qed.

(** ** The attribute memory *)

Lemma land_mask_mod a : Z.land a (MAX_MEM_SIZE - 1) = wrap64k a.
Proof.
  unfold wrap64k. change (MAX_MEM_SIZE - 1) with (Z.ones 16).
  rewrite Z.land_ones by lia. reflexivity.
Qed.

Lemma setMemory_from_app m origin k l1 l2 :
  MemoryOps.setMemory_from m origin k (l1 ++ l2)
  = MemoryOps.setMemory_from (MemoryOps.setMemory_from m origin k l1) origin
      (k + Z.of_nat (length l1)) l2.
Proof.
  revert m k. induction l1 as [|b l1 IH]; intros m k; cbn [app MemoryOps.setMemory_from length].
  - f_equal. lia.
  - rewrite IH. f_equal. lia.
Qed.

(** The state after the last byte of [l ++ [b]] has been stored. *)
Lemma setMemory_from_snoc m origin k l b :
  MemoryOps.setMemory_from m origin k (l ++ [b])
  = let m1 := MemoryOps.setMemory_from m origin k l in
    let addr := wrap64k (origin + (k + Z.of_nat (length l))) in
    mkMemory (update (memory m1) addr (Z.of_N (Byte.to_N b)))
             (update (memoryAttr m1) addr (Z.lor (memoryAttr m1 addr) MemAttribute.ASSIGNED)).
Proof.
  rewrite setMemory_from_app. cbn [MemoryOps.setMemory_from]. rewrite land_mask_mod.
  reflexivity.
Qed.

Lemma update_eq f k v : update f k v k = v.
Proof. unfold update. rewrite Z.eqb_refl. reflexivity. Qed.

Lemma update_ne f k v a : a ≠ k → update f k v a = f a.
Proof. intros Hne. unfold update. destruct (Z.eqb_spec a k); [contradiction | reflexivity]. Qed.

Lemma setMemory_from_untouched m origin k l a :
  (∀ i, (i < length l)%nat → wrap64k (origin + (k + Z.of_nat i)) ≠ a) →
  memory (MemoryOps.setMemory_from m origin k l) a = memory m a
  ∧ memoryAttr (MemoryOps.setMemory_from m origin k l) a = memoryAttr m a.
Proof.
  induction l as [|b l IH] using rev_ind; intros Hfree; [split; reflexivity|].
  rewrite setMemory_from_snoc. cbn zeta. cbn [memory memoryAttr].
  rewrite length_app in Hfree. cbn [length] in Hfree.
  assert (Hlast : a ≠ wrap64k (origin + (k + Z.of_nat (length l)))).
  { intros ->. apply (Hfree (length l)); [lia | reflexivity]. }
  rewrite !update_ne by exact Hlast.
  apply IH. intros i Hi. apply Hfree. lia.
Qed.

Lemma setMemory_from_attr_cases m origin k l a :
  memoryAttr (MemoryOps.setMemory_from m origin k l) a = memoryAttr m a
  ∨ memoryAttr (MemoryOps.setMemory_from m origin k l) a
    = Z.lor (memoryAttr m a) MemAttribute.ASSIGNED.
Proof.
  induction l as [|b l IH] using rev_ind; [left; reflexivity|].
  rewrite setMemory_from_snoc. cbn zeta. cbn [memoryAttr].
  destruct (Z.eq_dec a (wrap64k (origin + (k + Z.of_nat (length l))))) as [<-|Hne].
  - right. rewrite update_eq. destruct IH as [-> | ->]; [reflexivity|].
    rewrite <- Z.lor_assoc, Z.lor_diag. reflexivity.
  - rewrite update_ne by exact Hne. exact IH.
Qed.

Lemma setMemory_from_attr_written m origin k l i :
  (i < length l)%nat →
  memoryAttr (MemoryOps.setMemory_from m origin k l) (wrap64k (origin + (k + Z.of_nat i)))
  = Z.lor (memoryAttr m (wrap64k (origin + (k + Z.of_nat i)))) MemAttribute.ASSIGNED.
Proof.
  revert i. induction l as [|b l IH] using rev_ind; intros i Hi; [cbn in Hi; lia|].
  rewrite length_app in Hi. cbn [length] in Hi.
  rewrite setMemory_from_snoc. cbn zeta. cbn [memoryAttr].
  set (a := wrap64k (origin + (k + Z.of_nat i))).
  destruct (Z.eq_dec a (wrap64k (origin + (k + Z.of_nat (length l))))) as [Heq|Hne].
  - rewrite <- Heq, update_eq.
    destruct (setMemory_from_attr_cases m origin k l a) as [-> | ->]; [reflexivity|].
    rewrite <- Z.lor_assoc, Z.lor_diag. reflexivity.
  - rewrite update_ne by exact Hne. apply IH.
    destruct (decide (i = length l)) as [->|]; [contradiction Hne; reflexivity | lia].
Qed.

Lemma setMemory_from_last_write m origin k l i b :
  l !! i = Some b →
  (∀ j, (i < j < length l)%nat →
        wrap64k (origin + (k + Z.of_nat j)) ≠ wrap64k (origin + (k + Z.of_nat i))) →
  memory (MemoryOps.setMemory_from m origin k l) (wrap64k (origin + (k + Z.of_nat i)))
  = Z.of_N (Byte.to_N b).
Proof.
  revert i b. induction l as [|c l IH] using rev_ind; intros i b Hb Hlater; [discriminate|].
  rewrite setMemory_from_snoc. cbn zeta. cbn [memory].
  rewrite length_app in Hlater. cbn [length] in Hlater.
  destruct (decide (i = length l)) as [->|Hi].
  - rewrite lookup_app_r, Nat.sub_diag in Hb by lia. injection Hb as ->.
    apply update_eq.
  - assert (Hlt : (i < length l)%nat).
    { apply lookup_lt_Some in Hb. rewrite length_app in Hb. cbn [length] in Hb. lia. }
    rewrite lookup_app_l in Hb by exact Hlt.
    rewrite update_ne by (apply not_eq_sym, Hlater; lia).
    apply IH; [exact Hb|]. intros j Hj. apply Hlater. lia.
Qed.

(** C10: [setMemory(origin, bytes)] stores byte [i] at [(origin + i) mod
    65536] and ORs ASSIGNED, and nothing else, into the attribute of that
    address; an address that no byte is stored at keeps its byte and its
    attribute.  (A byte stays where it was stored unless an input longer
    than 64K wraps around onto its address.) *)
Theorem setMemory_effect (m : Memory) (origin : Z) (bytes : list Byte.byte) :
  (∀ i b, bytes !! i = Some b →
     memory (MemoryOps.setMemory m origin (take (S i) bytes)) (wrap64k (origin + Z.of_nat i))
     = Z.of_N (Byte.to_N b))
  ∧ (∀ i b, bytes !! i = Some b →
       (∀ j, (i < j < length bytes)%nat →
             wrap64k (origin + Z.of_nat j) ≠ wrap64k (origin + Z.of_nat i)) →
       memory (MemoryOps.setMemory m origin bytes) (wrap64k (origin + Z.of_nat i))
       = Z.of_N (Byte.to_N b))
  ∧ (∀ i, (i < length bytes)%nat →
       memoryAttr (MemoryOps.setMemory m origin bytes) (wrap64k (origin + Z.of_nat i))
       = Z.lor (memoryAttr m (wrap64k (origin + Z.of_nat i))) MemAttribute.ASSIGNED)
  ∧ (∀ a, (∀ i, (i < length bytes)%nat → wrap64k (origin + Z.of_nat i) ≠ a) →
       memory (MemoryOps.setMemory m origin bytes) a = memory m a
       ∧ memoryAttr (MemoryOps.setMemory m origin bytes) a = memoryAttr m a).
Proof.
  unfold MemoryOps.setMemory. repeat split.
  - intros i b Hb.
    apply (setMemory_from_last_write m origin 0 (take (S i) bytes) i b).
    + rewrite lookup_take_lt by lia. exact Hb.
    + intros j Hj. rewrite length_take in Hj. lia.
  - intros i b Hb Hlater. apply (setMemory_from_last_write m origin 0 bytes i b Hb Hlater).
  - intros i Hi. apply (setMemory_from_attr_written m origin 0 bytes i Hi).
  - apply (setMemory_from_untouched m origin 0 bytes a). exact H.
  - apply (setMemory_from_untouched m origin 0 bytes a). exact H.
Qed.

Lemma setMemory_effect_witness :
  memory (MemoryOps.setMemory MemoryOps.new 0xFFFF (take 2 [x3e; x05; xc9])) (wrap64k (0xFFFF + Z.of_nat 1))
  = Z.of_N (Byte.to_N x05)
  ∧ memory (MemoryOps.setMemory MemoryOps.new 0xFFFF [x3e; x05; xc9]) (wrap64k (0xFFFF + Z.of_nat 1))
    = Z.of_N (Byte.to_N x05)
  ∧ memoryAttr (MemoryOps.setMemory MemoryOps.new 0xFFFF [x3e; x05; xc9])
      (wrap64k (0xFFFF + Z.of_nat 1))
    = Z.lor (memoryAttr MemoryOps.new (wrap64k (0xFFFF + Z.of_nat 1))) MemAttribute.ASSIGNED
  ∧ memory (MemoryOps.setMemory MemoryOps.new 0xFFFF [x3e; x05; xc9]) 2 = memory MemoryOps.new 2
  ∧ memoryAttr (MemoryOps.setMemory MemoryOps.new 0xFFFF [x3e; x05; xc9]) 2
    = memoryAttr MemoryOps.new 2.
Proof.
  destruct (setMemory_effect MemoryOps.new 0xFFFF [x3e; x05; xc9]) as (H1 & H2 & H3 & H4).
  split; [apply (H1 1%nat x05); reflexivity|].
  split.
  { apply (H2 1%nat x05); [reflexivity|].
    intros j Hj. cbn [length] in Hj. assert (j = 2%nat) as -> by lia. vm_compute. discriminate. }
  split; [apply (H3 1%nat); cbn [length]; lia|].
  apply (H4 2). intros i Hi. cbn [length] in Hi.
  destruct i as [|[|[|i]]]; [vm_compute; discriminate .. | lia].
Defined.

(** ** Scenario A *)

Lemma scenarioA_summary :
  ∃ n0 n10 n3,
    summaryA <$> run scenarioA [0x8000] = Some (Some n0, Some 2%nat, Some n10, Some n3)
    ∧ (AsmNode.start n0 = 0x8000 ∧ AsmNode.length n0 = 3
       ∧ AsmNode.callee n0 = Some 2%nat ∧ AsmNode.label n0 = None
       ∧ AsmNode.callers n0 = [] ∧ AsmNode.predecessors n0 = []
       ∧ AsmNode.branchNodes n0 = [1%nat])
    ∧ (AsmNode.start n10 = 0x8010 ∧ AsmNode.isSubroutine n10 = true
       ∧ AsmNode.callers n10 = [0%nat] ∧ AsmNode.label n10 = Some "SUB_8010")
    ∧ (AsmNode.start n3 = 0x8003 ∧ AsmNode.length n3 = 1 ∧ AsmNode.predecessors n3 = [0%nat]).
Proof.
  do 3 eexists. split; [vm_compute; reflexivity|].
  repeat split; reflexivity.
Qed.

(** C1 (as stated): the node at 0x8000 does not have length 4. *)
Lemma scenarioA_length_is_not_4 : ¬ scenarioA_as_specified.
Proof.
  intros (d & n0 & r10 & n10 & Hrun & Hn0 & Hlen & _).
  destruct scenarioA_summary as (m0 & m10 & m3 & Hsum & (_ & Hlen0 & _) & _).
  rewrite Hrun in Hsum. cbn [fmap option_fmap option_map] in Hsum. unfold summaryA in Hsum.
  rewrite Hn0 in Hsum. injection Hsum as Heq _ _ _. subst m0. lia.
Qed.

(** C1 (amended): after [getFlowGraph([0x8000], [])] on scenario A the
    table has a node at 0x8000 of length 3 (the CALL ends the node, the RET
    at 0x8003 is a node of its own, of length 1, reached by fall-through)
    whose callee is the node at 0x8010; the node at 0x8010 has
    [isSubroutine = true]; the node at 0x8000 has no callers, no
    predecessors and no label. *)
Theorem scenarioA_flow_graph :
  ∃ d n0 r10 n10 n3,
    run scenarioA [0x8000] = Some d
    ∧ nodeAt (graph d) 0x8000 = Some n0
    ∧ AsmNode.length n0 = 3
    ∧ NodeMap.get (nodes (graph d)) 0x8010 = Some r10
    ∧ AsmNode.callee n0 = Some r10
    ∧ store (graph d) !! r10 = Some n10
    ∧ AsmNode.isSubroutine n10 = true
    ∧ AsmNode.callers n10 ≠ []
    ∧ AsmNode.label n0 = None
    ∧ AsmNode.callers n0 = []
    ∧ AsmNode.predecessors n0 = []
    ∧ nodeAt (graph d) 0x8003 = Some n3
    ∧ AsmNode.length n3 = 1
    ∧ AsmNode.start n0 + AsmNode.length n0 = AsmNode.start n3.
Proof.
  destruct scenarioA_summary
    as (n0 & n10 & n3 & Hsum
        & (Hstart0 & Hlen0 & Hcallee & Hlabel & Hcallers & Hpreds & _)
        & (Hstart10 & Hsub & Hcallers10 & _) & (Hstart3 & Hlen3 & _)).
  destruct (run scenarioA [0x8000]) as [d|]; [|discriminate].
  cbn [fmap option_fmap option_map] in Hsum. unfold summaryA in Hsum.
  injection Hsum as H0 H10r H10 H3.
  exists d, n0, 2%nat, n10, n3.
  assert (Hn10 : store (graph d) !! 2%nat = Some n10).
  { unfold nodeAt in H10. rewrite H10r in H10. exact H10. }
  repeat split; try assumption.
  - rewrite Hcallers10. discriminate.
  - lia.
Qed.

(** ** markSubroutines *)

Lemma flagsRaised_refl st : flagsRaised st st.
Proof. intros r n' Hn'. exists n'. auto. Qed.

Lemma flagsRaised_trans st1 st2 st3 :
  flagsRaised st1 st2 → flagsRaised st2 st3 → flagsRaised st1 st3.
Proof.
  intros H12 H23 r n3 Hn3.
  destruct (H23 r n3 Hn3) as (n2 & Hn2 & Hc2 & Hs2).
  destruct (H12 r n2 Hn2) as (n1 & Hn1 & Hc1 & Hs1).
  exists n1. split; [exact Hn1|]. split; [congruence | auto].
Qed.

Lemma flagsRaised_alter st r :
  flagsRaised st (alter (AsmNode.set_isSubroutine true) r st).
Proof.
  intros r' n' Hn'. destruct (decide (r = r')) as [<-|Hne].
  - rewrite list_lookup_alter_eq in Hn'.
    destruct (st !! r) as [n|]; [|discriminate]. injection Hn' as <-.
    exists n. auto.
  - rewrite list_lookup_alter_ne in Hn' by exact Hne. exists n'. auto.
Qed.

Lemma flagsRaised_fold {A} (f : Store → A → Store) l :
  (∀ st x, flagsRaised st (f st x)) → ∀ st, flagsRaised st (fold_left f l st).
Proof.
  intros Hf. induction l as [|x l IH]; intros st; cbn [fold_left].
  - apply flagsRaised_refl.
  - eapply flagsRaised_trans; [apply Hf | apply IH].
Qed.

Lemma flagsRaised_markPredecessors st r :
  flagsRaised st (markPredecessorsAsSubroutine st r).
Proof.
  unfold markPredecessorsAsSubroutine. apply flagsRaised_fold.
  intros st' x. apply flagsRaised_alter.
Qed.

Lemma flagsRaised_step st node : flagsRaised st (markSubroutines_step st node).
Proof.
  unfold markSubroutines_step. destruct (st !! node) as [n|]; [|apply flagsRaised_refl].
  destruct (AsmNode.isSubroutine n).
  - apply flagsRaised_fold. apply flagsRaised_markPredecessors.
  - destruct (negb _); [apply flagsRaised_alter | apply flagsRaised_refl].
Qed.

(** The round of the loop that visits a node leaves it marked if it has a
    caller. *)
Lemma markSubroutines_step_marks st node n' :
  markSubroutines_step st node !! node = Some n' →
  AsmNode.callers n' ≠ [] → AsmNode.isSubroutine n' = true.
Proof.
  intros Hn' Hcallers.
  destruct (flagsRaised_step st node node n' Hn') as (n & Hn & Hc & Hs).
  unfold markSubroutines_step in Hn'. rewrite Hn in Hn'.
  destruct (AsmNode.isSubroutine n) eqn:Hsub; [auto|].
  destruct (bool_decide_reflect (AsmNode.callers n = [])) as [Hnil|Hcons]; cbn [negb] in Hn'.
  - congruence.
  - rewrite list_lookup_alter_eq, Hn in Hn'. injection Hn' as <-. reflexivity.
Qed.

Lemma markSubroutines_loop_marks l st node n' :
  In node l →
  fold_left markSubroutines_step l st !! node = Some n' →
  AsmNode.callers n' ≠ [] → AsmNode.isSubroutine n' = true.
Proof.
  revert st. induction l as [|x l IH]; intros st Hin Hn' Hcallers; [contradiction|].
  cbn [fold_left] in Hn'.
  destruct (in_dec Nat.eq_dec node l) as [Hl|Hl]; [eapply IH; eassumption|].
  destruct Hin as [->|Hin]; [|contradiction].
  destruct (flagsRaised_fold markSubroutines_step l flagsRaised_step _ node n' Hn')
    as (n1 & Hn1 & Hc & Hs).
  apply Hs. eapply markSubroutines_step_marks; [exact Hn1 | congruence].
Qed.

(** C2 (as stated): in scenario D the placeholder for the CALL target has a
    caller, is not in the table and is not a subroutine after
    [markSubroutines]. *)
Lemma placeholder_with_caller_not_marked :
  ∃ g r placeholder,
    afterMarkSubroutines scenarioD [0x8000] = Some g
    ∧ (n ← nodeAt g 0x8000; AsmNode.callee n) = Some r
    ∧ store g !! r = Some placeholder
    ∧ (∀ addr64k, NodeMap.get (nodes g) addr64k ≠ Some r)
    ∧ AsmNode.callers placeholder ≠ []
    ∧ AsmNode.isSubroutine placeholder = false
    ∧ ¬ calledNodesMarked g.
Proof.
  assert (Hrun : ∃ st,
    (fun g => (nodes g, store g)) <$> afterMarkSubroutines scenarioD [0x8000]
    = Some ([(0x8000, 0%nat); (0x8003, 1%nat)], st)
    ∧ (n ← st !! 0%nat; AsmNode.callee n) = Some 2%nat
    ∧ (AsmNode.callers <$> st !! 2%nat) = Some [0%nat]
    ∧ (AsmNode.isSubroutine <$> st !! 2%nat) = Some false).
  { eexists. split; [vm_compute; reflexivity|]. repeat split; reflexivity. }
  destruct Hrun as (st & Hrun & Hcallee & Hcallers & Hsub).
  destruct (afterMarkSubroutines scenarioD [0x8000]) as [g|]; [|discriminate].
  cbn [fmap option_fmap option_map] in Hrun. injection Hrun as Hnodes Hstore.
  destruct (st !! 2%nat) as [p|] eqn:Hp; [|discriminate].
  cbn [fmap option_fmap option_map] in Hcallers, Hsub.
  injection Hcallers as Hcallers. injection Hsub as Hsub.
  exists g, 2%nat, p.
  assert (Hnot : AsmNode.callers p ≠ []) by (rewrite Hcallers; discriminate).
  repeat split.
  - unfold nodeAt. rewrite Hnodes, Hstore. exact Hcallee.
  - rewrite Hstore. exact Hp.
  - intros addr64k. rewrite Hnodes. cbn [NodeMap.get].
    repeat (destruct (_ =? _); [discriminate|]). discriminate.
  - exact Hnot.
  - exact Hsub.
  - intros Hall. specialize (Hall 2%nat p). rewrite Hstore in Hall.
    rewrite (Hall Hp Hnot) in Hsub. discriminate.
Qed.

(** ** getNodeForFill *)

Lemma addCommentForAddress_lookup (c : gmap Z (list string)) addr64k comment :
  Comments.addCommentForAddress c addr64k comment !! addr64k
  = Some (default [] (c !! addr64k) ++ [comment])
  ∧ ∀ a, a ≠ addr64k → Comments.addCommentForAddress c addr64k comment !! a = c !! a.
Proof.
  unfold Comments.addCommentForAddress. split.
  - apply lookup_insert_eq.
  - intros a Hne. apply lookup_insert_ne. congruence.
Qed.

(** C8: the build at the gap scenario.  The JP at 0x8002 targets 0x8001,
    which was never loaded.  Pass 1 has walked from 0x8000 through this
    address, so it is FLOW_ANALYZED and CODE_FIRST when the queue reaches
    it, and [createNodeForAddress] enters a node for it into the table
    before it looks at ASSIGNED.  Pass 2 finds this node: the build ends
    with no placeholder and no diagnostic, against "a jump to code in
    UNASSIGNED memory also has no node" in [getNodeForFill]. *)
Lemma unassigned_target_with_table_node :
  ∃ g d,
    afterCreateNodes gapScenario [0x8000] = Some g
    ∧ hasFlag (MemoryOps.getAttributeAt (mem g) 0x8001) MemAttribute.ASSIGNED = false
    ∧ getNodeForFill g 0x8002 0x8001 = (g, 1%nat)
    ∧ run gapScenario [0x8000] = Some d
    ∧ comments (graph d) = ∅
    ∧ length (store (graph d)) = length (nodes (graph d))
    ∧ ¬ placeholderForEveryUnassignedTarget.
Proof.
  assert (Hpass1 :
    (fun g => (nodes g, length (store g),
               hasFlag (MemoryOps.getAttributeAt (mem g) 0x8001) MemAttribute.ASSIGNED))
      <$> afterCreateNodes gapScenario [0x8000]
    = Some ([(0x8000, 0%nat); (0x8001, 1%nat)], 2%nat, false))
    by (vm_compute; reflexivity).
  destruct (afterCreateNodes gapScenario [0x8000]) as [g|]; [|discriminate].
  assert (Hbuild :
    (fun d => (comments (graph d), length (store (graph d)), length (nodes (graph d))))
      <$> run gapScenario [0x8000]
    = Some (∅, 2%nat, 2%nat)) by (vm_compute; reflexivity).
  destruct (run gapScenario [0x8000]) as [d|]; [|discriminate].
  cbn [fmap option_fmap option_map] in Hpass1, Hbuild.
  injection Hpass1 as Hnodes Hlen Hattr. injection Hbuild as Hcomments Hstore Htable.
  assert (Hfill : getNodeForFill g 0x8002 0x8001 = (g, 1%nat)).
  { unfold getNodeForFill. rewrite Hnodes. reflexivity. }
  exists g, d. repeat split; try assumption; try congruence.
  intros Hall. destruct (Hall g 0x8002 0x8001 Hattr) as (g' & p & Hp & Hgrow & _).
  rewrite Hfill in Hp. injection Hp as <- _. lia.
Qed.

(** Where the table has no node for a target without the ASSIGNED
    attribute, [getNodeForFill] returns a new node for the target that it
    does not enter into the table, and appends the
    branch-into-unassigned-memory line to the comments of the originating
    address; it changes nothing else. *)
Lemma getNodeForFill_unassigned_target (g : FlowGraph) (originAddress targetAddress : Z) :
  NodeMap.get (nodes g) targetAddress = None →
  hasFlag (MemoryOps.getAttributeAt (mem g) targetAddress) MemAttribute.ASSIGNED = false →
  ∃ g' placeholder,
    getNodeForFill g originAddress targetAddress = (g', placeholder)
    ∧ placeholder = length (store g)
    ∧ store g' = store g ++ [AsmNode.set_start targetAddress AsmNode.new]
    ∧ nodes g' = nodes g
    ∧ mem g' = mem g
    ∧ otherLabels g' = otherLabels g
    ∧ comments g' !! originAddress
      = Some (default [] (comments g !! originAddress)
              ++ ["The disassembly branches into unassigned memory at "
                    +:+ getHexFormattedString targetAddress 4 +:+ "."])
    ∧ (∀ a, a ≠ originAddress → comments g' !! a = comments g !! a).
Proof.
  intros Hnone Hattr. unfold getNodeForFill. rewrite Hnone.
  cbn [mem set_store]. rewrite Hattr.
  eexists _, _. split; [reflexivity|].
  cbn [store nodes mem otherLabels comments set_comments set_store].
  repeat split;
    apply (addCommentForAddress_lookup (comments g) originAddress
             (Comments.unassignedText targetAddress)).
Qed.

(** Scenario D as a whole: the build ends normally with the placeholder and
    the one diagnostic. *)
Lemma scenarioD_build :
  ∃ d, run scenarioD [0x8000] = Some d
       ∧ map_to_list (comments (graph d))
         = [(0x8000, ["The disassembly branches into unassigned memory at $9000."])]
       ∧ length (nodes (graph d)) = 2%nat
       ∧ AsmNode.start <$> store (graph d) !! 2%nat = Some 0x9000.
Proof.
  assert (Hbuild :
    (fun d => (map_to_list (comments (graph d)), length (nodes (graph d)),
               AsmNode.start <$> store (graph d) !! 2%nat))
      <$> run scenarioD [0x8000]
    = Some ([(0x8000, ["The disassembly branches into unassigned memory at $9000."])],
            2%nat, Some 0x9000)) by (vm_compute; reflexivity).
  destruct (run scenarioD [0x8000]) as [d|]; [|discriminate].
  cbn [fmap option_fmap option_map] in Hbuild. injection Hbuild as H1 H2 H3.
  exists d. repeat split; assumption.
Qed.

(** ** assignNodeLabels *)

Lemma unlabel_set_label v n : unlabel (AsmNode.set_label v n) = unlabel n.
Proof. reflexivity. Qed.

Lemma sameButLabels_refl g : sameButLabels g g.
Proof. repeat split. Qed.

Lemma sameButLabels_trans g1 g2 g3 :
  sameButLabels g1 g2 → sameButLabels g2 g3 → sameButLabels g1 g3.
Proof.
  intros (A1 & A2 & A3 & A4 & A5) (B1 & B2 & B3 & B4 & B5).
  repeat split; congruence.
Qed.

Lemma sameButLabels_modify r v g : sameButLabels g (modify r (AsmNode.set_label v) g).
Proof.
  repeat split. unfold modify. cbn [store set_store].
  apply list_eq. intros i. rewrite !list_lookup_fmap.
  destruct (decide (r = i)) as [<-|Hne].
  - rewrite list_lookup_alter_eq. destruct (store g !! r); reflexivity.
  - rewrite list_lookup_alter_ne by exact Hne. reflexivity.
Qed.

(** The fields of a node other than its label are the same in both graphs. *)
Lemma sameButLabels_lookup g g' r n :
  sameButLabels g g' → store g !! r = Some n →
  ∃ n', store g' !! r = Some n' ∧ unlabel n' = unlabel n.
Proof.
  intros (_ & _ & _ & _ & Hst) Hn.
  assert (H : (unlabel <$> store g') !! r = (unlabel <$> store g) !! r) by (rewrite Hst; reflexivity).
  rewrite !list_lookup_fmap, Hn in H.
  destruct (store g' !! r) as [n'|]; [|discriminate].
  exists n'. split; [reflexivity|]. cbn in H. congruence.
Qed.

Lemma modify_lookup_ne r r' f g : r ≠ r' → store (modify r f g) !! r' = store g !! r'.
Proof. intros Hne. unfold modify. cbn [store set_store]. apply list_lookup_alter_ne, Hne. Qed.

Lemma modify_lookup_eq r f g : store (modify r f g) !! r = f <$> store g !! r.
Proof. unfold modify. cbn [store set_store]. apply list_lookup_alter_eq. Qed.

Lemma numberLabels_spec targets g prefix i :
  sameButLabels g (numberLabels g prefix i targets)
  ∧ ∀ r, ¬ In r targets → store (numberLabels g prefix i targets) !! r = store g !! r.
Proof.
  revert g i. induction targets as [|t targets IH]; intros g i; cbn [numberLabels].
  - split; [apply sameButLabels_refl | reflexivity].
  - destruct (IH (modify t (AsmNode.set_label (prefix +:+ numberToString i)) g) (i + 1))
      as [Hsame Hout].
    split.
    + eapply sameButLabels_trans; [apply sameButLabels_modify | exact Hsame].
    + intros r Hr. rewrite Hout by (intros Hin; apply Hr; right; exact Hin).
      apply modify_lookup_ne. intros ->. apply Hr. left. reflexivity.
Qed.

Lemma globalLabels_spec targets g g' :
  globalLabels g targets = Some g' →
  sameButLabels g g' ∧ ∀ r, ¬ In r targets → store g' !! r = store g !! r.
Proof.
  revert g. induction targets as [|t targets IH]; intros g Hrun; cbn [globalLabels] in Hrun.
  - injection Hrun as <-. split; [apply sameButLabels_refl | reflexivity].
  - destruct (store g !! t) as [n|]; [|discriminate]. cbn [mbind option_bind] in Hrun.
    destruct (IH _ Hrun) as [Hsame Hout]. split.
    + eapply sameButLabels_trans; [apply sameButLabels_modify | exact Hsame].
    + intros r Hr. rewrite Hout by (intros Hin; apply Hr; right; exact Hin).
      apply modify_lookup_ne. intros ->. apply Hr. left. reflexivity.
Qed.

(** Every node collected by the walk over a block is a node of that block
    that is referenced from elsewhere and has no label yet. *)
Lemma collectLocalNodes_spec g blocks node fuel :
  ∀ addr blockNode localNodes loopNodes l1 l2,
    inBlockOf g blocks node blockNode →
    Forall (fun r => inBlockOf g blocks node r ∧ needsLocalLabel g r) localNodes →
    Forall (fun r => inBlockOf g blocks node r ∧ needsLocalLabel g r) loopNodes →
    collectLocalNodes fuel g blocks node addr blockNode localNodes loopNodes = Some (l1, l2) →
    Forall (fun r => inBlockOf g blocks node r ∧ needsLocalLabel g r) (l1 ++ l2).
Proof.
  induction fuel as [|fuel IH]; intros addr blockNode localNodes loopNodes l1 l2
    Hblock Hlocal Hloop Hrun; cbn [collectLocalNodes] in Hrun; [discriminate|].
  destruct (addr <? 0x10000).
  2:{ injection Hrun as <- <-. apply Forall_app. split; assumption. }
  destruct (store g !! blockNode) as [b|] eqn:Hb; [|discriminate].
  cbn [mbind option_bind] in Hrun.
  set (collected :=
         if otherReference (store g) b && negb (JS.truthy (AsmNode.label b))
         then if isLoopRoot (store g) b then (localNodes, loopNodes ++ [blockNode])
              else (localNodes ++ [blockNode], loopNodes)
         else (localNodes, loopNodes)) in Hrun.
  assert (Hcollected :
    Forall (fun r => inBlockOf g blocks node r ∧ needsLocalLabel g r) collected.1
    ∧ Forall (fun r => inBlockOf g blocks node r ∧ needsLocalLabel g r) collected.2).
  { subst collected.
    destruct (otherReference (store g) b) eqn:Hother; cbn [andb]; [|split; assumption].
    destruct (JS.truthy (AsmNode.label b)) eqn:Hlabel; cbn [negb]; [split; assumption|].
    assert (Hneeds : inBlockOf g blocks node blockNode ∧ needsLocalLabel g blockNode).
    { split; [exact Hblock|]. exists b. auto. }
    destruct (isLoopRoot (store g) b); cbn [fst snd]; split; try assumption;
      apply Forall_app; split; try assumption; constructor; [exact Hneeds | constructor | exact Hneeds | constructor]. }
  destruct collected as [localNodes' loopNodes']. cbn [fst snd] in Hcollected.
  destruct Hcollected as [Hlocal' Hloop'].
  destruct (negb (addr =? AsmNode.start b)); [discriminate|].
  destruct (isNode (blockAt blocks (addr + AsmNode.length b)) node) eqn:Hnext; cbn [negb] in Hrun.
  2:{ injection Hrun as <- <-. apply Forall_app. split; assumption. }
  destruct (NodeMap.get (nodes g) (addr + AsmNode.length b)) as [next|] eqn:Hget;
    [|discriminate].
  cbn [mbind option_bind] in Hrun.
  eapply IH; [| exact Hlocal' | exact Hloop' | exact Hrun].
  right. exists (addr + AsmNode.length b). split; assumption.
Qed.

Lemma assignLocalLabels_spec g blocks node g' :
  assignLocalLabels g blocks node = Some g' →
  sameButLabels g g'
  ∧ ∀ r, ¬ (inBlockOf g blocks node r ∧ needsLocalLabel g r) → store g' !! r = store g !! r.
Proof.
  unfold assignLocalLabels. intros Hrun.
  destruct (store g !! node) as [n|]; [|discriminate]. cbn [mbind option_bind] in Hrun.
  destruct (collectLocalNodes walkFuel g blocks node (AsmNode.start n) node [] [])
    as [[localNodes loopNodes]|] eqn:Hcollect; [|discriminate].
  cbn [mbind option_bind] in Hrun.
  assert (Hall : Forall (fun r => inBlockOf g blocks node r ∧ needsLocalLabel g r)
                        (localNodes ++ loopNodes)).
  { eapply collectLocalNodes_spec; [left; reflexivity | constructor | constructor | exact Hcollect]. }
  apply Forall_app in Hall. destruct Hall as [Hlocal Hloop].
  rewrite Forall_forall in Hlocal, Hloop.
  destruct (JS.truthy (AsmNode.label n)).
  - set (preLabel := default "" (AsmNode.label n) +:+ ".") in Hrun.
    destruct (numberLabels_spec localNodes g (preLabel +:+ labelLocalLabelPrefix) 1)
      as [Hsame1 Hout1].
    set (g1 := numberLabels g (preLabel +:+ labelLocalLabelPrefix) 1 localNodes) in *.
    assert (Hkeep1 : ∀ r, ¬ (inBlockOf g blocks node r ∧ needsLocalLabel g r) →
                          store g1 !! r = store g !! r).
    { intros r Hr. apply Hout1. intros Hin. apply Hr, Hlocal, list_elem_of_In, Hin. }
    destruct loopNodes as [|loopNode [|second rest]].
    + injection Hrun as <-.
      destruct (numberLabels_spec [] g1 (preLabel +:+ labelLocalLoopPrefix) 1) as [Hsame2 Hout2].
      split; [eapply sameButLabels_trans; eassumption|].
      intros r Hr. cbn [numberLabels]. apply Hkeep1, Hr.
    + injection Hrun as <-. split.
      * eapply sameButLabels_trans; [exact Hsame1 | apply sameButLabels_modify].
      * intros r Hr. rewrite modify_lookup_ne; [apply Hkeep1, Hr|].
        intros ->. apply Hr, Hloop. left.
    + injection Hrun as <-.
      destruct (numberLabels_spec (loopNode :: second :: rest) g1
                  (preLabel +:+ labelLocalLoopPrefix) 1) as [Hsame2 Hout2].
      split; [eapply sameButLabels_trans; eassumption|].
      intros r Hr. rewrite Hout2; [apply Hkeep1, Hr|].
      intros Hin. apply Hr, Hloop, list_elem_of_In, Hin.
  - destruct (globalLabels g localNodes) as [g1|] eqn:Hg1; [|discriminate].
    cbn [mbind option_bind] in Hrun.
    destruct (globalLabels_spec _ _ _ Hg1) as [Hsame1 Hout1].
    destruct (globalLabels_spec _ _ _ Hrun) as [Hsame2 Hout2].
    split; [eapply sameButLabels_trans; eassumption|].
    intros r Hr. rewrite Hout2, Hout1; [reflexivity | |];
      intros Hin; apply Hr; [apply Hlocal | apply Hloop]; apply list_elem_of_In, Hin.
Qed.

Lemma inBlockOf_nodes g1 g blocks node r :
  nodes g1 = nodes g → inBlockOf g1 blocks node r → inBlockOf g blocks node r.
Proof. unfold inBlockOf. intros ->. auto. Qed.

Lemma leadingLabel_globalLabel n addr64k :
  leadingLabel n addr64k
  = match globalLabel n addr64k with Some label => Some label | None => AsmNode.label n end.
Proof.
  unfold leadingLabel, globalLabel, labelSubPrefix, labelRstPrefix, labelLblPrefix.
  destruct (bool_decide (AsmNode.callers n = []));
    destruct (bool_decide (AsmNode.predecessors n = []));
    cbn [negb orb andb]; try reflexivity;
    destruct (AsmNode.isSubroutine n); try reflexivity;
    destruct (Z.land (AsmNode.start n) (Z.lnot 56) =? 0); reflexivity.
Qed.

Lemma globalLabel_truthy n addr64k label :
  globalLabel n addr64k = Some label → JS.truthy (Some label) = true.
Proof.
  unfold globalLabel, labelSubPrefix, labelRstPrefix, labelLblPrefix.
  destruct (negb _ || negb _); [|discriminate].
  destruct (AsmNode.isSubroutine n); [destruct (negb _)|];
    intros [= <-]; reflexivity.
Qed.

Lemma globalLabel_None n addr64k :
  globalLabel n addr64k = None → AsmNode.callers n = [] ∧ AsmNode.predecessors n = [].
Proof.
  unfold globalLabel.
  destruct (bool_decide_reflect (AsmNode.callers n = []));
    destruct (bool_decide_reflect (AsmNode.predecessors n = []));
    cbn [negb orb]; try (split; assumption);
    destruct (AsmNode.isSubroutine n); try destruct (negb _); discriminate.
Qed.

Lemma otherReference_unreferenced st n :
  AsmNode.callers n = [] → AsmNode.predecessors n = [] → otherReference st n = false.
Proof.
  intros Hc Hp. unfold otherReference. rewrite Hc, Hp. reflexivity.
Qed.

(** A round of the loop changes labels only, and only in the block of the
    node it visits. *)
Lemma assignNodeLabels_step_frame blocks g a node g' :
  assignNodeLabels_step blocks g (a, node) = Some g' →
  sameButLabels g g'
  ∧ ∀ r, r ≠ node → ¬ inBlockOf g blocks node r → store g' !! r = store g !! r.
Proof.
  unfold assignNodeLabels_step. intros Hrun.
  destruct (blockAt blocks a) as [blockNode|].
  2:{ injection Hrun as <-. split; [apply sameButLabels_refl | reflexivity]. }
  destruct (isNode (Some blockNode) node).
  2:{ injection Hrun as <-. split; [apply sameButLabels_refl | reflexivity]. }
  destruct (store g !! node) as [n|]; [|discriminate]. cbn [mbind option_bind] in Hrun.
  set (g1 := if negb (JS.truthy (AsmNode.label n))
             then match globalLabel n a with
                  | Some label => modify node (AsmNode.set_label label) g
                  | None => g
                  end
             else g) in Hrun.
  assert (Hg1 : sameButLabels g g1
                ∧ ∀ r, r ≠ node → store g1 !! r = store g !! r).
  { subst g1. destruct (negb _); [|split; [apply sameButLabels_refl | reflexivity]].
    destruct (globalLabel n a); [|split; [apply sameButLabels_refl | reflexivity]].
    split; [apply sameButLabels_modify|]. intros r Hr. apply modify_lookup_ne. congruence. }
  destruct Hg1 as [Hsame1 Hout1].
  destruct (assignLocalLabels_spec _ _ _ _ Hrun) as [Hsame2 Hout2].
  split; [eapply sameButLabels_trans; eassumption|].
  intros r Hr Hblock. rewrite Hout2; [apply Hout1, Hr|].
  intros [Hin _]. apply Hblock. eapply inBlockOf_nodes; [|exact Hin].
  destruct Hsame1 as (_ & Hnodes & _). exact Hnodes.
Qed.

(** The round that visits an unlabeled leading node gives it its global
    label, or none. *)
Lemma assignNodeLabels_step_label blocks g a node n g' :
  blockAt blocks a = Some (Cur node) →
  store g !! node = Some n →
  JS.truthy (AsmNode.label n) = false →
  assignNodeLabels_step blocks g (a, node) = Some g' →
  ∃ n', store g' !! node = Some n' ∧ AsmNode.label n' = leadingLabel n a.
Proof.
  intros Hblock Hn Hlabel. unfold assignNodeLabels_step. rewrite Hblock.
  cbn [isNode]. rewrite bool_decide_eq_true_2 by reflexivity.
  rewrite Hn. cbn [mbind option_bind]. rewrite Hlabel. cbn [negb].
  rewrite leadingLabel_globalLabel. intros Hrun.
  destruct (assignLocalLabels_spec _ _ _ _ Hrun) as [_ Hout].
  destruct (globalLabel n a) as [label|] eqn:Hglobal.
  - exists (AsmNode.set_label label n). split; [|reflexivity].
    rewrite Hout; [rewrite modify_lookup_eq, Hn; reflexivity|].
    intros [_ (b & Hb & _ & Hfalsy)].
    rewrite modify_lookup_eq, Hn in Hb. injection Hb as <-.
    cbn [AsmNode.label AsmNode.set_label] in Hfalsy.
    rewrite (globalLabel_truthy _ _ _ Hglobal) in Hfalsy. discriminate.
  - exists n. split; [|reflexivity].
    rewrite Hout; [exact Hn|].
    intros [_ (b & Hb & Hother & _)]. rewrite Hn in Hb. injection Hb as <-.
    destruct (globalLabel_None _ _ Hglobal) as [Hc Hp].
    rewrite (otherReference_unreferenced _ _ Hc Hp) in Hother. discriminate.
Qed.

Lemma assignNodeLabels_loop_app blocks l1 l2 g :
  assignNodeLabels_loop blocks g (l1 ++ l2)
  = g1 ← assignNodeLabels_loop blocks g l1; assignNodeLabels_loop blocks g1 l2.
Proof.
  revert g. induction l1 as [|e l1 IH]; intros g; cbn [app assignNodeLabels_loop].
  - reflexivity.
  - destruct (assignNodeLabels_step blocks g e); cbn [mbind option_bind]; [apply IH | reflexivity].
Qed.

Lemma assignNodeLabels_loop_frame blocks entries g g' :
  assignNodeLabels_loop blocks g entries = Some g' →
  sameButLabels g g'
  ∧ ∀ r, (∀ a node, In (a, node) entries → r ≠ node ∧ ¬ inBlockOf g blocks node r) →
         store g' !! r = store g !! r.
Proof.
  revert g. induction entries as [|[a node] entries IH]; intros g Hrun;
    cbn [assignNodeLabels_loop] in Hrun.
  - injection Hrun as <-. split; [apply sameButLabels_refl | reflexivity].
  - destruct (assignNodeLabels_step blocks g (a, node)) as [g1|] eqn:Hstep; [|discriminate].
    cbn [mbind option_bind] in Hrun.
    destruct (assignNodeLabels_step_frame _ _ _ _ _ Hstep) as [Hsame1 Hout1].
    destruct (IH _ Hrun) as [Hsame2 Hout2].
    split; [eapply sameButLabels_trans; eassumption|].
    intros r Hr. rewrite Hout2.
    + destruct (Hr a node (or_introl eq_refl)) as [Hne Hblock]. apply Hout1; assumption.
    + intros a' node' Hin. destruct (Hr a' node' (or_intror Hin)) as [Hne Hblock].
      split; [exact Hne|]. intros Hin1. apply Hblock.
      eapply inBlockOf_nodes; [|exact Hin1]. destruct Hsame1 as (_ & Hnodes & _). exact Hnodes.
Qed.

Lemma NodeMap_get_In (T : list (Z * nat)) addr r :
  NodeMap.get T addr = Some r → In (addr, r) T.
Proof.
  induction T as [|[k v] T IH]; cbn [NodeMap.get]; [discriminate|].
  destruct (Z.eqb_spec k addr) as [->|_].
  - intros [= ->]. left. reflexivity.
  - intros Hget. right. apply IH, Hget.
Qed.

Lemma NoDup_snd_inj (T : list (Z * nat)) a1 a2 r :
  NoDup (map snd T) → In (a1, r) T → In (a2, r) T → a1 = a2.
Proof.
  induction T as [|[k v] T IH]; cbn [map snd]; intros Hnd H1 H2; [contradiction|].
  apply NoDup_cons in Hnd. destruct Hnd as [Hnotin Hnd].
  assert (Hin : ∀ a, In (a, v) T → False).
  { intros a Ha. apply Hnotin, list_elem_of_In, in_map_iff. exists (a, v). auto. }
  destruct H1 as [H1|H1], H2 as [H2|H2].
  - congruence.
  - exfalso. apply (Hin a2). congruence.
  - exfalso. apply (Hin a1). congruence.
  - apply IH; assumption.
Qed.

(** In a table without aliases the leading node of a block belongs to no
    other block. *)
Lemma leading_node_not_in_other_block g blocks a node node' :
  NoDup (map snd (nodes g)) →
  In (a, node) (nodes g) →
  blockAt blocks a = Some (Cur node) →
  node ≠ node' →
  ¬ inBlockOf g blocks node' node.
Proof.
  intros Hnd Hin Hblock Hne [Heq|(addr & Hget & Hnode)]; [contradiction|].
  apply NodeMap_get_In in Hget.
  rewrite (NoDup_snd_inj _ _ _ _ Hnd Hget Hin), Hblock in Hnode.
  cbn [isNode] in Hnode. apply bool_decide_eq_true_1 in Hnode. contradiction.
Qed.

(** C4 (as stated): a block leading node that is a subroutine but has
    neither callers nor predecessors is left unlabeled, the subroutine test
    is not made for it. *)
Lemma unreferenced_subroutine_left_unlabeled :
  ∃ g' n n',
    assignNodeLabels (markedGraph loneSubroutine [0x8010])
      (partitionedBlocks loneSubroutine [0x8010]) = Some g'
    ∧ In (0x8010, 0%nat) (nodes (markedGraph loneSubroutine [0x8010]))
    ∧ blockAt (partitionedBlocks loneSubroutine [0x8010]) 0x8010 = Some (Cur 0%nat)
    ∧ store (markedGraph loneSubroutine [0x8010]) !! 0%nat = Some n
    ∧ AsmNode.label n = None
    ∧ AsmNode.isSubroutine n = true
    ∧ store g' !! 0%nat = Some n'
    ∧ AsmNode.label n' = None
    ∧ leadingLabel_as_specified n 0x8010 = Some "SUB_8010"
    ∧ AsmNode.label n' ≠ leadingLabel_as_specified n 0x8010.
Proof.
  assert (Hrun :
    (fun g' => AsmNode.label <$> store g' !! 0%nat)
      <$> assignNodeLabels (markedGraph loneSubroutine [0x8010])
            (partitionedBlocks loneSubroutine [0x8010])
    = Some (Some None)) by (vm_compute; reflexivity).
  destruct (assignNodeLabels _ _) as [g'|]; [|discriminate].
  cbn [fmap option_fmap option_map] in Hrun. injection Hrun as Hrun.
  destruct (store g' !! 0%nat) as [n'|] eqn:Hn'; [|discriminate].
  cbn [option_map] in Hrun. injection Hrun as Hlabel'.
  exists g'. eexists. exists n'.
  split; [reflexivity|]. split; [vm_compute; tauto|].
  split; [vm_compute; reflexivity|]. split; [vm_compute; reflexivity|].
  split; [reflexivity|]. split; [reflexivity|]. split; [exact Hn'|].
  split; [exact Hlabel'|]. split; [vm_compute; reflexivity|].
  rewrite Hlabel'. vm_compute. discriminate.
Qed.

(** C4 (amended): a block leading node that has no label when
    [assignNodeLabels] runs and that has at least one caller or predecessor
    is labeled "RST_" + 2 hex digits if it is a subroutine at an address
    with all bits outside 0b00111000 clear, else "SUB_" + 4 hex digits if it
    is a subroutine, else "LBL_" + 4 hex digits; a node with neither callers
    nor predecessors is left as it is, subroutine or not. *)
Theorem assignNodeLabels_leading_label (g g' : FlowGraph) (blocks : Blocks) (addr64k : Z)
    (node : nat) (n : AsmNode.t) :
  NoDup (map snd (nodes g)) →
  In (addr64k, node) (nodes g) →
  blockAt blocks addr64k = Some (Cur node) →
  store g !! node = Some n →
  JS.truthy (AsmNode.label n) = false →
  assignNodeLabels g blocks = Some g' →
  ∃ n', store g' !! node = Some n'
        ∧ AsmNode.label n'
          = if bool_decide (AsmNode.callers n = [])
               && bool_decide (AsmNode.predecessors n = [])
            then AsmNode.label n
            else if AsmNode.isSubroutine n then
                   if Z.land (AsmNode.start n) (Z.lnot 0x38) =? 0
                   then Some ("RST_" +:+ getHexString addr64k 2)
                   else Some ("SUB_" +:+ getHexString addr64k 4)
                 else Some ("LBL_" +:+ getHexString addr64k 4).
Proof.
  intros Hnd Hin Hblock Hn Hlabel. unfold assignNodeLabels.
  destruct (in_split _ _ Hin) as (l1 & l2 & Hsplit).
  assert (Hother : ∀ a' node', In (a', node') (l1 ++ l2) → node ≠ node').
  { intros a' node' Hin' ->. rewrite Hsplit, map_app in Hnd. cbn [map snd] in Hnd.
    apply NoDup_app in Hnd. destruct Hnd as (_ & Hdisj & Hnd2).
    apply NoDup_cons in Hnd2. destruct Hnd2 as [Hnotin _].
    apply in_app_or in Hin'. destruct Hin' as [Hin'|Hin'].
    - apply (Hdisj node'); [|left].
      apply list_elem_of_In, in_map_iff. exists (a', node'). auto.
    - apply Hnotin, list_elem_of_In, in_map_iff. exists (a', node'). auto. }
  rewrite Hsplit at 1. rewrite assignNodeLabels_loop_app. intros Hrun.
  destruct (assignNodeLabels_loop blocks g l1) as [g1|] eqn:Hloop1; [|discriminate].
  cbn [mbind option_bind assignNodeLabels_loop] in Hrun.
  destruct (assignNodeLabels_step blocks g1 (addr64k, node)) as [g2|] eqn:Hstep; [|discriminate].
  cbn [mbind option_bind] in Hrun.
  destruct (assignNodeLabels_loop_frame _ _ _ _ Hloop1) as [Hsame1 Hout1].
  destruct (assignNodeLabels_step_frame _ _ _ _ _ Hstep) as [Hsame2 _].
  destruct (assignNodeLabels_loop_frame _ _ _ _ Hrun) as [_ Hout3].
  assert (Hn1 : store g1 !! node = Some n).
  { rewrite Hout1; [exact Hn|]. intros a' node' Hin'.
    assert (Hne : node ≠ node') by (eapply Hother, in_or_app; left; exact Hin').
    split; [exact Hne|]. eapply leading_node_not_in_other_block; eassumption. }
  destruct (assignNodeLabels_step_label _ _ _ _ _ _ Hblock Hn1 Hlabel Hstep)
    as (n' & Hn' & Hlabel').
  exists n'. split; [|exact Hlabel'].
  rewrite Hout3; [exact Hn'|]. intros a' node' Hin'.
  assert (Hne : node ≠ node') by (eapply Hother, in_or_app; right; exact Hin').
  split; [exact Hne|]. intros Hblock2.
  eapply (leading_node_not_in_other_block g); try eassumption.
  eapply inBlockOf_nodes; [|exact Hblock2].
  destruct Hsame1 as (_ & Hnodes1 & _). destruct Hsame2 as (_ & Hnodes2 & _). congruence.
Qed.

Lemma assignNodeLabels_leading_label_witness :
  ∃ n',
    store (labeledGraph scenarioA [0x8000]) !! 2%nat = Some n'
    ∧ AsmNode.label n'
      = if bool_decide (AsmNode.callers calledNode = [])
           && bool_decide (AsmNode.predecessors calledNode = [])
        then AsmNode.label calledNode
        else if AsmNode.isSubroutine calledNode then
               if Z.land (AsmNode.start calledNode) (Z.lnot 0x38) =? 0
               then Some ("RST_" +:+ getHexString 0x8010 2)
               else Some ("SUB_" +:+ getHexString 0x8010 4)
             else Some ("LBL_" +:+ getHexString 0x8010 4).
Proof.
  apply (assignNodeLabels_leading_label (markedGraph scenarioA [0x8000])
           (labeledGraph scenarioA [0x8000]) (partitionedBlocks scenarioA [0x8000])
           0x8010 2%nat calledNode).
  - apply (bool_decide_unpack _). vm_compute. exact I.
  - vm_compute. tauto.
  - vm_compute. reflexivity.
  - vm_compute. reflexivity.
  - vm_compute. reflexivity.
  - unfold labeledGraph.
    destruct (assignNodeLabels (markedGraph scenarioA [0x8000])
                (partitionedBlocks scenarioA [0x8000])) eqn:E; [reflexivity|].
    vm_compute in E. discriminate.
Defined.

(** In scenario A the label of the called node is "SUB_8010". *)
Lemma scenarioA_called_node_label :
  AsmNode.label <$> store (labeledGraph scenarioA [0x8000]) !! 2%nat = Some (Some "SUB_8010").
Proof. vm_compute. reflexivity. Qed.

(** * Further properties of the code *)

(** ** The decoder over all memories *)

Section DecoderAll.
Context `{BaseMemory}.
Variable memory : Bytes.

Lemma index_at_In {A} (l : list A) i x : index_at l i = Some x → In x l.
Proof.
  unfold index_at. destruct (i <? 0); [discriminate|]. intros Hx.
  apply list_elem_of_In. eapply list_elem_of_lookup_2. exact Hx.
Qed.

Lemma sameOpcode_getOpcodeAt_Opcode entry a :
  sameOpcode entry (getOpcodeAt_Opcode memory entry a).
Proof.
  unfold getOpcodeAt_Opcode, sameOpcode.
  destruct (valueType entry) eqn:Htype; cbn; rewrite ?Htype; repeat split; reflexivity.
Qed.

(** The decoder answers with an entry of one of the arrays that is not a
    prefix; only the operand fields are filled in. *)
Lemma getOpcodeAt_in_entry depth :
  ∀ a t op, getOpcodeAt_in memory depth a t = Some op →
    ∃ t' entry, In entry (table t') ∧ isPrefixClass (cls entry) = false
                ∧ sameOpcode entry op.
Proof.
  induction depth as [|depth IH]; intros a t op; cbn [getOpcodeAt_in]; [discriminate|].
  destruct (index_at (table t) (getValueAt memory a)) as [entry|] eqn:Hentry;
    [|discriminate].
  cbn [mbind option_bind]. apply index_at_In in Hentry.
  destruct (cls entry) eqn:Hcls; try (apply IH);
    intros [= <-]; exists t, entry;
    (split; [exact Hentry|]); (split; [rewrite Hcls; reflexivity|]).
  1,2,5,6: apply sameOpcode_getOpcodeAt_Opcode.
  all: unfold sameOpcode; cbn; repeat split; reflexivity.
Qed.

Lemma everyInstruction_spec check t entry :
  everyInstruction check = true →
  In entry (table t) → isPrefixClass (cls entry) = false → check entry = true.
Proof.
  unfold everyInstruction. rewrite forallb_forall. intros Hall Hentry Hcls.
  assert (Ht : In t allTables) by (destruct t; cbn; tauto).
  specialize (Hall t Ht). rewrite forallb_forall in Hall.
  specialize (Hall entry Hentry). rewrite Hcls in Hall. exact Hall.
Qed.

Lemma closedTable_decodes depth :
  (∀ k, 0 <= getValueAt memory k < 256) →
  ∀ t a, closedTable depth t = true → ∃ op, getOpcodeAt_in memory depth a t = Some op.
Proof.
  intros Hbyte. induction depth as [|depth IH]; intros t a; cbn [closedTable];
    [discriminate|].
  rewrite andb_true_iff, Nat.eqb_eq, forallb_forall. intros [Hlen Hall].
  destruct (index_at_byte t (getValueAt memory a) Hlen (Hbyte a)) as (entry & Hentry & Hin).
  cbn [getOpcodeAt_in]. rewrite Hentry. cbn [mbind option_bind].
  specialize (Hall entry Hin).
  destruct (cls entry); try (apply IH; exact Hall); eexists; reflexivity.
Qed.

(** The table behind an index prefix. *)
Lemma getOpcodeAt_index_prefix a p :
  In p indexPrefixes → getValueAt memory a = p →
  getOpcodeAt memory a = getOpcodeAt_in memory 2 (a + 1) (indexTable p).
Proof.
  intros Hp Hfirst. unfold getOpcodeAt, prefixDepth.
  cbn [In indexPrefixes] in Hp. destruct Hp as [<-|[<-|[]]].
  - apply (getOpcodeAt_in_extended memory 2 T_Opcodes a
             (OpcodeExtended_new 0xDD T_OpcodesDD) T_OpcodesDD);
      [rewrite Hfirst; vm_compute; reflexivity|reflexivity].
  - apply (getOpcodeAt_in_extended memory 2 T_Opcodes a
             (OpcodeExtended_new 0xFD T_OpcodesFD) T_OpcodesFD);
      [rewrite Hfirst; vm_compute; reflexivity|reflexivity].
Qed.

End DecoderAll.

(** X1: the decoder is total on bytes.  Whatever the bytes of the memory
    are, decoding at any address returns an instruction: the chain of
    prefixes ends after at most two prefix bytes and no array is indexed
    outside its 256 entries. *)
Theorem getOpcodeAt_total `{BaseMemory} (memory : Bytes) (address : Z) :
  (∀ k, 0 <= getValueAt memory k < 256) →
  ∃ op, getOpcodeAt memory address = Some op.
Proof.
  intros Hbyte. apply closedTable_decodes; [exact Hbyte|]. vm_compute. reflexivity.
Qed.

Lemma getOpcodeAt_total_witness :
  ∃ op, @getOpcodeAt BaseMemory_64k (memory MemoryOps.new) 0x4000 = Some op.
Proof.
  apply (@getOpcodeAt_total BaseMemory_64k (memory MemoryOps.new) 0x4000).
  intros k. cbn. lia.
Defined.

Lemma decoded_length_range `{BaseMemory} (memory : Bytes) (address : Z) (op : Opcode) :
  getOpcodeAt memory address = Some op → 1 <= op_length op <= 4.
Proof.
  intros Hop. destruct (getOpcodeAt_in_entry _ _ _ _ _ Hop) as (t & entry & Hin & Hcls & Hsame).
  assert (Hcheck : lengthInRange entry = true).
  { apply (everyInstruction_spec lengthInRange t); [vm_compute; reflexivity|assumption..]. }
  destruct Hsame as (_ & _ & _ & _ & _ & ->).
  unfold lengthInRange in Hcheck. lia.
Qed.

(** X2: every decoded instruction is 1 to 4 bytes long, prefixes
    included. *)
Theorem getOpcodeAt_length_range `{BaseMemory} (memory : Bytes) (address : Z) (op : Opcode) :
  getOpcodeAt memory address = Some op → 1 <= op_length op <= 4.
Proof. intros Hop. exact (decoded_length_range memory address op Hop). Qed.

Lemma getOpcodeAt_length_range_witness :
  ∃ op, @getOpcodeAt BaseMemory_64k (imageAt 0x8000 [xdd; xcb; x05; x46]) 0x8000 = Some op
        ∧ 1 <= op_length op <= 4.
Proof.
  eexists. split; [vm_compute; reflexivity|].
  apply (@getOpcodeAt_length_range BaseMemory_64k (imageAt 0x8000 [xdd; xcb; x05; x46])
           0x8000).
  vm_compute. reflexivity.
Defined.

(** X3: the flags of every decoded instruction are consistent.  Only the
    five flag bits occur; a CALL carries a branch address and does not stop
    the flow; an instruction with a branch address is no RET; a conditional
    instruction is a branch or a RET and never stops the flow; and the
    branch-address flag is set exactly for the value types CODE_LBL,
    CODE_SUB, CODE_RST and CODE_LOCAL_LBL. *)
Theorem getOpcodeAt_flags_consistent `{BaseMemory} (memory : Bytes) (address : Z)
    (op : Opcode) :
  getOpcodeAt memory address = Some op →
  Z.land (flags op) (Z.lnot 0x1F) = 0
  ∧ (hasFlag (flags op) OpcodeFlag.CALL = true →
     hasFlag (flags op) OpcodeFlag.BRANCH_ADDRESS = true
     ∧ hasFlag (flags op) OpcodeFlag.STOP = false)
  ∧ (hasFlag (flags op) OpcodeFlag.BRANCH_ADDRESS = true →
     hasFlag (flags op) OpcodeFlag.RET = false)
  ∧ (hasFlag (flags op) OpcodeFlag.CONDITIONAL = true →
     hasFlag (flags op) OpcodeFlag.STOP = false
     ∧ (hasFlag (flags op) OpcodeFlag.BRANCH_ADDRESS = true
        ∨ hasFlag (flags op) OpcodeFlag.RET = true))
  ∧ hasFlag (flags op) OpcodeFlag.BRANCH_ADDRESS = isBranchType (valueType op).
Proof.
  intros Hop. destruct (getOpcodeAt_in_entry _ _ _ _ _ Hop) as (t & entry & Hin & Hcls & Hsame).
  assert (Hcheck : flagsConsistent entry = true).
  { apply (everyInstruction_spec flagsConsistent t); [vm_compute; reflexivity|assumption..]. }
  destruct Hsame as (_ & _ & _ & -> & -> & _).
  unfold flagsConsistent in Hcheck. cbv zeta in Hcheck.
  repeat rewrite andb_true_iff in Hcheck.
  destruct Hcheck as ((((((Hbits & Hcall) & Hbranch) & Hstop) & Hcond) & Hcall') & Htype).
  apply Z.eqb_eq in Hbits. apply Bool.eqb_prop in Htype.
  destruct (hasFlag (flags entry) OpcodeFlag.CALL),
           (hasFlag (flags entry) OpcodeFlag.BRANCH_ADDRESS),
           (hasFlag (flags entry) OpcodeFlag.RET),
           (hasFlag (flags entry) OpcodeFlag.STOP),
           (hasFlag (flags entry) OpcodeFlag.CONDITIONAL);
    cbn in *; try discriminate; repeat split; try tauto; try congruence.
Qed.

Lemma getOpcodeAt_flags_consistent_witness :
  ∃ op, @getOpcodeAt BaseMemory_64k (imageAt 0x8000 [xcd; x10; x80]) 0x8000 = Some op
  ∧ Z.land (flags op) (Z.lnot 0x1F) = 0
  ∧ (hasFlag (flags op) OpcodeFlag.CALL = true →
     hasFlag (flags op) OpcodeFlag.BRANCH_ADDRESS = true
     ∧ hasFlag (flags op) OpcodeFlag.STOP = false)
  ∧ (hasFlag (flags op) OpcodeFlag.BRANCH_ADDRESS = true →
     hasFlag (flags op) OpcodeFlag.RET = false)
  ∧ (hasFlag (flags op) OpcodeFlag.CONDITIONAL = true →
     hasFlag (flags op) OpcodeFlag.STOP = false
     ∧ (hasFlag (flags op) OpcodeFlag.BRANCH_ADDRESS = true
        ∨ hasFlag (flags op) OpcodeFlag.RET = true))
  ∧ hasFlag (flags op) OpcodeFlag.BRANCH_ADDRESS = isBranchType (valueType op).
Proof.
  eexists. split; [vm_compute; reflexivity|].
  apply (@getOpcodeAt_flags_consistent BaseMemory_64k (imageAt 0x8000 [xcd; x10; x80])
           0x8000).
  vm_compute. reflexivity.
Defined.

(** X4: an index prefix (0xDD or 0xFD) that is followed by another prefix
    (0xDD, 0xED or 0xFD) decodes to a one-byte NOP pseudo instruction without
    flags, so that decoding goes on at the second prefix. *)
Theorem index_prefix_before_prefix_is_NOP `{BaseMemory} (memory : Bytes)
    (address p q : Z) :
  In p indexPrefixes → In q anyPrefixes →
  getValueAt memory address = p → getValueAt memory (address + 1) = q →
  ∃ op, getOpcodeAt memory address = Some op
        ∧ cls op = C_OpcodeNOP ∧ code op = q ∧ op_length op = 1
        ∧ flags op = OpcodeFlag.NONE ∧ valueType op = NumberType.NONE.
Proof.
  intros Hp Hq Hfirst Hsecond.
  rewrite (getOpcodeAt_index_prefix memory address p Hp Hfirst).
  cbn [In indexPrefixes anyPrefixes] in Hp, Hq.
  destruct Hp as [<-|[<-|[]]]; destruct Hq as [<-|[<-|[<-|[]]]];
    (eexists; split;
     [ eapply getOpcodeAt_in_terminal; [rewrite Hsecond; vm_compute; reflexivity|reflexivity]
     | repeat split; reflexivity ]).
Qed.

Lemma index_prefix_before_prefix_is_NOP_witness :
  ∃ op, @getOpcodeAt BaseMemory_64k (imageAt 0x8000 [xfd; xdd; x21]) 0x8000 = Some op
        ∧ cls op = C_OpcodeNOP ∧ code op = 0xDD ∧ op_length op = 1
        ∧ flags op = OpcodeFlag.NONE ∧ valueType op = NumberType.NONE.
Proof.
  apply (@index_prefix_before_prefix_is_NOP BaseMemory_64k (imageAt 0x8000 [xfd; xdd; x21])
           0x8000 0xFD 0xDD).
  - cbn. tauto.
  - cbn. tauto.
  - reflexivity.
  - reflexivity.
Defined.

Lemma index_at_fmap {A B} (f : A → B) (l : list A) i :
  index_at (f <$> l) i = f <$> index_at l i.
Proof. unfold index_at. destruct (i <? 0); [reflexivity|]. apply list_lookup_fmap. Qed.

Lemma toIY_getOpcodeAt_Opcode `{BaseMemory} (ix iy : Bytes) (a : Z) (entry : Opcode) :
  getValueAt iy (a + 1) = getValueAt ix (a + 1) →
  getWordValueAt iy (a + 1) = getWordValueAt ix (a + 1) →
  getBigEndianWordValueAt iy (a + 1) = getBigEndianWordValueAt ix (a + 1) →
  getOpcodeAt_Opcode iy (toIY entry) a = toIY (getOpcodeAt_Opcode ix entry a).
Proof.
  intros Hbyte Hword Hbig. unfold getOpcodeAt_Opcode, toIY.
  cbn [valueType with_name]. rewrite Hbyte, Hword, Hbig.
  destruct (valueType entry); reflexivity.
Qed.

(** X5: an IY instruction decodes as the IX instruction does.  Two
    memories that differ in the prefix byte only, 0xDD in one and 0xFD in the
    other, decode at the prefix to the same instruction, same class, length,
    flags, value type and operands, with IY for IX in the mnemonic; where
    one throws, the other throws. *)
Theorem iy_decodes_as_ix `{BaseMemory} (ix iy : Bytes) (address : Z) :
  getValueAt ix address = 0xDD →
  getValueAt iy address = 0xFD →
  (∀ k, address < k <= address + 3 → getValueAt iy k = getValueAt ix k) →
  getWordValueAt iy (address + 2) = getWordValueAt ix (address + 2) →
  getBigEndianWordValueAt iy (address + 2) = getBigEndianWordValueAt ix (address + 2) →
  getOpcodeAt iy address = toIY <$> getOpcodeAt ix address.
Proof.
  intros Hix Hiy Hbytes Hword Hbig.
  rewrite (getOpcodeAt_index_prefix ix address 0xDD), (getOpcodeAt_index_prefix iy address 0xFD);
    [|cbn; tauto|assumption|cbn; tauto|assumption].
  change (indexTable 0xDD) with T_OpcodesDD. change (indexTable 0xFD) with T_OpcodesFD.
  cbn [getOpcodeAt_in]. rewrite (Hbytes (address + 1)) by lia.
  change (table T_OpcodesFD) with
    ((fun opcode => if code opcode =? 0xCB then OpcodeExtended2_new 0xCB T_OpcodesFDCB
                    else with_name (JS.replaceAll (name opcode) "IX" "IY") opcode)
       <$> table T_OpcodesDD).
  rewrite index_at_fmap.
  destruct (index_at (table T_OpcodesDD) (getValueAt ix (address + 1))) as [entry|] eqn:Hentry;
    [|reflexivity].
  cbn [fmap option_fmap option_map mbind option_bind].
  assert (Hshape : ixShape entry = true).
  { assert (Hall : forallb ixShape (table T_OpcodesDD) = true) by (vm_compute; reflexivity).
    rewrite forallb_forall in Hall. apply Hall. eapply index_at_In. exact Hentry. }
  unfold ixShape in Hshape.
  replace (address + 1 + 1) with (address + 2) by lia.
  destruct (cls entry) as [| | | |sub|sub| |] eqn:Hcls; try discriminate.
  4:{ (* the prefix 0xCB *)
    destruct sub; try discriminate. rewrite Hshape.
    change (cls (OpcodeExtended2_new 203 T_OpcodesFDCB)) with (C_OpcodeExtended2 T_OpcodesFDCB).
    cbn beta iota. rewrite (Hbytes (address + 1 + 2)) by lia.
    change (table T_OpcodesFDCB) with
      ((fun opcode => with_name (JS.replace (name opcode) "IX" "IY") opcode)
         <$> table T_OpcodesDDCB).
    rewrite index_at_fmap.
    destruct (index_at (table T_OpcodesDDCB) (getValueAt ix (address + 1 + 2)))
      as [bit|] eqn:Hbit; [|reflexivity].
    cbn [fmap option_fmap option_map mbind option_bind].
    apply index_at_In in Hbit.
    assert (Hone : oneIX bit = true).
    { assert (Hall : forallb oneIX (table T_OpcodesDDCB) = true) by (vm_compute; reflexivity).
      rewrite forallb_forall in Hall. apply Hall. exact Hbit. }
    assert (Hprev : cls bit = C_OpcodePrevIndex).
    { assert (Hall : allPrevIndex T_OpcodesDDCB = true) by (vm_compute; reflexivity).
      unfold allPrevIndex in Hall. rewrite forallb_forall in Hall.
      specialize (Hall bit Hbit). destruct (cls bit); try discriminate. reflexivity. }
    unfold oneIX in Hone. apply String.eqb_eq in Hone. rewrite Hone.
    cbn [cls with_name]. rewrite Hprev.
    unfold getOpcodeAt_OpcodePrevIndex. rewrite (Hbytes (address + 1 + 2 - 1)) by lia.
    reflexivity. }
  all: apply negb_true_iff in Hshape; rewrite Hshape; cbn [cls with_name]; rewrite Hcls;
    cbn beta iota; cbn [fmap option_fmap option_map]; f_equal.
  1,2,4,5: apply toIY_getOpcodeAt_Opcode;
    [apply Hbytes; lia | replace (address + 1 + 1) with (address + 2) by lia; assumption..].
  unfold getOpcodeAt_OpcodeIndexImmediate.
  rewrite (Hbytes (address + 1 + 1)), (Hbytes (address + 1 + 2)) by lia. reflexivity.
Qed.

Lemma iy_decodes_as_ix_witness :
  @getOpcodeAt BaseMemory_64k (imageAt 0x8000 [xfd; x36; x05; x2a]) 0x8000
  = toIY <$> @getOpcodeAt BaseMemory_64k (imageAt 0x8000 [xdd; x36; x05; x2a]) 0x8000.
Proof.
  apply (@iy_decodes_as_ix BaseMemory_64k (imageAt 0x8000 [xdd; x36; x05; x2a])
           (imageAt 0x8000 [xfd; x36; x05; x2a]) 0x8000).
  - reflexivity.
  - reflexivity.
  - intros k Hk.
    assert (Hcases : k = 0x8001 ∨ k = 0x8002 ∨ k = 0x8003) by lia.
    destruct Hcases as [->|[->| ->]]; reflexivity.
  - reflexivity.
  - reflexivity.
Defined.

(** ** memory.ts: the attribute array *)

Lemma addAttributesAt_loop_bytes n : ∀ m a attr,
  memory (MemoryOps.addAttributesAt_loop n m a attr) = memory m.
Proof. induction n as [|n IH]; intros m a attr; cbn; [reflexivity|]. rewrite IH. reflexivity. Qed.

Lemma addAttributesAt_loop_attr n : ∀ m a attr k,
  memoryAttr (MemoryOps.addAttributesAt_loop n m a attr) k
  = if (a <=? k) && (k <? a + Z.of_nat n) then Z.lor (memoryAttr m k) attr
    else memoryAttr m k.
Proof.
  induction n as [|n IH]; intros m a attr k; cbn [MemoryOps.addAttributesAt_loop].
  - destruct (Z.leb_spec a k), (Z.ltb_spec k (a + Z.of_nat 0)); cbn; try reflexivity; lia.
  - rewrite IH. unfold MemoryOps.addAttributeAt, update. cbn [memoryAttr].
    destruct (Z.eqb_spec k a) as [->|Hne].
    + destruct (Z.leb_spec (a + 1) a); [lia|].
      destruct (Z.leb_spec a a); [|lia].
      destruct (Z.ltb_spec a (a + Z.of_nat (S n))); [|lia]. reflexivity.
    + destruct (Z.leb_spec (a + 1) k), (Z.ltb_spec k (a + 1 + Z.of_nat n)),
               (Z.leb_spec a k), (Z.ltb_spec k (a + Z.of_nat (S n)));
        cbn; try reflexivity; lia.
Qed.

Lemma addAttributesAt_attr (m : Memory) (address length attr k : Z) :
  memoryAttr (MemoryOps.addAttributesAt m address length attr) k
  = if (address <=? k) && (k <? address + length)
    then Z.lor (memoryAttr m k) attr else memoryAttr m k.
Proof.
  unfold MemoryOps.addAttributesAt. rewrite addAttributesAt_loop_attr.
  destruct (Z.leb_spec address k), (Z.ltb_spec k (address + Z.of_nat (Z.to_nat length))),
           (Z.ltb_spec k (address + length)); cbn; try reflexivity; lia.
Qed.

(** X6: [addAttributesAt(address, length, attr)] ORs [attr] into the
    attributes of [address .. address + length - 1] and into no other; the
    address is not reduced to 64K and the bytes are not touched. *)
Theorem addAttributesAt_effect (m : Memory) (address length attr k : Z) :
  memory (MemoryOps.addAttributesAt m address length attr) = memory m
  ∧ memoryAttr (MemoryOps.addAttributesAt m address length attr) k
    = if (address <=? k) && (k <? address + length)
      then Z.lor (memoryAttr m k) attr else memoryAttr m k.
Proof.
  split; [|apply addAttributesAt_attr].
  unfold MemoryOps.addAttributesAt. apply addAttributesAt_loop_bytes.
Qed.

Lemma setAttributesAt_loop_bytes n : ∀ m a attr,
  memory (MemoryOps.setAttributesAt_loop n m a attr) = memory m.
Proof. induction n as [|n IH]; intros m a attr; cbn; [reflexivity|]. rewrite IH. reflexivity. Qed.

Lemma setAttributesAt_loop_attr n : ∀ m a attr k,
  memoryAttr (MemoryOps.setAttributesAt_loop n m a attr) k
  = if (a <=? k) && (k <? a + Z.of_nat n) then attr else memoryAttr m k.
Proof.
  induction n as [|n IH]; intros m a attr k; cbn [MemoryOps.setAttributesAt_loop].
  - destruct (Z.leb_spec a k), (Z.ltb_spec k (a + Z.of_nat 0)); cbn; try reflexivity; lia.
  - rewrite IH. unfold update. cbn [memoryAttr].
    destruct (Z.eqb_spec k a) as [->|Hne].
    + destruct (Z.leb_spec (a + 1) a); [lia|].
      destruct (Z.leb_spec a a); [|lia].
      destruct (Z.ltb_spec a (a + Z.of_nat (S n))); [|lia]. reflexivity.
    + destruct (Z.leb_spec (a + 1) k), (Z.ltb_spec k (a + 1 + Z.of_nat n)),
               (Z.leb_spec a k), (Z.ltb_spec k (a + Z.of_nat (S n)));
        cbn; try reflexivity; lia.
Qed.

(** X7: [setAttributesAt(address, length, attr)] overwrites the attributes
    of [address .. address + length - 1] with [attr], the ASSIGNED flag
    included, and leaves the others and the bytes as they were. *)
Theorem setAttributesAt_effect (m : Memory) (address length attr k : Z) :
  memory (MemoryOps.setAttributesAt m address length attr) = memory m
  ∧ memoryAttr (MemoryOps.setAttributesAt m address length attr) k
    = if (address <=? k) && (k <? address + length) then attr else memoryAttr m k.
Proof.
  unfold MemoryOps.setAttributesAt. split; [apply setAttributesAt_loop_bytes|].
  rewrite setAttributesAt_loop_attr.
  destruct (Z.leb_spec address k), (Z.ltb_spec k (address + Z.of_nat (Z.to_nat length))),
           (Z.ltb_spec k (address + length)); cbn; try reflexivity; lia.
Qed.

Lemma searchAddrWithAttribute_loop_spec n : ∀ m searchAttr a,
  match MemoryOps.searchAddrWithAttribute_loop n m searchAttr a with
  | Some k => a <= k < a + Z.of_nat n
              ∧ hasFlag (memoryAttr m k) searchAttr = true
              ∧ ∀ j, a <= j < k → hasFlag (memoryAttr m j) searchAttr = false
  | None => ∀ j, a <= j < a + Z.of_nat n → hasFlag (memoryAttr m j) searchAttr = false
  end.
Proof.
  induction n as [|n IH]; intros m searchAttr a; cbn [MemoryOps.searchAddrWithAttribute_loop].
  - intros j Hj. lia.
  - fold (hasFlag (memoryAttr m a) searchAttr).
    destruct (hasFlag (memoryAttr m a) searchAttr) eqn:Hflag.
    + split; [lia|]. split; [exact Hflag|]. intros j Hj. lia.
    + specialize (IH m searchAttr (a + 1)).
      destruct (MemoryOps.searchAddrWithAttribute_loop n m searchAttr (a + 1)) as [k|].
      * destruct IH as (Hk & Hfound & Hbefore). split; [lia|]. split; [exact Hfound|].
        intros j Hj. destruct (Z.eq_dec j a) as [->|Hne]; [exact Hflag|]. apply Hbefore. lia.
      * intros j Hj. destruct (Z.eq_dec j a) as [->|Hne]; [exact Hflag|]. apply IH. lia.
Qed.

(** X8: [searchAddrWithAttribute(searchAttr, addr64k, len)] returns the
    lowest address of [addr64k .. addr64k + len - 1] whose attribute has a
    bit of [searchAttr], and [undefined] exactly when there is none. *)
Theorem searchAddrWithAttribute_first (m : Memory) (searchAttr addr64k len : Z) :
  match MemoryOps.searchAddrWithAttribute m searchAttr addr64k len with
  | Some k => addr64k <= k < addr64k + len
              ∧ hasFlag (memoryAttr m k) searchAttr = true
              ∧ ∀ j, addr64k <= j < k → hasFlag (memoryAttr m j) searchAttr = false
  | None => ∀ j, addr64k <= j < addr64k + len → hasFlag (memoryAttr m j) searchAttr = false
  end.
Proof.
  unfold MemoryOps.searchAddrWithAttribute.
  pose proof (searchAddrWithAttribute_loop_spec (Z.to_nat len) m searchAttr addr64k) as Hspec.
  destruct (MemoryOps.searchAddrWithAttribute_loop _ m searchAttr addr64k) as [k|].
  - destruct Hspec as (Hk & Hfound & Hbefore). repeat split; try assumption; lia.
  - intros j Hj. apply Hspec. lia.
Qed.

Lemma setMemory_from_bytes bytes : ∀ m origin i,
  (∀ k, 0 <= memory m k < 256) →
  ∀ k, 0 <= memory (MemoryOps.setMemory_from m origin i bytes) k < 256.
Proof.
  induction bytes as [|b rest IH]; intros m origin i Hm k; cbn [MemoryOps.setMemory_from];
    [apply Hm|].
  apply IH. intros k'. cbn [memory]. unfold update.
  destruct (k' =? _); [|apply Hm].
  pose proof (Byte.to_N_bounded b) as Hb. lia.
Qed.

(** X9: the memory of a disassembler holds bytes.  Starting from the empty
    memory, whatever is loaded with [setMemory], every cell holds a value
    between 0 and 255. *)
Theorem setMemory_keeps_bytes (m : Memory) (origin : Z) (bytes : list Byte.byte) :
  (∀ k, 0 <= memory m k < 256) →
  ∀ k, 0 <= memory (MemoryOps.setMemory m origin bytes) k < 256.
Proof.
  intros Hm k. unfold MemoryOps.setMemory. apply setMemory_from_bytes. exact Hm.
Qed.

Lemma setMemory_keeps_bytes_witness :
  0 <= memory (MemoryOps.setMemory MemoryOps.new 0xFFFF [xc3; x00; x40]) 0 < 256.
Proof.
  apply (setMemory_keeps_bytes MemoryOps.new 0xFFFF [xc3; x00; x40]).
  intros k. cbn. lia.
Defined.

(** ** comments.ts *)

Lemma getCommentsForAddresses_range (c : Comments.t) (addr64k len : Z) :
  Comments.getCommentsForAddresses c addr64k len
  = concat (map (fun k => default [] (c !! k)) (seqZ addr64k len)).
Proof.
  unfold Comments.getCommentsForAddresses.
  replace (seqZ addr64k len) with (Z.add addr64k <$> seqZ 0 len)
    by (rewrite fmap_add_seqZ; f_equal; lia).
  rewrite <- list_fmap_compose. reflexivity.
Qed.

Lemma getCommentsForAddresses_app (c : Comments.t) (addr64k len1 len2 : Z) :
  0 <= len1 → 0 <= len2 →
  Comments.getCommentsForAddresses c addr64k (len1 + len2)
  = Comments.getCommentsForAddresses c addr64k len1
    ++ Comments.getCommentsForAddresses c (addr64k + len1) len2.
Proof.
  intros Hlen1 Hlen2. rewrite !getCommentsForAddresses_range.
  rewrite seqZ_app by assumption. rewrite map_app, concat_app. reflexivity.
Qed.

Lemma getCommentsForAddresses_outside (c : Comments.t) (addr64k : Z) (comment : string)
    (lo len : Z) :
  ¬ (lo <= addr64k < lo + len) →
  Comments.getCommentsForAddresses (Comments.addCommentForAddress c addr64k comment) lo len
  = Comments.getCommentsForAddresses c lo len.
Proof.
  intros Hout. rewrite !getCommentsForAddresses_range. f_equal.
  apply map_ext_in. intros k Hk. apply list_elem_of_In, elem_of_seqZ in Hk.
  unfold Comments.addCommentForAddress. rewrite lookup_insert_ne by lia. reflexivity.
Qed.

(** X10: a comment added for an address is returned by every range that
    contains the address, behind the comments recorded before for that
    address and before those of the higher addresses; a range that does not
    contain the address returns what it returned before. *)
Theorem getCommentsForAddresses_add (c : Comments.t) (addr64k : Z) (comment : string)
    (lo len : Z) :
  Comments.getCommentsForAddresses (Comments.addCommentForAddress c addr64k comment) lo len
  = if (lo <=? addr64k) && (addr64k <? lo + len)
    then Comments.getCommentsForAddresses c lo (addr64k + 1 - lo)
         ++ comment :: Comments.getCommentsForAddresses c (addr64k + 1) (lo + len - (addr64k + 1))
    else Comments.getCommentsForAddresses c lo len.
Proof.
  destruct (Z.leb_spec lo addr64k) as [Hlo|Hlo], (Z.ltb_spec addr64k (lo + len)) as [Hhi|Hhi];
    cbn [andb]; try (apply getCommentsForAddresses_outside; lia).
  replace len with ((addr64k - lo) + (1 + (lo + len - (addr64k + 1)))) at 1 by lia.
  rewrite getCommentsForAddresses_app by lia.
  replace (lo + (addr64k - lo)) with addr64k by lia.
  rewrite (getCommentsForAddresses_app _ addr64k) by lia.
  rewrite (getCommentsForAddresses_outside c addr64k comment lo) by lia.
  rewrite (getCommentsForAddresses_outside c addr64k comment (addr64k + 1)) by lia.
  replace (addr64k + 1 - lo) with ((addr64k - lo) + 1) by lia.
  rewrite (getCommentsForAddresses_app c lo) by lia.
  replace (lo + (addr64k - lo)) with addr64k by lia.
  rewrite <- app_assoc. f_equal.
  rewrite !(getCommentsForAddresses_range _ addr64k 1).
  rewrite !(seqZ_cons addr64k 1), !seqZ_nil by lia. cbn [map concat].
  unfold Comments.addCommentForAddress. rewrite lookup_insert_eq.
  cbn [default from_option id]. rewrite !app_nil_r, <- app_assoc. reflexivity.
Qed.

(** ** The memory image *)

Lemma sameImage_refl m : sameImage m m.
Proof. split; reflexivity. Qed.

Lemma sameImage_trans m1 m2 m3 : sameImage m1 m2 → sameImage m2 m3 → sameImage m1 m3.
Proof. intros [A1 A2] [B1 B2]. split; [congruence|]. intros a. rewrite B2. apply A2. Qed.

Lemma sameImage_addAttributeAt m address attr :
  Z.land attr MemAttribute.ASSIGNED = 0 →
  sameImage m (MemoryOps.addAttributeAt m address attr).
Proof.
  intros Hattr. split; [reflexivity|]. intros a. cbn [MemoryOps.addAttributeAt memoryAttr].
  unfold update. destruct (Z.eqb_spec a address) as [->|_]; [|reflexivity].
  rewrite Z.land_lor_distr_l, Hattr. apply Z.lor_0_r.
Qed.

Lemma sameImage_addAttributesAt m address len attr :
  Z.land attr MemAttribute.ASSIGNED = 0 →
  sameImage m (MemoryOps.addAttributesAt m address len attr).
Proof.
  intros Hattr. unfold MemoryOps.addAttributesAt.
  generalize (Z.to_nat len). intros n. revert m address.
  induction n as [|n IH]; intros m address; cbn [MemoryOps.addAttributesAt_loop].
  - apply sameImage_refl.
  - eapply sameImage_trans; [apply sameImage_addAttributeAt, Hattr | apply IH].
Qed.

Lemma followFlow_sameImage `{BaseMemory} skip fuel :
  ∀ g addr64k g' pushed,
    followFlow skip fuel g addr64k = Some (g', pushed) → sameImage (mem g) (mem g').
Proof.
  induction fuel as [|fuel IH]; intros g addr64k g' pushed Hrun;
    cbn [followFlow] in Hrun; [discriminate|].
  destruct (getOpcodeAt (memory (mem g)) addr64k) as [refOpcode|]; [|discriminate].
  cbn [mbind option_bind] in Hrun.
  set (m1 := MemoryOps.addAttributeAt
               (MemoryOps.addAttributesAt (mem g) addr64k (op_length refOpcode)
                  (Z.lor MemAttribute.FLOW_ANALYZED MemAttribute.CODE))
               addr64k MemAttribute.CODE_FIRST).
  assert (Hm1 : sameImage (mem g) m1).
  { eapply sameImage_trans;
      [apply sameImage_addAttributesAt | apply sameImage_addAttributeAt]; reflexivity. }
  cbn [mem set_mem] in Hrun. fold m1 in Hrun.
  split_run Hrun; try discriminate;
    try (injection Hrun as <- _; exact Hm1).
  eapply sameImage_trans; [exact Hm1|]. eapply IH in Hrun. exact Hrun.
Qed.

Lemma createNodeForAddress_loop_sameImage `{BaseMemory} skip fuel :
  ∀ g queue g',
    createNodeForAddress_loop skip fuel g queue = Some g' → sameImage (mem g) (mem g').
Proof.
  induction fuel as [|fuel IH]; intros g queue g' Hrun;
    destruct queue as [|addr64k rest]; cbn [createNodeForAddress_loop] in Hrun;
    try discriminate; try (injection Hrun as <-; apply sameImage_refl).
  destruct (NodeMap.get (nodes g) addr64k); [apply (IH _ _ _ Hrun)|].
  destruct (hasFlag _ MemAttribute.FLOW_ANALYZED).
  { destruct (hasFlag _ MemAttribute.CODE_FIRST); apply (IH _ _ _ Hrun). }
  destruct (negb _); [apply (IH _ _ _ Hrun)|].
  destruct (followFlow skip walkFuel (createNodeInMap g addr64k).1 addr64k)
    as [[g1 pushed]|] eqn:Hflow; [|discriminate].
  cbn [mbind option_bind] in Hrun.
  eapply sameImage_trans; [|apply (IH _ _ _ Hrun)].
  apply (followFlow_sameImage _ _ _ _ _ _ Hflow).
Qed.

Lemma createNodes_loop_sameImage `{BaseMemory} skip sorted :
  ∀ g g', createNodes_loop skip g sorted = Some g' → sameImage (mem g) (mem g').
Proof.
  induction sorted as [|addr64k rest IH]; intros g g' Hrun; cbn [createNodes_loop] in Hrun.
  { injection Hrun as <-. apply sameImage_refl. }
  destruct (hasFlag _ MemAttribute.FLOW_ANALYZED).
  { destruct (negb _); apply (IH _ _ Hrun). }
  destruct (createNodeForAddress skip g addr64k) as [g1|] eqn:Hnode; [|discriminate].
  cbn [mbind option_bind] in Hrun.
  eapply sameImage_trans; [|apply (IH _ _ Hrun)].
  apply (createNodeForAddress_loop_sameImage _ _ _ _ _ Hnode).
Qed.

Lemma createNodesForLabels_mem labels : ∀ g, mem (createNodesForLabels g labels) = mem g.
Proof.
  induction labels as [|[addr64k label] rest IH]; intros g; cbn [createNodesForLabels];
    [reflexivity|].
  destruct (hasFlag _ MemAttribute.CODE_FIRST); [|rewrite IH; reflexivity].
  destruct (NodeMap.get (nodes g) addr64k); cbn; rewrite IH; reflexivity.
Qed.

(** ** Pass 1: attributes and node table *)

Lemma store_lookup_alter (f : AsmNode.t → AsmNode.t) r (st : Store) x n' :
  alter f r st !! x = Some n' →
  ∃ n, st !! x = Some n ∧ n' = if decide (x = r) then f n else n.
Proof.
  destruct (decide (x = r)) as [->|Hne].
  - rewrite list_lookup_alter_eq. destruct (st !! r) as [n|]; [|discriminate].
    intros [= <-]. eauto.
  - rewrite list_lookup_alter_ne by congruence. eauto.
Qed.

Lemma hasFlag_lor x a bit : hasFlag (Z.lor x a) bit = hasFlag x bit || hasFlag a bit.
Proof.
  unfold hasFlag. rewrite Z.land_lor_distr_l.
  destruct (Z.eqb_spec (Z.land x bit) 0) as [Hx|Hx], (Z.eqb_spec (Z.land a bit) 0) as [Ha|Ha];
    cbn; destruct (Z.eqb_spec (Z.lor (Z.land x bit) (Z.land a bit)) 0) as [Hor|Hor];
    try reflexivity; exfalso.
  - apply Hor. rewrite Hx, Ha. reflexivity.
  - apply Z.lor_eq_0_iff in Hor. tauto.
  - apply Z.lor_eq_0_iff in Hor. tauto.
  - apply Z.lor_eq_0_iff in Hor. tauto.
Qed.

Lemma flagsGrow_refl m : flagsGrow m m.
Proof. intros k bit Hbit. exact Hbit. Qed.

Lemma flagsGrow_trans m1 m2 m3 : flagsGrow m1 m2 → flagsGrow m2 m3 → flagsGrow m1 m3.
Proof. intros H12 H23 k bit Hbit. apply H23, H12, Hbit. Qed.

(** The attributes after one instruction has been marked. *)
Lemma marked_attr m addr64k len k :
  memoryAttr (MemoryOps.addAttributeAt
                (MemoryOps.addAttributesAt m addr64k len
                   (Z.lor MemAttribute.FLOW_ANALYZED MemAttribute.CODE))
                addr64k MemAttribute.CODE_FIRST) k
  = let attr := if (addr64k <=? k) && (k <? addr64k + len)
                then Z.lor (memoryAttr m k) (Z.lor MemAttribute.FLOW_ANALYZED MemAttribute.CODE)
                else memoryAttr m k in
    if k =? addr64k then Z.lor attr MemAttribute.CODE_FIRST else attr.
Proof.
  cbn [MemoryOps.addAttributeAt memoryAttr]. unfold update.
  destruct (Z.eqb_spec k addr64k) as [->|Hne]; cbv zeta; rewrite addAttributesAt_attr;
    reflexivity.
Qed.

Lemma marked_flagsGrow m addr64k len :
  flagsGrow m (MemoryOps.addAttributeAt
                 (MemoryOps.addAttributesAt m addr64k len
                    (Z.lor MemAttribute.FLOW_ANALYZED MemAttribute.CODE))
                 addr64k MemAttribute.CODE_FIRST).
Proof.
  intros k bit Hbit. rewrite marked_attr. cbv zeta.
  destruct (k =? addr64k), ((addr64k <=? k) && (k <? addr64k + len));
    rewrite ?hasFlag_lor, Hbit; reflexivity.
Qed.

Lemma marked_consistent m addr64k len :
  1 <= len →
  (∀ k, attributeConsistent (memoryAttr m k)) →
  ∀ k, attributeConsistent
         (memoryAttr (MemoryOps.addAttributeAt
                        (MemoryOps.addAttributesAt m addr64k len
                           (Z.lor MemAttribute.FLOW_ANALYZED MemAttribute.CODE))
                        addr64k MemAttribute.CODE_FIRST) k).
Proof.
  intros Hlen Hm k. rewrite marked_attr. cbv zeta.
  destruct (Hm k) as (Hmask & Hcode & Hfirst).
  destruct (Z.eqb_spec k addr64k) as [->|Hne].
  - destruct (Z.leb_spec addr64k addr64k); [|lia].
    destruct (Z.ltb_spec addr64k (addr64k + len)); [|lia]. cbn [andb].
    unfold attributeConsistent. rewrite !hasFlag_lor, !Z.land_lor_distr_l, Hmask.
    split; [reflexivity|]. split.
    + change (hasFlag (Z.lor MemAttribute.FLOW_ANALYZED MemAttribute.CODE) MemAttribute.CODE)
        with true.
      change (hasFlag (Z.lor MemAttribute.FLOW_ANALYZED MemAttribute.CODE)
                MemAttribute.FLOW_ANALYZED) with true.
      rewrite !orb_true_r. reflexivity.
    + intros _.
      change (hasFlag (Z.lor MemAttribute.FLOW_ANALYZED MemAttribute.CODE) MemAttribute.CODE)
        with true.
      rewrite orb_true_r. reflexivity.
  - destruct ((addr64k <=? k) && (k <? addr64k + len)).
    + unfold attributeConsistent. rewrite !hasFlag_lor, !Z.land_lor_distr_l, Hmask.
      split; [reflexivity|]. split.
      * change (hasFlag (Z.lor MemAttribute.FLOW_ANALYZED MemAttribute.CODE) MemAttribute.CODE)
          with true.
        change (hasFlag (Z.lor MemAttribute.FLOW_ANALYZED MemAttribute.CODE)
                  MemAttribute.FLOW_ANALYZED) with true.
        rewrite !orb_true_r. reflexivity.
      * intros _.
        change (hasFlag (Z.lor MemAttribute.FLOW_ANALYZED MemAttribute.CODE) MemAttribute.CODE)
          with true.
        rewrite orb_true_r. reflexivity.
    + split; [exact Hmask|]. split; assumption.
Qed.

Lemma marked_first m addr64k len :
  hasFlag (memoryAttr (MemoryOps.addAttributeAt
                         (MemoryOps.addAttributesAt m addr64k len
                            (Z.lor MemAttribute.FLOW_ANALYZED MemAttribute.CODE))
                         addr64k MemAttribute.CODE_FIRST) addr64k)
          MemAttribute.CODE_FIRST = true.
Proof.
  rewrite marked_attr. cbv zeta. rewrite Z.eqb_refl, hasFlag_lor.
  change (hasFlag MemAttribute.CODE_FIRST MemAttribute.CODE_FIRST) with true.
  apply orb_true_r.
Qed.

Lemma followFlow_facts `{BaseMemory} skip fuel :
  ∀ g addr64k g' pushed,
    followFlow skip fuel g addr64k = Some (g', pushed) →
    nodes g' = nodes g ∧ store g' = store g ∧ otherLabels g' = otherLabels g
    ∧ flagsGrow (mem g) (mem g')
    ∧ hasFlag (memoryAttr (mem g') addr64k) MemAttribute.CODE_FIRST = true
    ∧ ((∀ k, attributeConsistent (memoryAttr (mem g) k)) →
       ∀ k, attributeConsistent (memoryAttr (mem g') k)).
Proof.
  induction fuel as [|fuel IH]; intros g addr64k g' pushed Hrun;
    cbn [followFlow] in Hrun; [discriminate|].
  destruct (getOpcodeAt (memory (mem g)) addr64k) as [refOpcode|] eqn:Hop; [|discriminate].
  cbn [mbind option_bind] in Hrun.
  pose proof (decoded_length_range _ _ _ Hop) as Hlen.
  set (m1 := MemoryOps.addAttributeAt
               (MemoryOps.addAttributesAt (mem g) addr64k (op_length refOpcode)
                  (Z.lor MemAttribute.FLOW_ANALYZED MemAttribute.CODE))
               addr64k MemAttribute.CODE_FIRST).
  assert (Hgrow : flagsGrow (mem g) m1) by apply marked_flagsGrow.
  assert (Hfirst : hasFlag (memoryAttr m1 addr64k) MemAttribute.CODE_FIRST = true)
    by apply marked_first.
  assert (Hcons : (∀ k, attributeConsistent (memoryAttr (mem g) k)) →
                  ∀ k, attributeConsistent (memoryAttr m1 k))
    by (apply marked_consistent; lia).
  cbn [mem set_mem] in Hrun. fold m1 in Hrun.
  split_run Hrun; try discriminate;
    try (injection Hrun as <- _;
         exact (conj eq_refl (conj eq_refl (conj eq_refl (conj Hgrow (conj Hfirst Hcons)))))).
  apply IH in Hrun. cbn in Hrun.
  destruct Hrun as (Hnodes & Hstore & Hother & Hgrow' & _ & Hcons').
  split; [exact Hnodes|]. split; [exact Hstore|]. split; [exact Hother|].
  split; [eapply flagsGrow_trans; eassumption|].
  split; [apply Hgrow'; exact Hfirst|].
  intros Hg. apply Hcons', Hcons, Hg.
Qed.

Lemma getAttributeAt_flag m address bit :
  hasFlag (MemoryOps.getAttributeAt m address) bit = true ↔
  0 <= address < 0x10000 ∧ hasFlag (memoryAttr m address) bit = true.
Proof.
  unfold MemoryOps.getAttributeAt.
  destruct (Z.ltb_spec address 0), (Z.geb_spec address 0x10000); cbn [orb].
  all: split; [intros Hflag | intros [Hrange Hflag]]; try discriminate; try lia.
  - split; [lia | exact Hflag].
  - exact Hflag.
Qed.

Lemma NodeMap_get_None (T : NodeMap.t) key :
  NodeMap.get T key = None → ¬ In key (map fst T).
Proof.
  induction T as [|[k v] T IH]; cbn [NodeMap.get map fst]; [tauto|].
  destruct (Z.eqb_spec k key) as [->|Hne]; [discriminate|].
  intros Hget [Heq|Hin]; [congruence|]. apply (IH Hget Hin).
Qed.

Lemma NodeMap_set_fresh (T : NodeMap.t) key v :
  NodeMap.get T key = None → NodeMap.set T key v = T ++ [(key, v)].
Proof.
  induction T as [|[k v'] T IH]; cbn [NodeMap.get NodeMap.set app]; [reflexivity|].
  destruct (Z.eqb_spec k key) as [->|Hne]; [discriminate|].
  intros Hget. rewrite (IH Hget). reflexivity.
Qed.

Lemma NodeMap_In_get (T : NodeMap.t) key v :
  NoDup (map fst T) → In (key, v) T → NodeMap.get T key = Some v.
Proof.
  induction T as [|[k v'] T IH]; cbn [NodeMap.get map fst]; intros Hnd Hin; [contradiction|].
  apply NoDup_cons in Hnd. destruct Hnd as [Hnotin Hnd].
  destruct Hin as [[= -> ->]|Hin].
  - rewrite Z.eqb_refl. reflexivity.
  - destruct (Z.eqb_spec k key) as [->|Hne]; [|apply IH; assumption].
    exfalso. apply Hnotin, list_elem_of_In, in_map_iff. exists (key, v). auto.
Qed.

Lemma createNodeInMap_fresh g addr64k :
  NodeMap.get (nodes g) addr64k = None →
  nodes (createNodeInMap g addr64k).1 = nodes g ++ [(addr64k, length (store g))]
  ∧ store (createNodeInMap g addr64k).1 = store g ++ [AsmNode.set_start addr64k AsmNode.new]
  ∧ mem (createNodeInMap g addr64k).1 = mem g
  ∧ (createNodeInMap g addr64k).2 = length (store g).
Proof.
  intros Hget. unfold createNodeInMap. cbn. rewrite (NodeMap_set_fresh _ _ _ Hget). repeat split.
Qed.

Lemma discovered_same g g' :
  mem g' = mem g → nodes g' = nodes g → store g' = store g → discovered g → discovered g'.
Proof.
  intros Hmem Hnodes Hstore. unfold discovered, tableWf. rewrite Hmem, Hnodes, Hstore. tauto.
Qed.

(** A node enters the table at an address that is or becomes the first
    byte of an instruction. *)
Lemma discovered_extend g g' addr64k :
  discovered g → NodeMap.get (nodes g) addr64k = None →
  nodes g' = nodes g ++ [(addr64k, length (store g))] →
  store g' = store g ++ [AsmNode.set_start addr64k AsmNode.new] →
  flagsGrow (mem g) (mem g') →
  (∀ k, attributeConsistent (memoryAttr (mem g') k)) →
  hasFlag (MemoryOps.getAttributeAt (mem g') addr64k) MemAttribute.CODE_FIRST = true →
  discovered g'.
Proof.
  intros (_ & [Hnd Htable] & Hunlinked & Hrefs) Hget Hnodes Hstore Hgrow Hcons Hfirst.
  split; [exact Hcons|]. split; [split|split].
  - rewrite Hnodes, map_app. cbn [map fst]. apply NoDup_app. split; [exact Hnd|].
    split; [|apply NoDup_singleton].
    intros k Hk Hk'. apply list_elem_of_singleton in Hk'. subst k.
    apply list_elem_of_In in Hk. apply (NodeMap_get_None _ _ Hget Hk).
  - intros a r Hin. rewrite Hnodes in Hin. apply in_app_or in Hin.
    destruct Hin as [Hin|[[= <- <-]|[]]].
    + destruct (Htable a r Hin) as (Hflag & n & Hn & Hstart). split.
      * apply getAttributeAt_flag in Hflag. destruct Hflag as [Hrange Hflag].
        apply getAttributeAt_flag. split; [exact Hrange | apply Hgrow, Hflag].
      * exists n. split; [|exact Hstart]. rewrite Hstore. apply lookup_app_l_Some, Hn.
    + split; [exact Hfirst|]. exists (AsmNode.set_start addr64k AsmNode.new).
      split; [|reflexivity].
      rewrite Hstore. apply list_lookup_middle. reflexivity.
  - rewrite Hstore. apply Forall_app. split; [exact Hunlinked|].
    constructor; [repeat split | constructor].
  - rewrite Hnodes, Hstore, map_app, length_app, seq_app, Hrefs. reflexivity.
Qed.

Lemma discovered_set_label g r label :
  discovered g → discovered (modify r (AsmNode.set_label label) g).
Proof.
  intros (Hcons & [Hnd Htable] & Hunlinked & Hrefs).
  split; [exact Hcons|]. split; [split|split].
  - exact Hnd.
  - intros a x Hin. destruct (Htable a x Hin) as (Hflag & n & Hn & Hstart).
    split; [exact Hflag|]. unfold modify. cbn [store set_store].
    destruct (decide (r = x)) as [->|Hne].
    + eexists. rewrite list_lookup_alter_eq, Hn. split; [reflexivity | exact Hstart].
    + exists n. rewrite list_lookup_alter_ne by exact Hne. split; assumption.
  - unfold modify. cbn [store set_store]. rewrite Forall_forall in Hunlinked.
    apply Forall_forall. intros n' Hn'. apply list_elem_of_lookup in Hn'.
    destruct Hn' as [x Hx]. apply store_lookup_alter in Hx. destruct Hx as (n & Hn & ->).
    apply list_elem_of_lookup_2 in Hn. specialize (Hunlinked n Hn).
    destruct (decide (x = r)); [|exact Hunlinked].
    destruct Hunlinked as ((? & ? & ? & ?) & ?). repeat split; assumption.
  - unfold modify. cbn [nodes store set_store]. rewrite length_alter. exact Hrefs.
Qed.

Lemma createNodeForAddress_loop_discovered `{BaseMemory} skip fuel :
  ∀ g queue g',
    createNodeForAddress_loop skip fuel g queue = Some g' → discovered g → discovered g'.
Proof.
  induction fuel as [|fuel IH]; intros g queue g' Hrun Hg;
    destruct queue as [|addr64k rest]; cbn [createNodeForAddress_loop] in Hrun;
    try discriminate; try (injection Hrun as <-; exact Hg).
  destruct (NodeMap.get (nodes g) addr64k) eqn:Hget; [apply (IH _ _ _ Hrun Hg)|].
  destruct (createNodeInMap_fresh g addr64k Hget) as (Hnodes1 & Hstore1 & Hmem1 & _).
  destruct (hasFlag _ MemAttribute.FLOW_ANALYZED).
  { destruct (hasFlag _ MemAttribute.CODE_FIRST) eqn:Hfirst.
    - apply (IH _ _ _ Hrun).
      apply (discovered_extend g _ addr64k Hg Hget Hnodes1 Hstore1).
      + rewrite Hmem1. apply flagsGrow_refl.
      + rewrite Hmem1. apply Hg.
      + rewrite Hmem1. exact Hfirst.
    - apply (IH _ _ _ Hrun). apply (discovered_same g); [reflexivity..|exact Hg]. }
  destruct (hasFlag _ MemAttribute.ASSIGNED) eqn:Hassigned; cbn [negb] in Hrun;
    [|apply (IH _ _ _ Hrun Hg)].
  destruct (followFlow skip walkFuel (createNodeInMap g addr64k).1 addr64k)
    as [[g1 pushed]|] eqn:Hflow; [|discriminate].
  cbn [mbind option_bind] in Hrun. apply (IH _ _ _ Hrun).
  apply followFlow_facts in Hflow.
  destruct Hflow as (Hnodes & Hstore & _ & Hgrow & Hfirst & Hcons).
  apply getAttributeAt_flag in Hassigned. destruct Hassigned as [Hrange _].
  apply (discovered_extend g _ addr64k Hg Hget).
  - rewrite Hnodes. exact Hnodes1.
  - rewrite Hstore. exact Hstore1.
  - rewrite <- Hmem1. exact Hgrow.
  - apply Hcons. rewrite Hmem1. apply Hg.
  - apply getAttributeAt_flag. split; assumption.
Qed.

Lemma createNodes_loop_discovered `{BaseMemory} skip sorted :
  ∀ g g', createNodes_loop skip g sorted = Some g' → discovered g → discovered g'.
Proof.
  induction sorted as [|addr64k rest IH]; intros g g' Hrun Hg; cbn [createNodes_loop] in Hrun.
  { injection Hrun as <-. exact Hg. }
  destruct (hasFlag _ MemAttribute.FLOW_ANALYZED).
  { destruct (negb _); apply (IH _ _ Hrun); [|exact Hg].
    apply (discovered_same g); [reflexivity..|exact Hg]. }
  destruct (createNodeForAddress skip g addr64k) as [g1|] eqn:Hnode; [|discriminate].
  cbn [mbind option_bind] in Hrun. apply (IH _ _ Hrun).
  apply (createNodeForAddress_loop_discovered _ _ _ _ _ Hnode Hg).
Qed.

Lemma createNodesForLabels_discovered labels :
  ∀ g, discovered g → discovered (createNodesForLabels g labels).
Proof.
  induction labels as [|[addr64k label] rest IH]; intros g Hg; cbn [createNodesForLabels];
    [exact Hg|].
  destruct (hasFlag _ MemAttribute.CODE_FIRST) eqn:Hfirst.
  2:{ apply IH. apply (discovered_same g); [reflexivity..|exact Hg]. }
  destruct (NodeMap.get (nodes g) addr64k) as [node|] eqn:Hget.
  - apply IH, discovered_set_label, Hg.
  - destruct (createNodeInMap_fresh g addr64k Hget) as (Hnodes1 & Hstore1 & Hmem1 & _).
    destruct (createNodeInMap g addr64k) as [g1 node]. cbn [fst] in *.
    apply IH, discovered_set_label.
    apply (discovered_extend g _ addr64k Hg Hget Hnodes1 Hstore1).
    + rewrite Hmem1. apply flagsGrow_refl.
    + rewrite Hmem1. apply Hg.
    + rewrite Hmem1. exact Hfirst.
Qed.

Lemma clearBuild_discovered g : discovered (clearBuild g).
Proof.
  split; [|split; [split|]].
  - intros k. cbn. rewrite Z.lnot_involutive.
    set (x := memoryAttr (mem g) k).
    assert (Hflag : ∀ bit, Z.land MemAttribute.ASSIGNED bit = 0 →
                           hasFlag (Z.land x MemAttribute.ASSIGNED) bit = false).
    { intros bit Hbit. unfold hasFlag. rewrite <- Z.land_assoc, Hbit, Z.land_0_r. reflexivity. }
    split; [|split].
    + rewrite <- Z.land_assoc. change (Z.land MemAttribute.ASSIGNED (Z.lnot buildFlags)) with 0.
      apply Z.land_0_r.
    + rewrite !Hflag by reflexivity. reflexivity.
    + rewrite !Hflag by reflexivity. discriminate.
  - constructor.
  - intros a r [].
  - split; [constructor | reflexivity].
Qed.

(** Pass 1, from the reset on. *)
Lemma pass1_discovered `{BaseMemory} skip g addresses labels g1 :
  createNodes skip (clearBuild g) addresses = Some g1 →
  discovered (createNodesForLabels g1 labels).
Proof.
  intros Hcreate. apply createNodesForLabels_discovered.
  apply (createNodes_loop_discovered _ _ _ _ Hcreate), clearBuild_discovered.
Qed.

(** ** Pass 2: what [fillNode] is made of *)

Lemma localUpdate_push_instruction i : localUpdate (AsmNode.push_instruction i).
Proof. intros n. repeat split. Qed.

Lemma localUpdate_push_dataReference a : localUpdate (AsmNode.push_dataReference a).
Proof. intros n. repeat split. Qed.

Lemma localUpdate_set_stop v : localUpdate (AsmNode.set_stop v).
Proof. intros n. repeat split. Qed.

Lemma localUpdate_set_isSubroutine v : localUpdate (AsmNode.set_isSubroutine v).
Proof. intros n. repeat split. Qed.

Lemma getNodeForFill_pair g originAddress targetAddress :
  getNodeForFill g originAddress targetAddress
  = ((getNodeForFill g originAddress targetAddress).1,
     (getNodeForFill g originAddress targetAddress).2).
Proof. destruct (getNodeForFill g originAddress targetAddress). reflexivity. Qed.

Lemma getNodeForFill_table g originAddress targetAddress r :
  NodeMap.get (nodes g) targetAddress = Some r →
  getNodeForFill g originAddress targetAddress = (g, r).
Proof. intros Hget. unfold getNodeForFill. rewrite Hget. reflexivity. Qed.

Lemma fillSkips_steps `{BaseMemory} skip fuel node :
  ∀ g addr64k g' addr',
    fillSkips skip fuel g node addr64k = Some (g', addr') →
    rtc (fillStep node) g g' ∧ (skipsForward skip → addr64k <= addr').
Proof.
  induction fuel as [|fuel IH]; intros g addr64k g' addr' Hrun;
    cbn [fillSkips] in Hrun; [discriminate|].
  unfold getSkipForAddress, skipTruthy in Hrun.
  destruct (skip !! addr64k) as [s|] eqn:Hskip.
  2:{ injection Hrun as <- <-. split; [apply rtc_refl | lia]. }
  destruct (s =? 0).
  { injection Hrun as <- <-. split; [apply rtc_refl | lia]. }
  apply IH in Hrun. destruct Hrun as [Hsteps Haddr]. split.
  - eapply rtc_l; [|exact Hsteps]. apply fill_field, localUpdate_push_instruction.
  - intros Hfwd. specialize (Haddr Hfwd). specialize (Hfwd _ _ Hskip). lia.
Qed.

Lemma fillNode_loop_steps `{BaseMemory} skip fuel node :
  ∀ g addr64k g' addr',
    fillNode_loop skip fuel g node addr64k = Some (g', addr') →
    rtc (fillStep node) g g' ∧ (skipsForward skip → addr64k < addr').
Proof.
  induction fuel as [|fuel IH]; intros g addr64k g' addr' Hrun;
    cbn [fillNode_loop] in Hrun; [discriminate|].
  destruct (getOpcodeAt (memory (mem g)) addr64k) as [opcode|] eqn:Hop; [|discriminate].
  cbn [mbind option_bind] in Hrun.
  pose proof (decoded_length_range _ _ _ Hop) as Hlen.
  match type of Hrun with
  | context [mbind _ ?x] =>
      destruct x as [g1|] eqn:Hg1; [|discriminate];
      assert (Hsteps1 : rtc (fillStep node) g g1)
  end.
  { split_run Hg1; try discriminate; injection Hg1 as <-;
      first [ apply rtc_refl
            | apply rtc_once, fill_field, localUpdate_push_dataReference ]. }
  cbn [mbind option_bind] in Hrun.
  set (g2 := modify node (AsmNode.push_instruction (I_Opcode opcode)) g1) in Hrun.
  assert (Hsteps2 : rtc (fillStep node) g g2).
  { eapply rtc_r; [exact Hsteps1|]. apply fill_field, localUpdate_push_instruction. }
  clearbody g2. clear Hsteps1 Hg1 g1.
  destruct (hasFlag (flags opcode) OpcodeFlag.BRANCH_ADDRESS).
  - match type of Hrun with
    | context [mbind _ ?x] =>
        destruct x as [[g3 addr3]|] eqn:Hg3; [|discriminate];
        assert (Hsteps3 : rtc (fillStep node) g g3
                          ∧ (skipsForward skip → addr64k < addr3))
    end.
    { destruct (negb _); [|injection Hg3 as <- <-; split; [exact Hsteps2 | lia]].
      match type of Hg3 with
      | context [mbind _ ?x] => destruct x as [[g4 addr4]|] eqn:Hg4; [|discriminate]
      end.
      cbn [mbind option_bind] in Hg3. apply fillSkips_steps in Hg4.
      destruct Hg4 as [Hsteps4 Haddr4].
      destruct (addr4 <? 0x10000).
      - rewrite getNodeForFill_pair in Hg3. injection Hg3 as <- <-. split.
        + eapply rtc_r; [eapply rtc_trans; [exact Hsteps2 | exact Hsteps4]|].
          apply fill_link.
        + intros Hfwd. specialize (Haddr4 Hfwd). lia.
      - injection Hg3 as <- <-. split.
        + eapply rtc_trans; [exact Hsteps2 | exact Hsteps4].
        + intros Hfwd. specialize (Haddr4 Hfwd). lia. }
    cbn [mbind option_bind] in Hrun. destruct Hsteps3 as [Hsteps3 Haddr3].
    rewrite getNodeForFill_pair in Hrun. injection Hrun as <- <-.
    split; [|exact Haddr3].
    set (g5 := if hasFlag (flags opcode) OpcodeFlag.CALL then _ else _).
    assert (Hsteps5 : rtc (fillStep node) g g5).
    { subst g5. eapply rtc_r; [exact Hsteps3|].
      destruct (hasFlag (flags opcode) OpcodeFlag.CALL); [apply fill_call | apply fill_link]. }
    clearbody g5. destruct (hasFlag (flags opcode) OpcodeFlag.STOP); [|exact Hsteps5].
    eapply rtc_r; [exact Hsteps5|]. apply fill_field, localUpdate_set_stop.
  - set (g3 := if hasFlag (flags opcode) OpcodeFlag.RET then _ else g2) in Hrun.
    assert (Hsteps3 : rtc (fillStep node) g g3).
    { subst g3. destruct (hasFlag (flags opcode) OpcodeFlag.RET); [|exact Hsteps2].
      eapply rtc_r; [exact Hsteps2|]. apply fill_field, localUpdate_set_isSubroutine. }
    clearbody g3.
    destruct (hasFlag (flags opcode) OpcodeFlag.STOP).
    { injection Hrun as <- <-. split; [|lia].
      eapply rtc_r; [exact Hsteps3|]. apply fill_field, localUpdate_set_stop. }
    destruct (addr64k + op_length opcode >? 0xFFFF).
    { injection Hrun as <- <-. split; [exact Hsteps3 | lia]. }
    destruct (NodeMap.get (nodes g3) (addr64k + op_length opcode)) as [following|] eqn:Hget.
    { injection Hrun as <- <-. split; [|lia].
      eapply rtc_r; [exact Hsteps3|].
      pose proof (fill_link node g3 addr64k (addr64k + op_length opcode)) as Hlink.
      rewrite (getNodeForFill_table _ _ _ _ Hget) in Hlink. exact Hlink. }
    destruct (MemoryOps.searchAddrWithAttribute _ _ _ _).
    { injection Hrun as <- <-. split; [exact Hsteps3 | lia]. }
    apply IH in Hrun. destruct Hrun as [Hsteps Haddr]. split.
    + eapply rtc_trans; eassumption.
    + intros Hfwd. specialize (Haddr Hfwd). lia.
Qed.

Lemma getNodeForFill_cases g originAddress targetAddress :
  (∃ r, NodeMap.get (nodes g) targetAddress = Some r
        ∧ getNodeForFill g originAddress targetAddress = (g, r))
  ∨ (∃ c, getNodeForFill g originAddress targetAddress
          = (set_comments c
               (set_store (store g ++ [AsmNode.set_start targetAddress AsmNode.new]) g),
             length (store g))).
Proof.
  unfold getNodeForFill. destruct (NodeMap.get (nodes g) targetAddress) as [r|].
  - left. eauto.
  - right. cbn [mem set_store]. destruct (hasFlag _ _); eexists; reflexivity.
Qed.

(** Pass 2 changes node objects and comments, nothing else. *)
Lemma fillStep_frame node g g' :
  fillStep node g g' →
  mem g' = mem g ∧ nodes g' = nodes g ∧ otherLabels g' = otherLabels g.
Proof.
  intros [f Hf|o t|o t];
    try (destruct (getNodeForFill_cases g o t) as [(r & _ & ->)|(c & ->)]);
    repeat split.
Qed.

Lemma fillSteps_frame node g g' :
  rtc (fillStep node) g g' →
  mem g' = mem g ∧ nodes g' = nodes g ∧ otherLabels g' = otherLabels g.
Proof.
  induction 1 as [g|g g1 g2 Hstep _ IH]; [repeat split|].
  apply fillStep_frame in Hstep. destruct Hstep as (? & ? & ?), IH as (? & ? & ?).
  repeat split; congruence.
Qed.

Lemma storeGrows_refl st : storeGrows st st.
Proof. intros r n Hn. exists n. repeat split. exact Hn. Qed.

Lemma storeGrows_trans st1 st2 st3 :
  storeGrows st1 st2 → storeGrows st2 st3 → storeGrows st1 st3.
Proof.
  intros H12 H23 r n Hn. destruct (H12 r n Hn) as (n2 & Hn2 & A1 & A2 & A3).
  destruct (H23 r n2 Hn2) as (n3 & Hn3 & B1 & B2 & B3).
  exists n3. split; [exact Hn3|]. repeat split; congruence.
Qed.

Lemma storeGrows_alter f r st :
  (∀ n, sameHead n (f n)) → storeGrows st (alter f r st).
Proof.
  intros Hf x n Hn. destruct (decide (r = x)) as [->|Hne].
  - exists (f n). rewrite list_lookup_alter_eq, Hn. split; [reflexivity | apply Hf].
  - exists n. rewrite list_lookup_alter_ne by exact Hne. split; [exact Hn|]. repeat split.
Qed.

Lemma storeGrows_app st n : storeGrows st (st ++ [n]).
Proof.
  intros r x Hx. exists x. split; [|repeat split].
  apply lookup_app_l_Some. exact Hx.
Qed.

Lemma sameHead_local f : localUpdate f → ∀ n, sameHead n (f n).
Proof. intros Hf n. destruct (Hf n) as (? & ? & ? & _). repeat split; assumption. Qed.

Lemma linkBranch_storeGrows node target g :
  storeGrows (store g) (store (linkBranch node target g)).
Proof.
  unfold linkBranch, modify. cbn [store set_store].
  eapply storeGrows_trans; apply storeGrows_alter; intros n; repeat split.
Qed.

Lemma fillStep_storeGrows node g g' : fillStep node g g' → storeGrows (store g) (store g').
Proof.
  intros [f Hf|o t|o t].
  - unfold modify. cbn [store set_store]. apply storeGrows_alter, sameHead_local, Hf.
  - apply (storeGrows_trans _ (store (getNodeForFill g o t).1)); [|apply linkBranch_storeGrows].
    destruct (getNodeForFill_cases g o t) as [(r & _ & ->)|(c & ->)]; cbn [fst store set_store set_comments];
      [apply storeGrows_refl | apply storeGrows_app].
  - unfold modify. cbn [store set_store].
    eapply storeGrows_trans; [|apply storeGrows_alter; intros n; repeat split].
    apply (storeGrows_trans _ (store (getNodeForFill g o t).1));
      [|apply storeGrows_alter; intros n; repeat split].
    destruct (getNodeForFill_cases g o t) as [(r & _ & ->)|(c & ->)]; cbn [fst store set_store set_comments];
      [apply storeGrows_refl | apply storeGrows_app].
Qed.

Lemma fillSteps_storeGrows node g g' :
  rtc (fillStep node) g g' → storeGrows (store g) (store g').
Proof.
  induction 1 as [g|g g1 g2 Hstep _ IH]; [apply storeGrows_refl|].
  eapply storeGrows_trans; [apply (fillStep_storeGrows node), Hstep | exact IH].
Qed.

(** ** Pass 2: the edges *)

Lemma closed_count_0 (st : Store) r n x :
  closedEdges st → st !! r = Some n → (length st <= x)%nat →
  count_occ Nat.eq_dec (AsmNode.branchNodes n) x = 0%nat
  ∧ count_occ Nat.eq_dec (AsmNode.predecessors n) x = 0%nat
  ∧ AsmNode.callee n ≠ Some x.
Proof.
  intros Hclosed Hn Hx. destruct (Hclosed r n Hn) as [Hall Hcallee].
  rewrite !Forall_app in Hall. destruct Hall as (Hb & Hp & _).
  rewrite Forall_forall in Hb, Hp.
  split; [|split].
  - apply count_occ_not_In. intros Hin. apply list_elem_of_In, Hb in Hin. lia.
  - apply count_occ_not_In. intros Hin. apply list_elem_of_In, Hp in Hin. lia.
  - intros Hc. apply Hcallee in Hc. lia.
Qed.

Lemma edges_app (st : Store) n :
  unlinked n → closedEdges st → mirroredEdges st →
  closedEdges (st ++ [n]) ∧ mirroredEdges (st ++ [n]).
Proof.
  intros (Hp & Hc & Hcallee & Hb) Hclosed Hmirror.
  assert (Hlookup : ∀ r x, (st ++ [n]) !! r = Some x →
                           st !! r = Some x ∨ ((length st <= r)%nat ∧ x = n)).
  { intros r x Hx. apply lookup_app_Some in Hx. destruct Hx as [Hx|[Hr Hx]]; [left; exact Hx|].
    right. split; [exact Hr|]. apply list_lookup_singleton_Some in Hx. symmetry. apply Hx. }
  split.
  - intros r x Hx. rewrite length_app. cbn [length].
    destruct (Hlookup r x Hx) as [Hold|[_ ->]].
    + destruct (Hclosed r x Hold) as [Hall Hcal]. split.
      * eapply Forall_impl; [exact Hall|]. cbn. intros; lia.
      * intros y Hy. apply Hcal in Hy. lia.
    + rewrite Hb, Hp, Hc, Hcallee. split; [constructor | discriminate].
  - intros a b na nb Ha Hb'.
    destruct (Hlookup a na Ha) as [Haold|[Hage ->]], (Hlookup b nb Hb') as [Hbold|[Hbge ->]].
    + apply Hmirror; assumption.
    + destruct (closed_count_0 st a na b Hclosed Haold Hbge) as (Hcount & _ & Hncallee).
      rewrite Hcount, Hp. split; [reflexivity | intros Hcal; contradiction].
    + destruct (closed_count_0 st b nb a Hclosed Hbold Hage) as (_ & Hcount & _).
      rewrite Hcount, Hb, Hcallee. split; [reflexivity | discriminate].
    + rewrite Hb, Hp, Hcallee. split; [reflexivity | discriminate].
Qed.

(** The edge invariants only look at the edges. *)
Lemma edges_pointwise (st st' : Store) :
  length st' = length st →
  (∀ r n', st' !! r = Some n' → ∃ n, st !! r = Some n ∧ sameEdges n n') →
  closedEdges st → mirroredEdges st → closedEdges st' ∧ mirroredEdges st'.
Proof.
  intros Hlen Hsame Hclosed Hmirror. split.
  - intros r n' Hn'. destruct (Hsame r n' Hn') as (n & Hn & Hp & Hc & Hcallee & Hb).
    rewrite Hlen, Hp, Hc, Hcallee, Hb. apply (Hclosed r n Hn).
  - intros a b na' nb' Ha Hb.
    destruct (Hsame a na' Ha) as (na & Hna & _ & _ & Hcallee & Hbr).
    destruct (Hsame b nb' Hb) as (nb & Hnb & Hp & Hc & _ & _).
    rewrite Hcallee, Hbr, Hp, Hc. apply Hmirror; assumption.
Qed.

Lemma edges_alter (st : Store) r f :
  (∀ n, sameEdges n (f n)) →
  closedEdges st → mirroredEdges st →
  closedEdges (alter f r st) ∧ mirroredEdges (alter f r st).
Proof.
  intros Hf. apply edges_pointwise; [apply length_alter|].
  intros x n' Hn'. apply store_lookup_alter in Hn'. destruct Hn' as (n & Hn & ->).
  exists n. split; [exact Hn|]. destruct (decide (x = r)); [apply Hf | repeat split].
Qed.

Lemma sameEdges_local f : localUpdate f → ∀ n, sameEdges n (f n).
Proof. intros Hf n. destruct (Hf n) as (_ & _ & _ & ? & ? & ? & ?). repeat split; assumption. Qed.

Lemma count_occ_snoc (l : list nat) x y :
  count_occ Nat.eq_dec (l ++ [x]) y
  = (count_occ Nat.eq_dec l y + if decide (x = y) then 1 else 0)%nat.
Proof.
  rewrite count_occ_app. cbn [count_occ].
  destruct (Nat.eq_dec x y), (decide (x = y)); try reflexivity; contradiction.
Qed.

Lemma edges_link (st : Store) node target :
  (node < length st)%nat → (target < length st)%nat →
  closedEdges st → mirroredEdges st →
  closedEdges (alter (AsmNode.push_predecessor node) target
                 (alter (AsmNode.push_branchNode target) node st))
  ∧ mirroredEdges (alter (AsmNode.push_predecessor node) target
                     (alter (AsmNode.push_branchNode target) node st)).
Proof.
  intros Hnode Htarget Hclosed Hmirror.
  set (st2 := alter _ target _).
  assert (Hlookup : ∀ x n2, st2 !! x = Some n2 →
            ∃ n, st !! x = Some n
                 ∧ AsmNode.branchNodes n2
                   = AsmNode.branchNodes n ++ (if decide (x = node) then [target] else [])
                 ∧ AsmNode.predecessors n2
                   = AsmNode.predecessors n ++ (if decide (x = target) then [node] else [])
                 ∧ AsmNode.callers n2 = AsmNode.callers n
                 ∧ AsmNode.callee n2 = AsmNode.callee n).
  { intros x n2 Hn2. subst st2. apply store_lookup_alter in Hn2.
    destruct Hn2 as (n1 & Hn1 & ->). apply store_lookup_alter in Hn1.
    destruct Hn1 as (n & Hn & ->). exists n. split; [exact Hn|].
    destruct (decide (x = target)), (decide (x = node)); cbn; rewrite ?app_nil_r;
      repeat split. }
  assert (Hlen : length st2 = length st) by (subst st2; rewrite !length_alter; reflexivity).
  clearbody st2. split.
  - intros x n2 Hn2. destruct (Hlookup x n2 Hn2) as (n & Hn & -> & -> & -> & ->).
    destruct (Hclosed x n Hn) as [Hall Hcal]. rewrite Hlen.
    rewrite !Forall_app in Hall. destruct Hall as (Hb & Hp & Hc).
    split; [|exact Hcal]. rewrite !Forall_app. repeat split; try assumption.
    + destruct (decide (x = node)); repeat constructor. exact Htarget.
    + destruct (decide (x = target)); repeat constructor. exact Hnode.
  - intros a b na2 nb2 Ha Hb.
    destruct (Hlookup a na2 Ha) as (na & Hna & Hbr & _ & _ & Hcallee).
    destruct (Hlookup b nb2 Hb) as (nb & Hnb & _ & Hpred & Hcallers & _).
    destruct (Hmirror a b na nb Hna Hnb) as [Hcount Hcal].
    rewrite Hbr, Hpred, Hcallee, Hcallers. split; [|exact Hcal].
    destruct (decide (a = node)) as [->|Ha'], (decide (b = target)) as [->|Hb'];
      rewrite ?app_nil_r, ?count_occ_snoc, ?Hcount;
      repeat match goal with
             | |- context [decide (?u = ?v)] => destruct (decide (u = v)); try congruence
             end; lia.
Qed.

Lemma edges_call (st : Store) node target :
  (node < length st)%nat → (target < length st)%nat →
  closedEdges st → mirroredEdges st →
  closedEdges (alter (AsmNode.push_caller node) target
                 (alter (AsmNode.set_callee target) node st))
  ∧ mirroredEdges (alter (AsmNode.push_caller node) target
                     (alter (AsmNode.set_callee target) node st)).
Proof.
  intros Hnode Htarget Hclosed Hmirror.
  set (st2 := alter _ target _).
  assert (Hlookup : ∀ x n2, st2 !! x = Some n2 →
            ∃ n, st !! x = Some n
                 ∧ AsmNode.branchNodes n2 = AsmNode.branchNodes n
                 ∧ AsmNode.predecessors n2 = AsmNode.predecessors n
                 ∧ AsmNode.callers n2
                   = AsmNode.callers n ++ (if decide (x = target) then [node] else [])
                 ∧ AsmNode.callee n2
                   = if decide (x = node) then Some target else AsmNode.callee n).
  { intros x n2 Hn2. subst st2. apply store_lookup_alter in Hn2.
    destruct Hn2 as (n1 & Hn1 & ->). apply store_lookup_alter in Hn1.
    destruct Hn1 as (n & Hn & ->). exists n. split; [exact Hn|].
    destruct (decide (x = target)), (decide (x = node)); cbn; rewrite ?app_nil_r;
      repeat split. }
  assert (Hlen : length st2 = length st) by (subst st2; rewrite !length_alter; reflexivity).
  clearbody st2. split.
  - intros x n2 Hn2. destruct (Hlookup x n2 Hn2) as (n & Hn & -> & -> & -> & ->).
    destruct (Hclosed x n Hn) as [Hall Hcal]. rewrite Hlen.
    rewrite !Forall_app in Hall. destruct Hall as (Hb & Hp & Hc). split.
    + rewrite !Forall_app. repeat split; try assumption.
      destruct (decide (x = target)); repeat constructor. exact Hnode.
    + intros y. destruct (decide (x = node)); [intros [= <-]; exact Htarget | apply Hcal].
  - intros a b na2 nb2 Ha Hb.
    destruct (Hlookup a na2 Ha) as (na & Hna & Hbr & _ & _ & Hcallee).
    destruct (Hlookup b nb2 Hb) as (nb & Hnb & _ & Hpred & Hcallers & _).
    destruct (Hmirror a b na nb Hna Hnb) as [Hcount Hcal].
    rewrite Hbr, Hpred, Hcallee, Hcallers. split; [exact Hcount|].
    destruct (decide (a = node)) as [->|Ha'].
    + intros [= <-]. rewrite decide_True by reflexivity. apply in_or_app. right. left. reflexivity.
    + intros Hc. apply in_or_app. left. apply Hcal, Hc.
Qed.

Lemma unlinked_new addr64k : unlinked (AsmNode.set_start addr64k AsmNode.new).
Proof. repeat split. Qed.

Lemma getNodeForFill_edgesWf node g originAddress targetAddress :
  edgesWf node g →
  edgesWf node (getNodeForFill g originAddress targetAddress).1
  ∧ ((getNodeForFill g originAddress targetAddress).2
     < length (store (getNodeForFill g originAddress targetAddress).1))%nat.
Proof.
  intros (Hclosed & Hmirror & Htable & Hnode).
  destruct (getNodeForFill_cases g originAddress targetAddress) as [(r & Hget & ->)|(c & ->)];
    cbn [fst snd store nodes set_store set_comments].
  - split; [exact (conj Hclosed (conj Hmirror (conj Htable Hnode)))|].
    apply (Htable targetAddress r), NodeMap_get_In, Hget.
  - destruct (edges_app (store g) _ (unlinked_new targetAddress) Hclosed Hmirror)
      as [Hclosed' Hmirror'].
    rewrite length_app. cbn [length]. split; [|lia].
    split; [exact Hclosed'|]. split; [exact Hmirror'|]. split; [|cbn; rewrite length_app; cbn; lia].
    intros a r Hget. cbn [store nodes set_store set_comments] in *.
    rewrite length_app. cbn [length]. specialize (Htable a r Hget). lia.
Qed.

Lemma fillStep_edgesWf node g g' : fillStep node g g' → edgesWf node g → edgesWf node g'.
Proof.
  intros [f Hf|o t|o t] Hwf.
  - destruct Hwf as (Hclosed & Hmirror & Htable & Hnode).
    unfold edgesWf, tableValid, modify. cbn [store nodes set_store].
    destruct (edges_alter (store g) node f (sameEdges_local f Hf) Hclosed Hmirror)
      as [Hclosed' Hmirror'].
    rewrite length_alter. exact (conj Hclosed' (conj Hmirror' (conj Htable Hnode))).
  - destruct (getNodeForFill_edgesWf node g o t Hwf)
      as [(Hclosed & Hmirror & Htable & Hnode) Htarget].
    set (g1 := (getNodeForFill g o t).1) in *. set (target := (getNodeForFill g o t).2) in *.
    unfold edgesWf, tableValid, linkBranch, modify. cbn [store nodes set_store].
    destruct (edges_link (store g1) node target Hnode Htarget Hclosed Hmirror)
      as [Hclosed' Hmirror'].
    rewrite !length_alter. exact (conj Hclosed' (conj Hmirror' (conj Htable Hnode))).
  - destruct (getNodeForFill_edgesWf node g o t Hwf)
      as [(Hclosed & Hmirror & Htable & Hnode) Htarget].
    set (g1 := (getNodeForFill g o t).1) in *. set (target := (getNodeForFill g o t).2) in *.
    unfold edgesWf, tableValid, modify. cbn [store nodes set_store].
    destruct (edges_call (store g1) node target Hnode Htarget Hclosed Hmirror)
      as [Hclosed' Hmirror'].
    rewrite !length_alter. exact (conj Hclosed' (conj Hmirror' (conj Htable Hnode))).
Qed.

Lemma fillSteps_edgesWf node g g' :
  rtc (fillStep node) g g' → edgesWf node g → edgesWf node g'.
Proof.
  induction 1 as [g|g g1 g2 Hstep _ IH]; [tauto|].
  intros Hwf. apply IH. apply (fillStep_edgesWf node g g1 Hstep Hwf).
Qed.

(** ** Pass 2: [fillNode] and [fillNodes] *)

Lemma fillNode_facts `{BaseMemory} skip g node g' :
  fillNode skip g node = Some g' →
  (mem g' = mem g ∧ nodes g' = nodes g ∧ otherLabels g' = otherLabels g)
  ∧ (∀ r n, store g !! r = Some n →
       ∃ n', store g' !! r = Some n'
             ∧ AsmNode.start n' = AsmNode.start n ∧ AsmNode.label n' = AsmNode.label n
             ∧ (r ≠ node → AsmNode.length n' = AsmNode.length n))
  ∧ (closedEdges (store g) → mirroredEdges (store g) → tableValid g →
     closedEdges (store g') ∧ mirroredEdges (store g') ∧ tableValid g')
  ∧ (skipsForward skip → ∃ n', store g' !! node = Some n' ∧ 1 <= AsmNode.length n').
Proof.
  unfold fillNode. intros Hrun.
  destruct (store g !! node) as [n0|] eqn:Hnode; [|discriminate].
  cbn [mbind option_bind] in Hrun.
  destruct (fillNode_loop skip walkFuel g node (AsmNode.start n0)) as [[g1 addr64k]|] eqn:Hloop;
    [|discriminate].
  cbn [mbind option_bind] in Hrun. injection Hrun as <-.
  apply fillNode_loop_steps in Hloop. destruct Hloop as [Hsteps Haddr].
  pose proof (fillSteps_frame _ _ _ Hsteps) as Hframe.
  pose proof (fillSteps_storeGrows _ _ _ Hsteps) as Hgrows.
  unfold modify. cbn [mem nodes otherLabels store set_store].
  split; [exact Hframe|]. split; [|split].
  - intros r n Hn. destruct (Hgrows r n Hn) as (n1 & Hn1 & Hstart & Hlength & Hlabel).
    destruct (decide (node = r)) as [->|Hne].
    + eexists. rewrite list_lookup_alter_eq, Hn1. split; [reflexivity|].
      cbn. split; [exact Hstart|]. split; [exact Hlabel|]. intros Hr. contradiction.
    + exists n1. rewrite list_lookup_alter_ne by exact Hne.
      split; [exact Hn1|]. split; [exact Hstart|]. split; [exact Hlabel|].
      intros _. exact Hlength.
  - intros Hclosed Hmirror Htable.
    assert (Hwf : edgesWf node g).
    { split; [exact Hclosed|]. split; [exact Hmirror|]. split; [exact Htable|].
      apply lookup_lt_Some in Hnode. exact Hnode. }
    apply (fillSteps_edgesWf _ _ _ Hsteps) in Hwf.
    destruct Hwf as (Hclosed1 & Hmirror1 & Htable1 & _).
    destruct (edges_alter (store g1) node (AsmNode.set_length (addr64k - AsmNode.start n0)))
      as [Hclosed2 Hmirror2]; [intros n; repeat split|assumption..|].
    split; [exact Hclosed2|]. split; [exact Hmirror2|].
    intros a r Hin. cbn [store nodes set_store]. rewrite length_alter.
    apply (Htable1 a r Hin).
  - intros Hfwd. specialize (Haddr Hfwd).
    destruct (Hgrows node n0 Hnode) as (n1 & Hn1 & _).
    eexists. rewrite list_lookup_alter_eq, Hn1. split; [reflexivity|]. cbn. lia.
Qed.

Lemma tableWf_valid g : tableWf g → tableValid g.
Proof.
  intros [_ Htable] a r Hin. destruct (Htable a r Hin) as (_ & n & Hn & _).
  apply lookup_lt_Some in Hn. exact Hn.
Qed.

Lemma fillNode_linked `{BaseMemory} skip g node g' :
  fillNode skip g node = Some g' → linked g → linked g'.
Proof.
  intros Hrun (Hwf & Hclosed & Hmirror).
  destruct (fillNode_facts _ _ _ _ Hrun) as ((Hmem & Hnodes & _) & Hkeep & Hedges & _).
  destruct (Hedges Hclosed Hmirror (tableWf_valid g Hwf)) as (Hclosed' & Hmirror' & _).
  split; [|split; assumption].
  destruct Hwf as [Hnd Htable]. split; [rewrite Hnodes; exact Hnd|].
  intros a r Hin. rewrite Hnodes in Hin. destruct (Htable a r Hin) as (Hflag & n & Hn & Hstart).
  rewrite Hmem. split; [exact Hflag|].
  destruct (Hkeep r n Hn) as (n' & Hn' & Hstart' & _). exists n'. split; [exact Hn'|congruence].
Qed.

Lemma fillNode_positive `{BaseMemory} skip g node g' r n :
  skipsForward skip →
  fillNode skip g node = Some g' →
  store g !! r = Some n → 1 <= AsmNode.length n →
  ∃ n', store g' !! r = Some n' ∧ 1 <= AsmNode.length n'.
Proof.
  intros Hfwd Hrun Hn Hlen.
  destruct (fillNode_facts _ _ _ _ Hrun) as (_ & Hkeep & _ & Hpos).
  destruct (decide (r = node)) as [->|Hne]; [apply Hpos, Hfwd|].
  destruct (Hkeep r n Hn) as (n' & Hn' & _ & _ & Hlength).
  exists n'. split; [exact Hn'|]. rewrite Hlength by exact Hne. exact Hlen.
Qed.

Lemma fillNodes_loop_positive `{BaseMemory} skip entries :
  ∀ g g' r n,
    skipsForward skip →
    fillNodes_loop skip g entries = Some g' →
    store g !! r = Some n → 1 <= AsmNode.length n →
    ∃ n', store g' !! r = Some n' ∧ 1 <= AsmNode.length n'.
Proof.
  induction entries as [|[a node] rest IH]; intros g g' r n Hfwd Hrun Hn Hlen;
    cbn [fillNodes_loop] in Hrun.
  { injection Hrun as <-. eauto. }
  destruct (fillNode skip g node) as [g1|] eqn:Hfill; [|discriminate].
  cbn [mbind option_bind] in Hrun.
  destruct (fillNode_positive _ _ _ _ _ _ Hfwd Hfill Hn Hlen) as (n1 & Hn1 & Hlen1).
  apply (IH _ _ _ _ Hfwd Hrun Hn1 Hlen1).
Qed.

Lemma fillNodes_loop_linked `{BaseMemory} skip entries :
  ∀ g g', fillNodes_loop skip g entries = Some g' →
    linked g →
    linked g' ∧ nodes g' = nodes g ∧ mem g' = mem g
    ∧ (skipsForward skip → positiveLengths g' entries).
Proof.
  induction entries as [|[a node] rest IH]; intros g g' Hrun Hg; cbn [fillNodes_loop] in Hrun.
  { injection Hrun as <-. split; [exact Hg|]. split; [reflexivity|]. split; [reflexivity|].
    intros _ addr r []. }
  destruct (fillNode skip g node) as [g1|] eqn:Hfill; [|discriminate].
  cbn [mbind option_bind] in Hrun.
  pose proof (fillNode_linked _ _ _ _ Hfill Hg) as Hg1.
  destruct (IH _ _ Hrun Hg1) as (Hg' & Hnodes & Hmem & Hpos).
  destruct (fillNode_facts _ _ _ _ Hfill) as ((Hmem1 & Hnodes1 & _) & _ & _ & Hpos1).
  split; [exact Hg'|]. split; [congruence|]. split; [congruence|].
  intros Hfwd addr r [[= <- <-]|Hin]; [|apply (Hpos Hfwd addr r Hin)].
  destruct (Hpos1 Hfwd) as (n1 & Hn1 & Hlen1).
  apply (fillNodes_loop_positive _ _ _ _ _ _ Hfwd Hrun Hn1 Hlen1).
Qed.

(** ** What the steps of a build leave alone *)

Lemma fillNodes_loop_frame `{BaseMemory} skip entries :
  ∀ g g', fillNodes_loop skip g entries = Some g' → mem g' = mem g ∧ nodes g' = nodes g.
Proof.
  induction entries as [|[a node] rest IH]; intros g g' Hrun; cbn [fillNodes_loop] in Hrun.
  { injection Hrun as <-. split; reflexivity. }
  destruct (fillNode skip g node) as [g1|] eqn:Hfill; [|discriminate].
  cbn [mbind option_bind] in Hrun. apply IH in Hrun.
  destruct (fillNode_facts _ _ _ _ Hfill) as ((Hmem & Hnodes & _) & _).
  destruct Hrun as [? ?]. split; congruence.
Qed.

(** The node-building steps keep the bytes and the ASSIGNED flags. *)
Lemma buildNodes_sameImage `{BaseMemory} skip g addresses labels g' :
  buildNodes skip g addresses labels = Some g' → sameImage (mem g) (mem g').
Proof.
  unfold buildNodes, createNodes, fillNodes. intros Hrun.
  destruct (createNodes_loop skip g (sortAddresses addresses)) as [g1|] eqn:Hcreate;
    [|discriminate].
  cbn [mbind option_bind] in Hrun.
  destruct (fillNodes_loop skip (createNodesForLabels g1 labels) _) as [g2|] eqn:Hfill;
    [|discriminate].
  cbn [mbind option_bind] in Hrun. injection Hrun as <-.
  apply createNodes_loop_sameImage in Hcreate. apply fillNodes_loop_frame in Hfill.
  destruct Hfill as [Hfill _]. rewrite createNodesForLabels_mem in Hfill.
  unfold markSubroutines. cbn [mem set_store]. rewrite Hfill. exact Hcreate.
Qed.

Lemma assignOpcodeReferenceLabel_frame funcGetLabel blocks g addr64k g' :
  assignOpcodeReferenceLabel funcGetLabel blocks g addr64k = Some g' →
  mem g' = mem g ∧ nodes g' = nodes g ∧ store g' = store g.
Proof.
  unfold assignOpcodeReferenceLabel. intros Hrun.
  split_run Hrun; try discriminate; injection Hrun as <-; repeat split.
Qed.

Lemma assignOpcodeReferenceLabels_node_frame funcGetLabel blocks refs :
  ∀ g g', assignOpcodeReferenceLabels_node funcGetLabel blocks g refs = Some g' →
          mem g' = mem g ∧ nodes g' = nodes g ∧ store g' = store g.
Proof.
  induction refs as [|addr64k rest IH]; intros g g' Hrun;
    cbn [assignOpcodeReferenceLabels_node] in Hrun.
  { injection Hrun as <-. repeat split. }
  destruct (assignOpcodeReferenceLabel funcGetLabel blocks g addr64k) as [g1|] eqn:Hone;
    [|discriminate].
  cbn [mbind option_bind] in Hrun. apply IH in Hrun.
  apply assignOpcodeReferenceLabel_frame in Hone.
  destruct Hrun as (? & ? & ?), Hone as (? & ? & ?). repeat split; congruence.
Qed.

Lemma assignOpcodeReferenceLabels_loop_frame funcGetLabel blocks entries :
  ∀ g g', assignOpcodeReferenceLabels_loop funcGetLabel blocks g entries = Some g' →
          mem g' = mem g ∧ nodes g' = nodes g ∧ store g' = store g.
Proof.
  induction entries as [|[a node] rest IH]; intros g g' Hrun;
    cbn [assignOpcodeReferenceLabels_loop] in Hrun.
  { injection Hrun as <-. repeat split. }
  destruct (store g !! node) as [n|]; [|discriminate]. cbn [mbind option_bind] in Hrun.
  destruct (assignOpcodeReferenceLabels_node funcGetLabel blocks g (AsmNode.dataReferences n))
    as [g1|] eqn:Hnode; [|discriminate].
  cbn [mbind option_bind] in Hrun. apply IH in Hrun.
  apply assignOpcodeReferenceLabels_node_frame in Hnode.
  destruct Hrun as (? & ? & ?), Hnode as (? & ? & ?). repeat split; congruence.
Qed.

(** The label steps do not touch the memory and return the block array of
    [partitionBlocks]. *)
Lemma buildLabels_mem funcGetLabel g blocks g' blocks' :
  buildLabels funcGetLabel g blocks = Some (g', blocks') →
  mem g' = mem g ∧ nodes g' = nodes g ∧ partitionBlocks g blocks = Some blocks'.
Proof.
  unfold buildLabels, assignNodeLabels, assignOpcodeReferenceLabels. intros Hrun.
  destruct (partitionBlocks g blocks) as [bp|]; [|discriminate].
  cbn [mbind option_bind] in Hrun.
  destruct (assignNodeLabels_loop bp g (nodes g)) as [g1|] eqn:Hlabels; [|discriminate].
  cbn [mbind option_bind] in Hrun.
  destruct (assignOpcodeReferenceLabels_loop funcGetLabel bp g1 (nodes g1)) as [g2|] eqn:Hrefs;
    [|discriminate].
  cbn [mbind option_bind] in Hrun. injection Hrun as <- <-.
  apply assignNodeLabels_loop_frame in Hlabels. destruct Hlabels as [(Hmem & Hnodes & _) _].
  apply assignOpcodeReferenceLabels_loop_frame in Hrefs. destruct Hrefs as (Hmem' & Hnodes' & _).
  split; [congruence|]. split; [congruence | reflexivity].
Qed.

Lemma resetAttributeFlag_sameImage m :
  sameImage m (MemoryOps.resetAttributeFlag m (Z.lnot MemAttribute.ASSIGNED)).
Proof.
  split; [reflexivity|]. intros a. cbn [MemoryOps.resetAttributeFlag memoryAttr].
  rewrite Z.lnot_involutive, <- Z.land_assoc, Z.land_diag. reflexivity.
Qed.

(** ** The two passes and the build *)

Lemma unlinked_closed (st : Store) : Forall unlinked st → closedEdges st ∧ mirroredEdges st.
Proof.
  intros Hall. rewrite Forall_forall in Hall.
  assert (Hu : ∀ r n, st !! r = Some n → unlinked n).
  { intros r n Hn. apply Hall. eapply list_elem_of_lookup_2. exact Hn. }
  split.
  - intros r n Hn. destruct (Hu r n Hn) as (-> & -> & -> & ->).
    split; [constructor | discriminate].
  - intros a b na nb Ha Hb. destruct (Hu a na Ha) as (_ & _ & -> & ->).
    destruct (Hu b nb Hb) as (-> & _). split; [reflexivity | discriminate].
Qed.

Lemma discovered_linked g : discovered g → linked g.
Proof.
  intros (_ & Hwf & Hunfilled & _).
  assert (Hunlinked : Forall unlinked (store g))
    by (eapply Forall_impl; [exact Hunfilled | intros n Hn; apply Hn]).
  destruct (unlinked_closed _ Hunlinked) as [Hclosed Hmirror].
  split; [exact Hwf|]. split; assumption.
Qed.

Lemma twoPasses_linked `{BaseMemory} skip g0 addresses labels g :
  twoPasses skip (clearBuild g0) addresses labels = Some g →
  linked g
  ∧ (∀ k, attributeConsistent (memoryAttr (mem g) k))
  ∧ (skipsForward skip → positiveLengths g (nodes g)).
Proof.
  unfold twoPasses, fillNodes. intros Hrun.
  destruct (createNodes skip (clearBuild g0) addresses) as [g1|] eqn:Hcreate; [|discriminate].
  cbn [mbind option_bind] in Hrun.
  pose proof (pass1_discovered skip g0 addresses labels g1 Hcreate) as Hdisc.
  destruct (fillNodes_loop_linked _ _ _ _ Hrun (discovered_linked _ Hdisc))
    as (Hlinked & Hnodes & Hmem & Hpos).
  split; [exact Hlinked|]. split.
  - rewrite Hmem. apply Hdisc.
  - rewrite Hnodes. exact Hpos.
Qed.

Lemma buildNodes_twoPasses `{BaseMemory} skip g addresses labels :
  buildNodes skip g addresses labels = markSubroutines <$> twoPasses skip g addresses labels.
Proof.
  unfold buildNodes, twoPasses.
  destruct (createNodes skip g addresses) as [g1|]; [|reflexivity].
  cbn [mbind option_bind].
  destruct (fillNodes skip (createNodesForLabels g1 labels)); reflexivity.
Qed.

Lemma NoDup_refs (T : NodeMap.t) (key : nat → option Z) :
  NoDup (map fst T) → (∀ a r, In (a, r) T → key r = Some a) → NoDup (map snd T).
Proof.
  induction T as [|[a r] T IH]; cbn [map fst snd]; intros Hnd Hkey; [constructor|].
  apply NoDup_cons in Hnd. destruct Hnd as [Hnotin Hnd]. apply NoDup_cons. split.
  - intros Hin. apply list_elem_of_In, in_map_iff in Hin. destruct Hin as ([a' r'] & Heq & Hin).
    cbn in Heq. subst r'.
    assert (a' = a).
    { pose proof (Hkey a r (or_introl eq_refl)) as H1.
      pose proof (Hkey a' r (or_intror Hin)) as H2. congruence. }
    subst a'. apply Hnotin, list_elem_of_In, in_map_iff. exists (a, r). auto.
  - apply IH; [exact Hnd|]. intros a' r' Hin. apply Hkey. right. exact Hin.
Qed.

(** X11: after the two passes every entry of the node table is bound to an
    object of its own, and the object starts at the address of the entry. *)
Theorem twoPasses_table_objects `{BaseMemory} (skip : gmap Z Z) (g0 g : FlowGraph)
    (addresses : list Z) (labels : list (Z * string)) :
  twoPasses skip (clearBuild g0) addresses labels = Some g →
  NoDup (map snd (nodes g))
  ∧ ∀ addr r, In (addr, r) (nodes g) →
      ∃ n, store g !! r = Some n ∧ AsmNode.start n = addr.
Proof.
  intros Hrun. destruct (twoPasses_linked _ _ _ _ _ Hrun) as (([Hnd Htable] & _) & _).
  split.
  - apply (NoDup_refs _ (fun r => AsmNode.start <$> store g !! r) Hnd).
    intros a r Hin. destruct (Htable a r Hin) as (_ & n & -> & <-). reflexivity.
  - intros addr r Hin. apply (Htable addr r Hin).
Qed.

Lemma twoPasses_table_objects_witness :
  NoDup (map snd (nodes passesA))
  ∧ ∀ addr r, In (addr, r) (nodes passesA) →
      ∃ n, store passesA !! r = Some n ∧ AsmNode.start n = addr.
Proof.
  apply (@twoPasses_table_objects BaseMemory_64k ∅ (graph scenarioA) passesA [0x8000] []).
  unfold passesA.
  assert (Hruns : (fun _ => tt) <$> @twoPasses BaseMemory_64k ∅ (clearBuild (graph scenarioA))
                                      [0x8000] [] = Some tt)
    by (vm_compute; reflexivity).
  destruct (@twoPasses BaseMemory_64k ∅ (clearBuild (graph scenarioA)) [0x8000] []);
    [reflexivity | discriminate Hruns].
Defined.

(** X12: after the two passes the edges of the graph are closed and
    mirrored.  Every reference in a branch, predecessor or caller list and
    every callee is an object of the build; a node occurs in the predecessors
    of another as often as that one occurs in its branch nodes; and the
    callee of a node lists the node among its callers. *)
Theorem twoPasses_edges `{BaseMemory} (skip : gmap Z Z) (g0 g : FlowGraph)
    (addresses : list Z) (labels : list (Z * string)) :
  twoPasses skip (clearBuild g0) addresses labels = Some g →
  closedEdges (store g) ∧ mirroredEdges (store g).
Proof.
  intros Hrun. destruct (twoPasses_linked _ _ _ _ _ Hrun) as ((_ & Hclosed & Hmirror) & _).
  split; assumption.
Qed.

Lemma twoPasses_edges_witness :
  closedEdges (store passesA) ∧ mirroredEdges (store passesA).
Proof.
  apply (@twoPasses_edges BaseMemory_64k ∅ (graph scenarioA) passesA [0x8000] []).
  unfold passesA.
  assert (Hruns : (fun _ => tt) <$> @twoPasses BaseMemory_64k ∅ (clearBuild (graph scenarioA))
                                      [0x8000] [] = Some tt)
    by (vm_compute; reflexivity).
  destruct (@twoPasses BaseMemory_64k ∅ (clearBuild (graph scenarioA)) [0x8000] []);
    [reflexivity | discriminate Hruns].
Defined.

(** X13: when no skip goes backwards, every node of the table is at least
    one byte long after the two passes. *)
Theorem twoPasses_positive_lengths `{BaseMemory} (skip : gmap Z Z) (g0 g : FlowGraph)
    (addresses : list Z) (labels : list (Z * string)) :
  skipsForward skip →
  twoPasses skip (clearBuild g0) addresses labels = Some g →
  positiveLengths g (nodes g).
Proof.
  intros Hfwd Hrun. destruct (twoPasses_linked _ _ _ _ _ Hrun) as (_ & _ & Hpos).
  apply Hpos, Hfwd.
Qed.

Lemma twoPasses_positive_lengths_witness :
  ∃ n, store passesA !! 2%nat = Some n ∧ 1 <= AsmNode.length n.
Proof.
  assert (Hfwd : skipsForward ∅).
  { intros addr64k skip Hskip. rewrite lookup_empty in Hskip. discriminate. }
  assert (Hrun : @twoPasses BaseMemory_64k ∅ (clearBuild (graph scenarioA)) [0x8000] []
                 = Some passesA).
  { unfold passesA.
    assert (Hruns : (fun _ => tt) <$> @twoPasses BaseMemory_64k ∅
                                        (clearBuild (graph scenarioA)) [0x8000] [] = Some tt)
      by (vm_compute; reflexivity).
    destruct (@twoPasses BaseMemory_64k ∅ (clearBuild (graph scenarioA)) [0x8000] []);
      [reflexivity | discriminate Hruns]. }
  apply (@twoPasses_positive_lengths BaseMemory_64k ∅ (graph scenarioA) passesA [0x8000] []
           Hfwd Hrun 0x8010 2%nat).
  vm_compute. tauto.
Defined.

Lemma getFlowGraph_stages `{BaseMemory} this addresses labels this' :
  Disassembler.getFlowGraph this addresses labels = Some this' →
  ∃ g, twoPasses (skipAddrs64k this) (clearBuild (graph this)) addresses labels = Some g
       ∧ mem (graph this') = mem g ∧ nodes (graph this') = nodes g.
Proof.
  unfold Disassembler.getFlowGraph, getFlowGraph. rewrite buildNodes_twoPasses.
  destruct (twoPasses _ _ addresses labels) as [g|]; [|discriminate].
  cbn [fmap option_fmap option_map mbind option_bind].
  destruct (buildLabels _ _ _) as [[g1 b1]|] eqn:Hlabels; [|discriminate].
  cbn [mbind option_bind]. intros [= <-]. cbn [graph].
  destruct (buildLabels_mem _ _ _ _ _ Hlabels) as (Hmem & Hnodes & _).
  exists g. split; [reflexivity|]. split; assumption.
Qed.

Lemma attributeConsistent_0 : attributeConsistent 0.
Proof. split; [reflexivity|]. split; [reflexivity | discriminate]. Qed.

(** X14: the attributes after a build.  At every address no other flag than
    ASSIGNED, CODE, CODE_FIRST and FLOW_ANALYZED is set, CODE is set exactly
    where FLOW_ANALYZED is, and CODE_FIRST only where CODE is. *)
Theorem getFlowGraph_attributes `{BaseMemory} (this this' : SmartDisassembler)
    (addresses : list Z) (labels : list (Z * string)) :
  Disassembler.getFlowGraph this addresses labels = Some this' →
  ∀ k, attributeConsistent (MemoryOps.getAttributeAt (mem (graph this')) k).
Proof.
  intros Hrun k. destruct (getFlowGraph_stages _ _ _ _ Hrun) as (g & Hpasses & Hmem & _).
  destruct (twoPasses_linked _ _ _ _ _ Hpasses) as (_ & Hcons & _).
  rewrite Hmem. unfold MemoryOps.getAttributeAt.
  destruct ((k <? 0) || (k >=? 0x10000)); [apply attributeConsistent_0 | apply Hcons].
Qed.

Lemma getFlowGraph_attributes_witness :
  attributeConsistent (MemoryOps.getAttributeAt (mem (graph builtA)) 0x8000).
Proof.
  apply (@getFlowGraph_attributes BaseMemory_64k scenarioA builtA [0x8000] []).
  unfold builtA, run.
  assert (Hruns : (fun _ => tt) <$> @Disassembler.getFlowGraph BaseMemory_64k scenarioA
                                      [0x8000] [] = Some tt)
    by (vm_compute; reflexivity).
  destruct (@Disassembler.getFlowGraph BaseMemory_64k scenarioA [0x8000] []);
    [reflexivity | discriminate Hruns].
Defined.

(** X15: the node table after a build.  No address occurs twice, and every
    entry sits at an address of the 64K space that is marked as the first
    byte of an instruction. *)
Theorem getFlowGraph_table_keys `{BaseMemory} (this this' : SmartDisassembler)
    (addresses : list Z) (labels : list (Z * string)) :
  Disassembler.getFlowGraph this addresses labels = Some this' →
  NoDup (map fst (nodes (graph this')))
  ∧ ∀ addr r, In (addr, r) (nodes (graph this')) →
      0 <= addr < 0x10000
      ∧ hasFlag (MemoryOps.getAttributeAt (mem (graph this')) addr) MemAttribute.CODE_FIRST
        = true.
Proof.
  intros Hrun. destruct (getFlowGraph_stages _ _ _ _ Hrun) as (g & Hpasses & Hmem & Hnodes).
  destruct (twoPasses_linked _ _ _ _ _ Hpasses) as (([Hnd Htable] & _) & _).
  rewrite Hmem, Hnodes. split; [exact Hnd|].
  intros addr r Hin. destruct (Htable addr r Hin) as [Hflag _].
  split; [|exact Hflag]. apply getAttributeAt_flag in Hflag. apply Hflag.
Qed.

Lemma getFlowGraph_table_keys_witness :
  NoDup (map fst (nodes (graph builtA)))
  ∧ ∀ addr r, In (addr, r) (nodes (graph builtA)) →
      0 <= addr < 0x10000
      ∧ hasFlag (MemoryOps.getAttributeAt (mem (graph builtA)) addr) MemAttribute.CODE_FIRST
        = true.
Proof.
  apply (@getFlowGraph_table_keys BaseMemory_64k scenarioA builtA [0x8000] []).
  unfold builtA, run.
  assert (Hruns : (fun _ => tt) <$> @Disassembler.getFlowGraph BaseMemory_64k scenarioA
                                      [0x8000] [] = Some tt)
    by (vm_compute; reflexivity).
  destruct (@Disassembler.getFlowGraph BaseMemory_64k scenarioA [0x8000] []);
    [reflexivity | discriminate Hruns].
Defined.

(** X16: a build reads the memory image and does not change it.  The bytes
    after the build are the bytes before it, and an address is ASSIGNED after
    the build exactly when it was before. *)
Theorem getFlowGraph_keeps_image `{BaseMemory} (this this' : SmartDisassembler)
    (addresses : list Z) (labels : list (Z * string)) :
  Disassembler.getFlowGraph this addresses labels = Some this' →
  memory (mem (graph this')) = memory (mem (graph this))
  ∧ ∀ k, hasFlag (MemoryOps.getAttributeAt (mem (graph this')) k) MemAttribute.ASSIGNED
         = hasFlag (MemoryOps.getAttributeAt (mem (graph this)) k) MemAttribute.ASSIGNED.
Proof.
  unfold Disassembler.getFlowGraph, getFlowGraph. intros Hrun.
  destruct (buildNodes _ _ addresses labels) as [gm|] eqn:Hnodes; [|discriminate].
  cbn [mbind option_bind] in Hrun.
  destruct (buildLabels _ _ _) as [[g1 b1]|] eqn:Hlabels; [|discriminate].
  cbn [mbind option_bind] in Hrun. injection Hrun as <-. cbn [graph].
  destruct (buildLabels_mem _ _ _ _ _ Hlabels) as (Hmem & _).
  assert (Hsame : sameImage (mem (graph this)) (mem g1)).
  { eapply sameImage_trans; [apply resetAttributeFlag_sameImage|].
    rewrite Hmem. apply (buildNodes_sameImage _ _ _ _ _ Hnodes). }
  destruct Hsame as [Hbytes Hflags]. split; [exact Hbytes|].
  intros k. unfold MemoryOps.getAttributeAt, hasFlag.
  destruct ((k <? 0) || (k >=? 0x10000)); [reflexivity|]. rewrite Hflags. reflexivity.
Qed.

Lemma getFlowGraph_keeps_image_witness :
  memory (mem (graph builtA)) = memory (mem (graph scenarioA))
  ∧ ∀ k, hasFlag (MemoryOps.getAttributeAt (mem (graph builtA)) k) MemAttribute.ASSIGNED
         = hasFlag (MemoryOps.getAttributeAt (mem (graph scenarioA)) k) MemAttribute.ASSIGNED.
Proof.
  apply (@getFlowGraph_keeps_image BaseMemory_64k scenarioA builtA [0x8000] []).
  unfold builtA, run.
  assert (Hruns : (fun _ => tt) <$> @Disassembler.getFlowGraph BaseMemory_64k scenarioA
                                      [0x8000] [] = Some tt)
    by (vm_compute; reflexivity).
  destruct (@Disassembler.getFlowGraph BaseMemory_64k scenarioA [0x8000] []);
    [reflexivity | discriminate Hruns].
Defined.

(** ** createNodes: the start addresses *)

Lemma createNodeForAddress_loop_flagsGrow `{BaseMemory} skip fuel :
  ∀ g queue g',
    createNodeForAddress_loop skip fuel g queue = Some g' → flagsGrow (mem g) (mem g').
Proof.
  induction fuel as [|fuel IH]; intros g queue g' Hrun;
    destruct queue as [|addr64k rest]; cbn [createNodeForAddress_loop] in Hrun;
    try discriminate; try (injection Hrun as <-; apply flagsGrow_refl).
  destruct (NodeMap.get (nodes g) addr64k); [apply (IH _ _ _ Hrun)|].
  destruct (hasFlag _ MemAttribute.FLOW_ANALYZED).
  { destruct (hasFlag _ MemAttribute.CODE_FIRST); apply (IH _ _ _ Hrun). }
  destruct (negb _); [apply (IH _ _ _ Hrun)|].
  destruct (followFlow skip walkFuel (createNodeInMap g addr64k).1 addr64k)
    as [[g1 pushed]|] eqn:Hflow; [|discriminate].
  cbn [mbind option_bind] in Hrun.
  eapply flagsGrow_trans; [|apply (IH _ _ _ Hrun)].
  apply followFlow_facts in Hflow. apply Hflow.
Qed.

Lemma createNodes_loop_flagsGrow `{BaseMemory} skip sorted :
  ∀ g g', createNodes_loop skip g sorted = Some g' → flagsGrow (mem g) (mem g').
Proof.
  induction sorted as [|addr64k rest IH]; intros g g' Hrun; cbn [createNodes_loop] in Hrun.
  { injection Hrun as <-. apply flagsGrow_refl. }
  destruct (hasFlag _ MemAttribute.FLOW_ANALYZED).
  { destruct (negb _); apply (IH _ _ Hrun). }
  destruct (createNodeForAddress skip g addr64k) as [g1|] eqn:Hnode; [|discriminate].
  cbn [mbind option_bind] in Hrun.
  eapply flagsGrow_trans; [|apply (IH _ _ Hrun)].
  apply (createNodeForAddress_loop_flagsGrow _ _ _ _ _ Hnode).
Qed.

Lemma flagsGrow_getAttributeAt m m' address bit :
  flagsGrow m m' →
  hasFlag (MemoryOps.getAttributeAt m address) bit = true →
  hasFlag (MemoryOps.getAttributeAt m' address) bit = true.
Proof.
  intros Hgrow Hflag. apply getAttributeAt_flag in Hflag. apply getAttributeAt_flag.
  split; [apply Hflag | apply Hgrow, Hflag].
Qed.

Lemma first_is_analyzed m address :
  (∀ k, attributeConsistent (memoryAttr m k)) →
  hasFlag (MemoryOps.getAttributeAt m address) MemAttribute.CODE_FIRST = true →
  hasFlag (MemoryOps.getAttributeAt m address) MemAttribute.FLOW_ANALYZED = true.
Proof.
  intros Hcons Hfirst. apply getAttributeAt_flag in Hfirst. destruct Hfirst as [Hrange Hfirst].
  apply getAttributeAt_flag. split; [exact Hrange|].
  destruct (Hcons address) as (_ & Hcode & Himpl). rewrite <- Hcode. apply Himpl, Hfirst.
Qed.

(** The address that [createNodeForAddress] starts from is analysed when it
    returns, unless nothing was loaded there. *)
Lemma createNodeForAddress_analyzed `{BaseMemory} skip g address64k g' :
  createNodeForAddress skip g address64k = Some g' → discovered g →
  hasFlag (MemoryOps.getAttributeAt (mem g) address64k) MemAttribute.ASSIGNED = true →
  hasFlag (MemoryOps.getAttributeAt (mem g') address64k) MemAttribute.FLOW_ANALYZED = true.
Proof.
  unfold createNodeForAddress, queueFuel. intros Hrun Hg Hassigned.
  destruct (Z.to_nat 0x20002) as [|fuel]; [discriminate|].
  cbn [createNodeForAddress_loop] in Hrun.
  destruct (NodeMap.get (nodes g) address64k) as [r|] eqn:Hget.
  { eapply flagsGrow_getAttributeAt;
      [apply (createNodeForAddress_loop_flagsGrow _ _ _ _ _ Hrun)|].
    destruct Hg as (Hcons & [_ Htable] & _).
    apply (first_is_analyzed _ _ Hcons).
    apply (Htable address64k r), NodeMap_get_In, Hget. }
  destruct (hasFlag _ MemAttribute.FLOW_ANALYZED) eqn:Hflow.
  { destruct (hasFlag _ MemAttribute.CODE_FIRST);
      (eapply flagsGrow_getAttributeAt;
       [apply (createNodeForAddress_loop_flagsGrow _ _ _ _ _ Hrun) | exact Hflow]). }
  rewrite Hassigned in Hrun. cbn [negb] in Hrun.
  destruct (followFlow skip walkFuel (createNodeInMap g address64k).1 address64k)
    as [[g1 pushed]|] eqn:Hfollow; [|discriminate].
  cbn [mbind option_bind] in Hrun.
  eapply flagsGrow_getAttributeAt;
    [apply (createNodeForAddress_loop_flagsGrow _ _ _ _ _ Hrun)|].
  apply followFlow_facts in Hfollow. destruct Hfollow as (_ & _ & _ & _ & Hfirst & Hcons).
  apply first_is_analyzed.
  - apply Hcons. destruct (createNodeInMap_fresh g address64k Hget) as (_ & _ & -> & _).
    apply Hg.
  - apply getAttributeAt_flag. split; [|exact Hfirst].
    apply getAttributeAt_flag in Hassigned. apply Hassigned.
Qed.

Lemma createNodes_loop_analyzed `{BaseMemory} skip sorted :
  ∀ g g' address64k,
    createNodes_loop skip g sorted = Some g' → discovered g →
    In address64k sorted →
    hasFlag (MemoryOps.getAttributeAt (mem g) address64k) MemAttribute.ASSIGNED = true →
    hasFlag (MemoryOps.getAttributeAt (mem g') address64k) MemAttribute.FLOW_ANALYZED = true.
Proof.
  induction sorted as [|addr64k rest IH]; intros g g' a Hrun Hg Hin Hassigned; [contradiction|].
  cbn [createNodes_loop] in Hrun.
  destruct (hasFlag (MemoryOps.getAttributeAt (mem g) addr64k) MemAttribute.FLOW_ANALYZED)
    eqn:Hflow.
  - assert (Hrest : ∃ c, createNodes_loop skip (set_comments c g) rest = Some g').
    { destruct (negb _); [eexists; exact Hrun|].
      exists (comments g). destruct g. exact Hrun. }
    destruct Hrest as [c Hrest].
    destruct Hin as [<-|Hin].
    + eapply flagsGrow_getAttributeAt; [apply (createNodes_loop_flagsGrow _ _ _ _ Hrest)|].
      exact Hflow.
    + apply (IH _ _ _ Hrest); [|exact Hin|exact Hassigned].
      apply (discovered_same g); [reflexivity..|exact Hg].
  - destruct (createNodeForAddress skip g addr64k) as [g1|] eqn:Hnode; [|discriminate].
    cbn [mbind option_bind] in Hrun.
    destruct Hin as [<-|Hin].
    + eapply flagsGrow_getAttributeAt; [apply (createNodes_loop_flagsGrow _ _ _ _ Hrun)|].
      apply (createNodeForAddress_analyzed _ _ _ _ Hnode Hg Hassigned).
    + apply (IH _ _ _ Hrun); [|exact Hin|].
      * apply (createNodeForAddress_loop_discovered _ _ _ _ _ Hnode Hg).
      * eapply flagsGrow_getAttributeAt; [|exact Hassigned].
        apply (createNodeForAddress_loop_flagsGrow _ _ _ _ _ Hnode).
Qed.

Lemma clearBuild_assigned g address :
  hasFlag (MemoryOps.getAttributeAt (mem (clearBuild g)) address) MemAttribute.ASSIGNED
  = hasFlag (MemoryOps.getAttributeAt (mem g) address) MemAttribute.ASSIGNED.
Proof.
  destruct (resetAttributeFlag_sameImage (mem g)) as [_ Hflags].
  unfold MemoryOps.getAttributeAt, hasFlag.
  destruct ((address <? 0) || (address >=? 0x10000)); [reflexivity|].
  cbn [mem clearBuild set_mem]. rewrite Hflags. reflexivity.
Qed.

(** X17: every start address in loaded memory is disassembled.  When a
    build has returned, each of the given addresses that is ASSIGNED is
    marked as analysed code. *)
Theorem getFlowGraph_analyzes_start_addresses `{BaseMemory} (this this' : SmartDisassembler)
    (addresses : list Z) (labels : list (Z * string)) (address64k : Z) :
  Disassembler.getFlowGraph this addresses labels = Some this' →
  In address64k addresses →
  hasFlag (MemoryOps.getAttributeAt (mem (graph this)) address64k) MemAttribute.ASSIGNED
    = true →
  hasFlag (MemoryOps.getAttributeAt (mem (graph this')) address64k) MemAttribute.FLOW_ANALYZED
    = true
  ∧ hasFlag (MemoryOps.getAttributeAt (mem (graph this')) address64k) MemAttribute.CODE = true.
Proof.
  intros Hrun Hin Hassigned.
  assert (Hflow : hasFlag (MemoryOps.getAttributeAt (mem (graph this')) address64k)
                    MemAttribute.FLOW_ANALYZED = true).
  { destruct (getFlowGraph_stages _ _ _ _ Hrun) as (g & Hpasses & Hmem & _).
    rewrite Hmem. unfold twoPasses, createNodes, fillNodes in Hpasses.
    destruct (createNodes_loop _ _ (sortAddresses addresses)) as [g1|] eqn:Hcreate;
      [|discriminate].
    cbn [mbind option_bind] in Hpasses. apply fillNodes_loop_frame in Hpasses.
    destruct Hpasses as [-> _]. rewrite createNodesForLabels_mem.
    apply (createNodes_loop_analyzed _ _ _ _ _ Hcreate (clearBuild_discovered _)).
    - apply list_elem_of_In. unfold sortAddresses. rewrite merge_sort_Permutation.
      apply list_elem_of_In, Hin.
    - rewrite clearBuild_assigned. exact Hassigned. }
  split; [exact Hflow|].
  apply getAttributeAt_flag in Hflow. destruct Hflow as [Hrange Hflow].
  pose proof (getFlowGraph_stages _ _ _ _ Hrun) as (g & Hpasses & Hmem & _).
  destruct (twoPasses_linked _ _ _ _ _ Hpasses) as (_ & Hcons & _).
  apply getAttributeAt_flag. split; [exact Hrange|].
  rewrite Hmem in *. destruct (Hcons address64k) as (_ & -> & _). exact Hflow.
Qed.

Lemma getFlowGraph_analyzes_start_addresses_witness :
  hasFlag (MemoryOps.getAttributeAt (mem (graph builtA)) 0x8000) MemAttribute.FLOW_ANALYZED
    = true
  ∧ hasFlag (MemoryOps.getAttributeAt (mem (graph builtA)) 0x8000) MemAttribute.CODE = true.
Proof.
  apply (@getFlowGraph_analyzes_start_addresses BaseMemory_64k scenarioA builtA [0x8000] []).
  - unfold builtA, run.
    assert (Hruns : (fun _ => tt) <$> @Disassembler.getFlowGraph BaseMemory_64k scenarioA
                                        [0x8000] [] = Some tt)
      by (vm_compute; reflexivity).
    destruct (@Disassembler.getFlowGraph BaseMemory_64k scenarioA [0x8000] []);
      [reflexivity | discriminate Hruns].
  - left. reflexivity.
  - vm_compute. reflexivity.
Defined.

(** ** Start addresses outside the loaded memory *)

Lemma clearBuild_flag g address bit :
  Z.land MemAttribute.ASSIGNED bit = 0 →
  hasFlag (MemoryOps.getAttributeAt (mem (clearBuild g)) address) bit = false.
Proof.
  intros Hbit. unfold MemoryOps.getAttributeAt.
  destruct ((address <? 0) || (address >=? 0x10000)); [reflexivity|].
  cbn. unfold hasFlag. rewrite Z.lnot_involutive, <- Z.land_assoc, Hbit, Z.land_0_r.
  reflexivity.
Qed.

Lemma createNodes_loop_unassigned `{BaseMemory} skip g sorted :
  (∀ a, In a sorted →
        hasFlag (MemoryOps.getAttributeAt (mem (clearBuild g)) a) MemAttribute.ASSIGNED
        = false) →
  createNodes_loop skip (clearBuild g) sorted = Some (clearBuild g).
Proof.
  induction sorted as [|addr64k rest IH]; intros Hun; cbn [createNodes_loop]; [reflexivity|].
  rewrite (clearBuild_flag g addr64k MemAttribute.FLOW_ANALYZED) by reflexivity.
  unfold createNodeForAddress, queueFuel.
  destruct (Z.to_nat 0x20002) as [|fuel] eqn:Hfuel; [discriminate|].
  cbn [createNodeForAddress_loop].
  change (NodeMap.get (nodes (clearBuild g)) addr64k) with (@None NodeRef).
  rewrite (clearBuild_flag g addr64k MemAttribute.FLOW_ANALYZED) by reflexivity.
  rewrite (Hun addr64k) by (left; reflexivity). cbn [negb].
  destruct fuel; cbn [createNodeForAddress_loop mbind option_bind];
    apply IH; intros a Ha; apply Hun; right; exact Ha.
Qed.

(** X26: start addresses outside the loaded memory are ignored.  When
    none of the start addresses is ASSIGNED, [createNodes] returns and
    leaves the reset state as it is: no node, no attribute and no comment is
    made for them. *)
Theorem createNodes_ignores_unassigned `{BaseMemory} (skip : gmap Z Z) (g0 : FlowGraph)
    (addresses : list Z) :
  (∀ a, In a addresses →
        hasFlag (MemoryOps.getAttributeAt (mem g0) a) MemAttribute.ASSIGNED = false) →
  createNodes skip (clearBuild g0) addresses = Some (clearBuild g0).
Proof.
  intros Hun. unfold createNodes. apply createNodes_loop_unassigned.
  intros a Ha. rewrite clearBuild_assigned. apply Hun.
  apply list_elem_of_In. apply list_elem_of_In in Ha.
  unfold sortAddresses in Ha. rewrite merge_sort_Permutation in Ha. exact Ha.
Qed.

Lemma createNodes_ignores_unassigned_witness :
  @createNodes BaseMemory_64k ∅ (clearBuild (graph scenarioA)) [0x4000; 0x9000]
  = Some (clearBuild (graph scenarioA)).
Proof.
  apply (@createNodes_ignores_unassigned BaseMemory_64k ∅ (graph scenarioA) [0x4000; 0x9000]).
  intros a [<-|[<-|[]]]; vm_compute; reflexivity.
Defined.

(** ** The labels of the label list *)

Lemma createNodesForLabels_otherLabels labels a :
  ∀ g, ¬ In a (map fst labels) →
       otherLabels (createNodesForLabels g labels) !! a = otherLabels g !! a.
Proof.
  induction labels as [|[addr64k label] rest IH]; intros g Hnotin; cbn [createNodesForLabels];
    [reflexivity|].
  cbn [map fst] in Hnotin.
  assert (Hne : addr64k ≠ a) by (intros ->; apply Hnotin; left; reflexivity).
  assert (Hrest : ¬ In a (map fst rest)) by (intros Hin; apply Hnotin; right; exact Hin).
  destruct (hasFlag _ MemAttribute.CODE_FIRST).
  - destruct (NodeMap.get (nodes g) addr64k); [|unfold createNodeInMap]; cbn beta iota zeta;
      rewrite (IH _ Hrest); reflexivity.
  - rewrite (IH _ Hrest). cbn [otherLabels set_otherLabels]. apply lookup_insert_ne, Hne.
Qed.

Lemma createNodesForLabels_data_label labels a l :
  ∀ g, NoDup (map fst labels) → In (a, l) labels →
       hasFlag (MemoryOps.getAttributeAt (mem g) a) MemAttribute.CODE_FIRST = false →
       otherLabels (createNodesForLabels g labels) !! a = Some l.
Proof.
  induction labels as [|[addr64k label] rest IH]; intros g Hnd Hin Hfirst; [contradiction|].
  cbn [map fst] in Hnd. apply NoDup_cons in Hnd. destruct Hnd as [Hnotin Hnd].
  cbn [createNodesForLabels]. destruct Hin as [[= -> ->]|Hin].
  - rewrite Hfirst. rewrite createNodesForLabels_otherLabels.
    + cbn [otherLabels set_otherLabels]. apply lookup_insert_eq.
    + intros Hin. apply Hnotin, list_elem_of_In, Hin.
  - destruct (hasFlag (MemoryOps.getAttributeAt (mem g) addr64k) MemAttribute.CODE_FIRST).
    + destruct (NodeMap.get (nodes g) addr64k); [|unfold createNodeInMap]; cbn beta iota zeta;
        apply (IH _ Hnd Hin); exact Hfirst.
    + apply (IH _ Hnd Hin). exact Hfirst.
Qed.

Lemma fillNodes_loop_heads `{BaseMemory} skip entries :
  ∀ g g', fillNodes_loop skip g entries = Some g' →
    otherLabels g' = otherLabels g
    ∧ ∀ r n, store g !! r = Some n →
        ∃ n', store g' !! r = Some n'
              ∧ AsmNode.start n' = AsmNode.start n ∧ AsmNode.label n' = AsmNode.label n.
Proof.
  induction entries as [|[a node] rest IH]; intros g g' Hrun; cbn [fillNodes_loop] in Hrun.
  { injection Hrun as <-. split; [reflexivity|]. eauto. }
  destruct (fillNode skip g node) as [g1|] eqn:Hfill; [|discriminate].
  cbn [mbind option_bind] in Hrun. destruct (IH _ _ Hrun) as [Hother Hkeep].
  destruct (fillNode_facts _ _ _ _ Hfill) as ((_ & _ & Hother1) & Hkeep1 & _).
  split; [congruence|]. intros r n Hn.
  destruct (Hkeep1 r n Hn) as (n1 & Hn1 & Hstart1 & Hlabel1 & _).
  destruct (Hkeep r n1 Hn1) as (n' & Hn' & Hstart' & Hlabel').
  exists n'. split; [exact Hn'|]. split; congruence.
Qed.

Lemma knownLabel_truthy funcGetLabel g addr64k label :
  otherLabels g !! addr64k = Some label → label ≠ "" →
  JS.truthy (knownLabel funcGetLabel g addr64k) = true.
Proof.
  intros Hother Hlabel. unfold knownLabel. cbv zeta.
  match goal with
  | |- JS.truthy (if JS.truthy ?x then _ else _) = true => destruct (JS.truthy x) eqn:Hx
  end; [exact Hx|].
  rewrite Hother. cbn [JS.truthy]. apply negb_true_iff, String.eqb_neq, Hlabel.
Qed.

Lemma assignOpcodeReferenceLabel_keeps funcGetLabel blocks g addr64k g' a label :
  assignOpcodeReferenceLabel funcGetLabel blocks g addr64k = Some g' →
  otherLabels g !! a = Some label → label ≠ "" →
  otherLabels g' !! a = Some label.
Proof.
  unfold assignOpcodeReferenceLabel. intros Hrun Hother Hlabel.
  destruct (JS.truthy (knownLabel funcGetLabel g addr64k)) eqn:Hknown.
  { injection Hrun as <-. exact Hother. }
  assert (Hne : addr64k ≠ a).
  { intros ->. rewrite (knownLabel_truthy _ _ _ _ Hother Hlabel) in Hknown. discriminate. }
  split_run Hrun; try discriminate; injection Hrun as <-;
    cbn [otherLabels set_otherLabels]; rewrite lookup_insert_ne by exact Hne; exact Hother.
Qed.

Lemma assignOpcodeReferenceLabels_node_keeps funcGetLabel blocks refs a label :
  ∀ g g', assignOpcodeReferenceLabels_node funcGetLabel blocks g refs = Some g' →
    otherLabels g !! a = Some label → label ≠ "" → otherLabels g' !! a = Some label.
Proof.
  induction refs as [|addr64k rest IH]; intros g g' Hrun Hother Hlabel;
    cbn [assignOpcodeReferenceLabels_node] in Hrun.
  { injection Hrun as <-. exact Hother. }
  destruct (assignOpcodeReferenceLabel funcGetLabel blocks g addr64k) as [g1|] eqn:Hone;
    [|discriminate].
  cbn [mbind option_bind] in Hrun. apply (IH _ _ Hrun); [|exact Hlabel].
  apply (assignOpcodeReferenceLabel_keeps _ _ _ _ _ _ _ Hone Hother Hlabel).
Qed.

Lemma assignOpcodeReferenceLabels_loop_keeps funcGetLabel blocks entries a label :
  ∀ g g', assignOpcodeReferenceLabels_loop funcGetLabel blocks g entries = Some g' →
    otherLabels g !! a = Some label → label ≠ "" → otherLabels g' !! a = Some label.
Proof.
  induction entries as [|[k node] rest IH]; intros g g' Hrun Hother Hlabel;
    cbn [assignOpcodeReferenceLabels_loop] in Hrun.
  { injection Hrun as <-. exact Hother. }
  destruct (store g !! node) as [n|]; [|discriminate]. cbn [mbind option_bind] in Hrun.
  destruct (assignOpcodeReferenceLabels_node funcGetLabel blocks g (AsmNode.dataReferences n))
    as [g1|] eqn:Hnode; [|discriminate].
  cbn [mbind option_bind] in Hrun. apply (IH _ _ Hrun); [|exact Hlabel].
  apply (assignOpcodeReferenceLabels_node_keeps _ _ _ _ _ _ _ Hnode Hother Hlabel).
Qed.

(** X18: a label for an address that is not the first byte of an
    instruction is kept.  When a build has returned, a non-empty label of the
    label list whose address occurs once in the list and is not marked
    CODE_FIRST is the entry of [otherLabels] for that address. *)
Theorem getFlowGraph_keeps_data_labels `{BaseMemory} (this this' : SmartDisassembler)
    (addresses : list Z) (labels : list (Z * string)) (addr64k : Z) (label : string) :
  Disassembler.getFlowGraph this addresses labels = Some this' →
  NoDup (map fst labels) → In (addr64k, label) labels → label ≠ "" →
  hasFlag (MemoryOps.getAttributeAt (mem (graph this')) addr64k) MemAttribute.CODE_FIRST
    = false →
  otherLabels (graph this') !! addr64k = Some label.
Proof.
  unfold Disassembler.getFlowGraph, getFlowGraph, buildNodes, fillNodes, buildLabels,
    assignNodeLabels, assignOpcodeReferenceLabels.
  intros Hrun Hnd Hin Hlabel Hfirst.
  destruct (createNodes _ _ addresses) as [g1|]; [|discriminate].
  cbn [mbind option_bind] in Hrun.
  destruct (fillNodes_loop _ (createNodesForLabels g1 labels) _) as [g3|] eqn:Hfill;
    [|discriminate].
  cbn [mbind option_bind] in Hrun.
  destruct (partitionBlocks _ _) as [bp|]; [|discriminate].
  cbn [mbind option_bind] in Hrun.
  destruct (assignNodeLabels_loop bp (markSubroutines g3) _) as [g4|] eqn:Hnames;
    [|discriminate].
  cbn [mbind option_bind] in Hrun.
  destruct (assignOpcodeReferenceLabels_loop _ bp g4 _) as [g5|] eqn:Hrefs; [|discriminate].
  cbn [mbind option_bind] in Hrun. injection Hrun as <-. cbn [graph] in *.
  destruct (fillNodes_loop_frame _ _ _ _ Hfill) as [Hmem3 _].
  destruct (fillNodes_loop_heads _ _ _ _ Hfill) as [Hother3 _].
  apply assignNodeLabels_loop_frame in Hnames. destruct Hnames as [(Hmem4 & _ & Hother4 & _) _].
  destruct (assignOpcodeReferenceLabels_loop_frame _ _ _ _ _ Hrefs) as (Hmem5 & _).
  apply (assignOpcodeReferenceLabels_loop_keeps _ _ _ _ _ _ _ Hrefs); [|exact Hlabel].
  rewrite Hother4. cbn [otherLabels markSubroutines set_store]. rewrite Hother3.
  apply createNodesForLabels_data_label; [exact Hnd | exact Hin|].
  rewrite <- (createNodesForLabels_mem labels g1), <- Hmem3.
  rewrite Hmem5, Hmem4 in Hfirst. exact Hfirst.
Qed.

Lemma getFlowGraph_keeps_data_labels_witness :
  otherLabels (graph builtNamedA) !! 0x9000 = Some "VARS".
Proof.
  apply (@getFlowGraph_keeps_data_labels BaseMemory_64k scenarioA builtNamedA [0x8000]
           scenarioLabels).
  - unfold builtNamedA.
    assert (Hruns : (fun _ => tt) <$> @Disassembler.getFlowGraph BaseMemory_64k scenarioA
                                        [0x8000] scenarioLabels = Some tt)
      by (vm_compute; reflexivity).
    destruct (@Disassembler.getFlowGraph BaseMemory_64k scenarioA [0x8000] scenarioLabels);
      [reflexivity | discriminate Hruns].
  - apply (bool_decide_unpack _). vm_compute. exact I.
  - right. left. reflexivity.
  - discriminate.
  - vm_compute. reflexivity.
Defined.

Lemma createNodesForLabels_keeps_label labels a r n :
  ∀ g, discovered g → ¬ In a (map fst labels) →
       In (a, r) (nodes g) → store g !! r = Some n →
       In (a, r) (nodes (createNodesForLabels g labels))
       ∧ ∃ n', store (createNodesForLabels g labels) !! r = Some n'
               ∧ AsmNode.label n' = AsmNode.label n.
Proof.
  revert n. induction labels as [|[addr64k label] rest IH]; intros n g Hg Hnotin Hin Hn;
    cbn [createNodesForLabels]; [eauto|].
  cbn [map fst] in Hnotin.
  assert (Hne : addr64k ≠ a) by (intros ->; apply Hnotin; left; reflexivity).
  assert (Hrest : ¬ In a (map fst rest)) by (intros Hin'; apply Hnotin; right; exact Hin').
  destruct (hasFlag _ MemAttribute.CODE_FIRST) eqn:Hfirst.
  2:{ apply (IH n); assumption. }
  pose proof Hg as (_ & [_ Htable] & _).
  destruct (Htable a r Hin) as (_ & n0 & Hn0 & Hstart0).
  destruct (NodeMap.get (nodes g) addr64k) as [node|] eqn:Hget.
  - apply (IH n); [apply discovered_set_label, Hg | exact Hrest | exact Hin|].
    rewrite modify_lookup_ne; [exact Hn|]. intros ->.
    destruct (Htable addr64k r (NodeMap_get_In _ _ _ Hget)) as (_ & n1 & Hn1 & Hstart1).
    congruence.
  - destruct (createNodeInMap_fresh g addr64k Hget) as (Hnodes1 & Hstore1 & Hmem1 & Hnode1).
    destruct (createNodeInMap g addr64k) as [g1 node]. cbn [fst snd] in *.
    apply (IH n).
    + apply discovered_set_label.
      apply (discovered_extend g _ addr64k Hg Hget Hnodes1 Hstore1).
      * rewrite Hmem1. apply flagsGrow_refl.
      * rewrite Hmem1. apply Hg.
      * rewrite Hmem1. exact Hfirst.
    + exact Hrest.
    + cbn [nodes modify set_store]. rewrite Hnodes1. apply in_or_app. left. exact Hin.
    + rewrite modify_lookup_ne.
      * rewrite Hstore1. apply lookup_app_l_Some, Hn.
      * intros ->. apply lookup_lt_Some in Hn. lia.
Qed.

Lemma createNodesForLabels_code_label labels a l :
  ∀ g, discovered g → NoDup (map fst labels) → In (a, l) labels →
       hasFlag (MemoryOps.getAttributeAt (mem g) a) MemAttribute.CODE_FIRST = true →
       ∃ r n, In (a, r) (nodes (createNodesForLabels g labels))
              ∧ store (createNodesForLabels g labels) !! r = Some n
              ∧ AsmNode.label n = Some l.
Proof.
  induction labels as [|[addr64k label] rest IH]; intros g Hg Hnd Hin Hfirst; [contradiction|].
  cbn [map fst] in Hnd. apply NoDup_cons in Hnd. destruct Hnd as [Hnotin Hnd].
  assert (Hrest : ¬ In addr64k (map fst rest)).
  { intros Hin'. apply Hnotin, list_elem_of_In, Hin'. }
  cbn [createNodesForLabels]. pose proof Hg as (_ & [_ Htable] & _).
  destruct Hin as [[= -> ->]|Hin].
  - rewrite Hfirst. destruct (NodeMap.get (nodes g) a) as [node|] eqn:Hget.
    + destruct (Htable a node (NodeMap_get_In _ _ _ Hget)) as (_ & n0 & Hn0 & _).
      destruct (createNodesForLabels_keeps_label rest a node (AsmNode.set_label l n0)
                  (modify node (AsmNode.set_label l) g)) as (Hin' & n' & Hn' & Hlabel');
        [apply discovered_set_label, Hg | exact Hrest | apply NodeMap_get_In, Hget
        | rewrite modify_lookup_eq, Hn0; reflexivity|].
      exists node, n'. split; [exact Hin'|]. split; [exact Hn' | exact Hlabel'].
    + destruct (createNodeInMap_fresh g a Hget) as (Hnodes1 & Hstore1 & Hmem1 & Hnode1).
      destruct (createNodeInMap g a) as [g1 node]. cbn [fst snd] in *.
      destruct (createNodesForLabels_keeps_label rest a node
                  (AsmNode.set_label l (AsmNode.set_start a AsmNode.new))
                  (modify node (AsmNode.set_label l) g1)) as (Hin' & n' & Hn' & Hlabel').
      * apply discovered_set_label.
        apply (discovered_extend g _ a Hg Hget Hnodes1 Hstore1).
        -- rewrite Hmem1. apply flagsGrow_refl.
        -- rewrite Hmem1. apply Hg.
        -- rewrite Hmem1. exact Hfirst.
      * exact Hrest.
      * cbn [nodes modify set_store]. rewrite Hnodes1, Hnode1. apply in_or_app.
        right. left. reflexivity.
      * rewrite modify_lookup_eq, Hstore1, Hnode1, list_lookup_middle by reflexivity.
        reflexivity.
      * exists node, n'. split; [exact Hin'|]. split; [exact Hn' | exact Hlabel'].
  - destruct (hasFlag (MemoryOps.getAttributeAt (mem g) addr64k) MemAttribute.CODE_FIRST)
      eqn:Hfirst'.
    2:{ apply (IH (set_otherLabels (<[addr64k:=label]> (otherLabels g)) g)); assumption. }
    destruct (NodeMap.get (nodes g) addr64k) as [node|] eqn:Hget.
    + apply (IH _ (discovered_set_label _ _ _ Hg) Hnd Hin). exact Hfirst.
    + destruct (createNodeInMap_fresh g addr64k Hget) as (Hnodes1 & Hstore1 & Hmem1 & Hnode1).
      destruct (createNodeInMap g addr64k) as [g1 node]. cbn [fst snd] in *.
      apply (IH (modify node (AsmNode.set_label label) g1)); [|exact Hnd|exact Hin|].
      * apply discovered_set_label.
        apply (discovered_extend g _ addr64k Hg Hget Hnodes1 Hstore1).
        -- rewrite Hmem1. apply flagsGrow_refl.
        -- rewrite Hmem1. apply Hg.
        -- rewrite Hmem1. exact Hfirst'.
      * cbn [mem modify set_store]. rewrite Hmem1. exact Hfirst.
Qed.

(** X19: a label for the first byte of an instruction names the node at
    that address.  After the two passes, a label of the label list whose
    address occurs once in the list and is marked CODE_FIRST is the label of
    the node that the table holds for that address. *)
Theorem twoPasses_code_labels `{BaseMemory} (skip : gmap Z Z) (g0 g : FlowGraph)
    (addresses : list Z) (labels : list (Z * string)) (addr64k : Z) (label : string) :
  twoPasses skip (clearBuild g0) addresses labels = Some g →
  NoDup (map fst labels) → In (addr64k, label) labels →
  hasFlag (MemoryOps.getAttributeAt (mem g) addr64k) MemAttribute.CODE_FIRST = true →
  ∃ r n, In (addr64k, r) (nodes g) ∧ store g !! r = Some n ∧ AsmNode.label n = Some label.
Proof.
  unfold twoPasses, fillNodes. intros Hrun Hnd Hin Hfirst.
  destruct (createNodes skip (clearBuild g0) addresses) as [g1|] eqn:Hcreate; [|discriminate].
  cbn [mbind option_bind] in Hrun.
  destruct (fillNodes_loop_frame _ _ _ _ Hrun) as [Hmem Hnodes].
  destruct (fillNodes_loop_heads _ _ _ _ Hrun) as [_ Hkeep].
  destruct (createNodesForLabels_code_label labels addr64k label g1) as (r & n & Hr & Hn & Hl).
  - apply (createNodes_loop_discovered _ _ _ _ Hcreate), clearBuild_discovered.
  - exact Hnd.
  - exact Hin.
  - rewrite <- (createNodesForLabels_mem labels g1), <- Hmem. exact Hfirst.
  - destruct (Hkeep r n Hn) as (n' & Hn' & _ & Hlabel').
    exists r, n'. rewrite Hnodes. split; [exact Hr|]. split; [exact Hn' | congruence].
Qed.

Lemma twoPasses_code_labels_witness :
  ∃ r n, In (0x8010, r) (nodes passesNamedA) ∧ store passesNamedA !! r = Some n
         ∧ AsmNode.label n = Some "PRINT".
Proof.
  apply (@twoPasses_code_labels BaseMemory_64k ∅ (graph scenarioA) passesNamedA [0x8000]
           scenarioLabels).
  - unfold passesNamedA.
    assert (Hruns : (fun _ => tt) <$> @twoPasses BaseMemory_64k ∅
                                        (clearBuild (graph scenarioA)) [0x8000] scenarioLabels
                    = Some tt)
      by (vm_compute; reflexivity).
    destruct (@twoPasses BaseMemory_64k ∅ (clearBuild (graph scenarioA)) [0x8000]
                scenarioLabels); [reflexivity | discriminate Hruns].
  - apply (bool_decide_unpack _). vm_compute. exact I.
  - left. reflexivity.
  - vm_compute. reflexivity.
Defined.

(** ** Pass 2: the code and the edges of a node *)

Lemma disassembly_app `{BaseMemory} memory skip l l' :
  ∀ a b c, disassembly memory skip a l b → disassembly memory skip b l' c →
           disassembly memory skip a (l ++ l') c.
Proof.
  induction l as [|[opcode|data] l IH]; intros a b c Hl Hl'; cbn [disassembly app] in *.
  - subst b. exact Hl'.
  - destruct Hl as [Hop Hl]. split; [exact Hop|]. apply (IH _ _ _ Hl Hl').
  - destruct Hl as (s & Hs & Hdata & Hl). exists s.
    split; [exact Hs|]. split; [exact Hdata|]. apply (IH _ _ _ Hl Hl').
Qed.

Lemma keepsStarts_refl st : keepsStarts st st.
Proof. intros r n Hn. exists n. split; [exact Hn | reflexivity]. Qed.

Lemma storeGrows_keepsStarts st st' : storeGrows st st' → keepsStarts st st'.
Proof.
  intros Hgrows r n Hn. destruct (Hgrows r n Hn) as (n' & Hn' & Hstart & _).
  exists n'. split; assumption.
Qed.

Lemma leadsTo_grows g g' l l' addrEnd target :
  keepsStarts (store g) (store g') → (∀ i, In i l → In i l') →
  leadsTo g l addrEnd target → leadsTo g' l' addrEnd target.
Proof.
  intros Hgrows Hincl (n & Hn & Hlead).
  destruct (Hgrows _ _ Hn) as (n' & Hn' & Hstart).
  exists n'. split; [exact Hn'|]. rewrite Hstart.
  destruct Hlead as [Hend|(opcode & Hin & Hbranch & Hcall & Hvalue)]; [left; exact Hend|].
  right. exists opcode. split; [apply Hincl, Hin|]. repeat split; assumption.
Qed.

Lemma calledAt_grows g g' l l' target :
  keepsStarts (store g) (store g') → (∀ i, In i l → In i l') →
  calledAt g l target → calledAt g' l' target.
Proof.
  intros Hgrows Hincl (n & opcode & Hn & Hin & Hbranch & Hcall & Hvalue).
  destruct (Hgrows _ _ Hn) as (n' & Hn' & Hstart).
  exists n', opcode. split; [exact Hn'|]. split; [apply Hincl, Hin|].
  rewrite Hstart. repeat split; assumption.
Qed.

Lemma fieldOf_Some {A : Type} (field : AsmNode.t → A) d g r n :
  store g !! r = Some n → fieldOf field d g r = field n.
Proof. intros Hn. unfold fieldOf. rewrite Hn. reflexivity. Qed.

Lemma fieldOf_modify_keep {A : Type} (field : AsmNode.t → A) d target f g r :
  (∀ n, field (f n) = field n) →
  fieldOf field d (modify target f g) r = fieldOf field d g r.
Proof.
  intros Hf. unfold fieldOf, modify. cbn [store set_store].
  destruct (decide (target = r)) as [->|Hne].
  - rewrite list_lookup_alter_eq. destruct (store g !! r); cbn; [apply Hf | reflexivity].
  - rewrite list_lookup_alter_ne by exact Hne. reflexivity.
Qed.

Lemma fieldOf_modify_ne {A : Type} (field : AsmNode.t → A) d target f g r :
  r ≠ target → fieldOf field d (modify target f g) r = fieldOf field d g r.
Proof.
  intros Hne. unfold fieldOf, modify. cbn [store set_store].
  rewrite list_lookup_alter_ne by congruence. reflexivity.
Qed.

Lemma fieldOf_modify_at {A : Type} (field : AsmNode.t → A) d node f g :
  (node < length (store g))%nat →
  ∃ n, store g !! node = Some n ∧ fieldOf field d g node = field n
       ∧ fieldOf field d (modify node f g) node = field (f n).
Proof.
  intros Hnode. apply lookup_lt_is_Some in Hnode. destruct Hnode as [n Hn].
  exists n. split; [exact Hn|]. unfold fieldOf, modify. cbn [store set_store].
  rewrite list_lookup_alter_eq, Hn. split; reflexivity.
Qed.

Lemma fieldOf_app {A : Type} (field : AsmNode.t → A) g n c r :
  fieldOf field (field n) (set_comments c (set_store (store g ++ [n]) g)) r
  = fieldOf field (field n) g r.
Proof.
  unfold fieldOf. cbn [store set_store set_comments].
  destruct (decide (r < length (store g))%nat) as [Hlt|Hge].
  - rewrite lookup_app_l by exact Hlt. reflexivity.
  - rewrite (lookup_ge_None_2 (store g)) by lia.
    destruct (decide (r = length (store g))) as [->|Hne].
    + rewrite list_lookup_middle by reflexivity. reflexivity.
    + rewrite lookup_ge_None_2; [reflexivity|]. rewrite length_app. cbn [length]. lia.
Qed.

Lemma writes_refl node g : writes node [] [] None g g.
Proof.
  split; [reflexivity|]. split; [reflexivity|]. split; [apply storeGrows_refl|].
  intros _. rewrite !app_nil_r. repeat split.
Qed.

Lemma storeGrows_length st st' r :
  storeGrows st st' → (r < length st)%nat → (r < length st')%nat.
Proof.
  intros Hgrows Hr. apply lookup_lt_is_Some in Hr. destruct Hr as [n Hn].
  destruct (Hgrows r n Hn) as (n' & Hn' & _). apply lookup_lt_Some in Hn'. exact Hn'.
Qed.

Lemma writes_trans node new new' targets targets' called called' g g1 g2 :
  writes node new targets called g g1 → writes node new' targets' called' g1 g2 →
  writes node (new ++ new') (targets ++ targets')
    (match called' with Some target => Some target | None => called end) g g2.
Proof.
  intros (Hmem & Hnodes & Hgrows & H1) (Hmem' & Hnodes' & Hgrows' & H2).
  split; [congruence|]. split; [congruence|].
  split; [apply (storeGrows_trans _ _ _ Hgrows Hgrows')|]. intros Hnode.
  destruct (H1 Hnode) as (Hnew & Htargets & Hcalled & Hothers).
  destruct (H2 (storeGrows_length _ _ _ Hgrows Hnode))
    as (Hnew' & Htargets' & Hcalled' & Hothers').
  split; [rewrite Hnew', Hnew, app_assoc; reflexivity|].
  split; [rewrite Htargets', Htargets, app_assoc; reflexivity|].
  split.
  - rewrite Hcalled'. destruct called'; [reflexivity | exact Hcalled].
  - intros r Hr. destruct (Hothers r Hr) as (A1 & A2 & A3).
    destruct (Hothers' r Hr) as (B1 & B2 & B3). repeat split; congruence.
Qed.

Lemma writes_nothing node new targets called g g1 g2 :
  writes node new targets called g g1 → writes node [] [] None g1 g2 →
  writes node new targets called g g2.
Proof.
  intros H1 H2. pose proof (writes_trans _ _ _ _ _ _ _ _ _ _ H1 H2) as H.
  rewrite !app_nil_r in H. exact H.
Qed.

Lemma writes_field node target f g :
  (∀ n, sameHead n (f n) ∧ sameCode n (f n)) → writes node [] [] None g (modify target f g).
Proof.
  intros Hf. split; [reflexivity|]. split; [reflexivity|].
  split; [unfold modify; cbn [store set_store]; apply storeGrows_alter; intros n; apply Hf|].
  intros _. rewrite !app_nil_r.
  assert (Hsame : ∀ r,
            fieldOf AsmNode.instructions [] (modify target f g) r
            = fieldOf AsmNode.instructions [] g r
            ∧ fieldOf AsmNode.branchNodes [] (modify target f g) r
              = fieldOf AsmNode.branchNodes [] g r
            ∧ fieldOf AsmNode.callee None (modify target f g) r
              = fieldOf AsmNode.callee None g r).
  { intros r. repeat split; apply fieldOf_modify_keep; intros n; apply Hf. }
  destruct (Hsame node) as (A1 & A2 & A3).
  split; [exact A1|]. split; [exact A2|]. split; [exact A3|]. intros r _. apply Hsame.
Qed.

Lemma writes_own node f new targets called g :
  (∀ n, sameHead n (f n)
        ∧ AsmNode.instructions (f n) = AsmNode.instructions n ++ new
        ∧ AsmNode.branchNodes (f n) = AsmNode.branchNodes n ++ targets
        ∧ AsmNode.callee (f n)
          = match called with Some target => Some target | None => AsmNode.callee n end) →
  writes node new targets called g (modify node f g).
Proof.
  intros Hf. split; [reflexivity|]. split; [reflexivity|].
  split; [unfold modify; cbn [store set_store]; apply storeGrows_alter; intros n; apply Hf|].
  intros Hnode.
  destruct (fieldOf_modify_at AsmNode.instructions [] node f g Hnode) as (n & Hn & -> & ->).
  rewrite (fieldOf_Some AsmNode.branchNodes [] g node n Hn).
  rewrite (fieldOf_Some AsmNode.callee None g node n Hn).
  destruct (fieldOf_modify_at AsmNode.branchNodes [] node f g Hnode) as (n1 & Hn1 & _ & ->).
  destruct (fieldOf_modify_at AsmNode.callee None node f g Hnode) as (n2 & Hn2 & _ & ->).
  assert (n1 = n) by congruence. assert (n2 = n) by congruence. subst n1 n2.
  destruct (Hf n) as (_ & A1 & A2 & A3).
  split; [exact A1|]. split; [exact A2|]. split; [exact A3|].
  intros r Hr. repeat split; apply fieldOf_modify_ne, Hr.
Qed.

Lemma writes_instruction node i g :
  writes node [i] [] None g (modify node (AsmNode.push_instruction i) g).
Proof. apply writes_own. intros n. cbn. rewrite app_nil_r. repeat split. Qed.

Lemma writes_link node target g :
  writes node [] [target] None g (linkBranch node target g).
Proof.
  unfold linkBranch.
  apply (writes_nothing _ _ _ _ _ (modify node (AsmNode.push_branchNode target) g)).
  - apply writes_own. intros n. cbn. rewrite app_nil_r. repeat split.
  - apply writes_field. intros n. repeat split.
Qed.

Lemma writes_call node target g :
  writes node [] [] (Some target) g
    (modify target (AsmNode.push_caller node) (modify node (AsmNode.set_callee target) g)).
Proof.
  apply (writes_nothing _ _ _ _ _ (modify node (AsmNode.set_callee target) g)).
  - apply writes_own. intros n. cbn. rewrite !app_nil_r. repeat split.
  - apply writes_field. intros n. repeat split.
Qed.

Lemma writes_getNodeForFill node g originAddress targetAddress :
  writes node [] [] None g (getNodeForFill g originAddress targetAddress).1.
Proof.
  destruct (getNodeForFill_cases g originAddress targetAddress) as [(r & _ & ->)|(c & ->)];
    [apply writes_refl|].
  cbn [fst]. split; [reflexivity|]. split; [reflexivity|].
  split; [cbn [store set_store set_comments]; apply storeGrows_app|].
  intros _. rewrite !app_nil_r.
  pose proof (fieldOf_app AsmNode.instructions g
                (AsmNode.set_start targetAddress AsmNode.new) c) as A1.
  pose proof (fieldOf_app AsmNode.branchNodes g
                (AsmNode.set_start targetAddress AsmNode.new) c) as A2.
  pose proof (fieldOf_app AsmNode.callee g
                (AsmNode.set_start targetAddress AsmNode.new) c) as A3.
  cbn [AsmNode.instructions AsmNode.branchNodes AsmNode.callee AsmNode.set_start AsmNode.new]
    in A1, A2, A3.
  split; [apply A1|]. split; [apply A2|]. split; [apply A3|].
  intros r _. split; [apply A1|]. split; [apply A2 | apply A3].
Qed.

Lemma writes_tableWf node new targets called g g' :
  writes node new targets called g g' → tableWf g → tableWf g'.
Proof.
  intros (Hmem & Hnodes & Hgrows & _) [Hnd Htable]. rewrite <- Hnodes in Hnd.
  split; [exact Hnd|]. intros a r Hin. rewrite Hnodes in Hin.
  destruct (Htable a r Hin) as (Hflag & n & Hn & Hstart). rewrite Hmem.
  split; [exact Hflag|]. destruct (Hgrows r n Hn) as (n' & Hn' & Hstart' & _).
  exists n'. split; [exact Hn' | congruence].
Qed.

(** The node of [getNodeForFill] starts at the target address. *)
Lemma getNodeForFill_start g originAddress targetAddress :
  tableWf g →
  ∃ n, store (getNodeForFill g originAddress targetAddress).1
         !! (getNodeForFill g originAddress targetAddress).2 = Some n
       ∧ AsmNode.start n = targetAddress.
Proof.
  intros [_ Htable].
  destruct (getNodeForFill_cases g originAddress targetAddress) as [(r & Hget & ->)|(c & ->)];
    cbn [fst snd].
  - apply NodeMap_get_In in Hget. destruct (Htable _ _ Hget) as (_ & n & Hn & Hstart).
    exists n. split; assumption.
  - eexists. cbn [store set_store set_comments]. split; [apply list_lookup_middle|];
      reflexivity.
Qed.

Lemma fillSkips_writes `{BaseMemory} skip fuel node :
  ∀ g addr64k g' addr',
    fillSkips skip fuel g node addr64k = Some (g', addr') →
    ∃ new, writes node new [] None g g' ∧ disassembly (memory (mem g)) skip addr64k new addr'.
Proof.
  induction fuel as [|fuel IH]; intros g addr64k g' addr' Hrun;
    cbn [fillSkips] in Hrun; [discriminate|].
  destruct (skipTruthy (getSkipForAddress skip addr64k)) as [s|] eqn:Hskip.
  2:{ injection Hrun as <- <-. exists []. split; [apply writes_refl | reflexivity]. }
  apply IH in Hrun. destruct Hrun as (new & Hwrites & Hnew).
  exists (I_SkipPseudoOpcode (getData (memory (mem g)) addr64k s) :: new). split.
  - apply (writes_trans node [_] new [] [] None None _ _ _ (writes_instruction _ _ _) Hwrites).
  - cbn [disassembly]. exists s. split; [exact Hskip|]. split; [reflexivity|]. exact Hnew.
Qed.

Lemma land_address addr64k : 0 <= addr64k < 0x10000 → Z.land addr64k 0xFFFF = addr64k.
Proof.
  intros Hrange. change 0xFFFF with (Z.ones 16). rewrite Z.land_ones by lia.
  apply Z.mod_small. exact Hrange.
Qed.

(** A run of the loop of [fillNode]: what it writes is the disassembly of
    the bytes it walks over, and the edges it makes lead where this code
    leads. *)
Lemma fillNode_loop_writes `{BaseMemory} skip fuel node :
  ∀ g addr64k g' addr',
    tableWf g →
    fillNode_loop skip fuel g node addr64k = Some (g', addr') →
    ∃ new targets called,
      writes node new targets called g g'
      ∧ disassembly (memory (mem g)) skip addr64k new addr'
      ∧ Forall (leadsTo g' new addr') targets
      ∧ ∀ target, called = Some target → calledAt g' new target.
Proof.
  induction fuel as [|fuel IH]; intros g addr64k g' addr' Hwf Hrun;
    cbn [fillNode_loop] in Hrun; [discriminate|].
  destruct (getOpcodeAt (memory (mem g)) addr64k) as [opcode|] eqn:Hop; [|discriminate].
  cbn [mbind option_bind] in Hrun.
  match type of Hrun with
  | context [mbind _ ?x] =>
      destruct x as [g1|] eqn:Hg1; [|discriminate];
      assert (Hwrites1 : writes node [] [] None g g1)
  end.
  { split_run Hg1; try discriminate; injection Hg1 as <-;
      first [ apply writes_refl | apply writes_field; intros n; repeat split ]. }
  cbn [mbind option_bind] in Hrun.
  set (g2 := modify node (AsmNode.push_instruction (I_Opcode opcode)) g1) in Hrun.
  assert (Hwrites2 : writes node [I_Opcode opcode] [] None g g2).
  { apply (writes_trans node [] [_] [] [] None None _ _ _ Hwrites1). apply writes_instruction. }
  pose proof (writes_tableWf _ _ _ _ _ _ Hwrites2 Hwf) as Hwf2.
  assert (Hmem2 : mem g2 = mem g) by apply Hwrites2.
  assert (Hone : ∀ g3, writes node [] [] None g2 g3 →
            ∃ new targets called,
              writes node new targets called g g3
              ∧ disassembly (memory (mem g)) skip addr64k new (addr64k + op_length opcode)
              ∧ Forall (leadsTo g3 new (addr64k + op_length opcode)) targets
              ∧ ∀ target, called = Some target → calledAt g3 new target).
  { intros g3 Hwrites3. exists [I_Opcode opcode], [], None.
    split; [apply (writes_nothing _ _ _ _ _ _ _ Hwrites2 Hwrites3)|].
    split; [cbn [disassembly]; split; [exact Hop | reflexivity]|].
    split; [constructor | discriminate]. }
  clearbody g2. clear Hwrites1 Hg1 g1.
  destruct (hasFlag (flags opcode) OpcodeFlag.BRANCH_ADDRESS) eqn:Hbranch.
  - match type of Hrun with
    | context [mbind _ ?x] =>
        destruct x as [[g3 addr3]|] eqn:Hg3; [|discriminate];
        assert (Hwrites3 : ∃ new targets, writes node new targets None g2 g3
                  ∧ disassembly (memory (mem g)) skip (addr64k + op_length opcode) new addr3
                  ∧ Forall (fun target => ∃ n, store g3 !! target = Some n
                                               ∧ AsmNode.start n = Z.land addr3 0xFFFF)
                           targets)
    end.
    { destruct (negb _).
      2:{ injection Hg3 as <- <-. exists [], [].
          split; [apply writes_refl|]. split; [reflexivity | constructor]. }
      match type of Hg3 with
      | context [mbind _ ?x] => destruct x as [[g4 addr4]|] eqn:Hg4; [|discriminate]
      end.
      cbn [mbind option_bind] in Hg3. apply fillSkips_writes in Hg4.
      rewrite Hmem2 in Hg4. destruct Hg4 as (new & Hwrites4 & Hnew).
      exists new. destruct (addr4 <? 0x10000).
      - rewrite getNodeForFill_pair in Hg3. injection Hg3 as <- <-.
        exists [(getNodeForFill g4 addr64k (Z.land addr4 0xFFFF)).2].
        pose proof (writes_tableWf _ _ _ _ _ _ Hwrites4 Hwf2) as Hwf4.
        destruct (getNodeForFill_start g4 addr64k (Z.land addr4 0xFFFF) Hwf4)
          as (n & Hn & Hstart).
        split; [|split; [exact Hnew|]].
        + pose proof (writes_trans _ _ _ _ _ _ _ _ _ _
                        (writes_getNodeForFill node g4 addr64k (Z.land addr4 0xFFFF))
                        (writes_link node
                           (getNodeForFill g4 addr64k (Z.land addr4 0xFFFF)).2
                           (getNodeForFill g4 addr64k (Z.land addr4 0xFFFF)).1)) as Hlink.
          pose proof (writes_trans _ _ _ _ _ _ _ _ _ _ Hwrites4 Hlink) as Hall.
          cbn [app] in Hall. rewrite app_nil_r in Hall. exact Hall.
        + constructor; [|constructor].
          destruct (linkBranch_storeGrows node
                      (getNodeForFill g4 addr64k (Z.land addr4 0xFFFF)).2
                      (getNodeForFill g4 addr64k (Z.land addr4 0xFFFF)).1 _ _ Hn)
            as (n' & Hn' & Hstart' & _).
          exists n'. split; [exact Hn' | congruence].
      - injection Hg3 as <- <-. exists [].
        split; [exact Hwrites4 | split; [exact Hnew | constructor]]. }
    cbn [mbind option_bind] in Hrun. destruct Hwrites3 as (new & targets & Hwrites3 & Hnew & Hfollow).
    rewrite getNodeForFill_pair in Hrun. injection Hrun as <- <-.
    pose proof (writes_tableWf _ _ _ _ _ _ Hwrites3 Hwf2) as Hwf3.
    destruct (getNodeForFill_start g3 addr64k (value opcode) Hwf3) as (nb & Hnb & Hstartb).
    set (g4 := (getNodeForFill g3 addr64k (value opcode)).1) in *.
    set (branchNode := (getNodeForFill g3 addr64k (value opcode)).2) in *.
    assert (Hwrites4 : writes node [] [] None g3 g4) by apply writes_getNodeForFill.
    set (g5 := if hasFlag (flags opcode) OpcodeFlag.CALL then _ else _).
    set (g6 := if hasFlag (flags opcode) OpcodeFlag.STOP then _ else g5).
    assert (Hwrites6 : writes node [] [] None g5 g6).
    { subst g6. destruct (hasFlag (flags opcode) OpcodeFlag.STOP);
        [apply writes_field; intros n; repeat split | apply writes_refl]. }
    assert (Hwrites5 : writes node [] (if hasFlag (flags opcode) OpcodeFlag.CALL
                                       then [] else [branchNode])
                         (if hasFlag (flags opcode) OpcodeFlag.CALL
                          then Some branchNode else None) g4 g5).
    { subst g5. destruct (hasFlag (flags opcode) OpcodeFlag.CALL);
        [apply writes_call | apply writes_link]. }
    clearbody g5 g6.
    pose proof (writes_nothing _ _ _ _ _ _ _ Hwrites5 Hwrites6) as Hlast.
    assert (Hgrows4 : storeGrows (store g4) (store g6)) by apply Hlast.
    assert (Hgrows3 : storeGrows (store g3) (store g6)).
    { eapply storeGrows_trans; [|exact Hgrows4]. apply Hwrites4. }
    destruct (Hgrows4 _ _ Hnb) as (nb' & Hnb' & Hstartb' & _).
    pose proof (writes_trans _ _ _ _ _ _ _ _ _ _ Hwrites4 Hlast) as Htail.
    pose proof (writes_trans _ _ _ _ _ _ _ _ _ _ Hwrites3 Htail) as Htail3.
    pose proof (writes_trans _ _ _ _ _ _ _ _ _ _ Hwrites2 Htail3) as Hall.
    cbn [app] in Hall. rewrite app_nil_r in Hall.
    eexists _, _, _. split; [exact Hall|].
    split; [cbn [disassembly]; split; [exact Hop | exact Hnew]|].
    split.
    + apply Forall_app. split.
      * eapply Forall_impl; [exact Hfollow|]. cbn beta. intros target (n & Hn & Hstart).
        destruct (Hgrows3 _ _ Hn) as (n' & Hn' & Hstart' & _).
        exists n'. split; [exact Hn'|]. left. congruence.
      * destruct (hasFlag (flags opcode) OpcodeFlag.CALL) eqn:Hcall; constructor;
          [|constructor].
        exists nb'. split; [exact Hnb'|]. right. exists opcode.
        split; [left; reflexivity|]. repeat split; congruence.
    + intros target Hcalled.
      destruct (hasFlag (flags opcode) OpcodeFlag.CALL) eqn:Hcall; [|discriminate].
      injection Hcalled as <-. exists nb', opcode.
      split; [exact Hnb'|]. split; [left; reflexivity|]. repeat split; congruence.
  - set (g3 := if hasFlag (flags opcode) OpcodeFlag.RET then _ else g2) in Hrun.
    assert (Hwrites3 : writes node [] [] None g2 g3).
    { subst g3. destruct (hasFlag (flags opcode) OpcodeFlag.RET);
        [apply writes_field; intros n; repeat split | apply writes_refl]. }
    assert (Hmem3 : mem g3 = mem g) by (destruct Hwrites3 as [-> _]; exact Hmem2).
    pose proof (writes_tableWf _ _ _ _ _ _ Hwrites3 Hwf2) as Hwf3.
    clearbody g3.
    destruct (hasFlag (flags opcode) OpcodeFlag.STOP).
    { injection Hrun as <- <-. apply Hone.
      eapply writes_nothing; [exact Hwrites3 | apply writes_field; intros n; repeat split]. }
    destruct (addr64k + op_length opcode >? 0xFFFF).
    { injection Hrun as <- <-. apply Hone, Hwrites3. }
    destruct (NodeMap.get (nodes g3) (addr64k + op_length opcode)) as [following|] eqn:Hget.
    { injection Hrun as <- <-. exists [I_Opcode opcode], [following], None.
      pose proof (writes_trans _ _ _ _ _ _ _ _ _ _ Hwrites3
                    (writes_link node following g3)) as Hlink.
      split; [apply (writes_trans _ _ _ _ _ _ _ _ _ _ Hwrites2 Hlink)|].
      split; [cbn [disassembly]; split; [exact Hop | reflexivity]|].
      split; [|discriminate]. constructor; [|constructor].
      apply NodeMap_get_In in Hget. destruct Hwf3 as [_ Htable].
      destruct (Htable _ _ Hget) as (Hflag & n & Hn & Hstart).
      apply getAttributeAt_flag in Hflag. destruct Hflag as [Hrange _].
      destruct (linkBranch_storeGrows node following g3 _ _ Hn) as (n' & Hn' & Hstart' & _).
      exists n'. split; [exact Hn'|]. left. rewrite land_address by lia. congruence. }
    destruct (MemoryOps.searchAddrWithAttribute _ _ _ _).
    { injection Hrun as <- <-. apply Hone, Hwrites3. }
    apply (IH _ _ _ _ Hwf3) in Hrun. rewrite Hmem3 in Hrun.
    destruct Hrun as (new & targets & called & Hwrites & Hnew & Hleads & Hcalled).
    pose proof (writes_trans _ _ _ _ _ _ _ _ _ _ Hwrites3 Hwrites) as Htail.
    pose proof (writes_trans _ _ _ _ _ _ _ _ _ _ Hwrites2 Htail) as Hall.
    cbn [app] in Hall.
    exists (I_Opcode opcode :: new), targets, called.
    split; [destruct called; exact Hall|].
    split; [cbn [disassembly]; split; [exact Hop | exact Hnew]|].
    split.
    + eapply Forall_impl; [exact Hleads|]. cbn beta. intros target.
      apply leadsTo_grows; [apply keepsStarts_refl | intros i Hi; right; exact Hi].
    + intros target Htarget. specialize (Hcalled target Htarget). revert Hcalled.
      apply calledAt_grows; [apply keepsStarts_refl | intros i Hi; right; exact Hi].
Qed.

Lemma filledFrom_keeps `{BaseMemory} skip g g' n n' :
  mem g' = mem g → keepsStarts (store g) (store g') → sameHead n n' → sameCode n n' →
  filledFrom skip g n → filledFrom skip g' n'.
Proof.
  intros Hmem Hkeeps (Hstart & Hlength & _) (Hins & Hbranches & Hcallee)
         (Hcode & Hleads & Hcalled).
  unfold filledFrom. rewrite Hmem, Hstart, Hlength, Hins, Hbranches, Hcallee.
  split; [exact Hcode|]. split.
  - intros target Hin. apply (leadsTo_grows g g' _ _ _ _ Hkeeps (fun i Hi => Hi)).
    apply Hleads, Hin.
  - intros target Htarget. apply (calledAt_grows g g' _ _ _ Hkeeps (fun i Hi => Hi)).
    apply Hcalled, Htarget.
Qed.

(** [fillNode(node)] fills a node that has no code yet with the disassembly
    of its bytes and with the edges of this code; the other objects keep
    their code and their outgoing edges. *)
Lemma fillNode_writes `{BaseMemory} skip g node g' :
  tableWf g → fillNode skip g node = Some g' →
  (∀ n, store g !! node = Some n → sameCode AsmNode.new n →
        ∃ n', store g' !! node = Some n' ∧ AsmNode.start n' = AsmNode.start n
              ∧ filledFrom skip g' n')
  ∧ ∀ r n, r ≠ node → store g !! r = Some n →
      ∃ n', store g' !! r = Some n' ∧ sameHead n n' ∧ sameCode n n'.
Proof.
  intros Hwf Hrun. pose proof (fillNode_facts _ _ _ _ Hrun) as ((Hmem & _) & Hheads & _).
  unfold fillNode in Hrun.
  destruct (store g !! node) as [n0|] eqn:Hnode; [|discriminate].
  cbn [mbind option_bind] in Hrun.
  destruct (fillNode_loop skip walkFuel g node (AsmNode.start n0)) as [[g1 addr64k]|] eqn:Hloop;
    [|discriminate].
  cbn [mbind option_bind] in Hrun. injection Hrun as <-.
  apply (fillNode_loop_writes _ _ _ _ _ _ _ Hwf) in Hloop.
  destruct Hloop as (new & targets & called & Hwrites & Hnew & Hleads & Hcalled).
  set (g' := modify node (AsmNode.set_length (addr64k - AsmNode.start n0)) g1) in *.
  assert (K1 : ∀ r, fieldOf AsmNode.instructions [] g' r
                    = fieldOf AsmNode.instructions [] g1 r)
    by (intros r; apply fieldOf_modify_keep; intros n; reflexivity).
  assert (K2 : ∀ r, fieldOf AsmNode.branchNodes [] g' r = fieldOf AsmNode.branchNodes [] g1 r)
    by (intros r; apply fieldOf_modify_keep; intros n; reflexivity).
  assert (K3 : ∀ r, fieldOf AsmNode.callee None g' r = fieldOf AsmNode.callee None g1 r)
    by (intros r; apply fieldOf_modify_keep; intros n; reflexivity).
  assert (Hkeeps : keepsStarts (store g1) (store g')).
  { unfold g', modify. cbn [store set_store]. intros r n Hn.
    destruct (decide (node = r)) as [->|Hne].
    - eexists. rewrite list_lookup_alter_eq, Hn. split; reflexivity.
    - exists n. rewrite list_lookup_alter_ne by exact Hne. split; [exact Hn | reflexivity]. }
  destruct Hwrites as (_ & _ & _ & Hall).
  destruct Hall as (Hmine & Hbranches & Hcallee & Hothers); [eapply lookup_lt_Some, Hnode|].
  rewrite <- K1 in Hmine. rewrite <- K2 in Hbranches. rewrite <- K3 in Hcallee.
  split.
  - intros n Hn (Hins0 & Hbranches0 & Hcallee0). injection Hn as <-.
    destruct (Hheads node n0 Hnode) as (n' & Hn' & Hstart & _).
    exists n'. split; [exact Hn'|]. split; [exact Hstart|].
    unfold fieldOf in Hmine, Hbranches, Hcallee.
    rewrite Hn', Hnode in Hmine, Hbranches, Hcallee. cbn in Hmine, Hbranches, Hcallee.
    rewrite Hins0 in Hmine. rewrite Hbranches0 in Hbranches. rewrite Hcallee0 in Hcallee.
    cbn [AsmNode.new AsmNode.instructions AsmNode.branchNodes AsmNode.callee app]
      in Hmine, Hbranches, Hcallee.
    assert (Hend : AsmNode.start n' + AsmNode.length n' = addr64k).
    { rewrite Hstart. unfold g', modify in Hn'. cbn [store set_store] in Hn'.
      apply store_lookup_alter in Hn'. destruct Hn' as (n1 & _ & ->).
      destruct (decide (node = node)); [cbn; lia | contradiction]. }
    unfold filledFrom. rewrite Hend, Hmine, Hbranches, Hcallee, Hstart, Hmem.
    split; [exact Hnew|]. split.
    + intros target Hin. rewrite Forall_forall in Hleads.
      apply (leadsTo_grows g1 g' _ _ _ _ Hkeeps (fun i Hi => Hi)).
      apply Hleads, list_elem_of_In, Hin.
    + intros target Htarget. apply (calledAt_grows g1 g' _ _ _ Hkeeps (fun i Hi => Hi)).
      apply Hcalled. destruct called; [exact Htarget | discriminate].
  - intros r n Hr Hn. destruct (Hheads r n Hn) as (n' & Hn' & Hstart & Hlabel & Hlen).
    exists n'. split; [exact Hn'|]. split; [repeat split; auto|].
    destruct (Hothers r Hr) as (A1 & A2 & A3).
    rewrite <- K1 in A1. rewrite <- K2 in A2. rewrite <- K3 in A3.
    unfold fieldOf in A1, A2, A3. rewrite Hn', Hn in A1, A2, A3. cbn in A1, A2, A3.
    repeat split; assumption.
Qed.

Lemma fillNodes_loop_others `{BaseMemory} skip entries :
  ∀ g g' r n, linked g → fillNodes_loop skip g entries = Some g' →
    ¬ In r (map snd entries) → store g !! r = Some n →
    ∃ n', store g' !! r = Some n' ∧ sameHead n n' ∧ sameCode n n'.
Proof.
  induction entries as [|[a node] rest IH]; intros g g' r n Hlinked Hrun Hr Hn;
    cbn [fillNodes_loop] in Hrun.
  - injection Hrun as <-. exists n. split; [exact Hn|]. repeat split.
  - destruct (fillNode skip g node) as [g1|] eqn:Hfill; [|discriminate].
    cbn [mbind option_bind] in Hrun. cbn [map snd] in Hr.
    destruct (fillNode_writes _ _ _ _ (proj1 Hlinked) Hfill) as [_ Hothers].
    destruct (Hothers r n) as (n1 & Hn1 & (A1 & A2 & A3) & (B1 & B2 & B3));
      [intros ->; apply Hr; left; reflexivity | exact Hn|].
    destruct (IH g1 g' r n1 (fillNode_linked _ _ _ _ Hfill Hlinked) Hrun)
      as (n' & Hn' & (C1 & C2 & C3) & (D1 & D2 & D3));
      [intros Hin; apply Hr; right; exact Hin | exact Hn1|].
    exists n'. split; [exact Hn'|]. repeat split; congruence.
Qed.

Lemma fillNodes_loop_filled `{BaseMemory} skip entries :
  ∀ g g', linked g → fillNodes_loop skip g entries = Some g' →
    NoDup (map snd entries) →
    (∀ a r, In (a, r) entries →
            ∃ n, store g !! r = Some n ∧ AsmNode.start n = a ∧ sameCode AsmNode.new n) →
    ∀ a r, In (a, r) entries →
      ∃ n', store g' !! r = Some n' ∧ AsmNode.start n' = a ∧ filledFrom skip g' n'.
Proof.
  induction entries as [|[a0 node] rest IH]; intros g g' Hlinked Hrun Hnd Hnew a r Hin;
    cbn [fillNodes_loop] in Hrun; [destruct Hin|].
  destruct (fillNode skip g node) as [g1|] eqn:Hfill; [|discriminate].
  cbn [mbind option_bind] in Hrun. cbn [map snd] in Hnd. apply NoDup_cons in Hnd.
  destruct Hnd as [Hnode Hnd]. rewrite list_elem_of_In in Hnode.
  destruct (fillNode_writes _ _ _ _ (proj1 Hlinked) Hfill) as [Hmine Hothers].
  pose proof (fillNode_linked _ _ _ _ Hfill Hlinked) as Hlinked1.
  destruct Hin as [[= <- <-]|Hin].
  - destruct (Hnew a0 node) as (n0 & Hn0 & Hstart0 & Hblank); [left; reflexivity|].
    destruct (Hmine n0 Hn0 Hblank) as (n1 & Hn1 & Hstart1 & Hfilled).
    destruct (fillNodes_loop_others _ _ _ _ _ _ Hlinked1 Hrun Hnode Hn1)
      as (n' & Hn' & Hhead & Hcode).
    exists n'. split; [exact Hn'|]. split; [destruct Hhead as [-> _]; congruence|].
    destruct (fillNodes_loop_linked _ _ _ _ Hrun Hlinked1) as (_ & _ & Hmem & _).
    apply (filledFrom_keeps skip g1 g' n1 n' Hmem); [|exact Hhead | exact Hcode | exact Hfilled].
    intros x nx Hx.
    destruct (proj2 (fillNodes_loop_heads _ _ _ _ Hrun) x nx Hx) as (nx' & Hnx' & Hstart & _).
    exists nx'. split; assumption.
  - apply (IH g1 g' Hlinked1 Hrun Hnd); [|exact Hin].
    intros a' r' Hin'. destruct (Hnew a' r') as (n & Hn & Hstart & B1 & B2 & B3);
      [right; exact Hin'|].
    destruct (Hothers r' n) as (n1 & Hn1 & (A1 & _) & (C1 & C2 & C3)); [|exact Hn|].
    { intros ->. apply Hnode. apply (in_map snd) in Hin'. exact Hin'. }
    exists n1. split; [exact Hn1|]. split; [congruence|]. repeat split; congruence.
Qed.

Lemma twoPasses_filled `{BaseMemory} skip g0 g addresses labels :
  twoPasses skip (clearBuild g0) addresses labels = Some g →
  ∀ addr r, In (addr, r) (nodes g) →
    ∃ n, store g !! r = Some n ∧ AsmNode.start n = addr ∧ filledFrom skip g n.
Proof.
  intros Hrun. unfold twoPasses in Hrun.
  destruct (createNodes skip (clearBuild g0) addresses) as [g1|] eqn:Hcreate; [|discriminate].
  cbn [mbind option_bind] in Hrun.
  pose proof (pass1_discovered _ _ _ labels _ Hcreate) as Hdiscovered.
  pose proof (discovered_linked _ Hdiscovered) as Hlinked.
  destruct Hdiscovered as (_ & Hwf & Hunfilled & _).
  unfold fillNodes in Hrun.
  destruct (fillNodes_loop_linked _ _ _ _ Hrun Hlinked) as (_ & Hnodes & _).
  rewrite Hnodes. apply (fillNodes_loop_filled _ _ _ _ Hlinked Hrun).
  - destruct Hwf as [Hnd Htable].
    apply (NoDup_refs _ (fun r => AsmNode.start <$> store (createNodesForLabels g1 labels) !! r)
             Hnd).
    intros a r Hin. destruct (Htable a r Hin) as (_ & n & -> & <-). reflexivity.
  - intros a r Hin. destruct Hwf as [_ Htable].
    destruct (Htable a r Hin) as (_ & n & Hn & Hstart).
    exists n. split; [exact Hn|]. split; [exact Hstart|].
    rewrite Forall_forall in Hunfilled.
    destruct (Hunfilled n) as [(_ & _ & Hcallee & Hbranches) Hins];
      [eapply list_elem_of_lookup_2; exact Hn|].
    repeat split; assumption.
Qed.

(** X27: after the two passes, the instruction list of every node of the
    table is the disassembly of the node: read from the address of the
    entry, every opcode of the list is the one that is decoded at its
    address, every pseudo opcode holds the bytes of a skip at its address,
    the entries follow each other without a gap, and the last one ends at
    the start plus the length of the node. *)
Theorem twoPasses_disassembly `{BaseMemory} (skip : gmap Z Z) (g0 g : FlowGraph)
    (addresses : list Z) (labels : list (Z * string)) :
  twoPasses skip (clearBuild g0) addresses labels = Some g →
  ∀ addr r, In (addr, r) (nodes g) →
    ∃ n, store g !! r = Some n
         ∧ disassembly (memory (mem g)) skip addr (AsmNode.instructions n)
             (addr + AsmNode.length n).
Proof.
  intros Hrun addr r Hin.
  destruct (twoPasses_filled _ _ _ _ _ Hrun addr r Hin) as (n & Hn & <- & Hcode & _).
  exists n. split; [exact Hn | exact Hcode].
Qed.

Lemma twoPasses_disassembly_witness :
  ∃ n, store passesA !! 0%nat = Some n
       ∧ @disassembly BaseMemory_64k (memory (mem passesA)) ∅ 0x8000 (AsmNode.instructions n)
           (0x8000 + AsmNode.length n).
Proof.
  assert (Hrun : @twoPasses BaseMemory_64k ∅ (clearBuild (graph scenarioA)) [0x8000] []
                 = Some passesA).
  { unfold passesA.
    assert (Hruns : (fun _ => tt) <$> @twoPasses BaseMemory_64k ∅
                                        (clearBuild (graph scenarioA)) [0x8000] [] = Some tt)
      by (vm_compute; reflexivity).
    destruct (@twoPasses BaseMemory_64k ∅ (clearBuild (graph scenarioA)) [0x8000] []);
      [reflexivity | discriminate Hruns]. }
  apply (@twoPasses_disassembly BaseMemory_64k ∅ (graph scenarioA) passesA [0x8000] []
           Hrun 0x8000 0%nat).
  vm_compute. tauto.
Defined.

(** X28: after the two passes, the outgoing edges of every node of the table
    lead where its code leads.  Every branch node starts at the address
    behind the node (reduced to 16 bits), or at the branch address of an
    instruction of the node that is a branch and no call; the callee, if
    there is one, starts at the branch address of a call instruction of the
    node. *)
Theorem twoPasses_edges_lead `{BaseMemory} (skip : gmap Z Z) (g0 g : FlowGraph)
    (addresses : list Z) (labels : list (Z * string)) :
  twoPasses skip (clearBuild g0) addresses labels = Some g →
  ∀ addr r, In (addr, r) (nodes g) →
    ∃ n, store g !! r = Some n
         ∧ (∀ target, In target (AsmNode.branchNodes n) →
              leadsTo g (AsmNode.instructions n) (addr + AsmNode.length n) target)
         ∧ (∀ target, AsmNode.callee n = Some target →
              calledAt g (AsmNode.instructions n) target).
Proof.
  intros Hrun addr r Hin.
  destruct (twoPasses_filled _ _ _ _ _ Hrun addr r Hin) as (n & Hn & <- & _ & Hedges).
  exists n. split; [exact Hn | exact Hedges].
Qed.

Lemma twoPasses_edges_lead_witness :
  ∃ n, store passesA !! 0%nat = Some n
       ∧ (∀ target, In target (AsmNode.branchNodes n) →
            leadsTo passesA (AsmNode.instructions n) (0x8000 + AsmNode.length n) target)
       ∧ (∀ target, AsmNode.callee n = Some target →
            calledAt passesA (AsmNode.instructions n) target).
Proof.
  assert (Hrun : @twoPasses BaseMemory_64k ∅ (clearBuild (graph scenarioA)) [0x8000] []
                 = Some passesA).
  { unfold passesA.
    assert (Hruns : (fun _ => tt) <$> @twoPasses BaseMemory_64k ∅
                                        (clearBuild (graph scenarioA)) [0x8000] [] = Some tt)
      by (vm_compute; reflexivity).
    destruct (@twoPasses BaseMemory_64k ∅ (clearBuild (graph scenarioA)) [0x8000] []);
      [reflexivity | discriminate Hruns]. }
  apply (@twoPasses_edges_lead BaseMemory_64k ∅ (graph scenarioA) passesA [0x8000] []
           Hrun 0x8000 0%nat).
  vm_compute. tauto.
Defined.

(** ** markSubroutines after the two passes *)

Lemma fillStep_idle (T : list NodeRef) node g g' :
  In node T → fillStep node g g' → idleOutside T (store g) → idleOutside T (store g').
Proof.
  intros Hnode Hstep Hidle.
  assert (Hfill : ∀ o t, idleOutside T (store (getNodeForFill g o t).1)).
  { intros o t. destruct (getNodeForFill_cases g o t) as [(r & _ & ->)|(c & ->)];
      [exact Hidle|].
    cbn [fst store set_store set_comments]. intros x n Hx Hout.
    apply lookup_app_Some in Hx. destruct Hx as [Hx|[_ Hx]]; [apply (Hidle x n Hx Hout)|].
    apply list_lookup_singleton_Some in Hx. destruct Hx as [_ <-]. split; reflexivity. }
  assert (Halter : ∀ st target f,
            (∀ n, AsmNode.isSubroutine (f n) = AsmNode.isSubroutine n
                  ∧ AsmNode.branchNodes (f n) = AsmNode.branchNodes n) →
            idleOutside T st → idleOutside T (alter f target st)).
  { intros st target f Hf Hst x n Hx Hout. apply store_lookup_alter in Hx.
    destruct Hx as (n0 & Hn0 & ->). destruct (Hst x n0 Hn0 Hout) as [Hsub Hbranches].
    destruct (decide (x = target)); [|split; assumption].
    destruct (Hf n0) as [-> ->]. split; assumption. }
  assert (Hown : ∀ st f, idleOutside T st → idleOutside T (alter f node st)).
  { intros st f Hst x n Hx Hout. apply store_lookup_alter in Hx.
    destruct Hx as (n0 & Hn0 & ->). destruct (decide (x = node)) as [->|_];
      [contradiction | apply (Hst x n0 Hn0 Hout)]. }
  destruct Hstep as [f Hf|o t|o t]; unfold linkBranch, modify; cbn [store set_store].
  - apply Hown, Hidle.
  - apply Halter; [intros n; split; reflexivity|]. apply Hown, Hfill.
  - apply Halter; [intros n; split; reflexivity|]. apply Hown, Hfill.
Qed.

Lemma fillNode_idle `{BaseMemory} skip (T : list NodeRef) g node g' :
  In node T → fillNode skip g node = Some g' →
  idleOutside T (store g) → idleOutside T (store g').
Proof.
  intros Hnode Hrun Hidle. unfold fillNode in Hrun.
  destruct (store g !! node) as [n0|]; [|discriminate].
  cbn [mbind option_bind] in Hrun.
  destruct (fillNode_loop skip walkFuel g node (AsmNode.start n0)) as [[g1 addr64k]|] eqn:Hloop;
    [|discriminate].
  cbn [mbind option_bind] in Hrun. injection Hrun as <-.
  apply fillNode_loop_steps in Hloop. destruct Hloop as [Hsteps _].
  assert (Hidle1 : idleOutside T (store g1)).
  { clear -Hnode Hsteps Hidle. induction Hsteps as [g|g g1 g2 Hstep _ IH]; [exact Hidle|].
    apply IH. apply (fillStep_idle T node g g1 Hnode Hstep Hidle). }
  unfold modify. cbn [store set_store]. intros x n Hx Hout.
  apply store_lookup_alter in Hx. destruct Hx as (n1 & Hn1 & ->).
  destruct (decide (x = node)) as [->|_]; [contradiction | apply (Hidle1 x n1 Hn1 Hout)].
Qed.

Lemma fillNodes_loop_idle `{BaseMemory} skip (T : list NodeRef) entries :
  ∀ g g', (∀ a r, In (a, r) entries → In r T) →
    fillNodes_loop skip g entries = Some g' →
    idleOutside T (store g) → idleOutside T (store g').
Proof.
  induction entries as [|[a node] rest IH]; intros g g' Hin Hrun Hidle;
    cbn [fillNodes_loop] in Hrun.
  - injection Hrun as <-. exact Hidle.
  - destruct (fillNode skip g node) as [g1|] eqn:Hfill; [|discriminate].
    cbn [mbind option_bind] in Hrun.
    apply (IH g1 g'); [intros a' r Hr; apply (Hin a' r); right; exact Hr | exact Hrun|].
    apply (fillNode_idle skip T g node g1); [apply (Hin a node); left; reflexivity| |];
      assumption.
Qed.

(** After the two passes the objects outside the table are as
    [getNodeForFill] has made them, and every predecessor is a node of the
    table. *)
Lemma twoPasses_placeholders `{BaseMemory} skip g0 addresses labels g :
  twoPasses skip (clearBuild g0) addresses labels = Some g →
  idleOutside (map snd (nodes g)) (store g)
  ∧ predecessorsWithin (map snd (nodes g)) (store g).
Proof.
  intros Hrun.
  destruct (twoPasses_linked _ _ _ _ _ Hrun) as ((_ & Hclosed & Hmirror) & _).
  assert (Hidle : idleOutside (map snd (nodes g)) (store g)).
  { unfold twoPasses in Hrun.
    destruct (createNodes skip (clearBuild g0) addresses) as [g1|] eqn:Hcreate;
      [|discriminate].
    cbn [mbind option_bind] in Hrun.
    pose proof (pass1_discovered _ _ _ labels _ Hcreate) as Hdiscovered.
    pose proof (discovered_linked _ Hdiscovered) as Hlinked.
    destruct Hdiscovered as (_ & _ & _ & Hrefs).
    unfold fillNodes in Hrun.
    destruct (fillNodes_loop_linked _ _ _ _ Hrun Hlinked) as (_ & Hnodes & _).
    rewrite Hnodes.
    apply (fillNodes_loop_idle _ _ _ _ _ (fun a r Hin => in_map snd _ _ Hin) Hrun).
    intros x n Hx Hout. exfalso. apply Hout. rewrite Hrefs. apply in_seq.
    apply lookup_lt_Some in Hx. lia. }
  split; [exact Hidle|]. intros r n x Hn Hx.
  destruct (in_dec Nat.eq_dec x (map snd (nodes g))) as [Hin|Hout]; [exact Hin|]. exfalso.
  destruct (Hclosed r n Hn) as [Hall _]. rewrite !Forall_app in Hall.
  destruct Hall as (_ & Hpred & _). rewrite Forall_forall in Hpred.
  specialize (Hpred x ltac:(apply list_elem_of_In; exact Hx)).
  apply lookup_lt_is_Some in Hpred. destruct Hpred as [nx Hnx].
  destruct (Hmirror x r nx n Hnx Hn) as [Hcount _].
  destruct (Hidle x nx Hnx Hout) as [_ Hbranches]. rewrite Hbranches in Hcount.
  cbn [count_occ] in Hcount. symmetry in Hcount.
  apply count_occ_not_In in Hcount. contradiction.
Qed.

Lemma marksWithin_refl T st : marksWithin T st st.
Proof. intros r. left. reflexivity. Qed.

Lemma marksWithin_trans T st1 st2 st3 :
  marksWithin T st1 st2 → marksWithin T st2 st3 → marksWithin T st1 st3.
Proof.
  intros H12 H23 r.
  destruct (H23 r) as [E23|(Hr & n2 & Hn2 & Hn3)]; [rewrite E23; apply H12|].
  destruct (H12 r) as [E12|(_ & n1 & Hn1 & Hn2')]; right; split; try exact Hr.
  - exists n2. rewrite <- E12. split; assumption.
  - exists n1. split; [exact Hn1|]. rewrite Hn3. rewrite Hn2 in Hn2'.
    injection Hn2' as ->. reflexivity.
Qed.

Lemma marksWithin_alter T st r :
  In r T → marksWithin T st (alter (AsmNode.set_isSubroutine true) r st).
Proof.
  intros Hr x. destruct (decide (r = x)) as [<-|Hne].
  - rewrite list_lookup_alter_eq. destruct (st !! r) as [n|]; [|left; reflexivity].
    right. split; [exact Hr|]. exists n. split; reflexivity.
  - left. apply list_lookup_alter_ne. exact Hne.
Qed.

Lemma marksWithin_predecessors T st st' :
  marksWithin T st st' → predecessorsWithin T st → predecessorsWithin T st'.
Proof.
  intros Hmarks Hpred r n' x Hn' Hx.
  destruct (Hmarks r) as [E|(_ & n & Hn & Hset)].
  - rewrite E in Hn'. apply (Hpred r n' x Hn' Hx).
  - rewrite Hset in Hn'. injection Hn' as <-. apply (Hpred r n x Hn Hx).
Qed.

Lemma marksWithin_fold {A} T (f : Store → A → Store) l :
  (∀ st x, In x l → predecessorsWithin T st → marksWithin T st (f st x)) →
  ∀ st, predecessorsWithin T st → marksWithin T st (fold_left f l st).
Proof.
  induction l as [|x l IH]; intros Hf st Hpred; cbn [fold_left]; [apply marksWithin_refl|].
  pose proof (Hf st x ltac:(left; reflexivity) Hpred) as Hfirst.
  eapply marksWithin_trans; [exact Hfirst|]. apply IH.
  - intros st' y Hy. apply Hf. right. exact Hy.
  - apply (marksWithin_predecessors _ _ _ Hfirst Hpred).
Qed.

(** The closure of [reachable] along the predecessors stays inside the
    table when it starts there. *)
Lemma reachable_within T st from :
  predecessorsWithin T st → (∀ x, x ∈ from → In x T) →
  ∀ x, x ∈ reachable st AsmNode.predecessors from → In x T.
Proof.
  intros Hpred Hfrom. unfold reachable.
  set (step := fun seen : list NodeRef =>
                 fold_left (fun acc r => match st !! r with
                                         | Some n => list_union acc (AsmNode.predecessors n)
                                         | None => acc
                                         end) seen seen).
  assert (Hstep : ∀ seen, (∀ x, x ∈ seen → In x T) → ∀ x, x ∈ step seen → In x T).
  { intros seen Hseen. unfold step.
    assert (Hfold : ∀ l acc, (∀ x, x ∈ acc → In x T) →
              ∀ x, x ∈ fold_left (fun acc r => match st !! r with
                                               | Some n =>
                                                   list_union acc (AsmNode.predecessors n)
                                               | None => acc
                                               end) l acc → In x T).
    { induction l as [|r l IH]; intros acc Hacc x Hx; cbn [fold_left] in Hx;
        [apply Hacc, Hx|].
      revert x Hx. apply IH. intros x Hx.
      destruct (st !! r) as [n|] eqn:Hn; [|apply Hacc, Hx].
      apply list_elem_of_union in Hx. destruct Hx as [Hx|Hx]; [apply Hacc, Hx|].
      apply (Hpred r n x Hn). apply list_elem_of_In. exact Hx. }
    apply Hfold, Hseen. }
  generalize (length st). intros k. induction k as [|k IH]; cbn [Nat.iter].
  - intros x Hx. apply Hfrom. apply elem_of_remove_dups. exact Hx.
  - apply Hstep, IH.
Qed.

Lemma markPredecessors_within T st r :
  In r T → predecessorsWithin T st → marksWithin T st (markPredecessorsAsSubroutine st r).
Proof.
  intros Hr Hpred. unfold markPredecessorsAsSubroutine.
  assert (Hall : ∀ x, x ∈ reachable st AsmNode.predecessors [r] → In x T).
  { apply reachable_within; [exact Hpred|]. intros x Hx.
    apply list_elem_of_singleton in Hx. subst x. exact Hr. }
  revert Hall. generalize (reachable st AsmNode.predecessors [r]). intros l. revert st Hpred.
  induction l as [|x l IH]; intros st Hpred Hall; cbn [fold_left]; [apply marksWithin_refl|].
  assert (Hx : In x T) by (apply Hall; left).
  eapply marksWithin_trans; [apply (marksWithin_alter T st x Hx)|]. apply IH.
  - apply (marksWithin_predecessors _ _ _ (marksWithin_alter T st x Hx) Hpred).
  - intros y Hy. apply Hall. right. exact Hy.
Qed.

Lemma markSubroutines_step_within T st node :
  In node T → predecessorsWithin T st → marksWithin T st (markSubroutines_step st node).
Proof.
  intros Hnode Hpred. unfold markSubroutines_step.
  destruct (st !! node) as [n|] eqn:Hn; [|apply marksWithin_refl].
  destruct (AsmNode.isSubroutine n).
  - apply marksWithin_fold; [|exact Hpred]. intros st' x Hx Hpred'.
    apply markPredecessors_within; [|exact Hpred']. apply (Hpred node n x Hn Hx).
  - destruct (negb _); [apply marksWithin_alter, Hnode | apply marksWithin_refl].
Qed.

(** [markSubroutines] sets flags of table nodes and changes nothing else,
    when every predecessor is a node of the table. *)
Lemma markSubroutines_within g :
  predecessorsWithin (map snd (nodes g)) (store g) →
  marksWithin (map snd (nodes g)) (store g) (store (markSubroutines g)).
Proof.
  intros Hpred. unfold markSubroutines. cbn [store set_store].
  apply marksWithin_fold; [|exact Hpred].
  intros st x Hx Hpred'. apply markSubroutines_step_within; assumption.
Qed.

(** C2 (amended): after [markSubroutines] every node of the node table
    whose callers list is non-empty has [isSubroutine = true]; in a build,
    where [markSubroutines] follows the two passes, an object outside the
    table (a placeholder of [getNodeForFill]) is left exactly as pass 2 made
    it, callers included, and is no subroutine. *)
Theorem markSubroutines_marks_called_table_nodes (g : FlowGraph) :
  (∀ addr64k node n,
     In (addr64k, node) (nodes (markSubroutines g)) →
     store (markSubroutines g) !! node = Some n →
     AsmNode.callers n ≠ [] →
     AsmNode.isSubroutine n = true)
  ∧ (∀ (M : BaseMemory) skip g0 addresses labels,
       @twoPasses M skip (clearBuild g0) addresses labels = Some g →
       ∀ r n, ¬ In r (map snd (nodes (markSubroutines g))) →
              store (markSubroutines g) !! r = Some n →
              store g !! r = Some n ∧ AsmNode.isSubroutine n = false).
Proof.
  split.
  - unfold markSubroutines. cbn [nodes store set_store]. intros addr64k node n Hin Hn Hcallers.
    eapply markSubroutines_loop_marks; [|exact Hn|exact Hcallers].
    apply in_map_iff. exists (addr64k, node). split; [reflexivity | exact Hin].
  - intros M skip g0 addresses labels Hrun r n Hout Hn.
    destruct (@twoPasses_placeholders M _ _ _ _ _ Hrun) as [Hidle Hpred].
    change (nodes (markSubroutines g)) with (nodes g) in Hout.
    destruct (markSubroutines_within g Hpred r) as [E|[Hin _]]; [|contradiction].
    rewrite E in Hn. split; [exact Hn|]. apply (Hidle r n Hn Hout).
Qed.

Lemma markSubroutines_marks_called_table_nodes_witness :
  (∃ n n', store passesCalledLoop !! 2%nat = Some n
           ∧ AsmNode.isSubroutine n = false
           ∧ store (markSubroutines passesCalledLoop) !! 2%nat = Some n'
           ∧ AsmNode.callers n' ≠ []
           ∧ AsmNode.isSubroutine n' = true)
  ∧ (∃ p, store (markSubroutines passesCalledLoop) !! 4%nat = Some p
          ∧ ¬ In 4%nat (map snd (nodes (markSubroutines passesCalledLoop)))
          ∧ AsmNode.callers p ≠ []
          ∧ AsmNode.isSubroutine p = false).
Proof.
  destruct (markSubroutines_marks_called_table_nodes passesCalledLoop) as [Htable Hplace].
  assert (Hrun : @twoPasses BaseMemory_64k ∅ (clearBuild (graph calledLoopScenario))
                   [0x8000] [] = Some passesCalledLoop).
  { unfold passesCalledLoop.
    assert (Hruns : (fun _ => tt) <$> @twoPasses BaseMemory_64k ∅
                      (clearBuild (graph calledLoopScenario)) [0x8000] [] = Some tt)
      by (vm_compute; reflexivity).
    destruct (@twoPasses BaseMemory_64k ∅ (clearBuild (graph calledLoopScenario))
                [0x8000] []); [reflexivity | discriminate Hruns]. }
  split.
  - eexists _, _. split; [vm_compute; reflexivity|]. split; [reflexivity|].
    split; [vm_compute; reflexivity|]. split; [discriminate|].
    apply (Htable 0x8010 2%nat).
    + vm_compute. tauto.
    + vm_compute. reflexivity.
    + discriminate.
  - eexists. split; [vm_compute; reflexivity|].
    assert (Hout : ¬ In 4%nat (map snd (nodes (markSubroutines passesCalledLoop)))).
    { vm_compute. intros [H|[H|[H|[H|[]]]]]; discriminate H. }
    split; [exact Hout|]. split; [discriminate|].
    apply (Hplace BaseMemory_64k ∅ (graph calledLoopScenario) [0x8000] [] Hrun 4%nat).
    + exact Hout.
    + vm_compute. reflexivity.
Defined.

(** ** getAddressForCodeFirst *)

Lemma getAddressForCodeFirst_loop_spec fuel : ∀ m addr64k,
  match getAddressForCodeFirst_loop fuel m addr64k with
  | Some first =>
      addr64k - Z.of_nat fuel < first <= addr64k
      ∧ hasFlag (MemoryOps.getAttributeAt m first) MemAttribute.CODE_FIRST = true
      ∧ ∀ j, first < j <= addr64k →
             hasFlag (MemoryOps.getAttributeAt m j) MemAttribute.CODE_FIRST = false
  | None =>
      ∀ j, addr64k - Z.of_nat fuel < j <= addr64k →
           hasFlag (MemoryOps.getAttributeAt m j) MemAttribute.CODE_FIRST = false
  end.
Proof.
  induction fuel as [|fuel IH]; intros m addr64k; cbn [getAddressForCodeFirst_loop].
  - intros j Hj. lia.
  - destruct (hasFlag (MemoryOps.getAttributeAt m addr64k) MemAttribute.CODE_FIRST) eqn:Hflag.
    + split; [lia|]. split; [exact Hflag|]. intros j Hj. lia.
    + specialize (IH m (addr64k - 1)).
      destruct (getAddressForCodeFirst_loop fuel m (addr64k - 1)) as [first|].
      * destruct IH as (Hrange & Hfirst & Hnone). split; [lia|]. split; [exact Hfirst|].
        intros j Hj. destruct (Z.eq_dec j addr64k) as [->|Hne]; [exact Hflag|].
        apply Hnone. lia.
      * intros j Hj. destruct (Z.eq_dec j addr64k) as [->|Hne]; [exact Hflag|].
        apply IH. lia.
Qed.

(** X20: [getAddressForCodeFirst(addr64k)] returns the nearest address at
    or below [addr64k] that is marked as the first byte of an instruction;
    when there is none the loop never ends. *)
Theorem getAddressForCodeFirst_nearest (g : FlowGraph) (addr64k : Z) :
  addr64k < 0x10000 →
  match getAddressForCodeFirst g addr64k with
  | Some first =>
      0 <= first <= addr64k
      ∧ hasFlag (MemoryOps.getAttributeAt (mem g) first) MemAttribute.CODE_FIRST = true
      ∧ ∀ j, first < j <= addr64k →
             hasFlag (MemoryOps.getAttributeAt (mem g) j) MemAttribute.CODE_FIRST = false
  | None =>
      ∀ j, j <= addr64k →
           hasFlag (MemoryOps.getAttributeAt (mem g) j) MemAttribute.CODE_FIRST = false
  end.
Proof.
  intros Hrange. unfold getAddressForCodeFirst.
  pose proof (getAddressForCodeFirst_loop_spec walkFuel (mem g) addr64k) as Hspec.
  destruct (getAddressForCodeFirst_loop walkFuel (mem g) addr64k) as [first|].
  - destruct Hspec as (Hfirst & Hflag & Hnone). split; [|split; assumption].
    split; [|lia]. apply getAttributeAt_flag in Hflag. lia.
  - intros j Hj. destruct (Z.ltb_spec j 0) as [Hneg|Hpos].
    + unfold MemoryOps.getAttributeAt. destruct (Z.ltb_spec j 0); [reflexivity | lia].
    + apply Hspec. unfold walkFuel. lia.
Qed.

Lemma getAddressForCodeFirst_nearest_witness :
  getAddressForCodeFirst passesA 0x8002 = Some 0x8000
  ∧ 0 <= 0x8000 <= 0x8002
  ∧ hasFlag (MemoryOps.getAttributeAt (mem passesA) 0x8000) MemAttribute.CODE_FIRST = true
  ∧ ∀ j, 0x8000 < j <= 0x8002 →
         hasFlag (MemoryOps.getAttributeAt (mem passesA) j) MemAttribute.CODE_FIRST = false.
Proof.
  assert (Hfirst : getAddressForCodeFirst passesA 0x8002 = Some 0x8000)
    by (vm_compute; reflexivity).
  split; [exact Hfirst|].
  pose proof (getAddressForCodeFirst_nearest passesA 0x8002 eq_refl) as Hnearest.
  rewrite Hfirst in Hnearest. exact Hnearest.
Defined.

(** ** partitionBlocks *)

Lemma Array_fill_at len blocks v start end_ k :
  0 <= start → start <= k < end_ → k < len →
  Array_fill len blocks v start end_ k = Some v.
Proof.
  intros Hstart Hk Hlen. unfold Array_fill.
  destruct (Z.ltb_spec start 0); [lia|]. destruct (Z.ltb_spec end_ 0); [lia|].
  destruct (Z.leb_spec (Z.min start len) k); [|lia].
  destruct (Z.ltb_spec k (Z.min end_ len)); [|lia]. reflexivity.
Qed.

(** A slot that [fill] writes lies at or behind a start that is not
    negative. *)
Lemma Array_fill_cases len blocks v start end_ k :
  0 < len →
  Array_fill len blocks v start end_ k = blocks k
  ∨ (Array_fill len blocks v start end_ k = Some v ∧ (start < 0 ∨ start <= k)).
Proof.
  intros Hlen. unfold Array_fill.
  destruct (Z.leb_spec (if start <? 0 then Z.max (len + start) 0 else Z.min start len) k)
    as [Hlow|Hlow]; [|left; reflexivity].
  destruct (Z.ltb_spec k (if end_ <? 0 then Z.max (len + end_) 0 else Z.min end_ len))
    as [Hhigh|Hhigh]; [|left; reflexivity].
  right. split; [reflexivity|].
  destruct (Z.ltb_spec start 0); [left; lia|]. right.
  destruct (Z.ltb_spec end_ 0); lia.
Qed.

(** The sorted list of [partitionBlocks]: the nodes of the table, each with
    its start, in the order of their starts. *)
Lemma sortedNodes_spec g sorted :
  sortedNodes g = Some sorted →
  StronglySorted byStart sorted
  ∧ (∀ s r, In (s, r) sorted →
        In r (map snd (nodes g)) ∧ ∃ n, store g !! r = Some n ∧ AsmNode.start n = s)
  ∧ ∀ addr r, In (addr, r) (nodes g) → ∃ s, In (s, r) sorted.
Proof.
  unfold sortedNodes. intros Hsorted.
  destruct (mapM _ (map snd (nodes g))) as [keyed|] eqn:Hkeyed; [|discriminate].
  cbn [mbind option_bind] in Hsorted. injection Hsorted as <-.
  apply mapM_Some_1 in Hkeyed.
  split; [apply StronglySorted_merge_sort; apply _|]. split.
  - intros s r Hin. apply list_elem_of_In in Hin. rewrite merge_sort_Permutation in Hin.
    apply list_elem_of_lookup in Hin. destruct Hin as [i Hi].
    destruct (Forall2_lookup_r _ _ _ _ _ Hkeyed Hi) as (node & Hnode & Hkey).
    destruct (store g !! node) as [n|] eqn:Hn; [|discriminate].
    cbn [mbind option_bind] in Hkey. injection Hkey as <- <-.
    split; [|exists n; split; [exact Hn | reflexivity]].
    apply list_elem_of_In. eapply list_elem_of_lookup_2. exact Hnode.
  - intros addr r Hin.
    assert (Hr : r ∈ map snd (nodes g)).
    { apply list_elem_of_In, in_map_iff. exists (addr, r). auto. }
    apply list_elem_of_lookup in Hr. destruct Hr as [i Hi].
    destruct (Forall2_lookup_l _ _ _ _ _ Hkeyed Hi) as ([a' r'] & Hlook & Hkey).
    destruct (store g !! r) as [n|]; [|discriminate]. cbn [mbind option_bind] in Hkey.
    injection Hkey as <- <-. exists (AsmNode.start n).
    apply list_elem_of_In. rewrite merge_sort_Permutation.
    eapply list_elem_of_lookup_2. exact Hlook.
Qed.

(** One round of [partitionBlocks]: the block node is a node of the list
    that starts at or before the node of the round, and so does every node
    that the round writes into the array. *)
Lemma partitionBlocks_step_covers st (T : list NodeRef) p node n p' :
  partitionBlocks_step st p node = Some p' → st !! node = Some n → In node T →
  (∀ b, blockNode p = Some b → startsBefore st T (AsmNode.start n) b) →
  (∃ b, blockNode p' = Some b ∧ startsBefore st T (AsmNode.start n) b)
  ∧ (∀ k, 0 <= k → (∃ r, filled p k = Some (Cur r) ∧ startsBefore st T k r) →
          ∃ r', filled p' k = Some (Cur r') ∧ startsBefore st T k r')
  ∧ (0 <= AsmNode.start n →
     ∀ k, AsmNode.start n <= k < AsmNode.start n + AsmNode.length n → k < 0x10000 →
          ∃ r', filled p' k = Some (Cur r') ∧ startsBefore st T k r').
Proof.
  unfold partitionBlocks_step. intros Hstep Hn Hnode Hblock. rewrite Hn in Hstep.
  cbn [mbind option_bind] in Hstep.
  assert (Hself : startsBefore st T (AsmNode.start n) node).
  { split; [exact Hnode|]. exists n. split; [exact Hn | lia]. }
  assert (Hshape : ∃ b, startsBefore st T (AsmNode.start n) b
            ∧ p' = mkPartition (Some b)
                     (blockBranches p') (Some (AsmNode.start n + AsmNode.length n))
                     (Array_fill 0x10000 (filled p) (Cur b) (AsmNode.start n)
                        (AsmNode.start n + AsmNode.length n))).
  { destruct (negb (bool_decide (addr p = Some (AsmNode.start n)))
              || negb (bool_decide (AsmNode.callers n = []))
              || negb (bool_decide (node ∈ blockBranches p))) eqn:Hcond;
      cbn [mbind option_bind addr blockNode blockBranches filled] in Hstep.
    - injection Hstep as <-. exists node. split; [exact Hself | reflexivity].
    - apply orb_false_iff in Hcond. destruct Hcond as [Hcond _].
      apply orb_false_iff in Hcond. destruct Hcond as [Haddr _].
      apply negb_false_iff, bool_decide_eq_true in Haddr.
      destruct (blockNode p) as [b|] eqn:Hb; [|discriminate]. rewrite Haddr in Hstep.
      cbn [mbind option_bind] in Hstep. injection Hstep as <-.
      exists b. split; [apply Hblock; reflexivity | reflexivity]. }
  destruct Hshape as (b & Hb & ->). cbn [blockNode filled].
  assert (Hlater : ∀ k, AsmNode.start n <= k → startsBefore st T k b).
  { intros k Hk. destruct Hb as (HbT & nb & Hnb & Hstart).
    split; [exact HbT|]. exists nb. split; [exact Hnb | lia]. }
  split; [exists b; split; [reflexivity | exact Hb]|]. split.
  - intros k Hk (r & Hr & Hbefore).
    destruct (Array_fill_cases 0x10000 (filled p) (Cur b) (AsmNode.start n)
                (AsmNode.start n + AsmNode.length n) k) as [->|[-> Hrange]]; [lia| |].
    + exists r. split; assumption.
    + exists b. split; [reflexivity|]. apply Hlater. lia.
  - intros Hstart k Hk Hlen. exists b. split; [|apply Hlater; lia].
    apply Array_fill_at; assumption.
Qed.

Lemma partitionBlocks_loop_covers st (T : list NodeRef) l :
  ∀ p p', partitionBlocks_loop st p (map snd l) = Some p' →
    StronglySorted byStart l →
    (∀ s r, In (s, r) l → In r T ∧ ∃ n, st !! r = Some n ∧ AsmNode.start n = s) →
    (∀ b s r, blockNode p = Some b → In (s, r) l → startsBefore st T s b) →
    (∀ k, 0 <= k → (∃ r, filled p k = Some (Cur r) ∧ startsBefore st T k r) →
          ∃ r', filled p' k = Some (Cur r') ∧ startsBefore st T k r')
    ∧ ∀ s r n, In (s, r) l → st !! r = Some n → 0 <= AsmNode.start n →
        ∀ k, AsmNode.start n <= k < AsmNode.start n + AsmNode.length n → k < 0x10000 →
             ∃ r', filled p' k = Some (Cur r') ∧ startsBefore st T k r'.
Proof.
  induction l as [|[s0 r0] rest IH]; intros p p' Hrun Hsorted Hl Hblock;
    cbn [map snd partitionBlocks_loop] in Hrun.
  { injection Hrun as <-. split; [auto | intros s r n []]. }
  destruct (partitionBlocks_step st p r0) as [p1|] eqn:Hstep; [|discriminate].
  cbn [mbind option_bind] in Hrun.
  apply StronglySorted_cons in Hsorted. destruct Hsorted as [Hhead Hsorted].
  rewrite Forall_forall in Hhead.
  destruct (Hl s0 r0) as (Hr0 & n0 & Hn0 & Hstart0); [left; reflexivity|].
  destruct (partitionBlocks_step_covers st T p r0 n0 p1 Hstep Hn0 Hr0)
    as ((b1 & Hb1 & Hbefore1) & Hkeep1 & Hcover1).
  { intros b Hb. rewrite Hstart0. apply (Hblock b s0 r0 Hb). left. reflexivity. }
  destruct (IH p1 p' Hrun Hsorted) as [Hkeep Hcover].
  { intros s r Hin. apply Hl. right. exact Hin. }
  { intros b s r Hb Hin. rewrite Hb1 in Hb. injection Hb as <-.
    destruct Hbefore1 as (HbT & nb & Hnb & Hle). split; [exact HbT|].
    exists nb. split; [exact Hnb|].
    specialize (Hhead (s, r)). unfold byStart in Hhead. cbn [fst] in Hhead.
    specialize (Hhead ltac:(apply list_elem_of_In; exact Hin)). lia. }
  split.
  - intros k Hk Hfilled. apply (Hkeep k Hk). apply (Hkeep1 k Hk Hfilled).
  - intros s r n [[= <- <-]|Hin] Hn Hstart k Hk Hlen.
    + rewrite Hn in Hn0. injection Hn0 as <-.
      apply (Hkeep k); [lia|]. apply (Hcover1 Hstart k Hk Hlen).
    + apply (Hcover s r n Hin Hn Hstart k Hk Hlen).
Qed.

(** X21: every address of every node of the table belongs to a block of the
    current build.  When [partitionBlocks] has run, the block array holds at
    each address from the start of a table node to its end, as far as the
    64K space reaches, a node of the current build: an object of the store
    that the node table holds and that starts at or before the address. *)
Theorem partitionBlocks_covers (g : FlowGraph) (blocks blocks' : Blocks)
    (addr : Z) (r : NodeRef) (n : AsmNode.t) (k : Z) :
  partitionBlocks g blocks = Some blocks' →
  In (addr, r) (nodes g) → store g !! r = Some n →
  0 <= AsmNode.start n → AsmNode.start n <= k < AsmNode.start n + AsmNode.length n →
  k < 0x10000 →
  ∃ r' n', blockAt blocks' k = Some (Cur r')
           ∧ In r' (map snd (nodes g))
           ∧ store g !! r' = Some n'
           ∧ AsmNode.start n' <= k.
Proof.
  unfold partitionBlocks. intros Hrun Hin Hn Hstart Hk Hlen.
  destruct (sortedNodes g) as [sorted|] eqn:Hsorted; [|discriminate].
  cbn [mbind option_bind] in Hrun.
  destruct (partitionBlocks_loop _ _ _) as [p|] eqn:Hloop; [|discriminate].
  cbn [mbind option_bind] in Hrun. injection Hrun as <-.
  destruct (sortedNodes_spec _ _ Hsorted) as (Horder & Hkeys & Hall).
  destruct (partitionBlocks_loop_covers (store g) (map snd (nodes g)) sorted _ _ Hloop
              Horder Hkeys) as [_ Hcover]; [discriminate|].
  destruct (Hall addr r Hin) as [s Hs].
  destruct (Hcover s r n Hs Hn Hstart k Hk Hlen) as (r' & Hr' & HT & n' & Hn' & Hle).
  exists r', n'. unfold blockAt.
  destruct (Z.leb_spec 0 k); [|lia]. destruct (Z.ltb_spec k 0x10000); [|lia].
  repeat split; assumption.
Qed.

Lemma partitionBlocks_covers_witness :
  ∃ r' n', blockAt blocksNamedA 0x8011 = Some (Cur r')
           ∧ In r' (map snd (nodes markedNamedA))
           ∧ store markedNamedA !! r' = Some n'
           ∧ AsmNode.start n' <= 0x8011.
Proof.
  apply (partitionBlocks_covers markedNamedA (fun _ => None) blocksNamedA 0x8010 2%nat
           printNode 0x8011).
  - unfold blocksNamedA.
    assert (Hruns : (fun _ => tt) <$> partitionBlocks markedNamedA (fun _ => None) = Some tt)
      by (vm_compute; reflexivity).
    destruct (partitionBlocks markedNamedA (fun _ => None));
      [reflexivity | discriminate Hruns].
  - vm_compute. tauto.
  - vm_compute. reflexivity.
  - vm_compute. discriminate.
  - vm_compute. split; [discriminate | reflexivity].
  - reflexivity.
Defined.

Lemma NodeMap_key_inj (T : NodeMap.t) key v v' :
  NoDup (map fst T) → In (key, v) T → In (key, v') T → v = v'.
Proof.
  intros Hnd Hv Hv'. apply (NodeMap_In_get _ _ _ Hnd) in Hv, Hv'. congruence.
Qed.

(** The sorted list holds the references of the table, each once for each
    time the table holds it. *)
Lemma sortedNodes_refs g sorted :
  sortedNodes g = Some sorted → map snd sorted ≡ₚ map snd (nodes g).
Proof.
  unfold sortedNodes. intros Hsorted.
  destruct (mapM _ (map snd (nodes g))) as [keyed|] eqn:Hkeyed; [|discriminate].
  cbn [mbind option_bind] in Hsorted. injection Hsorted as <-.
  rewrite merge_sort_Permutation. apply mapM_Some_1 in Hkeyed.
  assert (Heq : map snd keyed = map snd (nodes g)); [|rewrite Heq; reflexivity].
  induction Hkeyed as [|x y l k Hxy _ IH]; [reflexivity|].
  cbn [map]. rewrite IH. f_equal.
  destruct (store g !! x); [|discriminate]. cbn [mbind option_bind] in Hxy.
  injection Hxy as <-. reflexivity.
Qed.

Lemma partitionBlocks_loop_app st l1 l2 :
  ∀ p, partitionBlocks_loop st p (l1 ++ l2)
       = p1 ← partitionBlocks_loop st p l1; partitionBlocks_loop st p1 l2.
Proof.
  induction l1 as [|node l1 IH]; intros p; cbn [app partitionBlocks_loop]; [reflexivity|].
  destruct (partitionBlocks_step st p node) as [p1|]; cbn [mbind option_bind];
    [apply IH | reflexivity].
Qed.

(** What one round writes: the block node from the start of the node of the
    round to its end; a node with callers is its own block node. *)
Lemma partitionBlocks_step_fill st p node n p' :
  partitionBlocks_step st p node = Some p' → st !! node = Some n →
  ∃ b, (AsmNode.callers n ≠ [] → b = node)
       ∧ filled p' = Array_fill 0x10000 (filled p) (Cur b) (AsmNode.start n)
                       (AsmNode.start n + AsmNode.length n).
Proof.
  unfold partitionBlocks_step. intros Hstep Hn. rewrite Hn in Hstep.
  cbn [mbind option_bind] in Hstep.
  destruct (negb (bool_decide (addr p = Some (AsmNode.start n)))
            || negb (bool_decide (AsmNode.callers n = []))
            || negb (bool_decide (node ∈ blockBranches p))) eqn:Hcond;
    cbn [mbind option_bind addr blockNode blockBranches filled] in Hstep.
  - injection Hstep as <-. exists node. split; reflexivity.
  - apply orb_false_iff in Hcond. destruct Hcond as [Hcond _].
    apply orb_false_iff in Hcond. destruct Hcond as [Haddr Hcallers].
    apply negb_false_iff, bool_decide_eq_true in Haddr, Hcallers.
    destruct (blockNode p) as [b|]; [|discriminate]. rewrite Haddr in Hstep.
    cbn [mbind option_bind] in Hstep. injection Hstep as <-.
    exists b. split; [intros Hne; contradiction | reflexivity].
Qed.

(** The rounds for nodes that start behind an address leave the array alone
    there. *)
Lemma partitionBlocks_loop_below st a l :
  ∀ p p', partitionBlocks_loop st p (map snd l) = Some p' →
    (∀ s r, In (s, r) l → ∃ n, st !! r = Some n ∧ AsmNode.start n = s) →
    (∀ s r, In (s, r) l → a < s) → 0 <= a →
    filled p' a = filled p a.
Proof.
  induction l as [|[s0 r0] rest IH]; intros p p' Hrun Hl Hbehind Ha;
    cbn [map snd partitionBlocks_loop] in Hrun.
  { injection Hrun as <-. reflexivity. }
  destruct (partitionBlocks_step st p r0) as [p1|] eqn:Hstep; [|discriminate].
  cbn [mbind option_bind] in Hrun.
  destruct (Hl s0 r0) as (n0 & Hn0 & Hstart0); [left; reflexivity|].
  destruct (partitionBlocks_step_fill _ _ _ _ _ Hstep Hn0) as (b & _ & Hfilled).
  rewrite (IH p1 p' Hrun); [| intros s r Hin; apply Hl; right; exact Hin
                            | intros s r Hin; apply (Hbehind s r); right; exact Hin
                            | exact Ha].
  rewrite Hfilled.
  specialize (Hbehind s0 r0 ltac:(left; reflexivity)).
  destruct (Array_fill_cases 0x10000 (filled p) (Cur b) (AsmNode.start n0)
              (AsmNode.start n0 + AsmNode.length n0) a) as [->|[_ Hrange]];
    [lia | reflexivity | lia].
Qed.

(** X29: a called node leads its block.  When every node of the table
    starts at its key and no key occurs twice, the block array holds, after
    [partitionBlocks], at the address of every table node that has callers
    and is at least one byte long, this node itself. *)
Theorem partitionBlocks_called_node_leads (g : FlowGraph) (blocks blocks' : Blocks)
    (addr : Z) (r : NodeRef) (n : AsmNode.t) :
  NoDup (map fst (nodes g)) →
  (∀ a x, In (a, x) (nodes g) → ∃ nx, store g !! x = Some nx ∧ AsmNode.start nx = a) →
  partitionBlocks g blocks = Some blocks' →
  In (addr, r) (nodes g) → store g !! r = Some n →
  0 <= addr < 0x10000 → AsmNode.callers n ≠ [] → 1 <= AsmNode.length n →
  blockAt blocks' addr = Some (Cur r).
Proof.
  unfold partitionBlocks. intros Hnd Hkeys Hrun Hin Hn Hrange Hcallers Hlen.
  destruct (sortedNodes g) as [sorted|] eqn:Hsorted; [|discriminate].
  cbn [mbind option_bind] in Hrun.
  destruct (partitionBlocks_loop _ _ _) as [p|] eqn:Hloop; [|discriminate].
  cbn [mbind option_bind] in Hrun. injection Hrun as <-.
  destruct (sortedNodes_spec _ _ Hsorted) as (Horder & Hsortedkeys & Hall).
  assert (Hstart : AsmNode.start n = addr).
  { destruct (Hkeys addr r Hin) as (n' & Hn' & Hs). congruence. }
  assert (Htable : ∀ s x, In (s, x) sorted → In (s, x) (nodes g)).
  { intros s x Hx. destruct (Hsortedkeys s x Hx) as (Hx' & nx & Hnx & Hs).
    apply in_map_iff in Hx'. destruct Hx' as ([a' x'] & Heq & Hx'). cbn [snd] in Heq.
    subst x'. destruct (Hkeys a' x Hx') as (nx' & Hnx' & Hs'). congruence. }
  assert (Hrefs : NoDup (map snd sorted)).
  { rewrite (sortedNodes_refs _ _ Hsorted).
    apply (NoDup_refs _ (fun x => AsmNode.start <$> store g !! x) Hnd).
    intros a x Hx. destruct (Hkeys a x Hx) as (nx & -> & <-). reflexivity. }
  destruct (Hall addr r Hin) as [s Hs].
  assert (s = addr) by (destruct (Hsortedkeys s r Hs) as (_ & n' & Hn' & Hs'); congruence).
  subst s. apply in_split in Hs. destruct Hs as (l1 & l2 & ->).
  apply StronglySorted_app in Horder. destruct Horder as (_ & _ & Horder).
  apply StronglySorted_cons in Horder. destruct Horder as [Hhead _].
  rewrite Forall_forall in Hhead.
  rewrite map_app, partitionBlocks_loop_app in Hloop.
  destruct (partitionBlocks_loop (store g) _ (map snd l1)) as [p1|]; [|discriminate].
  cbn [mbind option_bind map snd partitionBlocks_loop] in Hloop.
  destruct (partitionBlocks_step (store g) p1 r) as [p2|] eqn:Hstep; [|discriminate].
  cbn [mbind option_bind] in Hloop.
  destruct (partitionBlocks_step_fill _ _ _ _ _ Hstep Hn) as (b & Hb & Hfilled).
  rewrite (Hb Hcallers) in Hfilled.
  unfold blockAt. destruct (Z.leb_spec 0 addr); [|lia].
  destruct (Z.ltb_spec addr 0x10000); [|lia]. cbn [andb].
  rewrite (partitionBlocks_loop_below (store g) addr l2 p2 p Hloop).
  - rewrite Hfilled, Hstart. apply Array_fill_at; lia.
  - intros s x Hx. destruct (Hsortedkeys s x) as (_ & nx & Hnx & Hsx);
      [apply in_or_app; right; right; exact Hx|]. exists nx. split; assumption.
  - intros s x Hx.
    assert (Hle : addr <= s).
    { specialize (Hhead (s, x) ltac:(apply list_elem_of_In; exact Hx)). exact Hhead. }
    assert (Hne : s ≠ addr).
    { intros ->.
      assert (Hx' : In (addr, x) (nodes g))
        by (apply Htable, in_or_app; right; right; exact Hx).
      assert (x = r) by (apply (NodeMap_key_inj (nodes g) addr x r Hnd Hx' Hin)).
      subst x. rewrite map_app in Hrefs. cbn [map snd] in Hrefs.
      apply NoDup_app in Hrefs. destruct Hrefs as (_ & _ & Hrefs).
      apply NoDup_cons in Hrefs. destruct Hrefs as [Hrefs _]. apply Hrefs.
      apply list_elem_of_In, in_map_iff. exists (addr, r). auto. }
    lia.
  - lia.
Qed.

Lemma partitionBlocks_called_node_leads_witness :
  blockAt blocksNamedA 0x8010 = Some (Cur 2%nat).
Proof.
  apply (partitionBlocks_called_node_leads markedNamedA (fun _ => None) blocksNamedA 0x8010
           2%nat printNode).
  - vm_compute. repeat constructor; intros Hin; repeat (apply elem_of_cons in Hin;
      destruct Hin as [Hin|Hin]; [discriminate Hin|]); apply elem_of_nil in Hin; exact Hin.
  - intros a x Hin. vm_compute in Hin.
    destruct Hin as [[= <- <-]|[[= <- <-]|[[= <- <-]|[]]]];
      eexists; split; vm_compute; reflexivity.
  - unfold blocksNamedA.
    assert (Hruns : (fun _ => tt) <$> partitionBlocks markedNamedA (fun _ => None) = Some tt)
      by (vm_compute; reflexivity).
    destruct (partitionBlocks markedNamedA (fun _ => None));
      [reflexivity | discriminate Hruns].
  - vm_compute. tauto.
  - vm_compute. reflexivity.
  - lia.
  - vm_compute. discriminate.
  - vm_compute. discriminate.
Defined.

(** ** assignNodeLabels: labels that are there *)

Lemma assignNodeLabels_step_keeps blocks g entry g' r n :
  assignNodeLabels_step blocks g entry = Some g' →
  store g !! r = Some n → JS.truthy (AsmNode.label n) = true →
  store g' !! r = Some n.
Proof.
  destruct entry as [a node]. unfold assignNodeLabels_step. intros Hrun Hn Hlabel.
  destruct (blockAt blocks a) as [blockNode|]; [|injection Hrun as <-; exact Hn].
  destruct (isNode (Some blockNode) node); [|injection Hrun as <-; exact Hn].
  destruct (store g !! node) as [n0|] eqn:Hnode; [|discriminate].
  cbn [mbind option_bind] in Hrun.
  set (g1 := if negb (JS.truthy (AsmNode.label n0)) then _ else g) in Hrun.
  assert (Hn1 : store g1 !! r = Some n).
  { subst g1. destruct (JS.truthy (AsmNode.label n0)) eqn:Hlabel0; cbn [negb]; [exact Hn|].
    destruct (globalLabel n0 a); [|exact Hn].
    rewrite modify_lookup_ne; [exact Hn|]. intros ->. congruence. }
  destruct (assignLocalLabels_spec _ _ _ _ Hrun) as [_ Hout].
  rewrite Hout; [exact Hn1|].
  intros [_ (b & Hb & _ & Hfalsy)]. congruence.
Qed.

(** X22: [assignNodeLabels] never replaces a label.  A node that has a
    non-empty label when the labels are assigned, from the label list or from
    an earlier round, is left as it is. *)
Theorem assignNodeLabels_keeps_labels (g g' : FlowGraph) (blocks : Blocks)
    (r : NodeRef) (n : AsmNode.t) :
  assignNodeLabels g blocks = Some g' →
  store g !! r = Some n → JS.truthy (AsmNode.label n) = true →
  store g' !! r = Some n.
Proof.
  unfold assignNodeLabels. generalize (nodes g). intros entries. revert g.
  induction entries as [|entry rest IH]; intros g Hrun Hn Hlabel;
    cbn [assignNodeLabels_loop] in Hrun.
  - injection Hrun as <-. exact Hn.
  - destruct (assignNodeLabels_step blocks g entry) as [g1|] eqn:Hstep; [|discriminate].
    cbn [mbind option_bind] in Hrun.
    apply (IH g1 Hrun); [|exact Hlabel].
    apply (assignNodeLabels_step_keeps _ _ _ _ _ _ Hstep Hn Hlabel).
Qed.

Lemma assignNodeLabels_keeps_labels_witness : store labeledNamedA !! 2%nat = Some printNode.
Proof.
  apply (assignNodeLabels_keeps_labels markedNamedA labeledNamedA blocksNamedA 2%nat printNode).
  - unfold labeledNamedA.
    assert (Hruns : (fun _ => tt) <$> assignNodeLabels markedNamedA blocksNamedA = Some tt)
      by (vm_compute; reflexivity).
    destruct (assignNodeLabels markedNamedA blocksNamedA);
      [reflexivity | discriminate Hruns].
  - vm_compute. reflexivity.
  - vm_compute. reflexivity.
Defined.

(** ** Pass 1 ends *)

Lemma followFlow_returns `{BaseMemory} skip fuel :
  ∀ g addr64k,
    bytesOnly (memory (mem g)) → skipsEnd skip →
    0 <= addr64k <= 0xFFFF → 0x10000 - addr64k <= Z.of_nat fuel →
    ∃ g' pushed, followFlow skip fuel g addr64k = Some (g', pushed)
                 ∧ (length pushed <= 2)%nat.
Proof.
  induction fuel as [|fuel IH]; intros g addr64k Hbytes Hskips Hlow Hfuel; [lia|].
  cbn [followFlow].
  destruct (closedTable_decodes (memory (mem g)) prefixDepth Hbytes T_Opcodes addr64k)
    as [refOpcode Hop]; [vm_compute; reflexivity|].
  fold (getOpcodeAt (memory (mem g)) addr64k) in Hop. rewrite Hop.
  cbn [mbind option_bind].
  pose proof (decoded_length_range _ _ _ Hop) as Hlen.
  destruct (MemoryOps.searchAddrWithAttribute _ _ _ _).
  { eexists _, _. split; [reflexivity|]. cbn. lia. }
  destruct (hasFlag (flags refOpcode) OpcodeFlag.BRANCH_ADDRESS).
  { destruct (negb _).
    - destruct (Hskips (addr64k + op_length refOpcode)) as [next ->].
      cbn [mbind option_bind]. eexists _, _. split; [reflexivity|]. cbn. lia.
    - eexists _, _. split; [reflexivity|]. cbn. lia. }
  destruct (Z.gtb_spec (addr64k + op_length refOpcode) 0xFFFF).
  { eexists _, _. split; [reflexivity|]. cbn. lia. }
  destruct (_ && _).
  { eexists _, _. split; [reflexivity|]. cbn. lia. }
  destruct (hasFlag _ MemAttribute.FLOW_ANALYZED).
  { eexists _, _. split; [reflexivity|]. cbn. lia. }
  destruct (hasFlag (flags refOpcode) OpcodeFlag.STOP).
  { eexists _, _. split; [reflexivity|]. cbn. lia. }
  apply IH; [|exact Hskips|lia|lia].
  cbn [mem set_mem MemoryOps.addAttributeAt memory].
  unfold MemoryOps.addAttributesAt. rewrite addAttributesAt_loop_bytes. exact Hbytes.
Qed.

(** A table of distinct addresses of the 64K space has at most 0x10000
    entries. *)
Lemma tableWf_length g : tableWf g → Z.of_nat (length (nodes g)) <= 0x10000.
Proof.
  intros [Hnd Htable].
  assert (Hsub : map fst (nodes g) ⊆+ seqZ 0 0x10000).
  { apply NoDup_submseteq; [exact Hnd|]. intros a Ha.
    apply list_elem_of_In, in_map_iff in Ha. destruct Ha as ([a' r] & <- & Hin).
    destruct (Htable a' r Hin) as [Hflag _]. apply getAttributeAt_flag in Hflag.
    apply elem_of_seqZ. cbn [fst]. lia. }
  apply submseteq_length in Hsub. rewrite length_map, length_seqZ in Hsub. lia.
Qed.

Lemma createNodeForAddress_loop_returns `{BaseMemory} skip fuel :
  ∀ g queue,
    bytesOnly (memory (mem g)) → skipsEnd skip → discovered g →
    Z.of_nat (length queue) + 2 * (0x10000 - Z.of_nat (length (nodes g))) <= Z.of_nat fuel →
    ∃ g', createNodeForAddress_loop skip fuel g queue = Some g'.
Proof.
  induction fuel as [|fuel IH]; intros g queue Hbytes Hskips Hg Hfuel;
    destruct queue as [|addr64k rest]; cbn [createNodeForAddress_loop]; eauto.
  { pose proof (tableWf_length g (proj1 (proj2 Hg))). cbn [length] in Hfuel. lia. }
  pose proof (tableWf_length g (proj1 (proj2 Hg))) as Hsize.
  cbn [length] in Hfuel.
  destruct (NodeMap.get (nodes g) addr64k) eqn:Hget; [apply IH; try assumption; lia|].
  destruct (createNodeInMap_fresh g addr64k Hget) as (Hnodes1 & Hstore1 & Hmem1 & _).
  destruct (hasFlag _ MemAttribute.FLOW_ANALYZED).
  { destruct (hasFlag _ MemAttribute.CODE_FIRST) eqn:Hfirst.
    - apply IH.
      + rewrite Hmem1. exact Hbytes.
      + exact Hskips.
      + apply (discovered_extend g _ addr64k Hg Hget Hnodes1 Hstore1).
        * rewrite Hmem1. apply flagsGrow_refl.
        * rewrite Hmem1. apply Hg.
        * rewrite Hmem1. exact Hfirst.
      + rewrite Hnodes1, length_app. cbn [length]. lia.
    - apply IH; try assumption. cbn [nodes set_comments]. lia. }
  destruct (hasFlag _ MemAttribute.ASSIGNED) eqn:Hassigned; cbn [negb];
    [|apply IH; try assumption; lia].
  pose proof Hassigned as Hrange. apply getAttributeAt_flag in Hrange.
  destruct (followFlow_returns skip walkFuel (createNodeInMap g addr64k).1 addr64k)
    as (g1 & pushed & Hflow & Hpushed).
  { rewrite Hmem1. exact Hbytes. }
  { exact Hskips. }
  { lia. }
  { unfold walkFuel. lia. }
  rewrite Hflow. cbn [mbind option_bind].
  pose proof (followFlow_sameImage _ _ _ _ _ _ Hflow) as [Hbytes1 _].
  pose proof (followFlow_facts _ _ _ _ _ _ Hflow) as (Hnodes & Hstore & _ & Hgrow & Hfirst & Hcons).
  apply IH.
  - rewrite Hbytes1, Hmem1. exact Hbytes.
  - exact Hskips.
  - apply (discovered_extend g _ addr64k Hg Hget).
    + rewrite Hnodes. exact Hnodes1.
    + rewrite Hstore. exact Hstore1.
    + rewrite <- Hmem1. exact Hgrow.
    + apply Hcons. rewrite Hmem1. apply Hg.
    + apply getAttributeAt_flag. split; [apply Hrange | exact Hfirst].
  - rewrite Hnodes, Hnodes1, !length_app. cbn [length]. lia.
Qed.

Lemma createNodes_loop_returns `{BaseMemory} skip sorted :
  ∀ g, bytesOnly (memory (mem g)) → skipsEnd skip → discovered g →
       ∃ g', createNodes_loop skip g sorted = Some g'.
Proof.
  induction sorted as [|addr64k rest IH]; intros g Hbytes Hskips Hg; cbn [createNodes_loop];
    [eauto|].
  destruct (hasFlag _ MemAttribute.FLOW_ANALYZED).
  { destruct (negb _); apply IH; assumption. }
  destruct (createNodeForAddress_loop_returns skip queueFuel g [addr64k] Hbytes Hskips Hg)
    as [g1 Hnode].
  { pose proof (tableWf_length g (proj1 (proj2 Hg))). unfold queueFuel. cbn [length]. lia. }
  unfold createNodeForAddress. rewrite Hnode. cbn [mbind option_bind].
  apply IH.
  - destruct (createNodeForAddress_loop_sameImage _ _ _ _ _ Hnode) as [-> _]. exact Hbytes.
  - exact Hskips.
  - apply (createNodeForAddress_loop_discovered _ _ _ _ _ Hnode Hg).
Qed.

(** X23: pass 1 ends.  Over a memory that answers with bytes, and with
    skips whose chains end, [createNodes] returns for every list of start
    addresses: no exception is thrown, the walk along the instructions stops
    at the end of the 64K space at the latest, and the queue of branch
    addresses runs empty. *)
Theorem createNodes_returns `{BaseMemory} (skip : gmap Z Z) (g0 : FlowGraph)
    (addresses : list Z) :
  bytesOnly (memory (mem g0)) → skipsEnd skip →
  ∃ g, createNodes skip (clearBuild g0) addresses = Some g.
Proof.
  intros Hbytes Hskips. unfold createNodes.
  apply createNodes_loop_returns; [exact Hbytes | exact Hskips | apply clearBuild_discovered].
Qed.

Lemma createNodes_returns_witness :
  ∃ g, @createNodes BaseMemory_64k ∅ (clearBuild (graph scenarioA)) [0x8000; 0x8010] = Some g.
Proof.
  apply (@createNodes_returns BaseMemory_64k ∅ (graph scenarioA) [0x8000; 0x8010]).
  - intros k. apply (setMemory_from_bytes [x3e; x05; xc9]).
    apply (setMemory_from_bytes [xc9]). apply (setMemory_from_bytes [xcd; x10; x80]).
    intros k'. cbn. lia.
  - intros addr64k. exists addr64k. reflexivity.
Defined.

(** ** Pass 2 ends *)

Lemma marked_codeHasFirst m addr64k len :
  0 <= addr64k <= 0xFFFF → 1 <= len →
  codeHasFirst m →
  codeHasFirst (MemoryOps.addAttributeAt
                  (MemoryOps.addAttributesAt m addr64k len
                     (Z.lor MemAttribute.FLOW_ANALYZED MemAttribute.CODE))
                  addr64k MemAttribute.CODE_FIRST).
Proof.
  intros Hrange Hlen Hm k Hcode.
  apply getAttributeAt_flag in Hcode. destruct Hcode as [Hk Hcode].
  destruct (decide (addr64k <= k < addr64k + len)) as [Hin|Hout].
  - exists addr64k. split; [lia|]. apply getAttributeAt_flag. split; [lia|].
    apply marked_first.
  - rewrite marked_attr in Hcode. cbv zeta in Hcode.
    destruct (Z.eqb_spec k addr64k) as [->|Hne]; [lia|].
    destruct (Z.leb_spec addr64k k), (Z.ltb_spec k (addr64k + len)); cbn [andb] in Hcode;
      try lia.
    all: destruct (Hm k) as (first & Hfirst & Hflag);
      [apply getAttributeAt_flag; split; assumption|];
      exists first; split; [exact Hfirst|];
      eapply flagsGrow_getAttributeAt; [apply marked_flagsGrow | exact Hflag].
Qed.

Lemma followFlow_codeHasFirst `{BaseMemory} skip fuel :
  ∀ g addr64k g' pushed,
    followFlow skip fuel g addr64k = Some (g', pushed) →
    0 <= addr64k <= 0xFFFF → codeHasFirst (mem g) → codeHasFirst (mem g').
Proof.
  induction fuel as [|fuel IH]; intros g addr64k g' pushed Hrun Hrange Hg;
    cbn [followFlow] in Hrun; [discriminate|].
  destruct (getOpcodeAt (memory (mem g)) addr64k) as [refOpcode|] eqn:Hop; [|discriminate].
  cbn [mbind option_bind] in Hrun.
  pose proof (decoded_length_range _ _ _ Hop) as Hlen.
  set (m1 := MemoryOps.addAttributeAt
               (MemoryOps.addAttributesAt (mem g) addr64k (op_length refOpcode)
                  (Z.lor MemAttribute.FLOW_ANALYZED MemAttribute.CODE))
               addr64k MemAttribute.CODE_FIRST).
  assert (Hm1 : codeHasFirst m1) by (apply marked_codeHasFirst; [exact Hrange | lia | exact Hg]).
  cbn [mem set_mem] in Hrun. fold m1 in Hrun.
  destruct (MemoryOps.searchAddrWithAttribute _ _ _ _); [injection Hrun as <- _; exact Hm1|].
  destruct (hasFlag (flags refOpcode) OpcodeFlag.BRANCH_ADDRESS).
  { destruct (negb _); [|injection Hrun as <- _; exact Hm1].
    destruct (skipReturnAddress _ _ _); [|discriminate].
    cbn [mbind option_bind] in Hrun. injection Hrun as <- _. exact Hm1. }
  destruct (Z.gtb_spec (addr64k + op_length refOpcode) 0xFFFF);
    [injection Hrun as <- _; exact Hm1|].
  destruct (_ && _); [injection Hrun as <- _; exact Hm1|].
  destruct (hasFlag _ MemAttribute.FLOW_ANALYZED); [injection Hrun as <- _; exact Hm1|].
  destruct (hasFlag (flags refOpcode) OpcodeFlag.STOP); [injection Hrun as <- _; exact Hm1|].
  apply (IH _ _ _ _ Hrun); [lia | exact Hm1].
Qed.

Lemma createNodeForAddress_loop_codeHasFirst `{BaseMemory} skip fuel :
  ∀ g queue g',
    createNodeForAddress_loop skip fuel g queue = Some g' →
    codeHasFirst (mem g) → codeHasFirst (mem g').
Proof.
  induction fuel as [|fuel IH]; intros g queue g' Hrun Hg;
    destruct queue as [|addr64k rest]; cbn [createNodeForAddress_loop] in Hrun;
    try discriminate; try (injection Hrun as <-; exact Hg).
  destruct (NodeMap.get (nodes g) addr64k); [apply (IH _ _ _ Hrun Hg)|].
  destruct (hasFlag _ MemAttribute.FLOW_ANALYZED).
  { destruct (hasFlag _ MemAttribute.CODE_FIRST); apply (IH _ _ _ Hrun Hg). }
  destruct (hasFlag _ MemAttribute.ASSIGNED) eqn:Hassigned; cbn [negb] in Hrun;
    [|apply (IH _ _ _ Hrun Hg)].
  destruct (followFlow skip walkFuel (createNodeInMap g addr64k).1 addr64k)
    as [[g1 pushed]|] eqn:Hflow; [|discriminate].
  cbn [mbind option_bind] in Hrun. apply (IH _ _ _ Hrun).
  apply getAttributeAt_flag in Hassigned.
  apply (followFlow_codeHasFirst _ _ _ _ _ _ Hflow); [lia | exact Hg].
Qed.

Lemma createNodes_loop_codeHasFirst `{BaseMemory} skip sorted :
  ∀ g g', createNodes_loop skip g sorted = Some g' →
    codeHasFirst (mem g) → codeHasFirst (mem g').
Proof.
  induction sorted as [|addr64k rest IH]; intros g g' Hrun Hg; cbn [createNodes_loop] in Hrun.
  { injection Hrun as <-. exact Hg. }
  destruct (hasFlag _ MemAttribute.FLOW_ANALYZED).
  { destruct (negb _); apply (IH _ _ Hrun Hg). }
  destruct (createNodeForAddress skip g addr64k) as [g1|] eqn:Hnode; [|discriminate].
  cbn [mbind option_bind] in Hrun. apply (IH _ _ Hrun).
  apply (createNodeForAddress_loop_codeHasFirst _ _ _ _ _ Hnode Hg).
Qed.

Lemma clearBuild_codeHasFirst g : codeHasFirst (mem (clearBuild g)).
Proof.
  intros k Hcode. exfalso. apply getAttributeAt_flag in Hcode. destruct Hcode as [_ Hcode].
  destruct (clearBuild_discovered g) as (Hcons & _).
  cbn in Hcode. unfold hasFlag in Hcode.
  rewrite Z.lnot_involutive, <- Z.land_assoc in Hcode.
  change (Z.land MemAttribute.ASSIGNED MemAttribute.CODE) with 0 in Hcode.
  rewrite Z.land_0_r in Hcode. discriminate.
Qed.

(** The walk down to the first byte of an instruction ends when it starts
    on code. *)
Lemma getAddressForCodeFirst_returns g addr64k :
  codeHasFirst (mem g) →
  hasFlag (MemoryOps.getAttributeAt (mem g) addr64k) MemAttribute.CODE = true →
  ∃ first, getAddressForCodeFirst g addr64k = Some first.
Proof.
  intros Hg Hcode. unfold getAddressForCodeFirst.
  pose proof (getAddressForCodeFirst_loop_spec walkFuel (mem g) addr64k) as Hspec.
  destruct (getAddressForCodeFirst_loop walkFuel (mem g) addr64k) as [first|]; [eauto|].
  exfalso. destruct (Hg addr64k Hcode) as (first & Hle & Hfirst).
  rewrite Hspec in Hfirst; [discriminate|].
  apply getAttributeAt_flag in Hcode, Hfirst. unfold walkFuel. lia.
Qed.

Lemma entriesFrom_bound skip addr64k : (entriesFrom skip addr64k < skipFuel skip)%nat.
Proof.
  unfold entriesFrom, skipFuel. pose proof (length_filter (fun entry : Z * Z => addr64k <= entry.1)
                                             (map_to_list skip)) as Hle.
  rewrite length_map_to_list in Hle. lia.
Qed.

(** Each step of a chain of forward skips leaves an entry of the skip table
    behind. *)
Lemma entriesFrom_step skip addr64k s :
  skip !! addr64k = Some s → 0 < s →
  (entriesFrom skip (addr64k + s) < entriesFrom skip addr64k)%nat.
Proof.
  intros Hskip Hs. unfold entriesFrom.
  rewrite (list_filter_iff (fun entry : Z * Z => addr64k + s <= entry.1)
             (fun entry => addr64k + s <= entry.1 ∧ addr64k <= entry.1));
    [|intros entry; lia].
  rewrite <- list_filter_filter.
  apply (length_filter_lt _ _ (addr64k, s)); [|cbn; lia].
  apply list_elem_of_filter. split; [cbn; lia|]. apply elem_of_map_to_list. exact Hskip.
Qed.

Lemma fillSkips_returns `{BaseMemory} skip fuel node :
  ∀ g addr64k,
    skipsForward skip → (entriesFrom skip addr64k < fuel)%nat →
    ∃ g' addr', fillSkips skip fuel g node addr64k = Some (g', addr').
Proof.
  induction fuel as [|fuel IH]; intros g addr64k Hfwd Hfuel; [lia|].
  cbn [fillSkips]. unfold getSkipForAddress, skipTruthy.
  destruct (skip !! addr64k) as [s|] eqn:Hskip; [|eauto].
  destruct (Z.eqb_spec s 0); [eauto|].
  apply IH; [exact Hfwd|].
  pose proof (Hfwd _ _ Hskip). pose proof (entriesFrom_step skip addr64k s Hskip). lia.
Qed.

Lemma fillNode_loop_returns `{BaseMemory} skip fuel node :
  ∀ g addr64k,
    bytesOnly (memory (mem g)) → skipsForward skip → codeHasFirst (mem g) →
    0 <= addr64k <= 0xFFFF → 0x10000 - addr64k <= Z.of_nat fuel →
    ∃ g' addr', fillNode_loop skip fuel g node addr64k = Some (g', addr').
Proof.
  induction fuel as [|fuel IH]; intros g addr64k Hbytes Hfwd Hcode Hrange Hfuel; [lia|].
  cbn [fillNode_loop].
  destruct (closedTable_decodes (memory (mem g)) prefixDepth Hbytes T_Opcodes addr64k)
    as [opcode Hop]; [vm_compute; reflexivity|].
  fold (getOpcodeAt (memory (mem g)) addr64k) in Hop. rewrite Hop.
  cbn [mbind option_bind].
  pose proof (decoded_length_range _ _ _ Hop) as Hlen.
  assert (Hg1 : ∃ g1,
    (if NumberType.eqb (valueType opcode) NumberType.DATA_LBL
     then adjAddr64k ← (if hasFlag (MemoryOps.getAttributeAt (mem g) (value opcode))
                              MemAttribute.CODE
                        then getAddressForCodeFirst g (value opcode)
                        else Some (value opcode));
          Some (modify node (AsmNode.push_dataReference adjAddr64k) g)
     else Some g) = Some g1 ∧ mem g1 = mem g).
  { destruct (NumberType.eqb _ _); [|eauto].
    destruct (hasFlag _ MemAttribute.CODE) eqn:Hflag; [|eexists; split; reflexivity].
    destruct (getAddressForCodeFirst_returns g (value opcode) Hcode Hflag) as [first ->].
    eexists. split; reflexivity. }
  destruct Hg1 as (g1 & -> & Hmem1). cbn [mbind option_bind].
  set (g2 := modify node (AsmNode.push_instruction (I_Opcode opcode)) g1).
  assert (Hmem2 : mem g2 = mem g) by exact Hmem1. clearbody g2.
  destruct (hasFlag (flags opcode) OpcodeFlag.BRANCH_ADDRESS).
  - assert (Hg3 : ∃ g3 addr3,
      (if negb (hasFlag (flags opcode) OpcodeFlag.STOP)
       then '(g, addr64k0) ← fillSkips skip (skipFuel skip) g2 node
                               (addr64k + op_length opcode);
            if addr64k0 <? 0x10000
            then let '(g0, followingNode) :=
                   getNodeForFill g addr64k (Z.land addr64k0 0xFFFF) in
                 Some (linkBranch node followingNode g0, addr64k0)
            else Some (g, addr64k0)
       else Some (g2, addr64k + op_length opcode)) = Some (g3, addr3)).
    { destruct (negb _); [|eauto].
      destruct (fillSkips_returns skip (skipFuel skip) node g2 (addr64k + op_length opcode)
                  Hfwd (entriesFrom_bound _ _)) as (g4 & addr4 & ->).
      cbn [mbind option_bind]. destruct (addr4 <? 0x10000); [|eauto].
      rewrite getNodeForFill_pair. eauto. }
    destruct Hg3 as (g3 & addr3 & ->). cbn [mbind option_bind].
    rewrite getNodeForFill_pair. eauto.
  - set (g3 := if hasFlag (flags opcode) OpcodeFlag.RET then _ else g2).
    assert (Hmem3 : mem g3 = mem g).
    { subst g3. destruct (hasFlag (flags opcode) OpcodeFlag.RET); exact Hmem2. }
    clearbody g3.
    destruct (hasFlag (flags opcode) OpcodeFlag.STOP); [eauto|].
    destruct (Z.gtb_spec (addr64k + op_length opcode) 0xFFFF); [eauto|].
    destruct (NodeMap.get (nodes g3) (addr64k + op_length opcode)); [eauto|].
    destruct (MemoryOps.searchAddrWithAttribute _ _ _ _); [eauto|].
    apply IH; rewrite ?Hmem3; try assumption; lia.
Qed.

Lemma fillNodes_loop_returns `{BaseMemory} skip entries :
  ∀ g, bytesOnly (memory (mem g)) → skipsForward skip → codeHasFirst (mem g) → linked g →
       (∀ a r, In (a, r) entries → In (a, r) (nodes g)) →
       ∃ g', fillNodes_loop skip g entries = Some g'.
Proof.
  induction entries as [|[a node] rest IH]; intros g Hbytes Hfwd Hcode Hg Hsub;
    cbn [fillNodes_loop]; [eauto|].
  pose proof Hg as ([_ Htable] & _).
  destruct (Htable a node (Hsub a node (or_introl eq_refl))) as (Hfirst & n & Hn & Hstart).
  apply getAttributeAt_flag in Hfirst. destruct Hfirst as [Hrange _].
  destruct (fillNode_loop_returns skip walkFuel node g (AsmNode.start n) Hbytes Hfwd Hcode)
    as (g1 & addr1 & Hloop); [lia | unfold walkFuel; lia|].
  assert (Hfill : fillNode skip g node
                  = Some (modify node (AsmNode.set_length (addr1 - AsmNode.start n)) g1)).
  { unfold fillNode. rewrite Hn. cbn [mbind option_bind]. rewrite Hloop. reflexivity. }
  rewrite Hfill. cbn [mbind option_bind].
  destruct (fillNode_facts _ _ _ _ Hfill) as ((Hmem & Hnodes & _) & _).
  apply IH.
  - rewrite Hmem. exact Hbytes.
  - exact Hfwd.
  - rewrite Hmem. exact Hcode.
  - apply (fillNode_linked _ _ _ _ Hfill Hg).
  - intros a' r' Hin. rewrite Hnodes. apply Hsub. right. exact Hin.
Qed.

(** X24: the two passes end.  Over a memory that answers with bytes, with
    skips that are not negative and whose chains end, the creation of the
    nodes and their filling return for every list of start addresses and
    every label list: no exception is thrown, every walk along the
    instructions stops at the end of the 64K space at the latest, and the
    search for the first byte of a referenced instruction finds one. *)
Theorem twoPasses_returns `{BaseMemory} (skip : gmap Z Z) (g0 : FlowGraph)
    (addresses : list Z) (labels : list (Z * string)) :
  bytesOnly (memory (mem g0)) → skipsEnd skip → skipsForward skip →
  ∃ g, twoPasses skip (clearBuild g0) addresses labels = Some g.
Proof.
  intros Hbytes Hskips Hfwd. unfold twoPasses, createNodes, fillNodes.
  destruct (createNodes_loop_returns skip (sortAddresses addresses) (clearBuild g0)
              Hbytes Hskips (clearBuild_discovered g0)) as [g1 Hcreate].
  rewrite Hcreate. cbn [mbind option_bind].
  pose proof (createNodes_loop_sameImage _ _ _ _ Hcreate) as [Hbytes1 _].
  pose proof (createNodes_loop_codeHasFirst _ _ _ _ Hcreate (clearBuild_codeHasFirst g0))
    as Hcode1.
  pose proof (createNodesForLabels_discovered labels g1
                (createNodes_loop_discovered _ _ _ _ Hcreate (clearBuild_discovered g0)))
    as Hdisc.
  apply fillNodes_loop_returns.
  - rewrite createNodesForLabels_mem, Hbytes1. exact Hbytes.
  - exact Hfwd.
  - rewrite createNodesForLabels_mem. exact Hcode1.
  - apply discovered_linked, Hdisc.
  - tauto.
Qed.

Lemma twoPasses_returns_witness :
  ∃ g, @twoPasses BaseMemory_64k ∅ (clearBuild (graph scenarioA)) [0x8000] scenarioLabels
       = Some g.
Proof.
  apply (@twoPasses_returns BaseMemory_64k ∅ (graph scenarioA) [0x8000] scenarioLabels).
  - intros k. apply (setMemory_from_bytes [x3e; x05; xc9]).
    apply (setMemory_from_bytes [xc9]). apply (setMemory_from_bytes [xcd; x10; x80]).
    intros k'. cbn. lia.
  - intros addr64k. exists addr64k. reflexivity.
  - intros addr64k skip Hskip. rewrite lookup_empty in Hskip. discriminate.
Defined.

(** ** A build is a fixed point of the next build *)

Lemma partitionBlocks_step_shape st bn bb ad node :
  (∃ bn' bb' ad' r lo hi, ∀ f,
      partitionBlocks_step st (mkPartition bn bb ad f) node
      = Some (mkPartition bn' bb' ad' (Array_fill 0x10000 f (Cur r) lo hi)))
  ∨ (∀ f, partitionBlocks_step st (mkPartition bn bb ad f) node = None).
Proof.
  unfold partitionBlocks_step. destruct (st !! node) as [n|]; [|right; reflexivity].
  cbn [mbind option_bind addr blockNode blockBranches filled].
  destruct (negb (bool_decide (ad = Some (AsmNode.start n)))
            || negb (bool_decide (AsmNode.callers n = []))
            || negb (bool_decide (node ∈ bb)));
    cbn [mbind option_bind addr blockNode blockBranches filled].
  - left. eexists _, _, _, _, _, _. intros f. reflexivity.
  - destruct bn as [blockNode|]; [|right; reflexivity].
    destruct ad as [addr|]; [|right; reflexivity].
    left. eexists _, _, _, _, _, _. intros f. reflexivity.
Qed.

(** What [partitionBlocks] writes does not depend on what the array held;
    what it does not write, it keeps. *)
Lemma partitionBlocks_loop_shape st sorted :
  ∀ bn bb ad,
    (∃ w, currentOnly w
          ∧ ∀ f, ∃ p, partitionBlocks_loop st (mkPartition bn bb ad f) sorted = Some p
                      ∧ ∀ a, filled p a = overlay w f a)
    ∨ (∀ f, partitionBlocks_loop st (mkPartition bn bb ad f) sorted = None).
Proof.
  induction sorted as [|node rest IH]; intros bn bb ad; cbn [partitionBlocks_loop].
  - left. exists (fun _ => None). split; [intros a v; discriminate|].
    intros f. eexists. split; reflexivity.
  - destruct (partitionBlocks_step_shape st bn bb ad node)
      as [(bn' & bb' & ad' & r & lo & hi & Hstep)|Hstep].
    2:{ right. intros f. rewrite Hstep. reflexivity. }
    destruct (IH bn' bb' ad') as [(w & Hw & Hloop)|Hloop].
    2:{ right. intros f. rewrite Hstep. cbn [mbind option_bind]. apply Hloop. }
    left.
    exists (fun a => match w a with
                     | Some v => Some v
                     | None => Array_fill 0x10000 (fun _ => None) (Cur r) lo hi a
                     end).
    split.
    + intros a v. destruct (w a) as [v'|] eqn:Hwa.
      * intros [= <-]. apply (Hw a v' Hwa).
      * unfold Array_fill. destruct (_ && _); [|discriminate]. intros [= <-]. eauto.
    + intros f. rewrite Hstep. cbn [mbind option_bind].
      destruct (Hloop (Array_fill 0x10000 f (Cur r) lo hi)) as (p & Hp & Hfilled).
      exists p. split; [exact Hp|]. intros a. rewrite Hfilled. unfold overlay.
      destruct (w a); [reflexivity|]. unfold Array_fill. destruct (_ && _); reflexivity.
Qed.

Lemma retire_not_current st b r : retire st b ≠ Some (Cur r).
Proof.
  destruct b as [[r'|n]|]; cbn [retire]; [|discriminate..].
  destruct (st !! r'); discriminate.
Qed.

Lemma retire_stale st b : (∀ r, b ≠ Some (Cur r)) → retire st b = b.
Proof. destruct b as [[r|n]|]; intros Hb; [exfalso; apply (Hb r) |..]; reflexivity. Qed.

(** Running [partitionBlocks] again over its own result, with the entries
    of the build before turned stale, gives the same array. *)
Lemma partitionBlocks_again g st blocks blocks1 :
  (∀ a r, blocks a ≠ Some (Cur r)) →
  partitionBlocks g blocks = Some blocks1 →
  partitionBlocks g (fun a => retire st (blocks1 a)) = Some blocks1.
Proof.
  intros Hstale. unfold partitionBlocks.
  destruct (sortedNodes g) as [sorted|]; [|discriminate]. cbn [mbind option_bind].
  destruct (partitionBlocks_loop_shape (store g) (map snd sorted) None [] None)
    as [(w & Hw & Hloop)|Hloop].
  2:{ rewrite Hloop. discriminate. }
  destruct (Hloop blocks) as (p & Hp & Hfilled). rewrite Hp. cbn [mbind option_bind].
  intros [= <-].
  destruct (Hloop (fun a => retire st (filled p a))) as (p2 & Hp2 & Hfilled2).
  rewrite Hp2. cbn [mbind option_bind]. f_equal.
  apply functional_extensionality. intros a.
  rewrite Hfilled2. unfold overlay at 1. rewrite Hfilled. unfold overlay.
  destruct (w a) as [v|]; [reflexivity|]. apply retire_stale. apply Hstale.
Qed.

Lemma resetAttributeFlag_of_sameImage m m' :
  sameImage m m' →
  MemoryOps.resetAttributeFlag m' (Z.lnot MemAttribute.ASSIGNED)
  = MemoryOps.resetAttributeFlag m (Z.lnot MemAttribute.ASSIGNED).
Proof.
  intros [Hbytes Hflags]. unfold MemoryOps.resetAttributeFlag.
  rewrite Hbytes, Z.lnot_involutive. f_equal.
  apply functional_extensionality. intros k. apply Hflags.
Qed.

Lemma clearBuild_of_sameImage g g' :
  sameImage (mem g) (mem g') → clearBuild g' = clearBuild g.
Proof.
  intros Hsame. unfold clearBuild, set_mem, set_comments, set_otherLabels, set_store,
    set_nodes, Comments.clear.
  cbn [mem nodes store otherLabels comments].
  rewrite (resetAttributeFlag_of_sameImage _ _ Hsame). reflexivity.
Qed.

(** X25: a build is a fixed point of the next build.  When
    [getFlowGraph(addresses, labels)] has returned, calling it again with
    the same arguments returns as well and leaves the disassembler in the
    same state: the same node table with the same node contents, labels and
    comments, the same memory attributes and the same block array. *)
Theorem getFlowGraph_fixed_point `{BaseMemory} (this this' : SmartDisassembler)
    (addresses : list Z) (labels : list (Z * string)) :
  Disassembler.getFlowGraph this addresses labels = Some this' →
  Disassembler.getFlowGraph this' addresses labels = Some this'.
Proof.
  destruct this as [g0 b0 skip fgl].
  unfold Disassembler.getFlowGraph, getFlowGraph.
  cbn [graph blocks skipAddrs64k funcGetLabel].
  destruct (buildNodes skip (clearBuild g0) addresses labels) as [gm|] eqn:Hnodes;
    [|discriminate].
  cbn [mbind option_bind].
  destruct (buildLabels fgl gm _) as [[g1 b1]|] eqn:Hlabels; [|discriminate].
  cbn [mbind option_bind]. intros [= <-].
  cbn [graph blocks skipAddrs64k funcGetLabel].
  destruct (buildLabels_mem _ _ _ _ _ Hlabels) as (Hmem & _ & Hpart).
  assert (Hsame : sameImage (mem g0) (mem g1)).
  { eapply sameImage_trans; [apply resetAttributeFlag_sameImage|].
    rewrite Hmem. apply (buildNodes_sameImage _ _ _ _ _ Hnodes). }
  rewrite (clearBuild_of_sameImage _ _ Hsame), Hnodes. cbn [mbind option_bind].
  assert (Hagain : partitionBlocks gm (fun a => retire (store g1) (b1 a)) = Some b1).
  { eapply partitionBlocks_again; [|exact Hpart].
    intros a r. apply retire_not_current. }
  unfold buildLabels in *. rewrite Hagain. rewrite Hpart in Hlabels.
  cbn [mbind option_bind] in *. rewrite Hlabels. reflexivity.
Qed.

Lemma getFlowGraph_fixed_point_witness : run builtA [0x8000] = Some builtA.
Proof.
  apply (@getFlowGraph_fixed_point BaseMemory_64k scenarioA builtA [0x8000] []).
  unfold builtA, run.
  assert (Hruns : (fun _ => tt) <$> @Disassembler.getFlowGraph BaseMemory_64k scenarioA
                                      [0x8000] [] = Some tt)
    by (vm_compute; reflexivity).
  destruct (@Disassembler.getFlowGraph BaseMemory_64k scenarioA [0x8000] []);
    [reflexivity | discriminate Hruns].
Defined.

(** ** The build, invoked twice *)



